(** * DDoS detector v2 (Nemea-Detectors): a shallow embedding of the detection core

    The development follows the C++ sources of [ddos_detector_v2]:
    - [binCountSketchValue.tpp]   the reversible bin-count sketch value,
    - [ddosDetectorValue.cpp]     the per-cell destination aggregate,
    - [adaptiveCusum.cpp]         the adaptive CUSUM tracker,
    - [common.h]                  [getQuantileSortedVec],
    - [ddosDetector.cpp]          the detection engine and the flow ingress.

    Conventions.
    - [uint8_t], [uint32_t], [uint64_t] values are integers in [Z]; every
      operation that can wrap is written with its [mod 2^w].
    - [double] and [float] are IEEE-754 binary64 and binary32 values of
      [spec_float] (the Standard Library's executable specification of
      floating-point arithmetic, round to nearest even, one NaN).
    - [std::unordered_map] and [std::map] are [gmap Z Z]; [std::set] is
      [gset Z]; [std::vector] is [list]; the two queues are lists.
    - A C++ loop [for (i = 0; i < n; ++i)] is a [foldl] over [seq 0 n];
      a [while] loop takes a fuel argument and returns [None] when the fuel
      is used up. *)

From Stdlib Require Import ZArith Lia Bool List Ascii.
From Stdlib Require Import Floats.SpecFloat.
From stdpp Require Import base option list gmap fin_maps.

Open Scope Z_scope.

(* ===================================================================== *)
(** * Machine integers *)
(* ===================================================================== *)

Definition wrap8  (z : Z) : Z := z mod 2 ^ 8.
Definition wrap16 (z : Z) : Z := z mod 2 ^ 16.
Definition wrap32 (z : Z) : Z := z mod 2 ^ 32.
Definition wrap64 (z : Z) : Z := z mod 2 ^ 64.

Definition is_u16 (z : Z) : Prop := 0 <= z < 2 ^ 16.
Definition is_u32 (z : Z) : Prop := 0 <= z < 2 ^ 32.
Definition is_u64 (z : Z) : Prop := 0 <= z < 2 ^ 64.

#[global] Instance is_u32_dec (z : Z) : Decision (is_u32 z) :=
  ltac:(unfold is_u32; exact _).

#[global] Instance is_u64_dec (z : Z) : Decision (is_u64 z) :=
  ltac:(unfold is_u64; exact _).

(** [ntohl] on a little-endian host: the four bytes are swapped. *)
Definition ntohl (x : Z) : Z :=
  Z.lor (Z.lor (Z.shiftl (Z.land x 255) 24)
               (Z.shiftl (Z.land (Z.shiftr x 8) 255) 16))
        (Z.lor (Z.shiftl (Z.land (Z.shiftr x 16) 255) 8)
               (Z.land (Z.shiftr x 24) 255)).

(** The mask [0x00FFFFFF] that keeps the /24 prefix of an address held in
    network byte order. *)
Definition mask24 : Z := 16777215.

(* ===================================================================== *)
(** * Floating point: [double] and [float] *)
(* ===================================================================== *)

Declare Scope double_scope.
Delimit Scope double_scope with D.
Declare Scope float32_scope.
Delimit Scope float32_scope with F.

(** truncation toward zero of a finite value, as [static_cast<uint32_t>]
    does; the cast of a NaN, an infinity or a value out of range is
    undefined in C++ and is given the value 0 (or the wrapped value) here. *)
Definition SFtrunc (x : spec_float) : Z :=
  match x with
  | S754_finite s m e =>
      let a := if 0 <=? e then Z.shiftl (Zpos m) e else Z.shiftr (Zpos m) (- e) in
      if s then - a else a
  | _ => 0
  end.

Module Double.
Definition prec : Z := 53.
Definition emax : Z := 1024.
Abbreviation t := spec_float.

Definition zero : t := S754_zero false.
Definition of_Z (z : Z) : t := binary_normalize prec emax z 0 false.
Definition one : t := of_Z 1.

Definition add : t → t → t := SFadd prec emax.
Definition sub : t → t → t := SFsub prec emax.
Definition mul : t → t → t := SFmul prec emax.
Definition div : t → t → t := SFdiv prec emax.
Definition sqrt : t → t := SFsqrt prec emax.
Definition ltb : t → t → bool := SFltb.
Definition leb : t → t → bool := SFleb.

(** [std::max(a, b)] is [(a < b) ? b : a]. *)
Definition max (a b : t) : t := if ltb a b then b else a.

(** conversion of a [float] (or of any finite value) to [double] *)
Definition of_float (x : spec_float) : t :=
    match x with
    | S754_finite s m e => binary_round prec emax s m e
    | _ => x
    end.
End Double.

Arguments Double.add : simpl never.
Arguments Double.sub : simpl never.
Arguments Double.mul : simpl never.
Arguments Double.div : simpl never.
Arguments Double.sqrt : simpl never.
Arguments Double.ltb : simpl never.
Arguments Double.leb : simpl never.
Arguments Double.max : simpl never.
Arguments Double.of_Z : simpl never.
Arguments Double.of_float : simpl never.

Infix "+" := Double.add : double_scope.
Infix "-" := Double.sub : double_scope.
Infix "*" := Double.mul : double_scope.
Infix "/" := Double.div : double_scope.
Infix "<?" := Double.ltb : double_scope.
Infix "<=?" := Double.leb : double_scope.

Module Float32.
Definition prec : Z := 24.
Definition emax : Z := 128.
Abbreviation t := spec_float.

Definition zero : t := S754_zero false.
Definition of_Z (z : Z) : t := binary_normalize prec emax z 0 false.
Definition one : t := of_Z 1.

Definition add : t → t → t := SFadd prec emax.
Definition sub : t → t → t := SFsub prec emax.
Definition mul : t → t → t := SFmul prec emax.
Definition div : t → t → t := SFdiv prec emax.
Definition ltb : t → t → bool := SFltb.

(** conversion of a [double] to [float]: rounding to 24 bits *)
Definition of_double (x : spec_float) : t :=
    match x with
    | S754_finite s m e => binary_round prec emax s m e
    | _ => x
    end.
End Float32.

Arguments Float32.add : simpl never.
Arguments Float32.sub : simpl never.
Arguments Float32.mul : simpl never.
Arguments Float32.div : simpl never.
Arguments Float32.ltb : simpl never.
Arguments Float32.of_Z : simpl never.
Arguments Float32.of_double : simpl never.

Infix "+" := Float32.add : float32_scope.
Infix "-" := Float32.sub : float32_scope.
Infix "*" := Float32.mul : float32_scope.
Infix "/" := Float32.div : float32_scope.
Infix "<?" := Float32.ltb : float32_scope.

(* ===================================================================== *)
(** * [binCountSketchValue<noBits>]  (binCountSketchValue.tpp) *)
(* ===================================================================== *)

Module binCountSketchValue.

Record t : Type := mk {
    totalCount : Z;          (* uint32_t totalCount *)
    binCount : list Z        (* uint32_t binCount[noBits] *)
  }.

Section noBits.
Variable noBits : nat.

(** [binCountSketchValue(u_int32_t initialValue = 0)] *)
Definition init (initialValue : Z) : t :=
      mk initialValue (replicate noBits initialValue).

Definition getTotalCount (b : t) : Z := totalCount b.

(** [reverseKey]: for each [i], [if (binCount[i] > totalCount / 2)
    reversed |= (1 << i)]. *)
Definition reverseKey (b : t) : Z :=
      foldl (λ reversed i,
               if (binCount b !!! i) >? totalCount b / 2
               then Z.lor reversed (Z.shiftl 1 (Z.of_nat i))
               else reversed)
            0 (seq 0 noBits).

(** [update(const Key& key, uint16_t value)]: the parameter is a
    [uint16_t], so the argument of a call is narrowed to 16 bits; it is
    widened again for [totalCount += value] and [binCount[i] += value]. *)
Definition update (key : Z) (value : Z) (b : t) : t :=
      let value := wrap16 value in
      mk (wrap32 (totalCount b + value))
         (foldl (λ bc i,
                   if Z.testbit key (Z.of_nat i)
                   then <[i := wrap32 (bc !!! i + value)]> bc
                   else bc)
                (binCount b) (seq 0 noBits)).

(** [operator-=] *)
Definition sub (a other : t) : t :=
      mk (if totalCount a <? totalCount other then 0
          else wrap32 (totalCount a - totalCount other))
         (foldl (λ bc i,
                   <[i := if bc !!! i <? binCount other !!! i then 0
                          else wrap32 (bc !!! i - binCount other !!! i)]> bc)
                (binCount a) (seq 0 noBits)).

(** [operator+=] *)
Definition add (a other : t) : t :=
      mk (wrap32 (totalCount a + totalCount other))
         (foldl (λ bc i, <[i := wrap32 (bc !!! i + binCount other !!! i)]> bc)
                (binCount a) (seq 0 noBits)).

(** the representation invariant of the C++ object: an array of
    [noBits] 32-bit counters and a 32-bit total *)
Definition wf (b : t) : Prop :=
      is_u32 (totalCount b) ∧ length (binCount b) = noBits ∧
      Forall is_u32 (binCount b).
End noBits.
End binCountSketchValue.

Arguments binCountSketchValue.reverseKey : simpl never.
Arguments binCountSketchValue.update : simpl never.
Arguments binCountSketchValue.sub : simpl never.
Arguments binCountSketchValue.add : simpl never.

(* ===================================================================== *)
(** * [netflowRecord_t] and [ddosDetectorValue]  (common.h, ddosDetectorValue.cpp) *)
(* ===================================================================== *)

Record netflowRecord_t : Type := mkRecord {
  srcAddr : Z;   (* uint32_t *)
  dstAddr : Z;   (* uint32_t *)
  packets : Z;   (* uint64_t *)
  bytes : Z      (* uint64_t *)
}.

Module ddosDetectorValue.
Module BCV := binCountSketchValue.

Record t : Type := mk {
    sentBytes_ : Z;                   (* uint64_t *)
    sentFlows_ : Z;                   (* uint32_t *)
    packetCount_ : Z;                 (* uint32_t *)
    byteCount_ : Z;                   (* uint64_t *)
    flowCount_ : Z;                   (* uint32_t *)
    reversibleKey_ : BCV.t;           (* binCountSketchValue<32> *)
    communicatedWith_ : gmap Z Z;     (* unordered_map<uint32_t, uint32_t> *)
    ipSubnets_ : gmap Z Z             (* map<uint8_t, uint32_t> *)
  }.

Definition init : t := mk 0 0 0 0 0 (BCV.init 32 0) ∅ ∅.

(** [m[key] += value] on a map of 32-bit counters: a missing key is
    created with value 0 first. *)
Definition map_add (key value : Z) (m : gmap Z Z) : gmap Z Z :=
    <[key := wrap32 (default 0 (m !! key) + value)]> m.

(** the body of the two loops of [operator-=]: [find], then subtract or
    [erase]. *)
Definition map_sub1 (m : gmap Z Z) (kv : Z * Z) : gmap Z Z :=
    match m !! kv.1 with
    | Some x => if x >? kv.2 then <[kv.1 := wrap32 (x - kv.2)]> m
                else delete kv.1 m
    | None => m
    end.

Definition map_sub (m other : gmap Z Z) : gmap Z Z :=
    foldl map_sub1 m (map_to_list other).

Definition map_add_all (m other : gmap Z Z) : gmap Z Z :=
    foldl (λ acc kv, map_add kv.1 kv.2 acc) m (map_to_list other).

(** [update(std::bitset<32> key, netflowRecord_t value)] *)
Definition update (key : Z) (value : netflowRecord_t) (a : t) : t :=
    let ipSubnet := wrap8 (Z.shiftr (dstAddr value) 24) in
    mk (sentBytes_ a)
       (sentFlows_ a)
       (wrap32 (packetCount_ a + packets value))
       (wrap64 (byteCount_ a + bytes value))
       (wrap32 (flowCount_ a + 1))
       (BCV.update 32 (dstAddr value) 1 (reversibleKey_ a))
       (communicatedWith_ a)
       (map_add ipSubnet 1 (ipSubnets_ a)).

(** [operator-=] *)
Definition sub (a other : t) : t :=
    mk (if sentBytes_ other >? sentBytes_ a then 0
        else wrap64 (sentBytes_ a - sentBytes_ other))
       (if sentFlows_ other >? sentFlows_ a then 0
        else wrap32 (sentFlows_ a - sentFlows_ other))
       (if packetCount_ other >? packetCount_ a then 0
        else wrap32 (packetCount_ a - packetCount_ other))
       (if byteCount_ other >? byteCount_ a then 0
        else wrap64 (byteCount_ a - byteCount_ other))
       (if flowCount_ other >? flowCount_ a then 0
        else wrap32 (flowCount_ a - flowCount_ other))
       (BCV.sub 32 (reversibleKey_ a) (reversibleKey_ other))
       (map_sub (communicatedWith_ a) (communicatedWith_ other))
       (map_sub (ipSubnets_ a) (ipSubnets_ other)).

(** [operator+=] *)
Definition add (a other : t) : t :=
    mk (wrap64 (sentBytes_ a + sentBytes_ other))
       (wrap32 (sentFlows_ a + sentFlows_ other))
       (wrap32 (packetCount_ a + packetCount_ other))
       (wrap64 (byteCount_ a + byteCount_ other))
       (wrap32 (flowCount_ a + flowCount_ other))
       (BCV.add 32 (reversibleKey_ a) (reversibleKey_ other))
       (map_add_all (communicatedWith_ a) (communicatedWith_ other))
       (map_add_all (ipSubnets_ a) (ipSubnets_ other)).

Definition updateSentBytes (sentBytes : Z) (a : t) : t :=
    mk (wrap64 (sentBytes_ a + sentBytes)) (wrap32 (sentFlows_ a + 1))
       (packetCount_ a) (byteCount_ a) (flowCount_ a) (reversibleKey_ a)
       (communicatedWith_ a) (ipSubnets_ a).

Definition updateFlowCounter (index : Z) (a : t) : t :=
    mk (sentBytes_ a) (sentFlows_ a) (packetCount_ a) (byteCount_ a)
       (flowCount_ a) (reversibleKey_ a)
       (map_add index 1 (communicatedWith_ a)) (ipSubnets_ a).

Arguments map_sub : simpl never.
Arguments map_add_all : simpl never.
Arguments map_add : simpl never.

Definition getSentBytes (a : t) : Z := sentBytes_ a.
Definition getSentFlows (a : t) : Z := sentFlows_ a.
Definition getPacketCount (a : t) : Z := packetCount_ a.
Definition getByteCount (a : t) : Z := byteCount_ a.
Definition getFlowCount (a : t) : Z := flowCount_ a.
Definition reverseKey (a : t) : Z := BCV.reverseKey 32 (reversibleKey_ a).
Definition getCommunicatedWith (a : t) : gmap Z Z := communicatedWith_ a.
Definition getipSubnets (a : t) : gmap Z Z := ipSubnets_ a.

(** the representation invariant: every field within its C++ type *)
Definition wf (a : t) : Prop :=
    is_u64 (sentBytes_ a) ∧ is_u32 (sentFlows_ a) ∧ is_u32 (packetCount_ a) ∧
    is_u64 (byteCount_ a) ∧ is_u32 (flowCount_ a) ∧
    BCV.wf 32 (reversibleKey_ a) ∧
    map_Forall (λ _ x, is_u32 x) (communicatedWith_ a) ∧
    map_Forall (λ _ x, is_u32 x) (ipSubnets_ a).
End ddosDetectorValue.

(* ===================================================================== *)
(** * [AdaptiveCUSUM]  (adaptiveCusum.cpp) *)
(* ===================================================================== *)

Module AdaptiveCUSUM.

Record t : Type := mk {
  c : Double.t;              (* model parameter *)
  alpha : Double.t;          (* smoothing factor of the EWMA *)
  m : Double.t;              (* long-term average *)
  v : Double.t;              (* variance *)
  SH : Double.t;             (* statistic detecting a positive anomaly *)
  SL : Double.t;             (* statistic detecting a negative anomaly *)
  first : bool;
  span_ : Z;                 (* uint32_t *)
  thresholdHigh : Double.t;
  thresholdLow : Double.t;
  maxSH : Double.t;
  maxSL : Double.t;
  windowID : Z;              (* uint32_t *)
  lastAlert : Z              (* timePoint, in ticks of the system clock *)
}.

(** The constructor.  [m] and [v] are left uninitialised by the C++
    constructor and are first written by [process]; they are given the
    value 0 here.  [lastAlert] is value-initialised to the epoch. *)
Definition new (c alpha : Double.t) (span : Z) : t :=
  mk c alpha Double.zero Double.zero Double.zero Double.zero true span
     Double.zero Double.zero Double.zero Double.zero 0 0.

Definition set_m (x : Double.t) (a : t) : t :=
  mk (c a) (alpha a) x (v a) (SH a) (SL a) (first a) (span_ a)
     (thresholdHigh a) (thresholdLow a) (maxSH a) (maxSL a) (windowID a) (lastAlert a).
Definition set_v (x : Double.t) (a : t) : t :=
  mk (c a) (alpha a) (m a) x (SH a) (SL a) (first a) (span_ a)
     (thresholdHigh a) (thresholdLow a) (maxSH a) (maxSL a) (windowID a) (lastAlert a).
Definition set_SH (x : Double.t) (a : t) : t :=
  mk (c a) (alpha a) (m a) (v a) x (SL a) (first a) (span_ a)
     (thresholdHigh a) (thresholdLow a) (maxSH a) (maxSL a) (windowID a) (lastAlert a).
Definition set_SL (x : Double.t) (a : t) : t :=
  mk (c a) (alpha a) (m a) (v a) (SH a) x (first a) (span_ a)
     (thresholdHigh a) (thresholdLow a) (maxSH a) (maxSL a) (windowID a) (lastAlert a).
Definition set_first (x : bool) (a : t) : t :=
  mk (c a) (alpha a) (m a) (v a) (SH a) (SL a) x (span_ a)
     (thresholdHigh a) (thresholdLow a) (maxSH a) (maxSL a) (windowID a) (lastAlert a).
Definition set_maxSH (x : Double.t) (a : t) : t :=
  mk (c a) (alpha a) (m a) (v a) (SH a) (SL a) (first a) (span_ a)
     (thresholdHigh a) (thresholdLow a) x (maxSL a) (windowID a) (lastAlert a).
Definition set_maxSL (x : Double.t) (a : t) : t :=
  mk (c a) (alpha a) (m a) (v a) (SH a) (SL a) (first a) (span_ a)
     (thresholdHigh a) (thresholdLow a) (maxSH a) x (windowID a) (lastAlert a).
Definition set_windowID (x : Z) (a : t) : t :=
  mk (c a) (alpha a) (m a) (v a) (SH a) (SL a) (first a) (span_ a)
     (thresholdHigh a) (thresholdLow a) (maxSH a) (maxSL a) x (lastAlert a).

Definition getMaxSH (a : t) : Double.t := maxSH a.
Definition getMaxSL (a : t) : Double.t := maxSL a.
Definition getSH (a : t) : Double.t := SH a.
Definition getSL (a : t) : Double.t := SL a.
Definition getMean (a : t) : Double.t := m a.
Definition getVariance (a : t) : Double.t := v a.
Definition getThresholdHigh (a : t) : Double.t := thresholdHigh a.
Definition getThresholdLow (a : t) : Double.t := thresholdLow a.
Definition getLastAlert (a : t) : Z := lastAlert a.
Definition getWindowID (a : t) : Z := windowID a.

Definition setThresholdHigh (threshold : Double.t) (a : t) : t :=
  mk (c a) (alpha a) (m a) (v a) (SH a) (SL a) (first a) (span_ a)
     threshold (thresholdLow a) (maxSH a) (maxSL a) (windowID a) (lastAlert a).
Definition setThresholdLow (threshold : Double.t) (a : t) : t :=
  mk (c a) (alpha a) (m a) (v a) (SH a) (SL a) (first a) (span_ a)
     (thresholdHigh a) threshold (maxSH a) (maxSL a) (windowID a) (lastAlert a).
Definition setLastAlert (alertTime : Z) (a : t) : t :=
  mk (c a) (alpha a) (m a) (v a) (SH a) (SL a) (first a) (span_ a)
     (thresholdHigh a) (thresholdLow a) (maxSH a) (maxSL a) (windowID a) alertTime.

Definition isPositiveAnomaly (multiplier : Double.t) (a : t) : bool :=
  (thresholdHigh a * multiplier <? SH a)%D.

Definition isNegativeAnomaly (multiplier : Double.t) (a : t) : bool :=
  (thresholdLow a * multiplier <? SL a)%D.

(** [process(double currentValue, bool learning)], statement by statement *)
Definition process (currentValue : Double.t) (learning : bool) (a : t) : t :=
  if first a then
    set_first false (set_v Double.zero (set_m currentValue a))
  else
    let diff := (currentValue - m a)%D in
    let incr := (alpha a * diff)%D in
    let a := set_m (m a + incr)%D a in
    let a := set_v ((Double.one - alpha a) * v a + alpha a * diff * diff)%D a in
    let a :=
      if negb learning || (span_ a <=? windowID a) then
        let a := set_SH (Double.max Double.zero
                           (SH a + (currentValue - m a) - c a * Double.sqrt (v a))%D) a in
        set_SL (Double.max Double.zero
                  (SL a - (currentValue - m a) - c a * Double.sqrt (v a))%D) a
      else a in
    let a := set_maxSH (Double.max (SH a) (maxSH a)) a in
    let a := set_maxSL (Double.max (SL a) (maxSL a)) a in
    set_windowID (wrap32 (windowID a + 1)) a.

(** a sequence of [process] calls, oldest first *)
Definition run (a : t) (calls : list (Double.t * bool)) : t :=
  foldl (λ a call, process call.1 call.2 a) a calls.

End AdaptiveCUSUM.

(* ===================================================================== *)
(** * [getQuantileSortedVec<float>]  (common.h) *)
(* ===================================================================== *)

(** [sortedVec.back()]; calling it on an empty vector is undefined in C++
    and gives 0 here (the callers never pass an empty vector). *)
Definition vec_back (l : list Float32.t) : Float32.t := List.last l Float32.zero.

Definition getQuantileSortedVec (sortedVec : list Float32.t) (quantile : Float32.t)
  : Float32.t :=
  let size := Z.of_nat (length sortedVec) in
  let index := (Float32.of_Z (wrap64 (size - 1)) * quantile)%F in
  let lowerIndex := wrap32 (SFtrunc index) in
  let upperIndex := wrap32 (lowerIndex + 1) in
  let interpolation := (index - Float32.of_Z lowerIndex)%F in
  if size <=? upperIndex then vec_back sortedVec
  else (nth (Z.to_nat lowerIndex) sortedVec Float32.zero * (Float32.one - interpolation)
        + nth (Z.to_nat upperIndex) sortedVec Float32.zero * interpolation)%F.

(** [std::sort] on a vector of floats (ascending): insertion sort. *)
Fixpoint insert_float (x : Float32.t) (l : list Float32.t) : list Float32.t :=
  match l with
  | [] => [x]
  | y :: l' => if (y <? x)%F then y :: insert_float x l' else x :: l
  end.

Definition sort_floats (l : list Float32.t) : list Float32.t :=
  foldr insert_float [] l.

(* ===================================================================== *)
(** * [CountMinSketch<Key, Value>] *)
(* ===================================================================== *)

(** The interface a cell value offers to the sketch template
    [CountMinSketch<Key, Value>]: the BCV and the destination aggregate both
    provide a default constructor, [update] and [operator-=]. *)
Class SketchValue (V P : Type) : Type := {
  sv_init : V;
  sv_update : Z → P → V → V;
  sv_sub : V → V → V
}.

#[global] Instance binCountSketchValue_SketchValue
  : SketchValue binCountSketchValue.t Z := {
  sv_init := binCountSketchValue.init 32 0;
  sv_update := binCountSketchValue.update 32;
  sv_sub := binCountSketchValue.sub 32
}.

#[global] Instance ddosDetectorValue_SketchValue
  : SketchValue ddosDetectorValue.t netflowRecord_t := {
  sv_init := ddosDetectorValue.init;
  sv_update := ddosDetectorValue.update;
  sv_sub := ddosDetectorValue.sub
}.

Module CountMinSketch.

(** CountMinSketch.h is not part of the sources; every definition of this
    module is modelled from the specification of the sketch (spec sections
    3 and 4.2): a table of [d] rows and [w] columns of cells, one hash
    function per row, fixed at construction. *)

(** Modelled from the spec: the cell type of CountMinSketch.h, which is
    missing; a cell has the fields [count] (32 bits) and [value] that
    ddosDetector.cpp reads. *)
Record Cell (V : Type) : Type := mkCell {
  count : Z;     (* uint32_t *)
  value : V
}.
Arguments mkCell {V} _ _.
Arguments count {V} _.
Arguments value {V} _.

(** Modelled from the spec: the class CountMinSketch of the missing
    CountMinSketch.h; [d] hash functions chosen once per instance, and the
    cells [cells[d][w]]. *)
Record t (V : Type) : Type := mk {
  hash : nat → Z → Z;              (* the seeded hash function of each row *)
  innerSize : nat;                 (* number of columns *)
  cells : list (list (Cell V))     (* the rows *)
}.
Arguments mk {V} _ _ _.
Arguments hash {V} _ _ _.
Arguments innerSize {V} _.
Arguments cells {V} _.

Section Sketch.
Context {V P : Type} `{SketchValue V P}.

(** Modelled from the spec: the cell of an empty sketch (CountMinSketch.h is
    missing); count 0 and a default-constructed value. *)
Definition emptyCell : Cell V := mkCell 0 sv_init.

(** Modelled from the spec: the number of rows [d] of the missing
    CountMinSketch. *)
Definition outerSize (s : t V) : nat := length (cells s).

(** Modelled from the spec: the constructor of the missing CountMinSketch;
    all cells are empty, the hash functions are given. *)
Definition new (h : nat → Z → Z) (outer inner : nat) : t V :=
  mk h inner (replicate outer (replicate inner emptyCell)).

(** Modelled from the spec: [getCol(key, i)] of the missing CountMinSketch;
    the cell chosen on row [i] is [h_i(k) mod w]. *)
Definition getCol (s : t V) (key : Z) (i : nat) : nat :=
  Z.to_nat (hash s i key mod Z.of_nat (innerSize s)).

(** Modelled from the spec: the cell at row [i] and column [j] of the
    missing CountMinSketch, when both are within the table. *)
Definition lookup (s : t V) (i j : nat) : option (Cell V) :=
  row ← cells s !! i; row !! j.

(** Modelled from the spec: [s[i][j]] of the missing CountMinSketch; an
    index out of range is undefined in C++ and reads the empty cell here. *)
Definition cell (s : t V) (i j : nat) : Cell V :=
  default emptyCell (lookup s i j).

(** Modelled from the spec: an assignment [s[i][j] = f(s[i][j])] to a cell
    of the missing CountMinSketch. *)
Definition alter_cell (f : Cell V → Cell V) (i j : nat) (s : t V) : t V :=
  mk (hash s) (innerSize s) (alter (alter f j) i (cells s)).

(** Modelled from the spec: [update] of the missing CountMinSketch;
    [update(k, payload)] increments every row at [h_i(k)] and updates the
    cell payload. *)
Definition update (key : Z) (payload : P) (s : t V) : t V :=
  foldl (λ s i,
           alter_cell (λ c, mkCell (wrap32 (count c + 1))
                                   (sv_update key payload (value c)))
                      i (getCol s key i) s)
        s (seq 0 (outerSize s)).

(** Modelled from the spec: [estimate] of the missing CountMinSketch;
    [estimate(k)] returns the (row, col) whose cell has the minimum total,
    ties broken by lowest row index. *)
Definition estimate (s : t V) (key : Z) : nat * nat :=
  foldl (λ best i,
           let col := getCol s key i in
           if count (cell s i col) <? count (cell s best.1 best.2)
           then (i, col) else best)
        (0%nat, getCol s key 0) (seq 1 (outerSize s - 1)).

(** Modelled from the spec: [dec] of the missing CountMinSketch;
    [decrement(k, payload)] subtracts on every row and never drives a total
    negative. *)
Definition dec (key : Z) (c : Cell V) (s : t V) : t V :=
  foldl (λ s i,
           alter_cell (λ c', mkCell (if count c' <? count c then 0
                                     else wrap32 (count c' - count c))
                                    (sv_sub (value c') (value c)))
                      i (getCol s key i) s)
        s (seq 0 (outerSize s)).

(** Modelled from the spec: [reset] of the missing CountMinSketch; it zeroes
    all cells but retains the seeds. *)
Definition reset (s : t V) : t V :=
  mk (hash s) (innerSize s) (replicate (outerSize s) (replicate (innerSize s) emptyCell)).

End Sketch.
End CountMinSketch.

Abbreviation BCSketchTypeDstIPs := (CountMinSketch.t ddosDetectorValue.t).
Abbreviation BCSketchTypeSrcIPs := (CountMinSketch.t binCountSketchValue.t).

(* ===================================================================== *)
(** * [ddosDetector]  (ddosDetector.h, ddosDetector.cpp) *)
(* ===================================================================== *)

Record dos_alert_t : Type := mkAlert {
  thresholdBytes : Double.t;
  thresholdPackets : Double.t;
  thresholdBytesReceivedToSent : Double.t;
  thresholdFlowsReceivedToSent : Double.t;
  thresholdEntropy : Double.t;
  measuredBytes : Double.t;
  measuredPackets : Double.t;
  measuredBytesReceivedToSent : Double.t;
  measuredFlowsReceivedToSent : Double.t;
  measuredEntropy : Double.t;
  dstIP : Z;                         (* uint32_t *)
  cusumID : Z;                       (* uint32_t *)
  srcIPs_ : gset Z                   (* std::set<uint32_t> srcIPs *)
}.

(** The mutable members of the class.
    Modelled from the spec: threadSafeQueue.h is not part of the sources;
    the two queues are FIFOs with a non-blocking try-pop, here lists where
    [push] appends at the back and [try_pop] takes from the front. *)
Record ddosDetector : Type := mkDetector {
  outerSizeDstIPs : nat;
  innerSizeDstIPs : nat;
  dstIPs : BCSketchTypeDstIPs;
  srcIPs : BCSketchTypeSrcIPs;
  cusumBytes : list AdaptiveCUSUM.t;
  cusumPackets : list AdaptiveCUSUM.t;
  cusumEntropy : list AdaptiveCUSUM.t;
  cusumBytesReceivedToSent : list AdaptiveCUSUM.t;
  cusumFlowsReceivedToSent : list AdaptiveCUSUM.t;
  dosAlertsQueue : list dos_alert_t;
  dosFalsePositivesQueue : list dos_alert_t
}.

Definition set_dstIPs (x : BCSketchTypeDstIPs) (d : ddosDetector) : ddosDetector :=
  mkDetector (outerSizeDstIPs d) (innerSizeDstIPs d) x (srcIPs d)
    (cusumBytes d) (cusumPackets d) (cusumEntropy d)
    (cusumBytesReceivedToSent d) (cusumFlowsReceivedToSent d)
    (dosAlertsQueue d) (dosFalsePositivesQueue d).
Definition set_srcIPs (x : BCSketchTypeSrcIPs) (d : ddosDetector) : ddosDetector :=
  mkDetector (outerSizeDstIPs d) (innerSizeDstIPs d) (dstIPs d) x
    (cusumBytes d) (cusumPackets d) (cusumEntropy d)
    (cusumBytesReceivedToSent d) (cusumFlowsReceivedToSent d)
    (dosAlertsQueue d) (dosFalsePositivesQueue d).
Definition set_cusumBytes (x : list AdaptiveCUSUM.t) (d : ddosDetector) : ddosDetector :=
  mkDetector (outerSizeDstIPs d) (innerSizeDstIPs d) (dstIPs d) (srcIPs d)
    x (cusumPackets d) (cusumEntropy d)
    (cusumBytesReceivedToSent d) (cusumFlowsReceivedToSent d)
    (dosAlertsQueue d) (dosFalsePositivesQueue d).
Definition set_cusumPackets (x : list AdaptiveCUSUM.t) (d : ddosDetector) : ddosDetector :=
  mkDetector (outerSizeDstIPs d) (innerSizeDstIPs d) (dstIPs d) (srcIPs d)
    (cusumBytes d) x (cusumEntropy d)
    (cusumBytesReceivedToSent d) (cusumFlowsReceivedToSent d)
    (dosAlertsQueue d) (dosFalsePositivesQueue d).
Definition set_cusumEntropy (x : list AdaptiveCUSUM.t) (d : ddosDetector) : ddosDetector :=
  mkDetector (outerSizeDstIPs d) (innerSizeDstIPs d) (dstIPs d) (srcIPs d)
    (cusumBytes d) (cusumPackets d) x
    (cusumBytesReceivedToSent d) (cusumFlowsReceivedToSent d)
    (dosAlertsQueue d) (dosFalsePositivesQueue d).
Definition set_cusumBytesReceivedToSent (x : list AdaptiveCUSUM.t) (d : ddosDetector)
  : ddosDetector :=
  mkDetector (outerSizeDstIPs d) (innerSizeDstIPs d) (dstIPs d) (srcIPs d)
    (cusumBytes d) (cusumPackets d) (cusumEntropy d)
    x (cusumFlowsReceivedToSent d)
    (dosAlertsQueue d) (dosFalsePositivesQueue d).
Definition set_cusumFlowsReceivedToSent (x : list AdaptiveCUSUM.t) (d : ddosDetector)
  : ddosDetector :=
  mkDetector (outerSizeDstIPs d) (innerSizeDstIPs d) (dstIPs d) (srcIPs d)
    (cusumBytes d) (cusumPackets d) (cusumEntropy d)
    (cusumBytesReceivedToSent d) x
    (dosAlertsQueue d) (dosFalsePositivesQueue d).
Definition set_dosAlertsQueue (x : list dos_alert_t) (d : ddosDetector) : ddosDetector :=
  mkDetector (outerSizeDstIPs d) (innerSizeDstIPs d) (dstIPs d) (srcIPs d)
    (cusumBytes d) (cusumPackets d) (cusumEntropy d)
    (cusumBytesReceivedToSent d) (cusumFlowsReceivedToSent d)
    x (dosFalsePositivesQueue d).
Definition set_dosFalsePositivesQueue (x : list dos_alert_t) (d : ddosDetector)
  : ddosDetector :=
  mkDetector (outerSizeDstIPs d) (innerSizeDstIPs d) (dstIPs d) (srcIPs d)
    (cusumBytes d) (cusumPackets d) (cusumEntropy d)
    (cusumBytesReceivedToSent d) (cusumFlowsReceivedToSent d)
    (dosAlertsQueue d) x.

#[global] Instance AdaptiveCUSUM_inhabited : Inhabited AdaptiveCUSUM.t :=
  populate (AdaptiveCUSUM.new Double.zero Double.zero 0).

(** How a call that contains a [while] loop or a throwing [at] ends. *)
Inductive outcome (A : Type) : Type :=
| Returned (a : A)      (* the call returns; [a] is the state it leaves *)
| Thrown (a : A)        (* [std::out_of_range] is thrown; [a] is the state then *)
| OutOfFuel.            (* the fuel of the model is used up *)
Arguments Returned {A} _.
Arguments Thrown {A} _.
Arguments OutOfFuel {A}.

(** [std::chrono::seconds(s)] in ticks of [system_clock] (nanoseconds) *)
Definition seconds (s : Z) : Z := s * 1000000000.

(** [std::sort] with the comparator [a.second > b.second]: insertion sort.
    [std::sort] leaves the relative order of pairs with equal counts
    unspecified; this model keeps it (a pair is put in front of the pairs
    of the same count that followed it). *)
Fixpoint insert_by_count (x : Z * Z) (l : list (Z * Z)) : list (Z * Z) :=
  match l with
  | [] => [x]
  | y :: l' => if x.2 >=? y.2 then x :: l else y :: insert_by_count x l'
  end.

Definition sort_by_count (l : list (Z * Z)) : list (Z * Z) :=
  foldr insert_by_count [] l.

Section Detector.

(** Modelled from the spec: trie.h is not part of the sources.  The
    protected prefixes are a longest-prefix lookup with an associated
    sensitivity multiplier; the argument is the 32-bit number whose binary
    string the trie is searched with. *)
Variable protectedPrefixes : Z → option Float32.t.

(** Modelled from the spec: trie.h is not part of the sources.  The
    whitelist is a prefix lookup without a value. *)
Variable whitelistedPrefixes : Z → bool.

Variable n_ : Z.                        (* const int n_ *)
Variable timeBetweenAlertsSecs_ : Z.    (* int timeBetweenAlertsSecs_ *)
Variable quantile_ : Float32.t.         (* const float quantile_ *)
Variable learningSecs_ : Z.             (* const size_t learningSecs_ *)

Definition isProtected (inputIP : Z) : bool :=
  match protectedPrefixes (ntohl inputIP) with Some _ => true | None => false end.

Definition isWhitelisted (inputIP : Z) : bool :=
  isProtected inputIP || whitelistedPrefixes (ntohl inputIP).

Definition getMultiplier (ip : Z) : Float32.t :=
  default Float32.zero (protectedPrefixes (ntohl ip)).

(** ** Flow ingress *)

Definition updateCommunicatedWith (srcIP dstIP bytes : Z) (isDst : bool)
    (d : ddosDetector) : ddosDetector :=
  foldl (λ d i,
           if isDst then
             let srcIPidx := CountMinSketch.getCol (srcIPs d) srcIP i in
             let dstIPidx := CountMinSketch.getCol (dstIPs d) (Z.land dstIP mask24) i in
             set_dstIPs
               (CountMinSketch.alter_cell
                  (λ c, CountMinSketch.mkCell (CountMinSketch.count c)
                          (ddosDetectorValue.updateFlowCounter (Z.of_nat srcIPidx)
                             (CountMinSketch.value c)))
                  i dstIPidx (dstIPs d)) d
           else
             let dstIPidx := CountMinSketch.getCol (dstIPs d) (Z.land srcIP mask24) i in
             set_dstIPs
               (CountMinSketch.alter_cell
                  (λ c, CountMinSketch.mkCell (CountMinSketch.count c)
                          (ddosDetectorValue.updateSentBytes bytes
                             (CountMinSketch.value c)))
                  i dstIPidx (dstIPs d)) d)
        d (seq 0 (outerSizeDstIPs d)).

Definition processCurrentFlow (record : netflowRecord_t) (d : ddosDetector)
  : ddosDetector :=
  let branch :=
    if isProtected (dstAddr record) then
      (* update the dstIPs sketch, then the communicated-with map *)
      let d := set_dstIPs (CountMinSketch.update (Z.land (dstAddr record) mask24)
                             record (dstIPs d)) d in
      Some (updateCommunicatedWith (srcAddr record) (dstAddr record)
              (bytes record) true d)
    else if isProtected (srcAddr record) then
      (* update the sent bytes in the dstIPs *)
      Some (updateCommunicatedWith (srcAddr record) (dstAddr record)
              (bytes record) false d)
    else None (* return *) in
  match branch with
  | None => d
  | Some d =>
      (* src IPs always updated *)
      set_srcIPs (CountMinSketch.update (srcAddr record) 1 (srcIPs d)) d
  end.

(** [notifyWorker]: the snapshot written to the pipe, and the detector with
    both sketches reset. *)
Definition notifyWorker (d : ddosDetector)
  : (BCSketchTypeDstIPs * BCSketchTypeSrcIPs) * ddosDetector :=
  ((dstIPs d, srcIPs d),
   set_dstIPs (CountMinSketch.reset (dstIPs d))
     (set_srcIPs (CountMinSketch.reset (srcIPs d)) d)).

(** ** Key reversal *)

(** the [while] loop of [reverseSrcIPs] for one entry of [communicatedWith] *)
Fixpoint reverseSrcIPs_while (fuel : nat) (prevCnt : Z) (row col : nat) (flows : Z)
    (srcIPsCopy : BCSketchTypeSrcIPs) (vec : list (Z * Z)) : option (list (Z * Z)) :=
  match fuel with
  | O => None
  | S fuel =>
      if prevCnt =? CountMinSketch.count (CountMinSketch.cell srcIPsCopy row col)
      then Some vec
      else
        let prevCnt := CountMinSketch.count (CountMinSketch.cell srcIPsCopy row col) in
        let recoveredSrcIP :=
          binCountSketchValue.reverseKey 32
            (CountMinSketch.value (CountMinSketch.cell srcIPsCopy row col)) in
        let recoveredIPCell := CountMinSketch.estimate srcIPsCopy recoveredSrcIP in
        let cell := CountMinSketch.cell srcIPsCopy recoveredIPCell.1 recoveredIPCell.2 in
        if CountMinSketch.count cell =? 0 then Some vec (* break *)
        else reverseSrcIPs_while fuel prevCnt row col flows srcIPsCopy
               (vec ++ [(recoveredSrcIP, flows)])
  end.

(** the [for] loop of [reverseSrcIPs] over the entries of [communicatedWith];
    [rows.at] throws when the key is missing. *)
Fixpoint reverseSrcIPs_for (fuel : nat) (entries : list (Z * Z))
    (vec : list (Z * Z)) (rows : gmap Z Z) (srcIPsCopy : BCSketchTypeSrcIPs)
  : outcome (list (Z * Z)) :=
  match entries with
  | [] => Returned vec
  | srcIPidx :: entries =>
      match rows !! srcIPidx.1 with
      | None => Thrown vec
      | Some row =>
          match reverseSrcIPs_while fuel 0 (Z.to_nat row) (Z.to_nat srcIPidx.1)
                  srcIPidx.2 srcIPsCopy vec with
          | None => OutOfFuel
          | Some vec => reverseSrcIPs_for fuel entries vec rows srcIPsCopy
          end
      end
  end.

Definition reverseSrcIPs (fuel : nat) (communicatedWith : gmap Z Z)
    (srcIPsCommWithDstVec : list (Z * Z)) (rows : gmap Z Z)
    (srcIPsCopy : BCSketchTypeSrcIPs) : outcome (list (Z * Z)) :=
  reverseSrcIPs_for fuel (map_to_list communicatedWith) srcIPsCommWithDstVec
    rows srcIPsCopy.

(** the local state of the [while] loop of [reverseAllKeys] *)
Record reverseState : Type := mkRS {
  rs_prevCnt : Z;
  rs_maxIPBytes : Z;
  rs_maxIP : Z;
  rs_resultCell : ddosDetectorValue.t;
  rs_dstIPs : BCSketchTypeDstIPs;
  rs_rows : gmap Z Z
}.

Fixpoint reverseAllKeys_while (fuel : nat) (column : nat) (st : reverseState)
  : option reverseState :=
  match fuel with
  | O => None
  | S fuel =>
      let dstIPs := rs_dstIPs st in
      if rs_prevCnt st =? CountMinSketch.count (CountMinSketch.cell dstIPs 0 column)
      then Some st
      else
        let prevCnt := CountMinSketch.count (CountMinSketch.cell dstIPs 0 column) in
        let dstAddr :=
          ddosDetectorValue.reverseKey
            (CountMinSketch.value (CountMinSketch.cell dstIPs 0 column)) in
        let onlyPrefix := Z.land dstAddr mask24 in
        let indices := CountMinSketch.estimate dstIPs onlyPrefix in
        let cell := CountMinSketch.cell dstIPs indices.1 indices.2 in
        if (CountMinSketch.count cell =? 0) || negb (isProtected onlyPrefix)
        then Some (mkRS prevCnt (rs_maxIPBytes st) (rs_maxIP st) (rs_resultCell st)
                     dstIPs (rs_rows st)) (* break *)
        else
          let byteCount := ddosDetectorValue.getByteCount (CountMinSketch.value cell) in
          let '(maxIPBytes, maxIP) :=
            if rs_maxIPBytes st <? byteCount then (byteCount, onlyPrefix)
            else (rs_maxIPBytes st, rs_maxIP st) in
          let rows :=
            foldl (λ rows (srcIP : Z * Z), <[srcIP.1 := Z.of_nat indices.1]> rows)
                  (rs_rows st)
                  (map_to_list (ddosDetectorValue.getCommunicatedWith
                                  (CountMinSketch.value cell))) in
          let resultCell :=
            ddosDetectorValue.add (rs_resultCell st) (CountMinSketch.value cell) in
          let dstIPs := CountMinSketch.dec onlyPrefix cell dstIPs in
          reverseAllKeys_while fuel column
            (mkRS prevCnt maxIPBytes maxIP resultCell dstIPs rows)
  end.

(** what [reverseAllKeys] leaves in its reference parameters.  The set
    [reversedPrefixes] is only filled under [DEBUG] and is left out. *)
Record reversed : Type := mkReversed {
  r_maxIP : Z;
  r_resultCell : ddosDetectorValue.t;
  r_dstIPs : BCSketchTypeDstIPs;
  r_srcIPsCommWithDst : list (Z * Z)
}.

Definition reverseAllKeys (fuel : nat) (maxIP : Z) (resultCell : ddosDetectorValue.t)
    (dstIPs : BCSketchTypeDstIPs) (srcIPs : BCSketchTypeSrcIPs) (column : nat)
    (srcIPsCommWithDst : list (Z * Z)) : outcome reversed :=
  match reverseAllKeys_while fuel column (mkRS 0 0 maxIP resultCell dstIPs ∅) with
  | None => OutOfFuel
  | Some st =>
      if rs_maxIP st =? 0 then
        Returned (mkReversed (rs_maxIP st) (rs_resultCell st) (rs_dstIPs st)
                    srcIPsCommWithDst)
      else
        match reverseSrcIPs fuel
                (ddosDetectorValue.getCommunicatedWith (rs_resultCell st))
                srcIPsCommWithDst (rs_rows st) srcIPs with
        | Returned vec =>
            Returned (mkReversed (rs_maxIP st) (rs_resultCell st) (rs_dstIPs st) vec)
        | Thrown vec =>
            Thrown (mkReversed (rs_maxIP st) (rs_resultCell st) (rs_dstIPs st) vec)
        | OutOfFuel => OutOfFuel
        end
  end.

(** ** Alerts *)

(** the [for] loop of [getTopNSrcIPs], with its [continue] and [break];
    [topNSrcIPs.size() == n_] compares a [size_t] with an [int], so [n_] is
    converted to [size_t]. *)
Fixpoint getTopNSrcIPs_for (l : list (Z * Z)) (topNSrcIPs : gset Z) : gset Z :=
  match l with
  | [] => topNSrcIPs
  | srcIP :: l =>
      if isWhitelisted srcIP.1 then getTopNSrcIPs_for l topNSrcIPs
      else
        let topNSrcIPs := topNSrcIPs ∪ {[srcIP.1]} in
        if Z.of_nat (size topNSrcIPs) =? wrap64 n_ then topNSrcIPs
        else getTopNSrcIPs_for l topNSrcIPs
  end.

(** [getTopNSrcIPs]: the vector is sorted in place, the set is filled. *)
Definition getTopNSrcIPs (srcIPsCommWithDst : list (Z * Z)) (topNSrcIPs : gset Z)
  : list (Z * Z) * gset Z :=
  let srcIPsCommWithDst := sort_by_count srcIPsCommWithDst in
  (srcIPsCommWithDst, getTopNSrcIPs_for srcIPsCommWithDst topNSrcIPs).

(** [detectAnomaly]: the returned flag, the detector (with its alert queue)
    and the vector, which [getTopNSrcIPs] may have sorted. *)
Definition detectAnomaly (maxIP : Z) (column : nat) (srcIPsCommWithDst : list (Z * Z))
    (d : ddosDetector) : bool * ddosDetector * list (Z * Z) :=
  let multiplier := Double.of_float (getMultiplier maxIP) in
  if AdaptiveCUSUM.isPositiveAnomaly multiplier (cusumBytes d !!! column) &&
     AdaptiveCUSUM.isPositiveAnomaly multiplier (cusumPackets d !!! column) &&
     AdaptiveCUSUM.isPositiveAnomaly multiplier (cusumBytesReceivedToSent d !!! column) &&
     AdaptiveCUSUM.isPositiveAnomaly multiplier (cusumFlowsReceivedToSent d !!! column) &&
     AdaptiveCUSUM.isPositiveAnomaly multiplier (cusumEntropy d !!! column)
  then
    let '(srcIPsCommWithDst, srcIPsRes) := getTopNSrcIPs srcIPsCommWithDst ∅ in
    if decide (srcIPsRes = ∅) then (false, d, srcIPsCommWithDst)
    else
      let dosAlert :=
        mkAlert
          (AdaptiveCUSUM.getThresholdHigh (cusumBytes d !!! column) * multiplier)%D
          (AdaptiveCUSUM.getThresholdHigh (cusumPackets d !!! column) * multiplier)%D
          (AdaptiveCUSUM.getThresholdHigh (cusumBytesReceivedToSent d !!! column) * multiplier)%D
          (AdaptiveCUSUM.getThresholdHigh (cusumFlowsReceivedToSent d !!! column) * multiplier)%D
          (AdaptiveCUSUM.getThresholdHigh (cusumEntropy d !!! column) * multiplier)%D
          (AdaptiveCUSUM.getSH (cusumBytes d !!! column))
          (AdaptiveCUSUM.getSH (cusumPackets d !!! column))
          (AdaptiveCUSUM.getSH (cusumBytesReceivedToSent d !!! column))
          (AdaptiveCUSUM.getSH (cusumFlowsReceivedToSent d !!! column))
          (AdaptiveCUSUM.getSH (cusumEntropy d !!! column))
          maxIP (Z.of_nat column) srcIPsRes in
      (true, set_dosAlertsQueue (dosAlertsQueue d ++ [dosAlert]) d, srcIPsCommWithDst)
  else (false, d, srcIPsCommWithDst).

(** The end of the body of the column loop of [detectionProcess]: the
    statement [if (thresholdSet and lastAlert + T < currTime) { ... }] that
    follows [updateMetrics], for column [j] in the window read at [currTime]. *)
Definition detectionProcess_alert (thresholdSet : bool) (currTime : Z) (maxIP : Z)
    (j : nat) (reversedSrcIPs : list (Z * Z)) (d : ddosDetector) : ddosDetector :=
  if thresholdSet &&
     (AdaptiveCUSUM.getLastAlert (cusumBytes d !!! j) + seconds timeBetweenAlertsSecs_
      <? currTime)
  then
    let '(alert, d, _) := detectAnomaly maxIP j reversedSrcIPs d in
    if alert then set_cusumBytes (alter (AdaptiveCUSUM.setLastAlert currTime) j (cusumBytes d)) d
    else d
  else d.

(** ** False-positive feedback *)

Definition checkFalsePositives (d : ddosDetector) : ddosDetector :=
  match dosFalsePositivesQueue d with
  | [] => d
  | falsePositive :: rest =>
      let d := set_dosFalsePositivesQueue rest d in
      let multiplier := Double.of_float (getMultiplier (dstIP falsePositive)) in
      let id := Z.to_nat (cusumID falsePositive) in
      let d := set_cusumEntropy
                 (alter (AdaptiveCUSUM.setThresholdHigh
                           (measuredEntropy falsePositive / multiplier)%D)
                        id (cusumEntropy d)) d in
      let d := set_cusumBytes
                 (alter (AdaptiveCUSUM.setThresholdHigh
                           (measuredBytes falsePositive / multiplier)%D)
                        id (cusumBytes d)) d in
      let d := set_cusumPackets
                 (alter (AdaptiveCUSUM.setThresholdHigh
                           (measuredPackets falsePositive / multiplier)%D)
                        id (cusumPackets d)) d in
      let d := set_cusumBytesReceivedToSent
                 (alter (AdaptiveCUSUM.setThresholdHigh
                           (measuredBytesReceivedToSent falsePositive / multiplier)%D)
                        id (cusumBytesReceivedToSent d)) d in
      set_cusumFlowsReceivedToSent
        (alter (AdaptiveCUSUM.setThresholdHigh
                  (measuredFlowsReceivedToSent falsePositive / multiplier)%D)
               id (cusumFlowsReceivedToSent d)) d
  end.

(** ** Threshold installation *)

Definition getQuantileThresholdLow (allCusums : list AdaptiveCUSUM.t) : Float32.t :=
  let tresholdsHigh :=
    foldl (λ vec cusum,
             if (Double.zero <? AdaptiveCUSUM.getMaxSH cusum)%D
             then vec ++ [Float32.of_double (AdaptiveCUSUM.getMaxSH cusum)]
             else vec)
          [] allCusums in
  match tresholdsHigh with
  | [] => Float32.zero
  | _ => getQuantileSortedVec (sort_floats tresholdsHigh) quantile_
  end.

Definition getQuantileThresholdHigh (allCusums : list AdaptiveCUSUM.t) : Float32.t :=
  let tresholdsLow :=
    (* take only nonzero elements *)
    foldl (λ vec cusum,
             if (Double.zero <? AdaptiveCUSUM.getMaxSL cusum)%D
             then vec ++ [Float32.of_double (AdaptiveCUSUM.getMaxSL cusum)]
             else vec)
          [] allCusums in
  match tresholdsLow with
  | [] => Float32.zero
  | _ =>
      (* sort them from the lowest to the highest *)
      getQuantileSortedVec (sort_floats tresholdsLow) quantile_
  end.

Definition setCusumThresholdHigh (cusum : AdaptiveCUSUM.t) (quantileTHreshold : Float32.t)
  : AdaptiveCUSUM.t :=
  if (Double.zero <? AdaptiveCUSUM.getMaxSH cusum)%D
  then AdaptiveCUSUM.setThresholdHigh (AdaptiveCUSUM.getMaxSH cusum) cusum
  else AdaptiveCUSUM.setThresholdHigh (Double.of_float quantileTHreshold) cusum.

Definition setCusumThresholdLow (cusum : AdaptiveCUSUM.t) (quantileTHreshold : Float32.t)
  : AdaptiveCUSUM.t :=
  if (Double.zero <? AdaptiveCUSUM.getMaxSL cusum)%D
  then AdaptiveCUSUM.setThresholdLow (AdaptiveCUSUM.getMaxSL cusum) cusum
  else AdaptiveCUSUM.setThresholdLow (Double.of_float quantileTHreshold) cusum.

(** [setCusumTresholds].  With [learningSecs_ == 0] the thresholds are read
    from the file thresholds.csv; that branch is input from a file and gives
    [None] here. *)
Definition setCusumTresholds (d : ddosDetector) : option ddosDetector :=
  if learningSecs_ =? 0 then None
  else
    let quantileTHBytes := getQuantileThresholdHigh (cusumBytes d) in
    let quantileTHEntropy := getQuantileThresholdHigh (cusumEntropy d) in
    let quantileTHBytesReceivedToSent :=
      getQuantileThresholdHigh (cusumBytesReceivedToSent d) in
    let quantileTHPackets := getQuantileThresholdHigh (cusumPackets d) in
    let quantileTLEntropy := getQuantileThresholdLow (cusumEntropy d) in
    let quantileTHFlowsSentToReceived :=
      getQuantileThresholdHigh (cusumFlowsReceivedToSent d) in
    Some
      (foldl (λ d j,
                let d := set_cusumBytes
                  (alter (λ a, setCusumThresholdHigh a quantileTHBytes) j (cusumBytes d)) d in
                let d := set_cusumEntropy
                  (alter (λ a, setCusumThresholdHigh a quantileTHEntropy) j (cusumEntropy d)) d in
                let d := set_cusumBytesReceivedToSent
                  (alter (λ a, setCusumThresholdHigh a quantileTHBytesReceivedToSent) j
                     (cusumBytesReceivedToSent d)) d in
                let d := set_cusumPackets
                  (alter (λ a, setCusumThresholdHigh a quantileTHPackets) j (cusumPackets d)) d in
                let d := set_cusumEntropy
                  (alter (λ a, setCusumThresholdLow a quantileTLEntropy) j (cusumEntropy d)) d in
                set_cusumFlowsReceivedToSent
                  (alter (λ a, setCusumThresholdHigh a quantileTHFlowsSentToReceived) j
                     (cusumFlowsReceivedToSent d)) d)
             d (seq 0 (innerSizeDstIPs d))).

(** The branch [learningSecs_ == 0] of [setCusumTresholds] (lines 434 to
    455), which reads thresholds.csv.  What the file holds is an input:
    [words k] is the value that the [k]-th call [stof(word)] of a line
    returns, and [None] when that call throws (no number in [word], or a
    number outside [float]).  The six calls of a line set, in this order,
    the high thresholds of bytes, packets and entropy, the low threshold of
    entropy, and the high thresholds of the two ratios; each [float] is
    widened to [double].  An exception leaves the function at once, with the
    thresholds set so far. *)
Definition setCusumTresholds_line (words : nat → option Float32.t) (j : nat)
    (d : ddosDetector) : outcome ddosDetector :=
  match words 0%nat with
  | None => Thrown d
  | Some word =>
  let d := set_cusumBytes
             (alter (AdaptiveCUSUM.setThresholdHigh (Double.of_float word)) j
                    (cusumBytes d)) d in
  match words 1%nat with
  | None => Thrown d
  | Some word =>
  let d := set_cusumPackets
             (alter (AdaptiveCUSUM.setThresholdHigh (Double.of_float word)) j
                    (cusumPackets d)) d in
  match words 2%nat with
  | None => Thrown d
  | Some word =>
  let d := set_cusumEntropy
             (alter (AdaptiveCUSUM.setThresholdHigh (Double.of_float word)) j
                    (cusumEntropy d)) d in
  match words 3%nat with
  | None => Thrown d
  | Some word =>
  let d := set_cusumEntropy
             (alter (AdaptiveCUSUM.setThresholdLow (Double.of_float word)) j
                    (cusumEntropy d)) d in
  match words 4%nat with
  | None => Thrown d
  | Some word =>
  let d := set_cusumBytesReceivedToSent
             (alter (AdaptiveCUSUM.setThresholdHigh (Double.of_float word)) j
                    (cusumBytesReceivedToSent d)) d in
  match words 5%nat with
  | None => Thrown d
  | Some word =>
  Returned
    (set_cusumFlowsReceivedToSent
       (alter (AdaptiveCUSUM.setThresholdHigh (Double.of_float word)) j
              (cusumFlowsReceivedToSent d)) d)
  end end end end end end.

(** the loop [for (int j = 0; j < innerSizeDstIPs; ++j)] of that branch over
    the lines [js] that remain; [words j] are the words of line [j] *)
Fixpoint setCusumTresholds_lines (words : nat → nat → option Float32.t)
    (js : list nat) (d : ddosDetector) : outcome ddosDetector :=
  match js with
  | [] => Returned d
  | j :: js =>
      match setCusumTresholds_line (words j) j d with
      | Returned d => setCusumTresholds_lines words js d
      | Thrown d => Thrown d
      | OutOfFuel => OutOfFuel
      end
  end.

Definition setCusumTresholds_file (words : nat → nat → option Float32.t)
    (d : ddosDetector) : outcome ddosDetector :=
  setCusumTresholds_lines words (seq 0 (innerSizeDstIPs d)) d.

End Detector.

(** a value that is not the NaN *)
Definition not_nan (x : spec_float) : Prop :=
  match x with S754_nan => False | _ => True end.

(** the invariant kept by [AdaptiveCUSUM.process] *)
Definition cusum_inv (a : AdaptiveCUSUM.t) : Prop :=
  Double.leb Double.zero (AdaptiveCUSUM.SH a) = true ∧
  Double.leb Double.zero (AdaptiveCUSUM.SL a) = true ∧
  Double.leb Double.zero (AdaptiveCUSUM.maxSH a) = true ∧
  Double.leb Double.zero (AdaptiveCUSUM.maxSL a) = true ∧
  Double.leb (AdaptiveCUSUM.SH a) (AdaptiveCUSUM.maxSH a) = true ∧
  Double.leb (AdaptiveCUSUM.SL a) (AdaptiveCUSUM.maxSL a) = true.

(** the reading of the claim about threshold installation: the backfill of
    a high threshold is the quantile of the positive [maxSH] values (and
    that of the low threshold the quantile of the positive [maxSL] values) *)
Definition claimed_QuantileThresholdHigh (quantile : Float32.t)
    (allCusums : list AdaptiveCUSUM.t) : Float32.t :=
  let positive :=
    Float32.of_double <$>
      filter (λ x, Double.ltb Double.zero x = true) (AdaptiveCUSUM.getMaxSH <$> allCusums) in
  match positive with
  | [] => Float32.zero
  | _ => getQuantileSortedVec (sort_floats positive) quantile
  end.

Definition claimed_QuantileThresholdLow (quantile : Float32.t)
    (allCusums : list AdaptiveCUSUM.t) : Float32.t :=
  let positive :=
    Float32.of_double <$>
      filter (λ x, Double.ltb Double.zero x = true) (AdaptiveCUSUM.getMaxSL <$> allCusums) in
  match positive with
  | [] => Float32.zero
  | _ => getQuantileSortedVec (sort_floats positive) quantile
  end.

(** ** Concrete values used in the examples *)

Definition double_half : Double.t := (Double.one / Double.of_Z 2)%D.

(** the default quantile 0.75 *)
Definition quantile_075 : Float32.t :=
  Float32.of_double (Double.of_Z 3 / Double.of_Z 4)%D.

(** a tracker with [c = alpha = 0.5], [span = 0] that has seen the samples
    0 and 10 outside learning: [maxSH] is about 1.46 and [maxSL] is 0 *)
Definition cusum_rising : AdaptiveCUSUM.t :=
  AdaptiveCUSUM.run (AdaptiveCUSUM.new double_half double_half 0)
    [(Double.of_Z 0, false); (Double.of_Z 10, false)].

(** two aggregates for the subtraction *)
Definition value_a : ddosDetectorValue.t :=
  ddosDetectorValue.mk 100 2 7 900 3
    (binCountSketchValue.mk 3 (replicate 32 1))
    {[ 5 := 3; 6 := 1 ]} {[ 1 := 2 ]}.

Definition value_b : ddosDetectorValue.t :=
  ddosDetectorValue.mk 200 1 9 400 1
    (binCountSketchValue.mk 1 (replicate 32 2))
    {[ 5 := 1; 6 := 1 ]} {[ 2 := 2 ]}.

(** the multiplier of the default sensitivity 0.5, about 1.63 *)
Definition mult_default : Float32.t :=
  Float32.of_double (Double.of_Z 163 / Double.of_Z 100)%D.

(** protected prefixes 10.0.1.0/24 and 10.0.2.0/24 with the default
    sensitivity; the argument is the address in host byte order *)
Definition protected_example (x : Z) : option Float32.t :=
  if (Z.shiftr x 8 =? 655361) || (Z.shiftr x 8 =? 655362)
  then Some mult_default else None.

(** no whitelist file *)
Definition whitelist_none (x : Z) : bool := false.

(** hash functions for the examples: row [i] maps a key to [key + i] *)
Definition hash_example (i : nat) (key : Z) : Z := key + Z.of_nat i.

(** a false-positive report for column 2 and destination 10.0.1.5 *)
Definition false_positive_example : dos_alert_t :=
  mkAlert Double.zero Double.zero Double.zero Double.zero Double.zero
    (Double.of_Z 10) (Double.of_Z 20) (Double.of_Z 30) (Double.of_Z 40)
    (Double.of_Z 50) 83951626 2 ∅.

(** the geometry that main.cpp gives the detector: sketches of 3 rows,
    1024 destination columns and 32768 source columns *)
Definition innerSizeDstIPs_main : nat := Z.to_nat 1024.
Definition innerSizeSrcIPs_main : nat := Z.to_nat 32768.

(** a detector of that geometry with empty sketches, fresh trackers, and
    one pending false-positive report *)
Definition detector_example : ddosDetector :=
  let cusums :=
    replicate innerSizeDstIPs_main (AdaptiveCUSUM.new double_half double_half 60) in
  mkDetector 3 innerSizeDstIPs_main
    (CountMinSketch.new hash_example 3 innerSizeDstIPs_main)
    (CountMinSketch.new hash_example 3 innerSizeSrcIPs_main)
    cusums cusums cusums cusums cusums [] [false_positive_example].

(** a flow from the protected host 10.0.1.5 to 1.2.3.4 (addresses in
    network byte order), 3 packets and 1000 bytes *)
Definition flow_outbound : netflowRecord_t := mkRecord 83951626 67305985 3 1000.

(** flows from 1.2.3.4 to the protected hosts 10.0.1.5, 10.0.1.6 and 10.0.2.5 *)
Definition flow_to_1_5 : netflowRecord_t := mkRecord 67305985 83951626 3 1000.
Definition flow_to_1_6 : netflowRecord_t := mkRecord 67305985 100728842 1 40.
Definition flow_to_2_5 : netflowRecord_t := mkRecord 67305985 84017162 2 500.

(** what the flows of a window leave on the cells of the /24 prefix [p]
    when [p] is the only prefix inserted into its row-0 column: [np] flows
    went to [p] and at most [t] flows were inserted in all.  On every row the
    cell of [p] counts between [np] and [t]; on row 0 it counts [np], and its
    reversible key has total [np], 32 bins, and low 24 bins that are [np] on
    the bits of [p] and 0 elsewhere. *)
Definition column_prefix_inv (p np t : Z) (s : BCSketchTypeDstIPs) : Prop :=
  0 ≤ np ≤ t ∧
  (∀ i, (i < CountMinSketch.outerSize s)%nat →
        ∃ c, CountMinSketch.lookup s i (CountMinSketch.getCol s p i) = Some c ∧
             np ≤ CountMinSketch.count c ≤ t) ∧
  ∃ c, CountMinSketch.lookup s 0 (CountMinSketch.getCol s p 0) = Some c ∧
       CountMinSketch.count c = np ∧
       binCountSketchValue.totalCount
         (ddosDetectorValue.reversibleKey_ (CountMinSketch.value c)) = np ∧
       length (binCountSketchValue.binCount
                 (ddosDetectorValue.reversibleKey_ (CountMinSketch.value c))) = 32%nat ∧
       ∀ b, (b < 24)%nat →
            binCountSketchValue.binCount
              (ddosDetectorValue.reversibleKey_ (CountMinSketch.value c)) !! b
            = Some (if Z.testbit p (Z.of_nat b) then np else 0).

(** a detector with two destination columns at the end of learning: the
    trackers of column 0 have seen the samples 0 and 10, those of column 1
    have seen nothing *)
Definition detector_learned : ddosDetector :=
  let cusums := [cusum_rising; AdaptiveCUSUM.new double_half double_half 0] in
  mkDetector 3 2
    (CountMinSketch.new hash_example 3 2) (CountMinSketch.new hash_example 3 2)
    cusums cusums cusums cusums cusums [] [].

(** the sum of the weights of a sequence of updates *)
Definition total_weight (values : list Z) : Z := foldl Z.add 0 values.


(* ===================================================================== *)
(** * The metrics of a column and the detection loop  (ddosDetector.cpp) *)
(* ===================================================================== *)

(** conversion of an [unsigned int] to [int]: two's complement *)
Definition to_int32 (z : Z) : Z :=
  let w := wrap32 z in if w <? 2 ^ 31 then w else w - 2 ^ 32.

(** [std::accumulate(counts.begin(), counts.end(), 0)]: the initial value
    [0] is an [int], so the sum is kept in an [int]; each [acc + count] is
    computed on [unsigned int] and converted back to [int]. *)
Definition accumulate_int (counts : list Z) : Z :=
  foldl (λ acc count, to_int32 (acc + count)) 0 counts.

(** the literal [1e-6]: the [double] nearest to 10^-6 *)
Definition double_1e_6 : Double.t := (Double.one / Double.of_Z 1000000)%D.

(** the entries of a [std::map], which iterates in the order of its keys:
    insertion sort of the entries by key *)
Fixpoint insert_by_key (x : Z * Z) (l : list (Z * Z)) : list (Z * Z) :=
  match l with
  | [] => [x]
  | y :: l' => if x.1 <? y.1 then x :: l else y :: insert_by_key x l'
  end.

Definition map_entries_by_key (m : gmap Z Z) : list (Z * Z) :=
  foldr insert_by_key [] (map_to_list m).

(** [getAlert]: a non-blocking pop from the alert queue *)
Definition getAlert (d : ddosDetector) : option dos_alert_t * ddosDetector :=
  match dosAlertsQueue d with
  | [] => (None, d)
  | alert :: rest => (Some alert, set_dosAlertsQueue rest d)
  end.

Definition pushFalsePositive (alert : dos_alert_t) (d : ddosDetector) : ddosDetector :=
  set_dosFalsePositivesQueue (dosFalsePositivesQueue d ++ [alert]) d.

(** The constructor.  The hash functions of the two sketches are fixed by
    the constructor of the sketch and are arguments here; the [float]
    arguments [alpha] and [c] are converted to [double] by the constructor
    of the trackers. *)
Definition new_ddosDetector (hashDst hashSrc : nat → Z → Z) (alpha : Float32.t) (span : Z)
    (c : Float32.t) (outerDst innerDst outerSrc innerSrc : nat) : ddosDetector :=
  let cusums :=
    replicate innerDst
      (AdaptiveCUSUM.new (Double.of_float c) (Double.of_float alpha) span) in
  mkDetector outerDst innerDst
    (CountMinSketch.new hashDst outerDst innerDst)
    (CountMinSketch.new hashSrc outerSrc innerSrc)
    cusums cusums cusums cusums cusums [] [].

Section Engine.

Variable protectedPrefixes : Z → option Float32.t.
Variable whitelistedPrefixes : Z → bool.
Variable n_ : Z.
Variable timeBetweenAlertsSecs_ : Z.
Variable quantile_ : Float32.t.
Variable learningSecs_ : Z.

(** [std::log2] on [float] and on [double].  The C++ standard does not fix
    the rounding of these library functions, so they are parameters. *)
Variable log2f : Float32.t → Float32.t.
Variable log2 : Double.t → Double.t.

(** [calculateNormalizedEntropy].  [frequency] is a [float]; the product
    [frequency * log2(frequency)] is a [float] that is widened to [double]
    for [entropy -= ...]; [std::log2(counts.size())] is the [double]
    function on the converted size; the result is narrowed to [float]. *)
Definition calculateNormalizedEntropy (counts : list Z) : Float32.t :=
  if Z.of_nat (length counts) <? 2 then Float32.of_double Double.zero
  else
    let totalCount := wrap64 (accumulate_int counts) in
    let entropy :=
      foldl (λ entropy count,
               let frequency := (Float32.of_Z count / Float32.of_Z totalCount)%F in
               (entropy - Double.of_float (frequency * log2f frequency)%F)%D)
            Double.zero counts in
    Float32.of_double (entropy / log2 (Double.of_Z (Z.of_nat (length counts))))%D.

(** [computeMetrics]: the three values left in [entropy],
    [receivedToSentBytes] and [receivedToSentFlows].  The two ratios are
    computed on [float] ([1.0f + ...]) and widened to [double]. *)
Definition computeMetrics (srcIPsCommWithDst : list (Z * Z))
    (resultCell : ddosDetectorValue.t) : Double.t * Double.t * Double.t :=
  let counts := srcIPsCommWithDst.*2 in
  let entropySrcIPs := Double.of_float (calculateNormalizedEntropy counts) in
  let ipSubnets := ddosDetectorValue.getipSubnets resultCell in
  let counts_ := (map_entries_by_key ipSubnets).*2 in
  let entropyDstIPs8bits := Double.of_float (calculateNormalizedEntropy counts_) in
  let entropy :=
    ((entropySrcIPs + double_1e_6) / (entropyDstIPs8bits + double_1e_6))%D in
  let receivedToSentBytes :=
    Double.of_float
      ((Float32.one + Float32.of_Z (ddosDetectorValue.getByteCount resultCell))
       / (Float32.of_Z (ddosDetectorValue.getSentBytes resultCell) + Float32.one))%F in
  let receivedToSentFlows :=
    Double.of_float
      ((Float32.one + Float32.of_Z (ddosDetectorValue.getFlowCount resultCell))
       / (Float32.of_Z (ddosDetectorValue.getSentFlows resultCell) + Float32.one))%F in
  (entropy, receivedToSentBytes, receivedToSentFlows).

(** [updateMetrics]: one sample for each of the five trackers of [column].
    [updateStatsFile] only writes a file, and only under [DEBUG]. *)
Definition updateMetrics (srcIPsCommWithDst : list (Z * Z))
    (resultCell : ddosDetectorValue.t) (learning : bool) (column : nat)
    (d : ddosDetector) : ddosDetector :=
  let '(entropy, receivedSentBytes, receivedSentFlows) :=
    computeMetrics srcIPsCommWithDst resultCell in
  let d := set_cusumBytes
             (alter (AdaptiveCUSUM.process
                       (Double.of_Z (ddosDetectorValue.getByteCount resultCell)) learning)
                    column (cusumBytes d)) d in
  let d := set_cusumPackets
             (alter (AdaptiveCUSUM.process
                       (Double.of_Z (ddosDetectorValue.getPacketCount resultCell)) learning)
                    column (cusumPackets d)) d in
  let d := set_cusumEntropy
             (alter (AdaptiveCUSUM.process entropy learning)
                    column (cusumEntropy d)) d in
  let d := set_cusumBytesReceivedToSent
             (alter (AdaptiveCUSUM.process receivedSentBytes learning)
                    column (cusumBytesReceivedToSent d)) d in
  set_cusumFlowsReceivedToSent
    (alter (AdaptiveCUSUM.process receivedSentFlows learning)
           column (cusumFlowsReceivedToSent d)) d.

(** The body of the column loop of [detectionProcess], for column [j] of
    the snapshot [val] read from the pipe.  [reverseAllKeys] works on the
    snapshot, which it changes; an exception leaves the loop. *)
Definition detectionProcess_column (fuel : nat) (thresholdSet learning : bool)
    (currTime : Z) (j : nat)
    (st : (BCSketchTypeDstIPs * BCSketchTypeSrcIPs) * ddosDetector)
  : outcome ((BCSketchTypeDstIPs * BCSketchTypeSrcIPs) * ddosDetector) :=
  let '(val, d) := st in
  if CountMinSketch.count (CountMinSketch.cell val.1 0 j) =? 0
  then Returned st (* continue *)
  else
    match reverseAllKeys protectedPrefixes fuel 0 ddosDetectorValue.init
            val.1 val.2 j [] with
    | OutOfFuel => OutOfFuel
    | Thrown r => Thrown ((r_dstIPs r, val.2), d)
    | Returned r =>
        let val := (r_dstIPs r, val.2) in
        if r_maxIP r =? 0 then Returned (val, d) (* continue *)
        else
          let d := updateMetrics (r_srcIPsCommWithDst r) (r_resultCell r) learning j d in
          Returned
            (val,
             detectionProcess_alert protectedPrefixes whitelistedPrefixes n_
               timeBetweenAlertsSecs_ thresholdSet currTime (r_maxIP r) j
               (r_srcIPsCommWithDst r) d)
    end.

(** the loop [for (uint32_t j = 0; j < innerSizeDstIPs; ++j)] over the
    columns [js] that remain *)
Fixpoint detectionProcess_for (fuel : nat) (thresholdSet learning : bool)
    (currTime : Z) (js : list nat)
    (st : (BCSketchTypeDstIPs * BCSketchTypeSrcIPs) * ddosDetector)
  : outcome ((BCSketchTypeDstIPs * BCSketchTypeSrcIPs) * ddosDetector) :=
  match js with
  | [] => Returned st
  | j :: js =>
      match detectionProcess_column fuel thresholdSet learning currTime j st with
      | Returned st => detectionProcess_for fuel thresholdSet learning currTime js st
      | Thrown st => Thrown st
      | OutOfFuel => OutOfFuel
      end
  end.

(** One turn of the [while (true)] loop of [detectionProcess] with [stop]
    unset: the snapshot [val] was read from the pipe at [currTime].  The
    result is the flag [thresholdSet] and the detector after the turn; it
    is [None] when [setCusumTresholds] reads the thresholds file. *)
Definition detectionProcess_window (fuel : nat) (thresholdSet : bool)
    (learn_until currTime : Z) (val : BCSketchTypeDstIPs * BCSketchTypeSrcIPs)
    (d : ddosDetector) : option (outcome (bool * ddosDetector)) :=
  let learning := currTime <? learn_until in
  let installed : option (bool * ddosDetector) :=
    if negb thresholdSet && negb learning
    then match setCusumTresholds quantile_ learningSecs_ d with
         | Some d => Some (true, d)
         | None => None
         end
    else Some (thresholdSet, d) in
  match installed with
  | None => None
  | Some (thresholdSet, d) =>
      let d := if thresholdSet then checkFalsePositives protectedPrefixes d else d in
      Some
        match detectionProcess_for fuel thresholdSet learning currTime
                (seq 0 (innerSizeDstIPs d)) (val, d) with
        | Returned st => Returned (thresholdSet, st.2)
        | Thrown st => Thrown (thresholdSet, st.2)
        | OutOfFuel => OutOfFuel
        end
  end.

(** One turn of the [while (true)] loop of [detectionProcess], the turn
    that reads thresholds.csv included: [detectionProcess_window] with
    [setCusumTresholds_file] where that one gives [None].  [words] is what
    [stof] makes of the file.  An exception of [stof] leaves the loop before
    [thresholdSet = true] is reached. *)
Definition detectionProcess_turn (words : nat → nat → option Float32.t)
    (fuel : nat) (thresholdSet : bool)
    (learn_until currTime : Z) (val : BCSketchTypeDstIPs * BCSketchTypeSrcIPs)
    (d : ddosDetector) : outcome (bool * ddosDetector) :=
  let learning := currTime <? learn_until in
  let installed : outcome (bool * ddosDetector) :=
    if negb thresholdSet && negb learning
    then match setCusumTresholds quantile_ learningSecs_ d with
         | Some d => Returned (true, d)
         | None =>
             match setCusumTresholds_file words d with
             | Returned d => Returned (true, d)
             | Thrown d => Thrown (thresholdSet, d)
             | OutOfFuel => OutOfFuel
             end
         end
    else Returned (thresholdSet, d) in
  match installed with
  | Returned (thresholdSet, d) =>
      let d := if thresholdSet then checkFalsePositives protectedPrefixes d else d in
      match detectionProcess_for fuel thresholdSet learning currTime
              (seq 0 (innerSizeDstIPs d)) (val, d) with
      | Returned st => Returned (thresholdSet, st.2)
      | Thrown st => Thrown (thresholdSet, st.2)
      | OutOfFuel => OutOfFuel
      end
  | Thrown st => Thrown st
  | OutOfFuel => OutOfFuel
  end.

End Engine.

(* ===================================================================== *)
(** * The receive loop and the address helpers  (main.cpp) *)
(* ===================================================================== *)

Module main.

(** the local variables that the receive loop of [main] carries from one
    record to the next, and the detector *)
Record state : Type := mkState {
  first : bool;
  currIntervalStart : Z;       (* timePoint *)
  windowID : Z;                (* uint32_t *)
  detector : ddosDetector
}.

Definition window_length_seconds : Z := 5.

(** the state before the first record: [first = true], [windowID = 0] and
    a value-initialised [currIntervalStart] *)
Definition initial (d : ddosDetector) : state := mkState true 0 0 d.

Section loop.
Variable protectedPrefixes : Z → option Float32.t.

(** The statements of the loop body that handle an IPv4 flow record
    ([if (first) ... else ...], lines 584 to 606).  [currTime] is the value
    of [TimeManager::now()] after the record was read; timeManager.h is not
    part of the sources, so the clock is an input.  The result is the new
    state and the snapshot written to the pipe, if [notifyWorker] ran. *)
Definition receive_flow (record : netflowRecord_t) (currTime : Z) (st : state)
  : state * option (BCSketchTypeDstIPs * BCSketchTypeSrcIPs) :=
  if first st then
    (* runDetectorThread(); the interval starts; windowID++ *)
    (mkState false currTime (wrap32 (windowID st + 1)) (detector st), None)
  else
    let d :=
      if 1 <? windowID st
      then processCurrentFlow protectedPrefixes record (detector st)
      else detector st in
    if currIntervalStart st + seconds window_length_seconds <=? currTime then
      if 1 <? windowID st then
        let '(val, d) := notifyWorker d in
        (mkState false currTime (wrap32 (windowID st + 1)) d, Some val)
      else (mkState false currTime (wrap32 (windowID st + 1)) d, None)
    else (mkState false (currIntervalStart st) (windowID st) d, None).

(** the loop over a sequence of records with their clock readings; the
    snapshots written to the pipe are collected, oldest first *)
Definition receive_flows (records : list (netflowRecord_t * Z)) (st : state)
  : state * list (BCSketchTypeDstIPs * BCSketchTypeSrcIPs) :=
  foldl (λ acc rec,
           let '(st, written) := receive_flow rec.1 rec.2 acc.1 in
           (st, acc.2 ++ match written with Some val => [val] | None => [] end))
        (st, []) records.

End loop.

(** [cidrToMask]: [cidr == 0 ? 0 : ~0u << (32 - cidr)].  The shift is
    undefined in C++ for a [cidr] outside 0..32. *)
Definition cidrToMask (cidr : Z) : Z :=
  if cidr =? 0 then 0 else wrap32 (Z.shiftl 4294967295 (32 - cidr)).

(** [std::bitset<32>(x).to_string()]: 32 characters, the most significant
    bit first *)
Definition bitset32_to_string (x : Z) : list ascii :=
  (λ i : nat, if Z.testbit x (31 - Z.of_nat i) then "1"%char else "0"%char)
    <$> seq 0 32.

Section AddressText.

(** [inet_pton(AF_INET, ip, &addr)] of the C library: the address in
    network byte order when the text is a valid dotted quad *)
Variable inet_pton : list ascii → option Z.

Definition isValidIPAddress (ip : list ascii) : bool :=
  match inet_pton ip with Some _ => true | None => false end.

(** [ipToBinary]; [None] is the [std::invalid_argument] that is thrown.
    [substr(0, mask)] converts the [int] to [size_t] and returns at most
    the whole string. *)
Definition ipToBinary (ip : list ascii) (mask : Z) : option (list ascii) :=
  match inet_pton ip with
  | None => None
  | Some addr =>
      let binary := bitset32_to_string (ntohl addr) in
      Some (take (Z.to_nat (wrap64 mask)) binary)
  end.

End AddressText.
End main.

(** the string that [isProtected], [isWhitelisted] and [getMultiplier]
    search the tries with: [std::bitset<32>(ntohl(inputIP)).to_string()] *)
Definition searchKey (inputIP : Z) : list ascii :=
  main.bitset32_to_string (ntohl inputIP).

(* ===================================================================== *)
(** * Notions used in the statements *)
(* ===================================================================== *)

(** the weight that a sequence of updates [(key, value)] gives to the keys
    that satisfy [P] *)
Fixpoint weight_where (P : Z → bool) (updates : list (Z * Z)) : Z :=
  match updates with
  | [] => 0
  | kv :: updates => (if P kv.1 then kv.2 else 0) + weight_where P updates
  end.

(** a sequence of updates [(key, value)] as [update] receives it: every
    value narrowed to [uint16_t] *)
Definition narrow (updates : list (Z * Z)) : list (Z * Z) :=
  (λ kv, (kv.1, wrap16 kv.2)) <$> updates.

(** the value that a sequence of [update] calls leaves in a fresh
    [binCountSketchValue] *)
Definition BCV_stream (noBits : nat) (updates : list (Z * Z)) : binCountSketchValue.t :=
  foldl (λ b kv, binCountSketchValue.update noBits kv.1 kv.2 b)
        (binCountSketchValue.init noBits 0) updates.

(** the aggregate that the flows [records] leave in a fresh cell of the
    destination sketch; the sketch calls [update] with the /24 prefix of
    the destination as key *)
Definition DV_stream (records : list netflowRecord_t) : ddosDetectorValue.t :=
  foldl (λ a record,
           ddosDetectorValue.update (Z.land (dstAddr record) mask24) record a)
        ddosDetectorValue.init records.

(** the number of elements of a list that satisfy [P] *)
Fixpoint count_where {A : Type} (P : A → bool) (l : list A) : Z :=
  match l with
  | [] => 0
  | x :: l => (if P x then 1 else 0) + count_where P l
  end.

(** [a += b] overflows no counter, and no map of [a] holds a zero counter
    (a counter of these maps is created by [+= 1]) *)
Definition add_fits (a b : ddosDetectorValue.t) : Prop :=
  ddosDetectorValue.sentBytes_ a + ddosDetectorValue.sentBytes_ b < 2 ^ 64 ∧
  ddosDetectorValue.sentFlows_ a + ddosDetectorValue.sentFlows_ b < 2 ^ 32 ∧
  ddosDetectorValue.packetCount_ a + ddosDetectorValue.packetCount_ b < 2 ^ 32 ∧
  ddosDetectorValue.byteCount_ a + ddosDetectorValue.byteCount_ b < 2 ^ 64 ∧
  ddosDetectorValue.flowCount_ a + ddosDetectorValue.flowCount_ b < 2 ^ 32 ∧
  binCountSketchValue.totalCount (ddosDetectorValue.reversibleKey_ a)
  + binCountSketchValue.totalCount (ddosDetectorValue.reversibleKey_ b) < 2 ^ 32 ∧
  Forall2 (λ x y, x + y < 2 ^ 32)
    (binCountSketchValue.binCount (ddosDetectorValue.reversibleKey_ a))
    (binCountSketchValue.binCount (ddosDetectorValue.reversibleKey_ b)) ∧
  map_Forall (λ k x, x + default 0 (ddosDetectorValue.communicatedWith_ b !! k) < 2 ^ 32)
    (ddosDetectorValue.communicatedWith_ a) ∧
  map_Forall (λ k x, x + default 0 (ddosDetectorValue.ipSubnets_ b !! k) < 2 ^ 32)
    (ddosDetectorValue.ipSubnets_ a) ∧
  map_Forall (λ _ x, 0 < x) (ddosDetectorValue.communicatedWith_ a) ∧
  map_Forall (λ _ x, 0 < x) (ddosDetectorValue.ipSubnets_ a).

(** every counter of the sketch is within [uint32_t] *)
Definition counts_u32 {V : Type} (s : CountMinSketch.t V) : Prop :=
  ∀ i j c, CountMinSketch.lookup s i j = Some c → is_u32 (CountMinSketch.count c).

(** the five tracker vectors of the detector *)
Definition trackers (d : ddosDetector) : list (list AdaptiveCUSUM.t) :=
  [cusumBytes d; cusumPackets d; cusumEntropy d;
   cusumBytesReceivedToSent d; cusumFlowsReceivedToSent d].

(** two trackers that have processed the same number of samples *)
Definition in_step (a b : AdaptiveCUSUM.t) : Prop :=
  AdaptiveCUSUM.first a = AdaptiveCUSUM.first b ∧
  AdaptiveCUSUM.windowID a = AdaptiveCUSUM.windowID b.

(** a function on trackers that leaves the statistics and the number of
    processed samples as they are: the setters of the thresholds and of the
    time of the last alert *)
Definition neutral_setter (f : AdaptiveCUSUM.t → AdaptiveCUSUM.t) : Prop :=
  ∀ a, AdaptiveCUSUM.SH (f a) = AdaptiveCUSUM.SH a ∧
       AdaptiveCUSUM.SL (f a) = AdaptiveCUSUM.SL a ∧
       AdaptiveCUSUM.maxSH (f a) = AdaptiveCUSUM.maxSH a ∧
       AdaptiveCUSUM.maxSL (f a) = AdaptiveCUSUM.maxSL a ∧
       AdaptiveCUSUM.first (f a) = AdaptiveCUSUM.first a ∧
       AdaptiveCUSUM.windowID (f a) = AdaptiveCUSUM.windowID a.

(** what the engine keeps about its trackers: each of the five vectors has
    one tracker per destination column, every tracker satisfies
    [cusum_inv], and the five trackers of a column have processed the same
    number of samples *)
Definition engine_inv (d : ddosDetector) : Prop :=
  ∀ v, v ∈ trackers d →
       length v = innerSizeDstIPs d ∧ Forall cusum_inv v ∧
       Forall2 in_step v (cusumBytes d).

(** a vector of pairs in the order that [std::sort] with the comparator
    [a.second > b.second] leaves: no pair precedes a pair with a greater
    count *)
Fixpoint descending (l : list (Z * Z)) : Prop :=
  match l with
  | [] => True
  | x :: l => Forall (λ y, y.2 ≤ x.2) l ∧ descending l
  end.

(** ** Further values used in the examples *)

(** stand-ins for [std::log2] in the examples: exact on the powers of two,
    NaN on every other finite value *)
Definition log2_of_power (of_Z : Z → spec_float) (x : spec_float) : spec_float :=
  match x with
  | S754_finite false m e =>
      if Z.pos m =? 2 ^ Z.log2 (Z.pos m) then of_Z (Z.log2 (Z.pos m) + e)
      else S754_nan
  | S754_infinity false => S754_infinity false
  | S754_zero _ => S754_infinity true
  | _ => S754_nan
  end.

Definition log2f_example : Float32.t → Float32.t := log2_of_power Float32.of_Z.
Definition log2_example : Double.t → Double.t := log2_of_power Double.of_Z.

(** a stand-in for [inet_pton] that knows the text of 10.0.1.0 *)
Definition inet_pton_example (ip : list ascii) : option Z :=
  if decide (ip = ["1"; "0"; "."; "0"; "."; "1"; "."; "0"]%char)
  then Some 65546 else None.

(** the sketches of [detector_learned] after one flow to 10.0.1.5 *)
Definition detector_one_flow : ddosDetector :=
  processCurrentFlow protected_example flow_to_1_5 detector_learned.

(** a state of the receive loop in its second window, opened at tick 100 *)
Definition state_second_window : main.state :=
  main.mkState false 100 2 detector_learned.

(** the /24 prefix of an address held in network byte order *)
Definition prefix24 (a : Z) : Z := Z.land a mask24.

(** the destination addresses of the flows that [processCurrentFlow]
    inserts into the destination sketch: the flows to a protected
    destination, in their order *)
Definition inserted (protectedPrefixes : Z → option Float32.t)
    (flows : list netflowRecord_t) : list Z :=
  dstAddr <$> filter (λ r, isProtected protectedPrefixes (dstAddr r) = true) flows.

(** the flow to the address [a] is counted in the cell of row [i] and
    column [j] of a sketch with the hash functions and the width of [s] *)
Definition hits (s : BCSketchTypeDstIPs) (i j : nat) (a : Z) : bool :=
  bool_decide (CountMinSketch.getCol s (prefix24 a) i = j).

(** the counts and the reversible keys of the sketch [s] are those that
    the flows to the addresses [rem] leave in an empty sketch with the hash
    functions and the size of [s0] *)
Definition sketch_of (s0 s : BCSketchTypeDstIPs) (rem : list Z) : Prop :=
  CountMinSketch.hash s = CountMinSketch.hash s0 ∧
  CountMinSketch.innerSize s = CountMinSketch.innerSize s0 ∧
  CountMinSketch.outerSize s = CountMinSketch.outerSize s0 ∧
  ∀ i j, (i < CountMinSketch.outerSize s0)%nat →
         (j < CountMinSketch.innerSize s0)%nat →
    ∃ c, CountMinSketch.lookup s i j = Some c ∧
         CountMinSketch.count c = count_where (hits s0 i j) rem ∧
         binCountSketchValue.totalCount
           (ddosDetectorValue.reversibleKey_ (CountMinSketch.value c))
         = count_where (hits s0 i j) rem ∧
         length (binCountSketchValue.binCount
                   (ddosDetectorValue.reversibleKey_ (CountMinSketch.value c)))
         = 32%nat ∧
         ∀ b, (b < 32)%nat →
              binCountSketchValue.binCount
                (ddosDetectorValue.reversibleKey_ (CountMinSketch.value c)) !! b
              = Some (count_where (λ a, hits s0 i j a && Z.testbit a (Z.of_nat b)) rem).

(** A plan of the reversal of [column] for the flows to the addresses
    [rem]: the prefixes that the loop of [reverseAllKeys] recovers, in
    order, each with the prefixes [G] that leave the sketch with it.  For
    each step: the prefix [p] is a protected /24 key of the column; more
    than half of the flows left in the column go to [p]; the prefixes of
    [G], [p] among them, share the cell of [p] on every row; and on some
    row the cell of [p] holds no flow that is left but those to [G].  When
    the plan ends, no flow is left in the column. *)
Fixpoint drain_plan (protectedPrefixes : Z → option Float32.t)
    (s : BCSketchTypeDstIPs) (column : nat) (rem : list Z)
    (plan : list (Z * list Z)) : Prop :=
  match plan with
  | [] => Forall (λ a, CountMinSketch.getCol s (prefix24 a) 0 ≠ column) rem
  | (p, G) :: plan =>
      prefix24 p = p ∧ isProtected protectedPrefixes p = true ∧
      CountMinSketch.getCol s p 0 = column ∧
      count_where (hits s 0 column) rem
      < 2 * count_where (λ a, prefix24 a =? p) rem ∧
      p ∈ G ∧
      Forall (λ q, ∀ i, (i < CountMinSketch.outerSize s)%nat →
                        CountMinSketch.getCol s q i = CountMinSketch.getCol s p i) G ∧
      (∃ r, (r < CountMinSketch.outerSize s)%nat ∧
            Forall (λ a, CountMinSketch.getCol s (prefix24 a) r
                         = CountMinSketch.getCol s p r → prefix24 a ∈ G) rem) ∧
      drain_plan protectedPrefixes s column
        (filter (λ a, prefix24 a ∉ G) rem) plan
  end.

(** hash functions for an example of two prefixes that share a cell on
    row 0 only: row [i] maps a key to [key + i * (key / 65536)] *)
Definition hash_spread (i : nat) (key : Z) : Z := key + Z.of_nat i * (key / 65536).

(** the example detector with these hash functions on its destination
    sketch *)
Definition detector_spread : ddosDetector :=
  set_dstIPs (CountMinSketch.new hash_spread 3 innerSizeDstIPs_main) detector_example.

(* ===================================================================== *)
(** * The order on floating-point values *)
(* ===================================================================== *)

Ltac compare_cases :=
  repeat match goal with
  | H : context [Pos.compare_cont Eq ?a ?b] |- _ =>
      change (Pos.compare_cont Eq a b) with (Pos.compare a b) in H
  | |- context [Pos.compare_cont Eq ?a ?b] =>
      change (Pos.compare_cont Eq a b) with (Pos.compare a b)
  end;
  repeat match goal with
  | H : context [Z.compare ?a ?b] |- _ => destruct (Z.compare_spec a b); simpl in H
  | |- context [Z.compare ?a ?b] => destruct (Z.compare_spec a b); simpl
  | H : context [Pos.compare ?a ?b] |- _ => destruct (Pos.compare_spec a b); simpl in H
  | |- context [Pos.compare ?a ?b] => destruct (Pos.compare_spec a b); simpl
  end;
  try discriminate; try reflexivity; try lia.

Lemma SFltb_leb (x y : spec_float) : SFltb x y = true → SFleb x y = true.
Proof.
  unfold SFltb, SFleb. destruct (SFcompare x y) as [[]|]; congruence.
Qed.

Lemma SFleb_not_nan_l (x y : spec_float) : SFleb x y = true → not_nan x.
Proof. destruct x; simpl; auto; discriminate. Qed.

Lemma SFleb_not_nan_r (x y : spec_float) : SFleb x y = true → not_nan y.
Proof. destruct x, y; simpl; auto; discriminate. Qed.

Lemma SFleb_refl (x : spec_float) : not_nan x → SFleb x x = true.
Proof.
  destruct x as [[]|[]| |[] mx ex]; simpl; intros Hx; try reflexivity;
    try contradiction; unfold SFleb, SFcompare; compare_cases.
Qed.

Lemma SFleb_total (x y : spec_float) :
  not_nan x → not_nan y → SFltb x y = false → SFleb y x = true.
Proof.
  destruct x as [[]|[]| |[] mx ex], y as [[]|[]| |[] my ey]; simpl;
    intros Hx Hy H; try reflexivity; try contradiction; try discriminate;
    unfold SFltb, SFleb, SFcompare in *; compare_cases.
Qed.

Lemma SFleb_trans (x y z : spec_float) :
  SFleb x y = true → SFleb y z = true → SFleb x z = true.
Proof.
  destruct x as [[]|[]| |[] mx ex], y as [[]|[]| |[] my ey],
           z as [[]|[]| |[] mz ez];
    intros H1 H2; try reflexivity; try discriminate;
    unfold SFleb, SFcompare in *; compare_cases.
Qed.

Lemma Double_max_zero_nonneg (x : spec_float) :
  Double.leb Double.zero (Double.max Double.zero x) = true.
Proof.
  unfold Double.max, Double.leb.
  destruct (Double.ltb Double.zero x) eqn:E; [ now apply SFltb_leb | reflexivity ].
Qed.

Lemma Double_max_ge_l (a b : spec_float) :
  not_nan a → not_nan b → Double.leb a (Double.max a b) = true.
Proof.
  intros Ha Hb. unfold Double.max, Double.leb.
  destruct (Double.ltb a b) eqn:E; [ now apply SFltb_leb | now apply SFleb_refl ].
Qed.

Lemma Double_max_ge_r (a b : spec_float) :
  not_nan a → not_nan b → Double.leb b (Double.max a b) = true.
Proof.
  intros Ha Hb. unfold Double.max, Double.leb.
  destruct (Double.ltb a b) eqn:E; [ now apply SFleb_refl | now apply SFleb_total ].
Qed.

Lemma Double_max_nonneg (a b : spec_float) :
  Double.leb Double.zero a = true → Double.leb Double.zero b = true →
  Double.leb Double.zero (Double.max a b) = true.
Proof.
  intros Ha Hb. unfold Double.max. now destruct (Double.ltb a b).
Qed.

(* ===================================================================== *)
(** * Adaptive CUSUM: the update equations and the invariants *)
(* ===================================================================== *)

Section CusumFacts.
Import AdaptiveCUSUM.

Lemma run_snoc (a : t) (calls : list (Double.t * bool)) (x : Double.t) (l : bool) :
  run a (calls ++ [(x, l)]) = process x l (run a calls).
Proof. unfold run. now rewrite foldl_app. Qed.

Lemma run_app (a : t) (calls later : list (Double.t * bool)) :
  run a (calls ++ later) = run (run a calls) later.
Proof. unfold run. now rewrite foldl_app. Qed.

Lemma process_params (x : Double.t) (l : bool) (a : t) :
  c (process x l a) = c a ∧ alpha (process x l a) = alpha a ∧
  span_ (process x l a) = span_ a ∧ first (process x l a) = false.
Proof.
  unfold process. destruct (first a) eqn:E; simpl; [ repeat split | ].
  destruct (negb l || (span_ a <=? windowID a)); simpl; repeat split; exact E.
Qed.

Lemma run_params (a : t) (calls : list (Double.t * bool)) :
  c (run a calls) = c a ∧ alpha (run a calls) = alpha a ∧
  span_ (run a calls) = span_ a.
Proof.
  induction calls as [|[x l] calls IH] using rev_ind; [ easy | ].
  rewrite run_snoc. destruct (process_params x l (run a calls)) as (-> & -> & -> & _).
  exact IH.
Qed.

Lemma run_not_first (a : t) (call : Double.t * bool) (calls : list (Double.t * bool)) :
  first (run a (call :: calls)) = false.
Proof.
  destruct (exists_last (l := call :: calls)) as (l' & [x l] & ->); [ easy | ].
  rewrite run_snoc. apply process_params.
Qed.

Lemma cusum_inv_new (c0 alpha0 : Double.t) (span : Z) : cusum_inv (new c0 alpha0 span).
Proof. repeat split. Qed.

Lemma process_inv (x : Double.t) (l : bool) (a : t) :
  cusum_inv a →
  cusum_inv (process x l a) ∧
  Double.leb (maxSH a) (maxSH (process x l a)) = true ∧
  Double.leb (maxSL a) (maxSL (process x l a)) = true.
Proof.
  intros (HSH & HSL & HmH & HmL & HH & HL).
  assert (NmH : not_nan (maxSH a)) by (eapply SFleb_not_nan_r; exact HmH).
  assert (NmL : not_nan (maxSL a)) by (eapply SFleb_not_nan_r; exact HmL).
  unfold process. destruct (first a); simpl.
  { repeat split; auto; now apply SFleb_refl. }
  destruct (negb l || (span_ a <=? windowID a)); simpl.
  - set (sl := Double.max Double.zero _). set (sh := Double.max Double.zero _).
    assert (Hsh : Double.leb Double.zero sh = true) by apply Double_max_zero_nonneg.
    assert (Hsl : Double.leb Double.zero sl = true) by apply Double_max_zero_nonneg.
    assert (Nsh : not_nan sh) by (eapply SFleb_not_nan_r; exact Hsh).
    assert (Nsl : not_nan sl) by (eapply SFleb_not_nan_r; exact Hsl).
    repeat split; simpl; auto using Double_max_nonneg, Double_max_ge_l, Double_max_ge_r.
  - assert (NSH : not_nan (SH a)) by (eapply SFleb_not_nan_r; exact HSH).
    assert (NSL : not_nan (SL a)) by (eapply SFleb_not_nan_r; exact HSL).
    repeat split; simpl; auto using Double_max_nonneg, Double_max_ge_l, Double_max_ge_r.
Qed.

Lemma run_inv (a : t) (calls : list (Double.t * bool)) :
  cusum_inv a →
  cusum_inv (run a calls) ∧
  Double.leb (maxSH a) (maxSH (run a calls)) = true ∧
  Double.leb (maxSL a) (maxSL (run a calls)) = true.
Proof.
  revert a. induction calls as [|[x l] calls IH]; intros a Ha.
  - split; [ exact Ha | ].
    destruct Ha as (_ & _ & HmH & HmL & _).
    split; apply SFleb_refl; eapply SFleb_not_nan_r; eassumption.
  - destruct (process_inv x l a Ha) as (Ha' & H1 & H2).
    destruct (IH _ Ha') as (Hr & H3 & H4).
    split; [ exact Hr | ].
    split; eapply SFleb_trans; eassumption.
Qed.

(** C8.  From the constructor on, after any sequence of [process] calls
    [SH >= 0] and [SL >= 0]; and for any further calls, [maxSH] afterwards is
    at least the [SH] observed before them and at least the earlier [maxSH]
    (likewise [maxSL] for [SL]): [maxSH] and [maxSL] never decrease and
    dominate every earlier [SH] and [SL].  The comparisons are those of
    IEEE doubles, so the statement also says that none of the values is a
    NaN, whatever the inputs are. *)
Theorem C8_cusum_invariants (c0 alpha0 : Double.t) (span : Z)
    (calls later : list (Double.t * bool)) :
  let s := run (new c0 alpha0 span) calls in
  let s' := run s later in
  Double.leb Double.zero (SH s) = true ∧
  Double.leb Double.zero (SL s) = true ∧
  Double.leb (SH s) (maxSH s') = true ∧
  Double.leb (SL s) (maxSL s') = true ∧
  Double.leb (maxSH s) (maxSH s') = true ∧
  Double.leb (maxSL s) (maxSL s') = true.
Proof.
  intros s s'.
  destruct (run_inv _ calls (cusum_inv_new c0 alpha0 span))
    as ((HSH & HSL & HmH & HmL & HH & HL) & _).
  fold s in HSH, HSL, HmH, HmL, HH, HL.
  assert (Hs : cusum_inv s) by (repeat split; assumption).
  destruct (run_inv s later Hs) as (_ & H1 & H2). fold s' in H1, H2.
  repeat split; auto; eapply SFleb_trans; eassumption.
Qed.

(** C3.  For a tracker built by the constructor and any sequence of earlier
    calls: the first call ever sets [m = x] and [v = 0]; every later call
    sets [m] to [m + alpha * (x - m)] and [v] to
    [(1 - alpha) * v + alpha * (x - m) * (x - m)] (with the previous [m]),
    then, exactly when [learning] is false or [windowID >= span], sets [SH]
    to [max(0, SH + (x - m') - c * sqrt v')] and [SL] to
    [max(0, SL - (x - m') - c * sqrt v')] with the new [m'] and [v'] (and
    leaves them unchanged otherwise), and sets [maxSH], [maxSL] to the maximum
    of the new [SH], [SL] and their previous values.  All operations are
    those of IEEE doubles, products associating to the left as in the
    source. *)
Theorem C3_process_update (c0 alpha0 : Double.t) (span : Z)
    (calls : list (Double.t * bool)) (x : Double.t) (learning : bool) :
  let a := run (new c0 alpha0 span) calls in
  let a' := process x learning a in
  match calls with
  | [] => m a' = x ∧ v a' = Double.zero
  | _ :: _ =>
      let m' := (m a + alpha0 * (x - m a))%D in
      let v' := ((Double.one - alpha0) * v a + alpha0 * (x - m a) * (x - m a))%D in
      m a' = m' ∧ v a' = v' ∧
      SH a' = (if negb learning || (span <=? windowID a)
               then Double.max Double.zero (SH a + (x - m') - c0 * Double.sqrt v')%D
               else SH a) ∧
      SL a' = (if negb learning || (span <=? windowID a)
               then Double.max Double.zero (SL a - (x - m') - c0 * Double.sqrt v')%D
               else SL a) ∧
      maxSH a' = Double.max (SH a') (maxSH a) ∧
      maxSL a' = Double.max (SL a') (maxSL a)
  end.
Proof.
  intros a a'. destruct calls as [|call calls]; [ now split | ].
  pose proof (run_not_first (new c0 alpha0 span) call calls) as Hf.
  destruct (run_params (new c0 alpha0 span) (call :: calls)) as (Hc & Halpha & Hspan).
  fold a in Hf, Hc, Halpha, Hspan. simpl in Hc, Halpha, Hspan.
  subst a'. unfold process. rewrite Hf. simpl. rewrite Hc, Halpha, Hspan.
  destruct (negb learning || (span <=? windowID a)); simpl; repeat split.
Qed.

End CusumFacts.

(* ===================================================================== *)
(** * Loops over an array *)
(* ===================================================================== *)

(** A loop [for i in s .. s+k-1] whose body rewrites element [i] only
    changes each element of that range once, by the body. *)
Lemma foldl_seq_lookup {A : Type} (F : list A → nat → list A) (g : nat → A → A) :
  (∀ l i j, i ≠ j → F l i !! j = l !! j) →
  (∀ l i, F l i !! i = g i <$> l !! i) →
  ∀ k s l j,
    foldl F l (seq s k) !! j =
    if decide (s ≤ j < s + k)%nat then g j <$> l !! j else l !! j.
Proof.
  intros Hne Heq. induction k as [|k IH]; intros s l j; simpl.
  - case_decide; [ lia | reflexivity ].
  - rewrite IH. destruct (decide (j = s)) as [->|Hj].
    + rewrite Heq. repeat case_decide; try lia; reflexivity.
    + rewrite Hne by congruence. repeat case_decide; try lia; reflexivity.
Qed.

Lemma foldl_seq_length {A : Type} (F : list A → nat → list A) :
  (∀ l i, length (F l i) = length l) →
  ∀ k s l, length (foldl F l (seq s k)) = length l.
Proof.
  intros HF. induction k as [|k IH]; intros s l; simpl; [ reflexivity | ].
  now rewrite IH, HF.
Qed.

Lemma list_insert_total_lookup (g : Z → Z) (l : list Z) (i : nat) :
  <[i := g (l !!! i)]> l !! i = g <$> l !! i.
Proof.
  destruct (l !! i) as [x|] eqn:E.
  - rewrite list_lookup_insert_eq by (apply lookup_lt_is_Some; eauto).
    now rewrite (list_lookup_total_correct _ _ _ E).
  - rewrite list_insert_ge by (now apply lookup_ge_None). now rewrite E.
Qed.

(* ===================================================================== *)
(** * The bin-count sketch value *)
(* ===================================================================== *)

Section BCVFacts.
Import binCountSketchValue.
Variable noBits : nat.

Lemma reverseKey_loop_testbit (cond : nat → bool) (k s : nat) (acc : Z) (j : Z) :
  0 ≤ j →
  Z.testbit
    (foldl (λ reversed i, if cond i then Z.lor reversed (Z.shiftl 1 (Z.of_nat i))
                          else reversed) acc (seq s k)) j
  = Z.testbit acc j ||
    (bool_decide (Z.of_nat s ≤ j < Z.of_nat (s + k)) && cond (Z.to_nat j)).
Proof.
  intros Hj. revert s acc. induction k as [|k IH]; intros s acc; simpl.
  - rewrite bool_decide_eq_false_2 by lia. now rewrite orb_false_r.
  - rewrite IH. destruct (cond s) eqn:Ec.
    + rewrite Z.lor_spec, Z.shiftl_1_l, Z.pow2_bits_eqb by lia.
      destruct (Z.eqb_spec (Z.of_nat s) j) as [<-|Hne].
      * rewrite Nat2Z.id, Ec.
        rewrite (bool_decide_eq_true_2 (Z.of_nat s ≤ _ < _)) by lia.
        now rewrite !orb_true_r.
      * rewrite orb_false_r. f_equal. f_equal. apply bool_decide_ext. lia.
    + destruct (decide (Z.of_nat s = j)) as [<-|Hne].
      * rewrite Nat2Z.id, Ec, !andb_false_r. reflexivity.
      * f_equal. f_equal. apply bool_decide_ext. lia.
Qed.

Lemma reverseKey_testbit (b : t) (j : Z) :
  0 ≤ j →
  Z.testbit (reverseKey noBits b) j =
  bool_decide (j < Z.of_nat noBits) &&
  (binCount b !!! Z.to_nat j >? totalCount b / 2).
Proof.
  intros Hj. unfold reverseKey.
  rewrite (reverseKey_loop_testbit (λ i, binCount b !!! i >? totalCount b / 2)) by easy.
  rewrite Z.bits_0. simpl. f_equal. apply bool_decide_ext. lia.
Qed.

Lemma sub_totalCount (a other : t) :
  totalCount (sub noBits a other) =
  if totalCount a <? totalCount other then 0
  else wrap32 (totalCount a - totalCount other).
Proof. reflexivity. Qed.

Lemma update_binCount_lookup (key value : Z) (b : t) (j : nat) :
  binCount (update noBits key value b) !! j =
  if decide (j < noBits)%nat
  then (λ x, if Z.testbit key (Z.of_nat j) then wrap32 (x + wrap16 value) else x)
         <$> binCount b !! j
  else binCount b !! j.
Proof.
  unfold update; cbv zeta; cbn [binCount].
  rewrite (foldl_seq_lookup _
             (λ i x, if Z.testbit key (Z.of_nat i)
                     then wrap32 (x + wrap16 value) else x)).
  - repeat case_decide; try lia; reflexivity.
  - intros l i j' Hij. destruct (Z.testbit key (Z.of_nat i)); [ | reflexivity ].
    now apply list_lookup_insert_ne.
  - intros l i. destruct (Z.testbit key (Z.of_nat i)).
    + apply (list_insert_total_lookup (λ x, wrap32 (x + wrap16 value))).
    + now destruct (l !! i).
Qed.

Lemma update_totalCount (key value : Z) (b : t) :
  totalCount (update noBits key value b) = wrap32 (totalCount b + wrap16 value).
Proof. reflexivity. Qed.

Lemma update_binCount_length (key value : Z) (b : t) :
  length (binCount (update noBits key value b)) = length (binCount b).
Proof.
  unfold update; simpl. apply foldl_seq_length.
  intros l i. destruct (Z.testbit key (Z.of_nat i)); [ apply length_insert | reflexivity ].
Qed.

Lemma sub_binCount_lookup (a other : t) (j : nat) :
  binCount (sub noBits a other) !! j =
  if decide (j < noBits)%nat
  then (λ x, if x <? binCount other !!! j then 0
             else wrap32 (x - binCount other !!! j)) <$> binCount a !! j
  else binCount a !! j.
Proof.
  unfold sub; simpl.
  rewrite (foldl_seq_lookup _
             (λ i x, if x <? binCount other !!! i then 0
                     else wrap32 (x - binCount other !!! i))).
  - repeat case_decide; try lia; reflexivity.
  - intros l i j' Hij. now apply list_lookup_insert_ne.
  - intros l i.
    apply (list_insert_total_lookup
             (λ x, if x <? binCount other !!! i then 0
                   else wrap32 (x - binCount other !!! i))).
Qed.

Lemma add_binCount_lookup (a other : t) (j : nat) :
  binCount (add noBits a other) !! j =
  if decide (j < noBits)%nat
  then (λ x, wrap32 (x + binCount other !!! j)) <$> binCount a !! j
  else binCount a !! j.
Proof.
  unfold add; simpl.
  rewrite (foldl_seq_lookup _ (λ i x, wrap32 (x + binCount other !!! i))).
  - repeat case_decide; try lia; reflexivity.
  - intros l i j' Hij. now apply list_lookup_insert_ne.
  - intros l i.
    apply (list_insert_total_lookup (λ x, wrap32 (x + binCount other !!! i))).
Qed.

(** what a cell holds after updates that all carry the same key *)
Lemma single_key_updates (key : Z) (values : list Z) :
  let b := foldl (λ b value, update noBits key value b) (init noBits 0) values in
  0 ≤ totalCount b ∧
  ∀ j, (j < noBits)%nat →
       binCount b !! j = Some (if Z.testbit key (Z.of_nat j) then totalCount b else 0).
Proof.
  induction values as [|value values IH] using rev_ind.
  - simpl. split; [ lia | ]. intros j Hj. rewrite lookup_replicate_2 by easy.
    now destruct (Z.testbit key (Z.of_nat j)).
  - rewrite foldl_app. cbn [foldl].
    set (b := foldl (λ b value, update noBits key value b) (init noBits 0) values) in *.
    destruct IH as [Ht Hb]. cbv zeta. split.
    + unfold update, wrap32; simpl. apply Z.mod_pos_bound. lia.
    + intros j Hj. rewrite update_binCount_lookup, decide_True by easy.
      rewrite (Hb j Hj). unfold update; simpl.
      now destruct (Z.testbit key (Z.of_nat j)).
Qed.

End BCVFacts.

Lemma wrap16_small (z : Z) : 0 ≤ z < 2 ^ 16 → wrap16 z = z.
Proof. intros Hz. unfold wrap16. now apply Z.mod_small. Qed.

Lemma fmap_wrap16_u16 (values : list Z) :
  Forall is_u16 values → wrap16 <$> values = values.
Proof.
  induction 1 as [|value values Hv _ IH]; [ reflexivity | ].
  rewrite fmap_cons, IH. f_equal. now apply wrap16_small.
Qed.

(** the total after updates with one key: the sum of the weights, each
    narrowed to 16 bits, in 32-bit arithmetic *)
Lemma updates_totalCount (noBits : nat) (key : Z) (values : list Z) :
  binCountSketchValue.totalCount
    (foldl (λ b value, binCountSketchValue.update noBits key value b)
           (binCountSketchValue.init noBits 0) values)
  = wrap32 (total_weight (wrap16 <$> values)).
Proof.
  unfold total_weight. induction values as [|value values IH] using rev_ind.
  - reflexivity.
  - rewrite fmap_app, !foldl_app. cbn [foldl fmap list_fmap].
    rewrite update_totalCount, IH. unfold wrap32. apply Z.add_mod_idemp_l. lia.
Qed.

(** what [reverseKey] returns after updates that all carry the key [k]:
    [k] when the 32-bit total is not 0, and 0 when it is *)
Lemma single_key_reverseKey (noBits : nat) (k : Z) (values : list Z) :
  (noBits ≤ 32)%nat → 0 ≤ k < 2 ^ Z.of_nat noBits →
  let b := foldl (λ b value, binCountSketchValue.update noBits k value b)
                 (binCountSketchValue.init noBits 0) values in
  binCountSketchValue.reverseKey noBits b
  = if binCountSketchValue.totalCount b =? 0 then 0 else k.
Proof.
  intros Hbits Hk b.
  destruct (single_key_updates noBits k values) as [Hnn Hb]. fold b in Hnn, Hb.
  apply Z.bits_inj'. intros j Hj. rewrite reverseKey_testbit by easy.
  destruct (decide (j < Z.of_nat noBits)) as [Hlt|Hge].
  - rewrite bool_decide_eq_true_2 by easy. cbn [andb].
    assert (Hbj := Hb (Z.to_nat j) ltac:(lia)).
    apply list_lookup_total_correct in Hbj. rewrite Hbj, Z2Nat.id by easy.
    destruct (Z.eqb_spec (binCountSketchValue.totalCount b) 0) as [Hz|Hnz].
    + rewrite Hz, Z.bits_0. now destruct (Z.testbit k j).
    + assert (binCountSketchValue.totalCount b / 2 < binCountSketchValue.totalCount b)
        by (apply Z.div_lt; lia).
      assert (0 ≤ binCountSketchValue.totalCount b / 2)
        by (apply Z.div_pos; lia).
      destruct (Z.testbit k j); lia.
  - rewrite bool_decide_eq_false_2 by easy. cbn [andb]. symmetry.
    destruct (_ =? 0); [ apply Z.bits_0 | ].
    apply (proj1 (Z.bounded_iff_bits_nonneg' (Z.of_nat noBits) k ltac:(lia) ltac:(lia)));
      [ exact Hk | lia ].
Qed.

(** C6 (as amended).  For a key of [noBits] bits ([noBits] at most 32, the
    width of the shift [1 << i]): bit [i] of the key returned by
    [reverseKey] is 1 exactly when [binCount[i] > totalCount / 2]; and when
    a value that starts at zero has only received updates with one key [k]
    and 16-bit weights that sum to [T], its total is [T mod 2^32], and
    [reverseKey] returns [k] when [T mod 2^32] is not 0 (so whenever
    [0 < T < 2^32]) and 0 when it is. *)
Theorem C6_reverseKey_majority (noBits : nat) (Hbits : (noBits ≤ 32)%nat) :
  (∀ (b : binCountSketchValue.t) (i : nat), (i < noBits)%nat →
     Z.testbit (binCountSketchValue.reverseKey noBits b) (Z.of_nat i) =
     (binCountSketchValue.binCount b !!! i >? binCountSketchValue.totalCount b / 2)) ∧
  (∀ (k : Z) (values : list Z), 0 ≤ k < 2 ^ Z.of_nat noBits →
     Forall is_u16 values →
     let b := foldl (λ b value, binCountSketchValue.update noBits k value b)
                    (binCountSketchValue.init noBits 0) values in
     binCountSketchValue.totalCount b = wrap32 (total_weight values) ∧
     binCountSketchValue.reverseKey noBits b
     = if wrap32 (total_weight values) =? 0 then 0 else k).
Proof.
  split.
  - intros b i Hi. rewrite reverseKey_testbit by lia.
    rewrite bool_decide_eq_true_2 by lia. now rewrite Nat2Z.id.
  - intros k values Hk Hvalues b.
    assert (Ht : binCountSketchValue.totalCount b = wrap32 (total_weight values)).
    { unfold b. now rewrite updates_totalCount, fmap_wrap16_u16. }
    split; [ exact Ht | ]. rewrite <- Ht. now apply single_key_reverseKey.
Qed.

Lemma C6_reverseKey_majority_witness :
  binCountSketchValue.reverseKey 32
    (foldl (λ b value, binCountSketchValue.update 32 84017162 value b)
           (binCountSketchValue.init 32 0) [1; 65535; 1]) = 84017162.
Proof.
  apply (proj2 (proj2 (C6_reverseKey_majority 32 ltac:(lia)) 84017162 [1; 65535; 1]
                  ltac:(lia) ltac:(repeat constructor; unfold is_u16; lia))).
Defined.

(** C6 as stated fails: the key 10.0.2.5 receives 65537 updates of weight
    65535 and one of weight 1, all within [uint16_t]; their sum is
    [T = 2^32 > 0], the 32-bit total wraps to 0, no bin exceeds 0, and
    [reverseKey] returns 0 and not the key. *)
Lemma C6_total_of_2_32_returns_zero :
  let values := replicate (Z.to_nat 65537) 65535 ++ [1] in
  let b := foldl (λ b value, binCountSketchValue.update 32 84017162 value b)
                 (binCountSketchValue.init 32 0) values in
  Forall is_u16 values ∧
  total_weight values = 2 ^ 32 ∧
  binCountSketchValue.totalCount b = 0 ∧
  binCountSketchValue.reverseKey 32 b = 0.
Proof.
  intros values b.
  assert (Hu : Forall is_u16 values).
  { apply Forall_app. split; [ apply Forall_replicate | repeat constructor ];
      unfold is_u16; lia. }
  assert (Hsum : total_weight values = 2 ^ 32) by (vm_compute; reflexivity).
  assert (Ht : binCountSketchValue.totalCount b = 0).
  { unfold b. rewrite updates_totalCount, fmap_wrap16_u16, Hsum by exact Hu.
    reflexivity. }
  split; [ exact Hu | ]. split; [ exact Hsum | ]. split; [ exact Ht | ].
  unfold b. rewrite single_key_reverseKey by (simpl; lia).
  fold b. now rewrite Ht.
Qed.

(* ===================================================================== *)
(** * Saturating subtraction of aggregates *)
(* ===================================================================== *)

Lemma map_sub1_lookup (m : gmap Z Z) (kv : Z * Z) (k : Z) :
  ddosDetectorValue.map_sub1 m kv !! k =
  if decide (k = kv.1)
  then match m !! k with
       | Some x => if x >? kv.2 then Some (wrap32 (x - kv.2)) else None
       | None => None
       end
  else m !! k.
Proof.
  unfold ddosDetectorValue.map_sub1. destruct kv as [k0 v0]; simpl.
  case_decide as Hk.
  - subst k0. destruct (m !! k) as [x|] eqn:E; [ | exact E ].
    destruct (x >? v0); [ apply lookup_insert_eq | apply lookup_delete_eq ].
  - destruct (m !! k0) as [x|] eqn:E; [ | reflexivity ].
    destruct (x >? v0); [ now apply lookup_insert_ne | now apply lookup_delete_ne ].
Qed.

Lemma foldl_map_sub1_lookup (l : list (Z * Z)) (m : gmap Z Z) (k : Z) :
  NoDup l.*1 →
  foldl ddosDetectorValue.map_sub1 m l !! k =
  match m !! k with
  | Some x =>
      match (list_to_map l : gmap Z Z) !! k with
      | Some y => if x >? y then Some (wrap32 (x - y)) else None
      | None => Some x
      end
  | None => None
  end.
Proof.
  revert m. induction l as [|[k0 v0] l IH]; intros m Hnd; simpl.
  - rewrite lookup_empty. now destruct (m !! k).
  - apply NoDup_cons in Hnd as [Hk0 Hnd]. rewrite IH by easy.
    rewrite map_sub1_lookup; simpl. case_decide as Hk.
    + subst k0. rewrite lookup_insert_eq.
      rewrite (not_elem_of_list_to_map_1 l k Hk0).
      destruct (m !! k) as [x|]; [ | reflexivity ]. now destruct (x >? v0).
    + now rewrite lookup_insert_ne by congruence.
Qed.

(** the maps after [operator-=]: an entry of [m] that [other] also has is
    lowered when it stays positive and erased otherwise; the others stay. *)
Lemma map_sub_lookup (m other : gmap Z Z) (k : Z) :
  ddosDetectorValue.map_sub m other !! k =
  match m !! k with
  | Some x =>
      match other !! k with
      | Some y => if x >? y then Some (wrap32 (x - y)) else None
      | None => Some x
      end
  | None => None
  end.
Proof.
  unfold ddosDetectorValue.map_sub.
  rewrite foldl_map_sub1_lookup by apply NoDup_fst_map_to_list.
  now rewrite list_to_map_to_list.
Qed.

Lemma wrap32_small (z : Z) : 0 ≤ z < 2 ^ 32 → wrap32 z = z.
Proof. intros Hz. unfold wrap32. now apply Z.mod_small. Qed.

Lemma wrap64_small (z : Z) : 0 ≤ z < 2 ^ 64 → wrap64 z = z.
Proof. intros Hz. unfold wrap64. now apply Z.mod_small. Qed.

Lemma sat_sub32_gtb (x y : Z) :
  is_u32 x → is_u32 y →
  (if y >? x then 0 else wrap32 (x - y)) = Z.max (x - y) 0.
Proof.
  unfold is_u32. intros Hx Hy. destruct (Z.gtb_spec y x); [ lia | ].
  rewrite wrap32_small; lia.
Qed.

Lemma sat_sub64_gtb (x y : Z) :
  is_u64 x → is_u64 y →
  (if y >? x then 0 else wrap64 (x - y)) = Z.max (x - y) 0.
Proof.
  unfold is_u64. intros Hx Hy. destruct (Z.gtb_spec y x); [ lia | ].
  rewrite wrap64_small; lia.
Qed.

Lemma sat_sub32_ltb (x y : Z) :
  is_u32 x → is_u32 y →
  (if x <? y then 0 else wrap32 (x - y)) = Z.max (x - y) 0.
Proof.
  unfold is_u32. intros Hx Hy. destruct (Z.ltb_spec x y); [ lia | ].
  rewrite wrap32_small; lia.
Qed.

Lemma BCV_wf_lookup (n : nat) (b : binCountSketchValue.t) (i : nat) :
  binCountSketchValue.wf n b → (i < n)%nat →
  binCountSketchValue.binCount b !! i = Some (binCountSketchValue.binCount b !!! i) ∧
  is_u32 (binCountSketchValue.binCount b !!! i).
Proof.
  intros (_ & Hlen & Hall) Hi.
  assert (Hs : is_Some (binCountSketchValue.binCount b !! i))
    by (apply lookup_lt_is_Some; lia).
  apply list_lookup_lookup_total in Hs. split; [ exact Hs | ].
  eapply Forall_lookup_1; eassumption.
Qed.

(** C7.  For aggregates [a] and [b] whose fields are within their C++ types,
    after [a -= b] every scalar field of [a] ([totalCount], each
    [binCount[i]], [byteCount_], [packetCount_], [flowCount_], [sentBytes_],
    [sentFlows_]) is [max(a_field - b_field, 0)], hence never negative and
    never wrapped; and in [communicatedWith_] and [ipSubnets_] an entry that
    [b] does not have is kept, an entry whose value exceeds [b]'s is lowered
    by it, and every other entry is erased, so every remaining value is
    at least 0. *)
Theorem C7_saturating_subtraction (a b : ddosDetectorValue.t) :
  ddosDetectorValue.wf a → ddosDetectorValue.wf b →
  let r := ddosDetectorValue.sub a b in
  let entry (x : option Z) (y : option Z) : option Z :=
    match x with
    | Some x => match y with
                | Some y => if x >? y then Some (x - y) else None
                | None => Some x
                end
    | None => None
    end in
  binCountSketchValue.totalCount (ddosDetectorValue.reversibleKey_ r) =
    Z.max (binCountSketchValue.totalCount (ddosDetectorValue.reversibleKey_ a)
           - binCountSketchValue.totalCount (ddosDetectorValue.reversibleKey_ b)) 0 ∧
  (∀ i, (i < 32)%nat →
     binCountSketchValue.binCount (ddosDetectorValue.reversibleKey_ r) !! i =
     Some (Z.max (binCountSketchValue.binCount (ddosDetectorValue.reversibleKey_ a) !!! i
                  - binCountSketchValue.binCount (ddosDetectorValue.reversibleKey_ b) !!! i) 0)) ∧
  ddosDetectorValue.byteCount_ r =
    Z.max (ddosDetectorValue.byteCount_ a - ddosDetectorValue.byteCount_ b) 0 ∧
  ddosDetectorValue.packetCount_ r =
    Z.max (ddosDetectorValue.packetCount_ a - ddosDetectorValue.packetCount_ b) 0 ∧
  ddosDetectorValue.flowCount_ r =
    Z.max (ddosDetectorValue.flowCount_ a - ddosDetectorValue.flowCount_ b) 0 ∧
  ddosDetectorValue.sentBytes_ r =
    Z.max (ddosDetectorValue.sentBytes_ a - ddosDetectorValue.sentBytes_ b) 0 ∧
  ddosDetectorValue.sentFlows_ r =
    Z.max (ddosDetectorValue.sentFlows_ a - ddosDetectorValue.sentFlows_ b) 0 ∧
  (∀ k, ddosDetectorValue.communicatedWith_ r !! k =
        entry (ddosDetectorValue.communicatedWith_ a !! k)
              (ddosDetectorValue.communicatedWith_ b !! k)) ∧
  (∀ k, ddosDetectorValue.ipSubnets_ r !! k =
        entry (ddosDetectorValue.ipSubnets_ a !! k)
              (ddosDetectorValue.ipSubnets_ b !! k)) ∧
  (∀ k x, ddosDetectorValue.communicatedWith_ r !! k = Some x → 0 ≤ x) ∧
  (∀ k x, ddosDetectorValue.ipSubnets_ r !! k = Some x → 0 ≤ x).
Proof.
  intros (Ha1 & Ha2 & Ha3 & Ha4 & Ha5 & Ha6 & Ha7 & Ha8)
         (Hb1 & Hb2 & Hb3 & Hb4 & Hb5 & Hb6 & Hb7 & Hb8) r entry.
  assert (Hmap : ∀ (m other : gmap Z Z),
             map_Forall (λ _ x, is_u32 x) m → map_Forall (λ _ x, is_u32 x) other →
             ∀ k, ddosDetectorValue.map_sub m other !! k = entry (m !! k) (other !! k)).
  { intros m other Hm Ho k. rewrite map_sub_lookup. unfold entry.
    destruct (m !! k) as [x|] eqn:Ex; [ | reflexivity ].
    destruct (other !! k) as [y|] eqn:Ey; [ | reflexivity ].
    destruct (Z.gtb_spec x y); [ | reflexivity ].
    pose proof (Hm _ _ Ex) as Hx. pose proof (Ho _ _ Ey) as Hy.
    unfold is_u32 in *; simpl in *. rewrite wrap32_small by lia. reflexivity. }
  assert (Hpos : ∀ (m other : gmap Z Z),
             map_Forall (λ _ x, is_u32 x) m → map_Forall (λ _ x, is_u32 x) other →
             ∀ k x, ddosDetectorValue.map_sub m other !! k = Some x → 0 ≤ x).
  { intros m other Hm Ho k x. rewrite (Hmap m other Hm Ho). unfold entry.
    destruct (m !! k) as [x'|] eqn:Ex; [ | discriminate ].
    pose proof (Hm _ _ Ex) as Hx. unfold is_u32 in Hx; simpl in Hx.
    destruct (other !! k) as [y|] eqn:Ey.
    - pose proof (Ho _ _ Ey) as Hy. unfold is_u32 in Hy; simpl in Hy.
      destruct (Z.gtb_spec x' y); intros [= <-]; lia.
    - intros [= <-]; lia. }
  subst r. unfold ddosDetectorValue.sub.
  cbn [ddosDetectorValue.sentBytes_ ddosDetectorValue.sentFlows_
       ddosDetectorValue.packetCount_ ddosDetectorValue.byteCount_
       ddosDetectorValue.flowCount_ ddosDetectorValue.reversibleKey_
       ddosDetectorValue.communicatedWith_ ddosDetectorValue.ipSubnets_].
  repeat split;
    try (apply sat_sub32_gtb; assumption); try (apply sat_sub64_gtb; assumption);
    try (now apply Hmap); try (now apply Hpos).
  - rewrite sub_totalCount.
    destruct Ha6 as (? & _), Hb6 as (? & _). now apply sat_sub32_ltb.
  - intros i Hi.
    rewrite sub_binCount_lookup, decide_True by easy.
    destruct (BCV_wf_lookup 32 _ i Ha6 Hi) as [-> Hai].
    destruct (BCV_wf_lookup 32 _ i Hb6 Hi) as [_ Hbi].
    simpl. f_equal. now apply sat_sub32_ltb.
Qed.

Ltac solve_wf :=
  unfold ddosDetectorValue.wf, binCountSketchValue.wf;
  repeat match goal with
  | |- _ ∧ _ => split
  | |- is_u32 _ => refine (bool_decide_unpack _ _); vm_compute; exact I
  | |- is_u64 _ => refine (bool_decide_unpack _ _); vm_compute; exact I
  | |- length _ = _ => reflexivity
  | |- Forall _ _ => refine (bool_decide_unpack _ _); vm_compute; exact I
  | |- map_Forall _ _ => refine (bool_decide_unpack _ _); vm_compute; exact I
  end.

Lemma value_a_wf : ddosDetectorValue.wf value_a.
Proof. solve_wf. Qed.

Lemma value_b_wf : ddosDetectorValue.wf value_b.
Proof. solve_wf. Qed.

Lemma C7_saturating_subtraction_witness :
  ddosDetectorValue.sentBytes_ (ddosDetectorValue.sub value_a value_b) = 0 ∧
  ddosDetectorValue.byteCount_ (ddosDetectorValue.sub value_a value_b) = 500 ∧
  ddosDetectorValue.communicatedWith_ (ddosDetectorValue.sub value_a value_b) !! 5
    = Some 2 ∧
  ddosDetectorValue.communicatedWith_ (ddosDetectorValue.sub value_a value_b) !! 6
    = None.
Proof.
  destruct (C7_saturating_subtraction value_a value_b value_a_wf value_b_wf)
    as (_ & _ & Hbytes & _ & _ & Hsent & _ & Hcomm & _).
  split; [ exact Hsent | ]. split; [ exact Hbytes | ].
  split; [ exact (Hcomm 5) | exact (Hcomm 6) ].
Defined.

(* ===================================================================== *)
(** * The detection engine: alerts, false positives, thresholds *)
(* ===================================================================== *)

Lemma existsb_insert_by_count (P : Z * Z → bool) (x : Z * Z) (l : list (Z * Z)) :
  existsb P (insert_by_count x l) = P x || existsb P l.
Proof.
  induction l as [|y l IH]; simpl; [ reflexivity | ].
  destruct (x.2 >=? y.2); simpl; [ reflexivity | ].
  rewrite IH. now destruct (P x), (P y).
Qed.

Lemma existsb_sort_by_count (P : Z * Z → bool) (l : list (Z * Z)) :
  existsb P (sort_by_count l) = existsb P l.
Proof.
  induction l as [|x l IH]; simpl; [ reflexivity | ].
  now rewrite existsb_insert_by_count, IH.
Qed.

Section DetectorFacts.
Variable protectedPrefixes : Z → option Float32.t.
Variable whitelistedPrefixes : Z → bool.
Variable n_ : Z.
Variable timeBetweenAlertsSecs_ : Z.

#[local] Abbreviation isWhitelisted := (isWhitelisted protectedPrefixes whitelistedPrefixes).
#[local] Abbreviation getMultiplier := (getMultiplier protectedPrefixes).

(** the set filled by [getTopNSrcIPs] is empty exactly when it was empty
    and every reversed source is whitelisted *)
Lemma getTopNSrcIPs_for_empty (l : list (Z * Z)) (acc : gset Z) :
  getTopNSrcIPs_for protectedPrefixes whitelistedPrefixes n_ l acc = ∅ ↔
  acc = ∅ ∧ existsb (λ srcIP, negb (isWhitelisted srcIP.1)) l = false.
Proof.
  revert acc. induction l as [|srcIP l IH]; intros acc; simpl.
  - tauto.
  - destruct (isWhitelisted srcIP.1); simpl; [ apply IH | ].
    assert (Hne : acc ∪ {[srcIP.1]} ≠ ∅).
    { intros Heq. apply (not_elem_of_empty (C := gset Z) srcIP.1).
      rewrite <- Heq. apply elem_of_union_r, elem_of_singleton. reflexivity. }
    destruct (Z.of_nat (size (acc ∪ {[srcIP.1]})) =? wrap64 n_).
    + split; [ intros H; contradiction | intros [_ H]; discriminate ].
    + rewrite IH. split; [ intros [H _]; contradiction | intros [_ H]; discriminate ].
Qed.

(** C1.  In the window read at [currTime], the column [j] gets an alert
    enqueued exactly when the thresholds are installed, all five trackers of
    the column (bytes, packets, entropy, bytes received-to-sent, flows
    received-to-sent) report a positive anomaly at the multiplier of
    [maxIP], the quiet period has elapsed
    ([currTime - lastAlert[j] > timeBetweenAlertsSecs_]) and some reversed
    source address is not whitelisted; in every other case the alert queue
    is left as it was. *)
Theorem C1_alert_predicate (thresholdSet : bool) (currTime maxIP : Z) (j : nat)
    (reversedSrcIPs : list (Z * Z)) (d : ddosDetector) :
  let d' := detectionProcess_alert protectedPrefixes whitelistedPrefixes n_
              timeBetweenAlertsSecs_ thresholdSet currTime maxIP j reversedSrcIPs d in
  let multiplier := Double.of_float (getMultiplier maxIP) in
  let allFive :=
    AdaptiveCUSUM.isPositiveAnomaly multiplier (cusumBytes d !!! j) &&
    AdaptiveCUSUM.isPositiveAnomaly multiplier (cusumPackets d !!! j) &&
    AdaptiveCUSUM.isPositiveAnomaly multiplier (cusumEntropy d !!! j) &&
    AdaptiveCUSUM.isPositiveAnomaly multiplier (cusumBytesReceivedToSent d !!! j) &&
    AdaptiveCUSUM.isPositiveAnomaly multiplier (cusumFlowsReceivedToSent d !!! j) in
  let quiet :=
    seconds timeBetweenAlertsSecs_ <?
    currTime - AdaptiveCUSUM.getLastAlert (cusumBytes d !!! j) in
  let nonWhitelisted :=
    existsb (λ srcIP, negb (isWhitelisted srcIP.1)) reversedSrcIPs in
  if thresholdSet && allFive && quiet && nonWhitelisted
  then ∃ alert, dosAlertsQueue d' = dosAlertsQueue d ++ [alert] ∧
                cusumID alert = Z.of_nat j ∧ dstIP alert = maxIP
  else dosAlertsQueue d' = dosAlertsQueue d.
Proof.
  intros d' multiplier allFive quiet nonWhitelisted.
  subst d'. unfold detectionProcess_alert, detectAnomaly.
  fold multiplier.
  assert (Hq : (AdaptiveCUSUM.getLastAlert (cusumBytes d !!! j)
                + seconds timeBetweenAlertsSecs_ <? currTime) = quiet).
  { subst quiet. destruct (Z.ltb_spec (AdaptiveCUSUM.getLastAlert (cusumBytes d !!! j)
                + seconds timeBetweenAlertsSecs_) currTime);
      symmetry; [ apply Z.ltb_lt | apply Z.ltb_ge ]; lia. }
  rewrite Hq. clear Hq.
  assert (He : (getTopNSrcIPs protectedPrefixes whitelistedPrefixes n_
                  reversedSrcIPs ∅).2 = ∅ ↔ nonWhitelisted = false).
  { unfold getTopNSrcIPs; simpl. rewrite getTopNSrcIPs_for_empty.
    rewrite existsb_sort_by_count. subst nonWhitelisted. tauto. }
  destruct (getTopNSrcIPs protectedPrefixes whitelistedPrefixes n_ reversedSrcIPs ∅)
    as [sorted srcIPsRes]. simpl in He.
  subst allFive.
  destruct thresholdSet; simpl; [ | reflexivity ].
  destruct quiet; simpl; [ | now rewrite andb_false_r ].
  destruct (AdaptiveCUSUM.isPositiveAnomaly multiplier (cusumBytes d !!! j));
    simpl; [ | reflexivity ].
  destruct (AdaptiveCUSUM.isPositiveAnomaly multiplier (cusumPackets d !!! j));
    simpl; [ | reflexivity ].
  destruct (AdaptiveCUSUM.isPositiveAnomaly multiplier (cusumEntropy d !!! j));
    simpl; [ | now rewrite !andb_false_r ].
  destruct (AdaptiveCUSUM.isPositiveAnomaly multiplier (cusumBytesReceivedToSent d !!! j));
    simpl; [ | reflexivity ].
  destruct (AdaptiveCUSUM.isPositiveAnomaly multiplier (cusumFlowsReceivedToSent d !!! j));
    simpl; [ | reflexivity ].
  destruct (decide (srcIPsRes = ∅)) as [Hempty|Hne].
  - apply He in Hempty. rewrite Hempty. reflexivity.
  - destruct nonWhitelisted; [ | now destruct Hne; apply He ].
    simpl. eexists. split; [ reflexivity | ]. split; reflexivity.
Qed.

(** C4.  When a false-positive report for column [j] and destination [D] is
    pending and [j] is a column of the trackers, [checkFalsePositives] takes
    it from the queue and leaves [thresholdHigh] of each of the five
    trackers of column [j] equal to the measured value of the report divided
    by the multiplier of [D]; the trackers of every other column are
    unchanged. *)
Theorem C4_false_positive_lowering (d : ddosDetector) (falsePositive : dos_alert_t)
    (rest : list dos_alert_t) :
  dosFalsePositivesQueue d = falsePositive :: rest →
  let j := Z.to_nat (cusumID falsePositive) in
  (j < length (cusumBytes d))%nat → (j < length (cusumPackets d))%nat →
  (j < length (cusumEntropy d))%nat →
  (j < length (cusumBytesReceivedToSent d))%nat →
  (j < length (cusumFlowsReceivedToSent d))%nat →
  let d' := checkFalsePositives protectedPrefixes d in
  let multiplier := Double.of_float (getMultiplier (dstIP falsePositive)) in
  dosFalsePositivesQueue d' = rest ∧
  AdaptiveCUSUM.getThresholdHigh (cusumBytes d' !!! j)
    = (measuredBytes falsePositive / multiplier)%D ∧
  AdaptiveCUSUM.getThresholdHigh (cusumPackets d' !!! j)
    = (measuredPackets falsePositive / multiplier)%D ∧
  AdaptiveCUSUM.getThresholdHigh (cusumEntropy d' !!! j)
    = (measuredEntropy falsePositive / multiplier)%D ∧
  AdaptiveCUSUM.getThresholdHigh (cusumBytesReceivedToSent d' !!! j)
    = (measuredBytesReceivedToSent falsePositive / multiplier)%D ∧
  AdaptiveCUSUM.getThresholdHigh (cusumFlowsReceivedToSent d' !!! j)
    = (measuredFlowsReceivedToSent falsePositive / multiplier)%D ∧
  ∀ k, k ≠ j →
    cusumBytes d' !! k = cusumBytes d !! k ∧
    cusumPackets d' !! k = cusumPackets d !! k ∧
    cusumEntropy d' !! k = cusumEntropy d !! k ∧
    cusumBytesReceivedToSent d' !! k = cusumBytesReceivedToSent d !! k ∧
    cusumFlowsReceivedToSent d' !! k = cusumFlowsReceivedToSent d !! k.
Proof.
  intros Hq j H1 H2 H3 H4 H5 d' multiplier.
  subst d'. unfold checkFalsePositives. rewrite Hq. fold j. fold multiplier. simpl.
  assert (Hat : ∀ (l : list AdaptiveCUSUM.t) (x : Double.t), (j < length l)%nat →
            AdaptiveCUSUM.getThresholdHigh
              (alter (AdaptiveCUSUM.setThresholdHigh x) j l !!! j) = x).
  { intros l x Hl. apply lookup_lt_is_Some in Hl as [a Ha].
    erewrite list_lookup_total_correct; [ | rewrite list_lookup_alter, decide_True, Ha by easy;
                                            reflexivity ].
    reflexivity. }
  repeat split; try (now apply Hat); now apply list_lookup_alter_ne.
Qed.

End DetectorFacts.

Lemma C4_false_positive_lowering_witness :
  AdaptiveCUSUM.getThresholdHigh
    (cusumBytes (checkFalsePositives protected_example detector_example) !!! 2%nat)
  = (Double.of_Z 10 / Double.of_float mult_default)%D.
Proof.
  refine (proj1 (proj2 (C4_false_positive_lowering protected_example detector_example
                          false_positive_example [] eq_refl _ _ _ _ _)));
    vm_compute; lia.
Defined.

Lemma foldl_push_positive (g : AdaptiveCUSUM.t → Double.t) (l : list AdaptiveCUSUM.t)
    (vec : list Float32.t) :
  foldl (λ vec cusum, if (Double.zero <? g cusum)%D
                      then vec ++ [Float32.of_double (g cusum)] else vec) vec l
  = vec ++ (Float32.of_double <$>
              filter (λ x, Double.ltb Double.zero x = true) (g <$> l)).
Proof.
  revert vec. induction l as [|a l IH]; intros vec; simpl.
  - now rewrite app_nil_r.
  - rewrite IH. rewrite filter_cons. destruct (Double.ltb Double.zero (g a)) eqn:E.
    + rewrite decide_True by easy. now rewrite <- app_assoc.
    + rewrite decide_False by congruence. reflexivity.
Qed.

(** C2 (the code departs from the claim).  [getQuantileThresholdHigh], whose
    result backfills the high thresholds, is the quantile of the positive
    [maxSL] values, and [getQuantileThresholdLow], whose result backfills the
    low entropy threshold, is the quantile of the positive [maxSH] values:
    each computes what is claimed of the other.  For one tracker that has
    seen the samples 0 and 10 ([maxSH] about 1.46, [maxSL] 0) the backfill
    value of the high threshold is 0, where the claim gives [maxSH]; and at
    the end of a learning period of 30 seconds, with such a tracker on
    column 0 and a silent one on column 1, [setCusumTresholds] installs the
    high threshold 0 on column 1. *)
Theorem C2_quantile_threshold_swapped :
  (∀ quantile allCusums,
     getQuantileThresholdHigh quantile allCusums
     = claimed_QuantileThresholdLow quantile allCusums) ∧
  (∀ quantile allCusums,
     getQuantileThresholdLow quantile allCusums
     = claimed_QuantileThresholdHigh quantile allCusums) ∧
  getQuantileThresholdHigh quantile_075 [cusum_rising] = Float32.zero ∧
  claimed_QuantileThresholdHigh quantile_075 [cusum_rising]
    = Float32.of_double (AdaptiveCUSUM.getMaxSH cusum_rising) ∧
  Float32.ltb Float32.zero
    (claimed_QuantileThresholdHigh quantile_075 [cusum_rising]) = true ∧
  match setCusumTresholds quantile_075 30 detector_learned with
  | Some d =>
      AdaptiveCUSUM.getThresholdHigh (cusumBytes d !!! 0%nat)
        = AdaptiveCUSUM.getMaxSH cusum_rising ∧
      AdaptiveCUSUM.getThresholdHigh (cusumBytes d !!! 1%nat) = Double.zero ∧
      Double.ltb Double.zero
        (Double.of_float
           (claimed_QuantileThresholdHigh quantile_075 (cusumBytes detector_learned)))
        = true
  | None => False
  end.
Proof.
  split; [ | split ].
  - intros quantile allCusums.
    unfold getQuantileThresholdHigh, claimed_QuantileThresholdLow.
    now rewrite (foldl_push_positive AdaptiveCUSUM.getMaxSL).
  - intros quantile allCusums.
    unfold getQuantileThresholdLow, claimed_QuantileThresholdHigh.
    now rewrite (foldl_push_positive AdaptiveCUSUM.getMaxSH).
  - repeat split; vm_compute; reflexivity.
Qed.

(* ===================================================================== *)
(** * The sketch: loops over the rows *)
(* ===================================================================== *)

Section SketchFacts.
Context {V P : Type} `{SketchValue V P}.
Import CountMinSketch.

Lemma alter_cell_lookup (f : Cell V → Cell V) (i j : nat) (s : t V) (i' j' : nat) :
  lookup (alter_cell f i j s) i' j' =
  if decide (i' = i ∧ j' = j) then f <$> lookup s i' j' else lookup s i' j'.
Proof.
  unfold lookup, alter_cell; simpl. rewrite list_lookup_alter.
  destruct (decide (i = i')) as [->|Hi].
  - destruct (cells s !! i') as [row|]; simpl.
    + rewrite list_lookup_alter. destruct (decide (j = j')) as [->|Hj].
      * now rewrite decide_True.
      * rewrite decide_False by (intros [_ ?]; congruence). reflexivity.
    + now case_decide.
  - rewrite decide_False by (intros [? _]; congruence). reflexivity.
Qed.

(** A loop over the rows [n0 .. n0+n-1] that rewrites on each row the cell
    of [key] keeps the hash functions and the width, and changes exactly
    those cells, each once. *)
Lemma foldl_rows (f : nat → Cell V → Cell V) (key : Z) (n : nat) :
  ∀ (n0 : nat) (s : t V),
    let s' := foldl (λ s i, alter_cell (f i) i (getCol s key i) s) s (seq n0 n) in
    hash s' = hash s ∧ innerSize s' = innerSize s ∧ outerSize s' = outerSize s ∧
    ∀ i j, lookup s' i j =
           if decide ((n0 ≤ i < n0 + n)%nat ∧ j = getCol s key i)
           then f i <$> lookup s i j else lookup s i j.
Proof.
  induction n as [|n IH]; intros n0 s; simpl.
  - repeat split. intros i j. rewrite decide_False by lia. reflexivity.
  - destruct (IH (S n0) (alter_cell (f n0) n0 (getCol s key n0) s))
      as (Hh & Hw & Ho & Hl).
    split; [ exact Hh | ]. split; [ exact Hw | ].
    split; [ rewrite Ho; unfold outerSize, alter_cell; simpl; apply length_alter | ].
    intros i j. rewrite Hl. clear IH Hh Hw Ho Hl.
    assert (Hcol : ∀ i, getCol (alter_cell (f n0) n0 (getCol s key n0) s) key i
                        = getCol s key i) by reflexivity.
    rewrite Hcol, alter_cell_lookup.
    destruct (decide (i = n0)) as [->|Hi].
    + rewrite (decide_False (P := (S n0 ≤ n0 < _)%nat ∧ _)) by lia.
      destruct (decide (j = getCol s key n0)) as [->|Hj].
      * rewrite !decide_True by first [ split; [ lia | reflexivity ] | easy ].
        reflexivity.
      * rewrite !decide_False by (intros [_ ?]; congruence). reflexivity.
    + rewrite (decide_False (P := i = n0 ∧ _)) by (intros [? _]; congruence).
      repeat case_decide; try lia; try reflexivity; exfalso; intuition lia.
Qed.

Lemma getCol_lt (s : t V) (key : Z) (i : nat) :
  (0 < innerSize s)%nat → (getCol s key i < innerSize s)%nat.
Proof.
  intros Hw. unfold getCol.
  pose proof (Z.mod_pos_bound (hash s i key) (Z.of_nat (innerSize s)) ltac:(lia)).
  lia.
Qed.

(** [estimate] returns the cell of the key on one of the rows *)
Lemma estimate_row (s : t V) (key : Z) :
  ∃ i, (i < Nat.max 1 (outerSize s))%nat ∧ estimate s key = (i, getCol s key i).
Proof.
  unfold estimate.
  assert (Hgen : ∀ n n0 best,
             (∃ i, (i < n0)%nat ∧ best = (i, getCol s key i)) →
             ∃ i, (i < n0 + n)%nat ∧
                  foldl (λ best i,
                           let col := getCol s key i in
                           if count (cell s i col) <? count (cell s best.1 best.2)
                           then (i, col) else best) best (seq n0 n)
                  = (i, getCol s key i)).
  { induction n as [|n IH]; intros n0 best (i & Hi & Hb); simpl.
    - exists i. split; [ lia | exact Hb ].
    - destruct (IH (S n0)
                  (if count (cell s n0 (getCol s key n0)) <? count (cell s best.1 best.2)
                   then (n0, getCol s key n0) else best)) as (i' & Hi' & He).
      + destruct (_ <? _); [ exists n0 | exists i ]; split; auto; lia.
      + exists i'. split; [ lia | exact He ]. }
  destruct (Hgen (outerSize s - 1)%nat 1%nat (0%nat, getCol s key 0)) as (i & Hi & He).
  - exists 0%nat. split; [ lia | reflexivity ].
  - exists i. split; [ lia | exact He ].
Qed.

(** when the cells of the key hold the same count on every row, [estimate]
    returns row 0 *)
Lemma estimate_equal_counts (s : t V) (key : Z) (k : Z) :
  (∀ i, (i < outerSize s)%nat → count (cell s i (getCol s key i)) = k) →
  (0 < outerSize s)%nat →
  estimate s key = (0%nat, getCol s key 0).
Proof.
  intros Hk Ho. unfold estimate.
  assert (Hgen : ∀ n n0, (n0 + n ≤ outerSize s)%nat →
             foldl (λ best i,
                      let col := getCol s key i in
                      if count (cell s i col) <? count (cell s best.1 best.2)
                      then (i, col) else best)
                   (0%nat, getCol s key 0) (seq n0 n)
             = (0%nat, getCol s key 0)).
  { induction n as [|n IH]; intros n0 Hn; simpl; [ reflexivity | ].
    rewrite (Hk n0), (Hk 0%nat), Z.ltb_irrefl by lia. apply IH. lia. }
  apply Hgen. lia.
Qed.

End SketchFacts.

(* ===================================================================== *)
(** * Reversal of the source addresses *)
(* ===================================================================== *)

(** with fuel for two tests of its condition, the [while] loop of
    [reverseSrcIPs] ends, and it has appended at most one pair *)
Lemma reverseSrcIPs_while_once (fuel : nat) (row col : nat) (flows : Z)
    (srcIPsCopy : BCSketchTypeSrcIPs) (vec : list (Z * Z)) :
  ∃ added, reverseSrcIPs_while (S (S fuel)) 0 row col flows srcIPsCopy vec
           = Some (vec ++ added) ∧
           (length added ≤ 1)%nat ∧ Forall (λ pair, pair.2 = flows) added.
Proof.
  cbn [reverseSrcIPs_while].
  destruct (0 =? CountMinSketch.count (CountMinSketch.cell srcIPsCopy row col)).
  { exists []. rewrite app_nil_r. repeat split; [ simpl; lia | constructor ]. }
  destruct (CountMinSketch.count
              (CountMinSketch.cell srcIPsCopy
                 (CountMinSketch.estimate srcIPsCopy _).1
                 (CountMinSketch.estimate srcIPsCopy _).2) =? 0).
  { exists []. rewrite app_nil_r. repeat split; [ simpl; lia | constructor ]. }
  rewrite Z.eqb_refl. eexists [_]. repeat split; [ simpl; lia | ].
  constructor; [ reflexivity | constructor ].
Qed.

Lemma reverseSrcIPs_for_bound (fuel : nat) (entries : list (Z * Z)) :
  ∀ (vec : list (Z * Z)) (rows : gmap Z Z) (srcIPsCopy : BCSketchTypeSrcIPs),
    match reverseSrcIPs_for (S (S fuel)) entries vec rows srcIPsCopy with
    | Returned vec' | Thrown vec' =>
        ∃ added, vec' = vec ++ added ∧ (length added ≤ length entries)%nat ∧
                 Forall (λ pair, pair.2 ∈ entries.*2) added
    | OutOfFuel => False
    end.
Proof.
  induction entries as [|srcIPidx entries IH]; intros vec rows srcIPsCopy.
  - cbn [reverseSrcIPs_for]. exists []. rewrite app_nil_r.
    repeat split; [ simpl; lia | constructor ].
  - cbn [reverseSrcIPs_for]. destruct (rows !! srcIPidx.1) as [row|].
    + destruct (reverseSrcIPs_while_once fuel (Z.to_nat row) (Z.to_nat srcIPidx.1)
                  srcIPidx.2 srcIPsCopy vec) as (added1 & -> & Hlen1 & Hall1).
      specialize (IH (vec ++ added1) rows srcIPsCopy).
      destruct (reverseSrcIPs_for (S (S fuel)) entries (vec ++ added1) rows srcIPsCopy)
        as [vec'|vec'|]; [ | | exact IH ];
        destruct IH as (added2 & -> & Hlen2 & Hall2);
        exists (added1 ++ added2); rewrite app_assoc;
        (split; [ reflexivity | ]); (split; [ rewrite length_app; simpl; lia | ]);
        apply Forall_app; (split;
          [ eapply Forall_impl; [ exact Hall1 | ];
            intros pair ->; simpl; apply list_elem_of_here
          | eapply Forall_impl; [ exact Hall2 | ];
            intros pair Hp; simpl; now apply list_elem_of_further ]).
    + exists []. rewrite app_nil_r. repeat split; [ simpl; lia | constructor ].
Qed.

(** C10.  For every [communicatedWith] map, output vector, rows map and
    source-sketch snapshot, [reverseSrcIPs] ends as soon as its [while] loop
    is given fuel for two tests of its condition: it returns, or [rows.at]
    throws; either way the output vector is the old one followed by at most
    one pair per entry of [communicatedWith], each carrying the flow count
    of some entry. *)
Theorem C10_reverseSrcIPs_terminates (fuel : nat) (communicatedWith : gmap Z Z)
    (srcIPsCommWithDstVec : list (Z * Z)) (rows : gmap Z Z)
    (srcIPsCopy : BCSketchTypeSrcIPs) :
  match reverseSrcIPs (S (S fuel)) communicatedWith srcIPsCommWithDstVec rows
          srcIPsCopy with
  | Returned vec' | Thrown vec' =>
      ∃ added, vec' = srcIPsCommWithDstVec ++ added ∧
               (length added ≤ size communicatedWith)%nat ∧
               Forall (λ pair, ∃ srcIPidx, communicatedWith !! srcIPidx = Some pair.2)
                      added
  | OutOfFuel => False
  end.
Proof.
  unfold reverseSrcIPs.
  pose proof (reverseSrcIPs_for_bound fuel (map_to_list communicatedWith)
                srcIPsCommWithDstVec rows srcIPsCopy) as Hb.
  destruct (reverseSrcIPs_for (S (S fuel)) (map_to_list communicatedWith)
              srcIPsCommWithDstVec rows srcIPsCopy) as [vec'|vec'|]; [ | | exact Hb ];
    destruct Hb as (added & -> & Hlen & Hall); exists added;
    (split; [ reflexivity | ]);
    (split; [ now rewrite <- length_map_to_list | ]);
    (eapply Forall_impl; [ exact Hall | ]);
    intros pair Hp; simpl in Hp;
    apply list_elem_of_fmap in Hp as ([k x] & -> & Hkx);
    exists k; now apply elem_of_map_to_list.
Qed.

(* ===================================================================== *)
(** * Flow ingress *)
(* ===================================================================== *)

Lemma set_dstIPs_twice (x y : BCSketchTypeDstIPs) (d : ddosDetector) :
  set_dstIPs x (set_dstIPs y d) = set_dstIPs x d.
Proof. reflexivity. Qed.

Lemma set_dstIPs_same (d : ddosDetector) : set_dstIPs (dstIPs d) d = d.
Proof. now destruct d. Qed.

(** [updateCommunicatedWith] only touches the destination sketch, where it
    runs a loop over the rows. *)
Lemma updateCommunicatedWith_dstIPs (srcIP dstIP bytes : Z) (isDst : bool)
    (d : ddosDetector) :
  updateCommunicatedWith srcIP dstIP bytes isDst d =
  set_dstIPs
    (foldl (λ s i,
              CountMinSketch.alter_cell
                (λ c, CountMinSketch.mkCell (CountMinSketch.count c)
                        (if isDst
                         then ddosDetectorValue.updateFlowCounter
                                (Z.of_nat (CountMinSketch.getCol (srcIPs d) srcIP i))
                                (CountMinSketch.value c)
                         else ddosDetectorValue.updateSentBytes bytes
                                (CountMinSketch.value c)))
                i
                (CountMinSketch.getCol s
                   (Z.land (if isDst then dstIP else srcIP) mask24) i) s)
           (dstIPs d) (seq 0 (outerSizeDstIPs d))) d.
Proof.
  unfold updateCommunicatedWith.
  generalize (seq 0 (outerSizeDstIPs d)). intros l.
  assert (Hgen : ∀ (src0 : BCSketchTypeSrcIPs) d, srcIPs d = src0 →
    foldl (λ d i,
             if isDst then
               let srcIPidx := CountMinSketch.getCol (srcIPs d) srcIP i in
               let dstIPidx := CountMinSketch.getCol (dstIPs d) (Z.land dstIP mask24) i in
               set_dstIPs
                 (CountMinSketch.alter_cell
                    (λ c, CountMinSketch.mkCell (CountMinSketch.count c)
                            (ddosDetectorValue.updateFlowCounter (Z.of_nat srcIPidx)
                               (CountMinSketch.value c)))
                    i dstIPidx (dstIPs d)) d
             else
               let dstIPidx := CountMinSketch.getCol (dstIPs d) (Z.land srcIP mask24) i in
               set_dstIPs
                 (CountMinSketch.alter_cell
                    (λ c, CountMinSketch.mkCell (CountMinSketch.count c)
                            (ddosDetectorValue.updateSentBytes bytes
                               (CountMinSketch.value c)))
                    i dstIPidx (dstIPs d)) d) d l
    = set_dstIPs
        (foldl (λ s i,
                  CountMinSketch.alter_cell
                    (λ c, CountMinSketch.mkCell (CountMinSketch.count c)
                            (if isDst
                             then ddosDetectorValue.updateFlowCounter
                                    (Z.of_nat (CountMinSketch.getCol src0 srcIP i))
                                    (CountMinSketch.value c)
                             else ddosDetectorValue.updateSentBytes bytes
                                    (CountMinSketch.value c)))
                    i
                    (CountMinSketch.getCol s
                       (Z.land (if isDst then dstIP else srcIP) mask24) i) s)
               (dstIPs d) l) d).
  { induction l as [|i l IH]; intros src0 d0 Hsrc; cbn [foldl].
    - symmetry. apply set_dstIPs_same.
    - destruct isDst; cbv zeta; rewrite (IH src0) by (subst src0; reflexivity);
        rewrite set_dstIPs_twice; subst src0; reflexivity. }
  now apply Hgen.
Qed.

(** C9 (as amended).  For a flow whose destination is not protected and
    whose source is protected, [processCurrentFlow] adds the bytes of the flow
    to [sentBytes_] and 1 to [sentFlows_] of the destination-sketch cell that
    the /24 prefix of the source selects on each row, leaves every other cell
    of the destination sketch and every tracker and queue unchanged, and
    inserts the source address with weight 1 into the source sketch; a flow
    with neither address protected changes nothing. *)
Theorem C9_reverse_direction_flow (protectedPrefixes : Z → option Float32.t)
    (record : netflowRecord_t) (d : ddosDetector) :
  isProtected protectedPrefixes (dstAddr record) = false →
  let d' := processCurrentFlow protectedPrefixes record d in
  if isProtected protectedPrefixes (srcAddr record) then
    srcIPs d' = CountMinSketch.update (srcAddr record) 1 (srcIPs d) ∧
    CountMinSketch.hash (dstIPs d') = CountMinSketch.hash (dstIPs d) ∧
    CountMinSketch.innerSize (dstIPs d') = CountMinSketch.innerSize (dstIPs d) ∧
    CountMinSketch.outerSize (dstIPs d') = CountMinSketch.outerSize (dstIPs d) ∧
    (∀ i j,
       CountMinSketch.lookup (dstIPs d') i j =
       if decide ((i < outerSizeDstIPs d)%nat ∧
                  j = CountMinSketch.getCol (dstIPs d)
                        (Z.land (srcAddr record) mask24) i)
       then (λ c, let a := CountMinSketch.value c in
                  CountMinSketch.mkCell (CountMinSketch.count c)
                    (ddosDetectorValue.mk
                       (wrap64 (ddosDetectorValue.sentBytes_ a + bytes record))
                       (wrap32 (ddosDetectorValue.sentFlows_ a + 1))
                       (ddosDetectorValue.packetCount_ a)
                       (ddosDetectorValue.byteCount_ a)
                       (ddosDetectorValue.flowCount_ a)
                       (ddosDetectorValue.reversibleKey_ a)
                       (ddosDetectorValue.communicatedWith_ a)
                       (ddosDetectorValue.ipSubnets_ a)))
              <$> CountMinSketch.lookup (dstIPs d) i j
       else CountMinSketch.lookup (dstIPs d) i j) ∧
    outerSizeDstIPs d' = outerSizeDstIPs d ∧
    innerSizeDstIPs d' = innerSizeDstIPs d ∧
    cusumBytes d' = cusumBytes d ∧ cusumPackets d' = cusumPackets d ∧
    cusumEntropy d' = cusumEntropy d ∧
    cusumBytesReceivedToSent d' = cusumBytesReceivedToSent d ∧
    cusumFlowsReceivedToSent d' = cusumFlowsReceivedToSent d ∧
    dosAlertsQueue d' = dosAlertsQueue d ∧
    dosFalsePositivesQueue d' = dosFalsePositivesQueue d
  else d' = d.
Proof.
  intros Hdst d'. subst d'. unfold processCurrentFlow. rewrite Hdst.
  destruct (isProtected protectedPrefixes (srcAddr record)); [ | reflexivity ].
  rewrite updateCommunicatedWith_dstIPs. cbn [set_srcIPs set_dstIPs srcIPs dstIPs
    outerSizeDstIPs innerSizeDstIPs cusumBytes cusumPackets cusumEntropy
    cusumBytesReceivedToSent cusumFlowsReceivedToSent dosAlertsQueue
    dosFalsePositivesQueue].
  split; [ reflexivity | ].
  destruct (foldl_rows
              (λ (_ : nat) c,
                 CountMinSketch.mkCell (CountMinSketch.count c)
                   (ddosDetectorValue.updateSentBytes (bytes record)
                      (CountMinSketch.value c)))
              (Z.land (srcAddr record) mask24) (outerSizeDstIPs d) 0 (dstIPs d))
    as (Hh & Hw & Ho & Hl).
  split; [ exact Hh | ]. split; [ exact Hw | ]. split; [ exact Ho | ].
  split; [ | repeat split ].
  intros i j. rewrite Hl.
  destruct (decide ((i < outerSizeDstIPs d)%nat ∧ _)) as [Hij|Hij].
  - rewrite decide_True by (split; [ lia | apply Hij ]). reflexivity.
  - rewrite decide_False by (intros [? ?]; apply Hij; split; [ lia | easy ]).
    reflexivity.
Qed.

Lemma C9_reverse_direction_flow_witness :
  srcIPs (processCurrentFlow protected_example flow_outbound detector_example)
  = CountMinSketch.update (srcAddr flow_outbound) 1 (srcIPs detector_example).
Proof.
  exact (proj1 (C9_reverse_direction_flow protected_example flow_outbound
                  detector_example eq_refl)).
Defined.

(** C9 as stated fails: the flow from the protected host 10.0.1.5 to the
    unprotected 1.2.3.4 changes the source sketch (the count of the cell of
    the source address on row 0 goes from 0 to 1). *)
Lemma C9_source_sketch_modified :
  isProtected protected_example (dstAddr flow_outbound) = false ∧
  isProtected protected_example (srcAddr flow_outbound) = true ∧
  srcIPs (processCurrentFlow protected_example flow_outbound detector_example)
  ≠ srcIPs detector_example.
Proof.
  split; [ reflexivity | ]. split; [ reflexivity | ].
  intros Heq.
  apply (f_equal (λ s, CountMinSketch.count
                         (CountMinSketch.cell s 0
                            (CountMinSketch.getCol s (srcAddr flow_outbound) 0)))) in Heq.
  vm_compute in Heq. discriminate Heq.
Qed.

(* ===================================================================== *)
(** * Reversal of a destination column *)
(* ===================================================================== *)

Lemma testbit_mask24 (n : Z) : 0 ≤ n → Z.testbit mask24 n = (n <? 24).
Proof. intros Hn. change mask24 with (Z.ones 24). now apply Z.testbit_ones_nonneg. Qed.

Lemma land_mask24_high (x n : Z) : 24 ≤ n → Z.testbit (Z.land x mask24) n = false.
Proof.
  intros Hn. rewrite Z.land_spec, testbit_mask24 by lia.
  destruct (Z.ltb_spec n 24); [ lia | apply andb_false_r ].
Qed.

Lemma land_mask24_low (x n : Z) :
  0 ≤ n < 24 → Z.testbit (Z.land x mask24) n = Z.testbit x n.
Proof.
  intros Hn. rewrite Z.land_spec, testbit_mask24 by lia.
  destruct (Z.ltb_spec n 24); [ apply andb_true_r | lia ].
Qed.

(** the majority vote on a cell that only holds the prefix [p] gives [p] *)
Lemma reverseKey_single_prefix (x k : Z) (b : binCountSketchValue.t) :
  let p := Z.land x mask24 in
  0 < k →
  binCountSketchValue.totalCount b = k →
  (∀ n, (n < 24)%nat →
        binCountSketchValue.binCount b !! n = Some (if Z.testbit p (Z.of_nat n) then k else 0)) →
  Z.land (binCountSketchValue.reverseKey 32 b) mask24 = p.
Proof.
  intros p Hk Ht Hb. apply Z.bits_inj'. intros n Hn.
  destruct (Z.ltb_spec n 24) as [Hlt|Hge].
  - rewrite land_mask24_low, reverseKey_testbit by lia.
    rewrite bool_decide_eq_true_2 by lia. simpl.
    assert (Hbn := Hb (Z.to_nat n) ltac:(lia)).
    apply list_lookup_total_correct in Hbn. rewrite Hbn, Z2Nat.id, Ht by easy.
    assert (k / 2 < k) by (apply Z.div_lt; lia).
    assert (0 ≤ k / 2) by (apply Z.div_pos; lia).
    destruct (Z.testbit p n); lia.
  - rewrite land_mask24_high by easy. subst p. now rewrite land_mask24_high.
Qed.

Lemma lookup_new (h : nat → Z → Z) (outer inner i j : nat) :
  (i < outer)%nat → (j < inner)%nat →
  CountMinSketch.lookup (CountMinSketch.new (V := ddosDetectorValue.t) h outer inner) i j
  = Some CountMinSketch.emptyCell.
Proof.
  intros Hi Hj. unfold CountMinSketch.lookup, CountMinSketch.new; simpl.
  rewrite lookup_replicate_2 by easy. simpl. now rewrite lookup_replicate_2.
Qed.

(** when no row holds a smaller count for the key than row 0, [estimate]
    returns row 0 *)
Lemma estimate_min_row0 {V P : Type} `{SketchValue V P} (s : CountMinSketch.t V)
    (key : Z) :
  (∀ i, (i < CountMinSketch.outerSize s)%nat →
        CountMinSketch.count (CountMinSketch.cell s 0 (CountMinSketch.getCol s key 0))
        ≤ CountMinSketch.count (CountMinSketch.cell s i (CountMinSketch.getCol s key i))) →
  CountMinSketch.estimate s key = (0%nat, CountMinSketch.getCol s key 0).
Proof.
  intros Hmin. unfold CountMinSketch.estimate.
  assert (Hgen : ∀ n n0, (n0 + n ≤ CountMinSketch.outerSize s)%nat →
             foldl (λ best i,
                      let col := CountMinSketch.getCol s key i in
                      if CountMinSketch.count (CountMinSketch.cell s i col)
                         <? CountMinSketch.count (CountMinSketch.cell s best.1 best.2)
                      then (i, col) else best)
                   (0%nat, CountMinSketch.getCol s key 0) (seq n0 n)
             = (0%nat, CountMinSketch.getCol s key 0)).
  { induction n as [|n IH]; intros n0 Hn; simpl; [ reflexivity | ].
    specialize (Hmin n0 ltac:(lia)).
    destruct (Z.ltb_spec
                (CountMinSketch.count
                   (CountMinSketch.cell s n0 (CountMinSketch.getCol s key n0)))
                (CountMinSketch.count
                   (CountMinSketch.cell s 0 (CountMinSketch.getCol s key 0))));
      [ lia | ].
    apply IH. lia. }
  destruct (CountMinSketch.outerSize s) as [|n] eqn:E; [ reflexivity | ].
  simpl. rewrite Nat.sub_0_r. apply Hgen. lia.
Qed.

Lemma column_prefix_inv_new (h : nat → Z → Z) (outer inner : nat) (p : Z) :
  (0 < outer)%nat → (0 < inner)%nat →
  column_prefix_inv p 0 0 (CountMinSketch.new h outer inner).
Proof.
  intros Ho Hw.
  assert (Hcol : ∀ i, (CountMinSketch.getCol
                         (CountMinSketch.new (V := ddosDetectorValue.t) h outer inner) p i
                       < inner)%nat)
    by (intros i; apply (getCol_lt (CountMinSketch.new h outer inner)); exact Hw).
  split; [ lia | ]. split.
  - intros i Hi. unfold CountMinSketch.outerSize in Hi. simpl in Hi.
    rewrite length_replicate in Hi.
    exists CountMinSketch.emptyCell. split; [ now apply lookup_new | simpl; lia ].
  - exists CountMinSketch.emptyCell. split; [ now apply lookup_new | ].
    split; [ reflexivity | ]. split; [ reflexivity | ]. split; [ reflexivity | ].
    intros b Hb.
    change (replicate 32 0 !! b = Some (if Z.testbit p (Z.of_nat b) then 0 else 0)).
    rewrite lookup_replicate_2 by lia. now destruct (Z.testbit p (Z.of_nat b)).
Qed.

Section IngressFacts.
Variable protectedPrefixes : Z → option Float32.t.

(** what a flow to a protected destination does to the counts and the
    reversible keys of the destination sketch *)
Lemma processCurrentFlow_dst (record : netflowRecord_t) (d : ddosDetector) :
  isProtected protectedPrefixes (dstAddr record) = true →
  let s := dstIPs d in
  let s' := dstIPs (processCurrentFlow protectedPrefixes record d) in
  let q := Z.land (dstAddr record) mask24 in
  CountMinSketch.hash s' = CountMinSketch.hash s ∧
  CountMinSketch.innerSize s' = CountMinSketch.innerSize s ∧
  CountMinSketch.outerSize s' = CountMinSketch.outerSize s ∧
  ∀ i j c, CountMinSketch.lookup s i j = Some c →
    ∃ c', CountMinSketch.lookup s' i j = Some c' ∧
          if decide ((i < CountMinSketch.outerSize s)%nat ∧ j = CountMinSketch.getCol s q i)
          then CountMinSketch.count c' = wrap32 (CountMinSketch.count c + 1) ∧
               ddosDetectorValue.reversibleKey_ (CountMinSketch.value c')
               = binCountSketchValue.update 32 (dstAddr record) 1
                   (ddosDetectorValue.reversibleKey_ (CountMinSketch.value c))
          else CountMinSketch.count c' = CountMinSketch.count c ∧
               ddosDetectorValue.reversibleKey_ (CountMinSketch.value c')
               = ddosDetectorValue.reversibleKey_ (CountMinSketch.value c).
Proof.
  intros Hprot s s' q. subst s'. unfold processCurrentFlow.
  rewrite Hprot, updateCommunicatedWith_dstIPs.
  cbn [set_srcIPs set_dstIPs srcIPs dstIPs outerSizeDstIPs]. fold s. fold q.
  set (s1 := CountMinSketch.update q record s).
  destruct (foldl_rows
              (λ (_ : nat) c,
                 CountMinSketch.mkCell (wrap32 (CountMinSketch.count c + 1))
                   (ddosDetectorValue.update q record (CountMinSketch.value c)))
              q (CountMinSketch.outerSize s) 0 s) as (Hh1 & Hw1 & Ho1 & Hl1).
  change (foldl _ s (seq 0 (CountMinSketch.outerSize s))) with s1 in Hh1, Hw1, Ho1, Hl1.
  match goal with |- context [foldl ?F s1 ?l] => set (s2 := foldl F s1 l) end.
  destruct (foldl_rows
              (λ (i : nat) c,
                 CountMinSketch.mkCell (CountMinSketch.count c)
                   (ddosDetectorValue.updateFlowCounter
                      (Z.of_nat (CountMinSketch.getCol (srcIPs d) (srcAddr record) i))
                      (CountMinSketch.value c)))
              q (outerSizeDstIPs d) 0 s1) as (Hh2 & Hw2 & Ho2 & Hl2).
  change (foldl _ s1 (seq 0 (outerSizeDstIPs d))) with s2 in Hh2, Hw2, Ho2, Hl2.
  split; [ now rewrite Hh2 | ]. split; [ now rewrite Hw2 | ].
  split; [ now rewrite Ho2 | ].
  intros i j c Hc. rewrite Hl2, Hl1, Hc.
  assert (Hcol1 : CountMinSketch.getCol s1 q i = CountMinSketch.getCol s q i)
    by (unfold CountMinSketch.getCol; now rewrite Hh1, Hw1).
  rewrite Hcol1.
  destruct (decide ((i < CountMinSketch.outerSize s)%nat ∧
                    j = CountMinSketch.getCol s q i)) as [Hij|Hij].
  - rewrite (decide_True (P := (0 ≤ i < 0 + CountMinSketch.outerSize s)%nat ∧ _))
      by (split; [ lia | apply Hij ]).
    case_decide; eexists; (split; [ reflexivity | ]); split; reflexivity.
  - rewrite (decide_False (P := (0 ≤ i < 0 + CountMinSketch.outerSize s)%nat ∧ _))
      by (intros [? ?]; apply Hij; split; [ lia | easy ]).
    case_decide; eexists; (split; [ reflexivity | ]); split; reflexivity.
Qed.

(** a flow to an unprotected destination leaves the counts and the
    reversible keys of the destination sketch as they were *)
Lemma processCurrentFlow_other (record : netflowRecord_t) (d : ddosDetector) :
  isProtected protectedPrefixes (dstAddr record) = false →
  let s := dstIPs d in
  let s' := dstIPs (processCurrentFlow protectedPrefixes record d) in
  CountMinSketch.hash s' = CountMinSketch.hash s ∧
  CountMinSketch.innerSize s' = CountMinSketch.innerSize s ∧
  CountMinSketch.outerSize s' = CountMinSketch.outerSize s ∧
  ∀ i j c, CountMinSketch.lookup s i j = Some c →
    ∃ c', CountMinSketch.lookup s' i j = Some c' ∧
          CountMinSketch.count c' = CountMinSketch.count c ∧
          ddosDetectorValue.reversibleKey_ (CountMinSketch.value c')
          = ddosDetectorValue.reversibleKey_ (CountMinSketch.value c).
Proof.
  intros Hdst s s'. subst s'. unfold processCurrentFlow. rewrite Hdst.
  destruct (isProtected protectedPrefixes (srcAddr record)).
  - rewrite updateCommunicatedWith_dstIPs.
    cbn [set_srcIPs set_dstIPs srcIPs dstIPs outerSizeDstIPs]. fold s.
    destruct (foldl_rows
                (λ (_ : nat) c,
                   CountMinSketch.mkCell (CountMinSketch.count c)
                     (ddosDetectorValue.updateSentBytes (bytes record)
                        (CountMinSketch.value c)))
                (Z.land (srcAddr record) mask24) (outerSizeDstIPs d) 0 s)
      as (Hh & Hw & Ho & Hl).
    split; [ exact Hh | ]. split; [ exact Hw | ]. split; [ exact Ho | ].
    intros i j c Hc. rewrite Hl, Hc.
    case_decide; eexists; (split; [ reflexivity | ]); split; reflexivity.
  - repeat split. intros i j c Hc. exists c. repeat split. exact Hc.
Qed.

End IngressFacts.

Section DrainFacts.
Variable protectedPrefixes : Z → option Float32.t.

(** the invariant of a column that only receives the prefix [p], over one
    more flow of any kind *)
Lemma processCurrentFlow_column_prefix (record : netflowRecord_t) (d : ddosDetector)
    (p np t : Z) :
  (isProtected protectedPrefixes (dstAddr record) = true →
   CountMinSketch.getCol (dstIPs d) (Z.land (dstAddr record) mask24) 0
   = CountMinSketch.getCol (dstIPs d) p 0 →
   Z.land (dstAddr record) mask24 = p) →
  t + 1 < 2 ^ 32 →
  (0 < CountMinSketch.outerSize (dstIPs d))%nat →
  column_prefix_inv p np t (dstIPs d) →
  let d' := processCurrentFlow protectedPrefixes record d in
  CountMinSketch.hash (dstIPs d') = CountMinSketch.hash (dstIPs d) ∧
  CountMinSketch.innerSize (dstIPs d') = CountMinSketch.innerSize (dstIPs d) ∧
  CountMinSketch.outerSize (dstIPs d') = CountMinSketch.outerSize (dstIPs d) ∧
  ∃ np', column_prefix_inv p np' (t + 1) (dstIPs d').
Proof.
  intros Hcolumn Ht Ho (Hnp & Hrows & c0 & Hc0 & Hcnt0 & Htot0 & Hlen0 & Hbins0) d'.
  subst d'. set (s := dstIPs d) in *.
  destruct (isProtected protectedPrefixes (dstAddr record)) eqn:Hprot.
  - (* a flow to a protected destination *)
    destruct (processCurrentFlow_dst protectedPrefixes record d Hprot)
      as (Hh & Hw & Hos & Heff).
    fold s in Hh, Hw, Hos, Heff.
    set (s' := dstIPs (processCurrentFlow protectedPrefixes record d)) in *.
    assert (Hcol : ∀ key i, CountMinSketch.getCol s' key i = CountMinSketch.getCol s key i)
      by (intros key i; unfold CountMinSketch.getCol; now rewrite Hh, Hw).
    split; [ exact Hh | ]. split; [ exact Hw | ]. split; [ exact Hos | ].
    set (q := Z.land (dstAddr record) mask24) in *.
    destruct (decide (q = p)) as [Hq|Hq].
    + (* of the prefix [p] *)
      exists (np + 1). split; [ lia | ]. split.
      * intros i Hi. rewrite Hos in Hi. destruct (Hrows i Hi) as (c & Hc & Hcnt).
        destruct (Heff _ _ _ Hc) as (c' & Hc' & Hprops).
        rewrite decide_True in Hprops by (split; [ exact Hi | now rewrite Hq ]).
        exists c'. rewrite Hcol. split; [ exact Hc' | ].
        destruct Hprops as [-> _]. rewrite wrap32_small; lia.
      * destruct (Heff _ _ _ Hc0) as (c' & Hc' & Hprops).
        rewrite decide_True in Hprops by (split; [ exact Ho | now rewrite Hq ]).
        destruct Hprops as [Hcnt' Hrk'].
        exists c'. rewrite Hcol. split; [ exact Hc' | ].
        rewrite Hcnt', Hrk', Hcnt0.
        split; [ apply wrap32_small; lia | ].
        split; [ unfold binCountSketchValue.update; simpl; rewrite Htot0;
                 apply wrap32_small; lia | ].
        split; [ now rewrite update_binCount_length | ].
        intros b Hb. rewrite update_binCount_lookup, decide_True by lia.
        rewrite (Hbins0 b Hb). simpl. f_equal.
        assert (Hbit : Z.testbit p (Z.of_nat b) = Z.testbit (dstAddr record) (Z.of_nat b))
          by (rewrite <- Hq; apply land_mask24_low; lia).
        rewrite Hbit. destruct (Z.testbit (dstAddr record) (Z.of_nat b)).
        -- apply wrap32_small; lia.
        -- reflexivity.
    + (* of another prefix, which falls in another column of row 0 *)
      assert (Hq0 : CountMinSketch.getCol s p 0 ≠ CountMinSketch.getCol s q 0)
        by (intros Heq; apply Hq, Hcolumn; [ reflexivity | now symmetry ]).
      exists np. split; [ lia | ]. split.
      * intros i Hi. rewrite Hos in Hi. destruct (Hrows i Hi) as (c & Hc & Hcnt).
        destruct (Heff _ _ _ Hc) as (c' & Hc' & Hprops).
        exists c'. rewrite Hcol. split; [ exact Hc' | ].
        case_decide; destruct Hprops as [-> _]; [ rewrite wrap32_small | ]; lia.
      * destruct (Heff _ _ _ Hc0) as (c' & Hc' & Hprops).
        rewrite decide_False in Hprops by (intros [_ ?]; contradiction).
        destruct Hprops as [Hcnt' Hrk'].
        exists c'. rewrite Hcol, Hcnt', Hrk'. repeat split; assumption.
  - (* a flow to an unprotected destination *)
    destruct (processCurrentFlow_other protectedPrefixes record d Hprot)
      as (Hh & Hw & Hos & Heff).
    fold s in Hh, Hw, Hos, Heff.
    set (s' := dstIPs (processCurrentFlow protectedPrefixes record d)) in *.
    assert (Hcol : ∀ key i, CountMinSketch.getCol s' key i = CountMinSketch.getCol s key i)
      by (intros key i; unfold CountMinSketch.getCol; now rewrite Hh, Hw).
    split; [ exact Hh | ]. split; [ exact Hw | ]. split; [ exact Hos | ].
    exists np. split; [ lia | ]. split.
    + intros i Hi. rewrite Hos in Hi. destruct (Hrows i Hi) as (c & Hc & Hcnt).
      destruct (Heff _ _ _ Hc) as (c' & Hc' & Hcnt' & _).
      exists c'. rewrite Hcol. split; [ exact Hc' | lia ].
    + destruct (Heff _ _ _ Hc0) as (c' & Hc' & Hcnt' & Hrk').
      exists c'. rewrite Hcol, Hcnt', Hrk'. repeat split; assumption.
Qed.

(** the invariant over the flows of a window *)
Lemma flows_column_prefix (flows : list netflowRecord_t) :
  ∀ (d : ddosDetector) (p np t : Z),
    Forall (λ record,
              isProtected protectedPrefixes (dstAddr record) = true →
              CountMinSketch.getCol (dstIPs d) (Z.land (dstAddr record) mask24) 0
              = CountMinSketch.getCol (dstIPs d) p 0 →
              Z.land (dstAddr record) mask24 = p) flows →
    t + Z.of_nat (length flows) < 2 ^ 32 →
    (0 < CountMinSketch.outerSize (dstIPs d))%nat →
    column_prefix_inv p np t (dstIPs d) →
    let d' := foldl (λ d record, processCurrentFlow protectedPrefixes record d) d flows in
    CountMinSketch.hash (dstIPs d') = CountMinSketch.hash (dstIPs d) ∧
    CountMinSketch.innerSize (dstIPs d') = CountMinSketch.innerSize (dstIPs d) ∧
    CountMinSketch.outerSize (dstIPs d') = CountMinSketch.outerSize (dstIPs d) ∧
    ∃ np', column_prefix_inv p np' (t + Z.of_nat (length flows)) (dstIPs d').
Proof.
  induction flows as [|record flows IH]; intros d p np t Hall Ht Ho Hinv.
  - simpl. rewrite Z.add_0_r. repeat split. now exists np.
  - apply Forall_cons in Hall as [Hrecord Hall].
    cbn [foldl]. cbn [length] in *.
    destruct (processCurrentFlow_column_prefix record d p np t
                Hrecord ltac:(lia) Ho Hinv) as (Hh & Hw & Hos & np1 & Hinv1).
    assert (Hcol : ∀ key i,
              CountMinSketch.getCol (dstIPs (processCurrentFlow protectedPrefixes record d))
                key i
              = CountMinSketch.getCol (dstIPs d) key i)
      by (intros key i; unfold CountMinSketch.getCol; now rewrite Hh, Hw).
    destruct (IH (processCurrentFlow protectedPrefixes record d) p np1 (t + 1))
      as (Hh' & Hw' & Ho' & np' & Hinv').
    + eapply Forall_impl; [ exact Hall | ]. intros r Hr. rewrite !Hcol. exact Hr.
    + lia.
    + now rewrite Hos.
    + exact Hinv1.
    + cbv zeta. rewrite Hh', Hw', Ho'. repeat split; try assumption.
      exists np'.
      replace (t + Z.of_nat (S (length flows))) with (t + 1 + Z.of_nat (length flows))
        by lia.
      exact Hinv'.
Qed.

End DrainFacts.

(** a reversible key minus itself reverses to the key 0 *)
Lemma reverseKey_sub_self (b : binCountSketchValue.t) :
  length (binCountSketchValue.binCount b) = 32%nat →
  binCountSketchValue.reverseKey 32 (binCountSketchValue.sub 32 b b) = 0.
Proof.
  intros Hlen. apply Z.bits_inj'. intros n Hn. rewrite Z.bits_0.
  rewrite reverseKey_testbit by easy.
  destruct (decide (n < Z.of_nat 32)) as [Hlt|Hge].
  - rewrite bool_decide_eq_true_2, andb_true_l by easy.
    assert (Hs : is_Some (binCountSketchValue.binCount b !! Z.to_nat n))
      by (apply lookup_lt_is_Some; lia).
    destruct Hs as [x Hx].
    assert (Hsub : binCountSketchValue.binCount (binCountSketchValue.sub 32 b b)
                     !! Z.to_nat n = Some 0).
    { rewrite sub_binCount_lookup, decide_True, Hx by lia.
      cbn [fmap option_fmap option_map].
      rewrite (list_lookup_total_correct _ _ _ Hx), Z.ltb_irrefl, Z.sub_diag.
      reflexivity. }
    rewrite (list_lookup_total_correct _ _ _ Hsub), sub_totalCount, Z.ltb_irrefl,
      Z.sub_diag.
    reflexivity.
  - now rewrite bool_decide_eq_false_2.
Qed.

Section DrainTheorem.
Variable protectedPrefixes : Z → option Float32.t.

(** the column of a prefix that is alone in its row-0 cell is drained by
    the first iteration; the second iteration reverses the emptied cell to
    the key 0, which is not protected, and leaves the loop *)
Lemma reverseAllKeys_while_column_prefix (s : BCSketchTypeDstIPs) (p np t : Z)
    (fuel : nat) (maxIP0 : Z) (res0 : ddosDetectorValue.t) (rows0 : gmap Z Z) :
  Z.land p mask24 = p → isProtected protectedPrefixes p = true →
  isProtected protectedPrefixes 0 = false →
  0 < np → t < 2 ^ 32 →
  (0 < CountMinSketch.outerSize s)%nat →
  column_prefix_inv p np t s →
  let column := CountMinSketch.getCol s p 0 in
  let c0 := CountMinSketch.cell s 0 column in
  ∃ st, reverseAllKeys_while protectedPrefixes (S (S fuel)) column
          (mkRS 0 0 maxIP0 res0 s rows0) = Some st ∧
        rs_resultCell st = ddosDetectorValue.add res0 (CountMinSketch.value c0) ∧
        rs_dstIPs st = CountMinSketch.dec p c0 s ∧
        rs_rows st =
          foldl (λ rows (srcIP : Z * Z), <[srcIP.1 := 0]> rows) rows0
            (map_to_list (ddosDetectorValue.getCommunicatedWith
                            (CountMinSketch.value c0))) ∧
        CountMinSketch.count (CountMinSketch.cell (rs_dstIPs st) 0 column) = 0 ∧
        binCountSketchValue.totalCount
          (ddosDetectorValue.reversibleKey_
             (CountMinSketch.value (CountMinSketch.cell (rs_dstIPs st) 0 column))) = 0.
Proof.
  intros Hp Hprot Hzero Hnp Ht Ho (_ & Hrows & c & Hc & Hcnt & Htot & Hlen & Hbins)
         column c0.
  fold column in Hc.
  assert (Hc0 : c0 = c) by (subst c0; unfold CountMinSketch.cell; now rewrite Hc).
  (* the table after the subtraction *)
  set (s' := CountMinSketch.dec p c0 s).
  destruct (foldl_rows
              (λ (_ : nat) c',
                 CountMinSketch.mkCell
                   (if CountMinSketch.count c' <? CountMinSketch.count c0 then 0
                    else wrap32 (CountMinSketch.count c' - CountMinSketch.count c0))
                   (sv_sub (CountMinSketch.value c') (CountMinSketch.value c0)))
              p (CountMinSketch.outerSize s) 0 s) as (_ & _ & _ & Hl').
  change (foldl _ s (seq 0 (CountMinSketch.outerSize s))) with s' in Hl'.
  assert (Hcell' : CountMinSketch.cell s' 0 column
                   = CountMinSketch.mkCell 0
                       (ddosDetectorValue.sub (CountMinSketch.value c)
                          (CountMinSketch.value c))).
  { unfold CountMinSketch.cell. rewrite Hl', Hc.
    rewrite decide_True by (split; [ lia | reflexivity ]).
    cbn [fmap option_fmap option_map default]. rewrite Hc0, Z.ltb_irrefl, Z.sub_diag.
    reflexivity. }
  (* first iteration *)
  cbn [reverseAllKeys_while rs_prevCnt rs_dstIPs rs_maxIPBytes rs_maxIP rs_resultCell rs_rows].
  fold c0. rewrite Hc0, Hcnt.
  destruct (Z.eqb_spec 0 np) as [?|_]; [ lia | ].
  assert (Hrev : Z.land (ddosDetectorValue.reverseKey (CountMinSketch.value c)) mask24 = p).
  { rewrite <- Hp. apply (reverseKey_single_prefix p np); [ lia | exact Htot | ].
    rewrite Hp. exact Hbins. }
  rewrite Hrev.
  assert (Hest : CountMinSketch.estimate s p = (0%nat, column)).
  { apply estimate_min_row0. intros i Hi. fold column. fold c0. rewrite Hc0, Hcnt.
    destruct (Hrows i Hi) as (ci & Hci & Hcnti).
    unfold CountMinSketch.cell. rewrite Hci. simpl. lia. }
  rewrite Hest. cbn [fst snd]. fold c0. rewrite Hc0, Hcnt, Hprot.
  destruct (Z.eqb_spec np 0) as [?|_]; [ lia | ]. cbn [negb orb].
  destruct (if 0 <? ddosDetectorValue.getByteCount (CountMinSketch.value c)
            then (ddosDetectorValue.getByteCount (CountMinSketch.value c), p)
            else (0, maxIP0)) as [maxIPBytes maxIP].
  rewrite <- Hc0. fold s'.
  (* second iteration *)
  rewrite Hcell'. cbn [CountMinSketch.count CountMinSketch.value].
  destruct (Z.eqb_spec np 0) as [?|_]; [ lia | ].
  unfold ddosDetectorValue.reverseKey, ddosDetectorValue.sub.
  cbn [ddosDetectorValue.reversibleKey_].
  rewrite (reverseKey_sub_self _ Hlen).
  change (Z.land 0 mask24) with 0. rewrite Hzero, orb_true_r.
  eexists. split; [ reflexivity | ].
  cbn [rs_resultCell rs_dstIPs rs_rows]. rewrite Hcell'.
  repeat split.
  cbn [CountMinSketch.value ddosDetectorValue.sub ddosDetectorValue.reversibleKey_].
  rewrite sub_totalCount, Z.ltb_irrefl, Z.sub_diag. reflexivity.
Qed.

End DrainTheorem.
Lemma foldl_insert_rows_lookup (l : list (Z * Z)) (row : Z) :
  ∀ (rows : gmap Z Z) (k : Z),
    foldl (λ rows (srcIP : Z * Z), <[srcIP.1 := row]> rows) rows l !! k =
    if decide (k ∈ l.*1) then Some row else rows !! k.
Proof.
  induction l as [|[k0 v0] l IH]; intros rows k.
  - cbn [foldl]. rewrite decide_False by apply not_elem_of_nil. reflexivity.
  - cbn [foldl]. rewrite IH. rewrite fmap_cons. cbn [fst].
    destruct (decide (k ∈ l.*1)) as [Hin|Hin].
    + rewrite decide_True by now apply list_elem_of_further. reflexivity.
    + destruct (decide (k = k0)) as [->|Hne].
      * rewrite lookup_insert_eq, decide_True by apply list_elem_of_here. reflexivity.
      * rewrite lookup_insert_ne by congruence.
        rewrite decide_False; [ reflexivity | ].
        intros [?|?]%elem_of_cons; contradiction.
Qed.

Lemma map_add_all_is_Some (l : list (Z * Z)) :
  ∀ (acc : gmap Z Z) (k : Z),
    is_Some (foldl (λ acc kv, ddosDetectorValue.map_add kv.1 kv.2 acc) acc l !! k) →
    k ∈ l.*1 ∨ is_Some (acc !! k).
Proof.
  induction l as [|[k0 v0] l IH]; intros acc k Hk; simpl in *.
  - now right.
  - apply IH in Hk as [Hk|Hk]; [ left; now apply list_elem_of_further | ].
    unfold ddosDetectorValue.map_add in Hk. simpl in Hk.
    destruct (decide (k = k0)) as [->|Hne].
    + left. apply list_elem_of_here.
    + rewrite lookup_insert_ne in Hk by congruence. now right.
Qed.

Lemma reverseSrcIPs_for_returns (fuel : nat) (entries : list (Z * Z))
    (rows : gmap Z Z) (srcIPsCopy : BCSketchTypeSrcIPs) :
  (∀ e, e ∈ entries → is_Some (rows !! e.1)) →
  ∀ vec, ∃ vec', reverseSrcIPs_for (S (S fuel)) entries vec rows srcIPsCopy
                 = Returned vec'.
Proof.
  induction entries as [|e entries IH]; intros Hrows vec; cbn [reverseSrcIPs_for].
  - now exists vec.
  - destruct (Hrows e (list_elem_of_here _ _)) as [row ->].
    destruct (reverseSrcIPs_while_once fuel (Z.to_nat row) (Z.to_nat e.1) e.2
                srcIPsCopy vec) as (added & -> & _).
    apply IH. intros e' He'. apply Hrows. now apply list_elem_of_further.
Qed.

(** A column with a single prefix.  Take a destination sketch filled from
    empty by the flows of a window (fewer than 2^32), a protected /24 prefix
    [p], and suppose that [p] is the only prefix inserted into its row-0
    column and that the prefix 0.0.0.0/24 is not protected.  Then
    [reverseAllKeys] on that column, called with an empty result cell,
    returns after two iterations at most; the result cell is the column's
    original row-0 cell as a whole (nothing when the cell was empty); and
    afterwards the row-0 cell of the column has count 0 and total 0. *)
Lemma single_prefix_drain (protectedPrefixes : Z → option Float32.t)
    (h : nat → Z → Z) (outer inner : nat) (d0 : ddosDetector)
    (flows : list netflowRecord_t) (p : Z) (fuel : nat) :
  dstIPs d0 = CountMinSketch.new h outer inner →
  (0 < outer)%nat → (0 < inner)%nat →
  Z.of_nat (length flows) < 2 ^ 32 →
  Z.land p mask24 = p →
  isProtected protectedPrefixes p = true →
  isProtected protectedPrefixes 0 = false →
  Forall (λ record,
            isProtected protectedPrefixes (dstAddr record) = true →
            CountMinSketch.getCol (dstIPs d0) (Z.land (dstAddr record) mask24) 0
            = CountMinSketch.getCol (dstIPs d0) p 0 →
            Z.land (dstAddr record) mask24 = p) flows →
  let d := foldl (λ d record, processCurrentFlow protectedPrefixes record d) d0 flows in
  let column := CountMinSketch.getCol (dstIPs d) p 0 in
  let original := CountMinSketch.cell (dstIPs d) 0 column in
  ∃ r, reverseAllKeys protectedPrefixes (S (S fuel)) 0 ddosDetectorValue.init
         (dstIPs d) (srcIPs d) column [] = Returned r ∧
       r_resultCell r
       = (if CountMinSketch.count original =? 0 then ddosDetectorValue.init
          else ddosDetectorValue.add ddosDetectorValue.init
                 (CountMinSketch.value original)) ∧
       binCountSketchValue.totalCount (ddosDetectorValue.reversibleKey_ (r_resultCell r))
       = binCountSketchValue.totalCount
           (ddosDetectorValue.reversibleKey_ (CountMinSketch.value original)) ∧
       CountMinSketch.count (CountMinSketch.cell (r_dstIPs r) 0 column) = 0 ∧
       binCountSketchValue.totalCount
         (ddosDetectorValue.reversibleKey_
            (CountMinSketch.value (CountMinSketch.cell (r_dstIPs r) 0 column))) = 0.
Proof.
  intros Hnew Ho Hw Hlen Hp Hprot Hzero Hall d column original.
  assert (Ho0 : (0 < CountMinSketch.outerSize (dstIPs d0))%nat).
  { rewrite Hnew. unfold CountMinSketch.outerSize, CountMinSketch.new; simpl.
    now rewrite length_replicate. }
  destruct (flows_column_prefix protectedPrefixes flows d0 p 0 0 Hall ltac:(lia) Ho0)
    as (Hh' & Hw' & Ho' & np & Hinv).
  { rewrite Hnew. now apply column_prefix_inv_new. }
  fold d in Hh', Hw', Ho', Hinv. rewrite Z.add_0_l in Hinv.
  assert (Hod : (0 < CountMinSketch.outerSize (dstIPs d))%nat) by now rewrite Ho'.
  pose proof Hinv as (Hnp & _ & c & Hc & Hcnt & Htot & _).
  fold column in Hc.
  assert (Horig : original = c)
    by (subst original; unfold CountMinSketch.cell; now rewrite Hc).
  rewrite Horig, Hcnt, Htot.
  destruct (Z.eqb_spec np 0) as [Hnp0|Hnp0].
  - (* no flow went to the prefix: the loop is not entered *)
    unfold reverseAllKeys. cbn [reverseAllKeys_while rs_prevCnt rs_dstIPs].
    fold original. rewrite Horig, Hcnt, Hnp0. cbn [Z.eqb rs_maxIP].
    eexists. split; [ reflexivity | ].
    cbn [r_resultCell r_dstIPs rs_resultCell rs_dstIPs].
    fold original. rewrite Horig, Hcnt, Htot, Hnp0. repeat split.
  - destruct (reverseAllKeys_while_column_prefix protectedPrefixes (dstIPs d) p np
                (Z.of_nat (length flows)) fuel 0 ddosDetectorValue.init ∅
                Hp Hprot Hzero ltac:(lia) Hlen Hod Hinv)
      as (st & Hwhile & Hres & Hdst & Hrows & Hcount0 & Htot0).
    fold column in Hwhile, Hres, Hdst, Hrows, Hcount0, Htot0.
    fold original in Hres, Hdst, Hrows. rewrite Horig in Hres, Hrows.
    unfold reverseAllKeys. rewrite Hwhile.
    assert (Htotal :
      binCountSketchValue.totalCount (ddosDetectorValue.reversibleKey_ (rs_resultCell st))
      = np).
    { rewrite Hres. unfold ddosDetectorValue.add.
      cbn [ddosDetectorValue.reversibleKey_].
      unfold binCountSketchValue.add. cbn [binCountSketchValue.totalCount].
      rewrite Htot. apply wrap32_small. lia. }
    destruct (rs_maxIP st =? 0).
    { eexists. split; [ reflexivity | ].
      cbn [r_resultCell r_dstIPs]. repeat split; assumption. }
    destruct (reverseSrcIPs_for_returns fuel
                (map_to_list (ddosDetectorValue.getCommunicatedWith (rs_resultCell st)))
                (rs_rows st) (srcIPs d)) with (vec := @nil (Z * Z)) as (vec' & Hret).
    { intros [k x] Hkx. apply elem_of_map_to_list in Hkx. simpl.
      rewrite Hrows, foldl_insert_rows_lookup.
      rewrite Hres in Hkx. unfold ddosDetectorValue.add in Hkx.
      unfold ddosDetectorValue.getCommunicatedWith, ddosDetectorValue.map_add_all,
        ddosDetectorValue.init in Hkx.
      cbn [ddosDetectorValue.communicatedWith_] in Hkx.
      destruct (map_add_all_is_Some _ ∅ k (mk_is_Some _ _ Hkx)) as [Hin|[? Hemp]].
      - rewrite decide_True by exact Hin. eauto.
      - rewrite lookup_empty in Hemp. discriminate. }
    unfold reverseSrcIPs. rewrite Hret.
    eexists. split; [ reflexivity | ].
    cbn [r_resultCell r_dstIPs]. repeat split; assumption.
Qed.

(** C5 as stated fails: the protected prefixes 10.0.1.0/24 and 10.0.2.0/24
    fall in column 10 of row 0 and have received one flow each.  The majority
    vote gives their common bits, the prefix 10.0.0.0/24, which is not
    protected, so the loop stops at once: nothing is accumulated into the
    result cell (total 0, the cell's original total is 2) and the row-0 cell
    of the column keeps its total of 2. *)
Lemma C5_equal_weight_keys_not_drained :
  let d := foldl (λ d record, processCurrentFlow protected_example record d)
                 detector_example [flow_to_1_5; flow_to_2_5] in
  isProtected protected_example 65546 = true ∧
  isProtected protected_example 131082 = true ∧
  CountMinSketch.getCol (dstIPs d) 65546 0 = 10%nat ∧
  CountMinSketch.getCol (dstIPs d) 131082 0 = 10%nat ∧
  CountMinSketch.count (CountMinSketch.cell (dstIPs d) 0 10) = 2 ∧
  binCountSketchValue.totalCount
    (ddosDetectorValue.reversibleKey_
       (CountMinSketch.value (CountMinSketch.cell (dstIPs d) 0 10))) = 2 ∧
  match reverseAllKeys protected_example 10 0 ddosDetectorValue.init
          (dstIPs d) (srcIPs d) 10 [] with
  | Returned r =>
      binCountSketchValue.totalCount
        (ddosDetectorValue.reversibleKey_ (r_resultCell r)) = 0 ∧
      CountMinSketch.count (CountMinSketch.cell (r_dstIPs r) 0 10) = 2 ∧
      binCountSketchValue.totalCount
        (ddosDetectorValue.reversibleKey_
           (CountMinSketch.value (CountMinSketch.cell (r_dstIPs r) 0 10))) = 2
  | _ => False
  end.
Proof. vm_compute. repeat split. Qed.

(* ===================================================================== *)
(** * The tracker during warm-up and after a NaN sample *)
(* ===================================================================== *)

Lemma Double_add_nan_l (x : Double.t) : (S754_nan + x)%D = S754_nan.
Proof. reflexivity. Qed.

Lemma Double_add_nan_r (x : Double.t) : (x + S754_nan)%D = S754_nan.
Proof. now destruct x. Qed.

Lemma Double_sub_nan_l (x : Double.t) : (S754_nan - x)%D = S754_nan.
Proof. reflexivity. Qed.

Lemma Double_sub_nan_r (x : Double.t) : (x - S754_nan)%D = S754_nan.
Proof. now destruct x. Qed.

Lemma Double_mul_nan_r (x : Double.t) : (x * S754_nan)%D = S754_nan.
Proof. now destruct x. Qed.

Lemma Double_max_zero_nan : Double.max Double.zero S754_nan = Double.zero.
Proof. reflexivity. Qed.

Lemma Double_max_zero_zero : Double.max Double.zero Double.zero = Double.zero.
Proof. reflexivity. Qed.

Lemma SFltb_zero_nonneg (y : spec_float) :
  SFleb (S754_zero false) y = true → SFltb y (S754_zero false) = false.
Proof. destruct y as [[]|[]| |[] ? ?]; cbv; intros; congruence. Qed.

Section CusumEdgeFacts.
Import AdaptiveCUSUM.

Lemma process_nan_mean (x : Double.t) (l : bool) (a : t) :
  first a = false → m a = S754_nan →
  let a' := process x l a in
  first a' = false ∧ m a' = S754_nan ∧
  (SH a' = SH a ∨ SH a' = Double.zero) ∧ (SL a' = SL a ∨ SL a' = Double.zero) ∧
  (l = false → SH a' = Double.zero ∧ SL a' = Double.zero).
Proof.
  intros Hf Hm. unfold process. rewrite Hf. cbn.
  rewrite Hm.
  repeat (progress rewrite ?Double_sub_nan_r, ?Double_mul_nan_r, ?Double_add_nan_r,
            ?Double_sub_nan_l, ?Double_add_nan_l).
  destruct (negb l || (span_ a <=? windowID a)) eqn:E; cbn.
  - rewrite Double_max_zero_nan. repeat split; auto.
  - split; [assumption|]. split; [reflexivity|]. split; [now left|].
    split; [now left|]. intros ->. discriminate.
Qed.

Lemma sample_nan_mean (l : bool) (a : t) :
  let a' := process S754_nan l a in first a' = false ∧ m a' = S754_nan.
Proof.
  split; [apply process_params|].
  unfold process. destruct (first a); cbn; [reflexivity|].
  repeat (progress rewrite ?Double_sub_nan_r, ?Double_mul_nan_r, ?Double_add_nan_r,
            ?Double_sub_nan_l, ?Double_add_nan_l).
  destruct (negb l || _); reflexivity.
Qed.

Lemma run_nan_mean (calls : list (Double.t * bool)) (a : t) :
  first a = false → m a = S754_nan →
  first (run a calls) = false ∧ m (run a calls) = S754_nan.
Proof.
  revert a. induction calls as [|[x l] calls IH]; intros a Hf Hm; [easy|].
  change (run a ((x, l) :: calls)) with (run (process x l a) calls).
  destruct (process_nan_mean x l a Hf Hm) as (Hf' & Hm' & _).
  now apply IH.
Qed.

(** X1.  A NaN sample silences a tracker for good.  Once [process] was called
    with a NaN sample, in learning or not, and whatever calls follow, a call
    outside learning leaves the mean NaN and [SH] and [SL] at 0, and
    [isPositiveAnomaly] is false for every multiplier for which
    [thresholdHigh * multiplier] is at least 0. *)
Theorem X1_nan_sample_silences_tracker (a : t) (l : bool)
    (calls : list (Double.t * bool)) (x : Double.t) :
  let a' := process x false (run (process S754_nan l a) calls) in
  m a' = S754_nan ∧ SH a' = Double.zero ∧ SL a' = Double.zero ∧
  ∀ multiplier,
    Double.leb Double.zero (thresholdHigh a' * multiplier)%D = true →
    isPositiveAnomaly multiplier a' = false.
Proof.
  cbv zeta.
  destruct (sample_nan_mean l a) as [Hf Hm].
  destruct (run_nan_mean calls _ Hf Hm) as [Hf' Hm'].
  destruct (process_nan_mean x false _ Hf' Hm') as (_ & Hm'' & _ & _ & HS).
  destruct (HS eq_refl) as [HSH HSL].
  repeat split; auto.
  intros multiplier Hle. unfold isPositiveAnomaly. rewrite HSH.
  now apply SFltb_zero_nonneg.
Qed.

Lemma warm_up_inv (c0 alpha0 : Double.t) (span : Z) (calls : list (Double.t * bool)) :
  Forall (λ call, call.2 = true) calls →
  Z.of_nat (length calls) ≤ span + 1 → span < 2 ^ 32 →
  let a := run (new c0 alpha0 span) calls in
  SH a = Double.zero ∧ SL a = Double.zero ∧
  maxSH a = Double.zero ∧ maxSL a = Double.zero ∧
  span_ a = span ∧
  first a = bool_decide (calls = []) ∧
  windowID a = Z.max 0 (Z.of_nat (length calls) - 1).
Proof.
  induction calls as [|[x l] calls IH] using rev_ind; intros Hall Hlen Hspan.
  - repeat split.
  - apply Forall_app in Hall as [Hall Hl].
    rewrite Forall_singleton in Hl. simpl in Hl. subst l.
    rewrite length_app in Hlen. simpl in Hlen.
    destruct IH as (HSH & HSL & HmH & HmL & Hsp & Hf & Hw); [done|lia|done|].
    cbv zeta. rewrite run_snoc.
    set (a := run (new c0 alpha0 span) calls) in *.
    rewrite length_app. simpl length.
    unfold process. destruct calls as [|call calls].
    + rewrite Hf. cbn. repeat split.
    + rewrite Hf. rewrite bool_decide_eq_false_2 by discriminate.
      cbn [negb orb set_m set_v set_SH set_SL set_maxSH set_maxSL set_windowID
           span_ windowID SH SL maxSH maxSL first c alpha m v].
      rewrite Hsp, Hw.
      simpl length in *.
      replace (span <=? Z.max 0 (Z.of_nat (S (length calls)) - 1)) with false
        by (symmetry; apply Z.leb_gt; lia).
      cbn [negb orb set_m set_v set_SH set_SL set_maxSH set_maxSL set_windowID
           span_ windowID SH SL maxSH maxSL first c alpha m v].
      rewrite HSH, HSL, HmH, HmL.
      repeat split.
      * exact Hsp.
      * rewrite Hf. rewrite !bool_decide_eq_false_2; [reflexivity| |discriminate].
        intros Heq. apply (f_equal length) in Heq. rewrite length_app in Heq.
        simpl in Heq. lia.
      * rewrite Hw. unfold wrap32. rewrite Z.mod_small by lia. lia.
Qed.

(** X2.  Warm-up.  As long as a fresh tracker has only seen learning calls, at
    most [span + 1] of them, [SH], [SL], [maxSH] and [maxSL] are still 0,
    whatever the samples were, and [windowID] counts the calls after the
    first. *)
Theorem X2_learning_warm_up (c0 alpha0 : Double.t) (span : Z)
    (calls : list (Double.t * bool)) :
  Forall (λ call, call.2 = true) calls →
  Z.of_nat (length calls) ≤ span + 1 → span < 2 ^ 32 →
  let a := run (new c0 alpha0 span) calls in
  SH a = Double.zero ∧ SL a = Double.zero ∧
  maxSH a = Double.zero ∧ maxSL a = Double.zero ∧
  windowID a = Z.max 0 (Z.of_nat (length calls) - 1).
Proof.
  intros Hall Hlen Hspan.
  destruct (warm_up_inv c0 alpha0 span calls Hall Hlen Hspan)
    as (? & ? & ? & ? & _ & _ & ?).
  now repeat split.
Qed.

End CusumEdgeFacts.

Lemma X2_learning_warm_up_witness :
  let a := AdaptiveCUSUM.run (AdaptiveCUSUM.new double_half double_half 60)
             [(Double.of_Z 0, true); (Double.of_Z 10, true)] in
  AdaptiveCUSUM.SH a = Double.zero ∧ AdaptiveCUSUM.SL a = Double.zero ∧
  AdaptiveCUSUM.maxSH a = Double.zero ∧ AdaptiveCUSUM.maxSL a = Double.zero ∧
  AdaptiveCUSUM.windowID a = 1.
Proof.
  apply (X2_learning_warm_up double_half double_half 60
           [(Double.of_Z 0, true); (Double.of_Z 10, true)]).
  - repeat constructor.
  - simpl. lia.
  - lia.
Defined.

(* ===================================================================== *)
(** * Streams of updates of a bin-count value *)
(* ===================================================================== *)

Lemma weight_where_app (P : Z → bool) (l1 l2 : list (Z * Z)) :
  weight_where P (l1 ++ l2) = weight_where P l1 + weight_where P l2.
Proof. induction l1 as [|kv l1 IH]; simpl; lia. Qed.

Lemma weight_where_nonneg (P : Z → bool) (l : list (Z * Z)) :
  Forall (λ kv, 0 ≤ kv.2) l → 0 ≤ weight_where P l.
Proof.
  induction 1 as [|kv l Hkv _ IH]; simpl; [lia|]. destruct (P kv.1); lia.
Qed.

Lemma weight_where_le (P Q : Z → bool) (l : list (Z * Z)) :
  (∀ key, P key = true → Q key = true) →
  Forall (λ kv, 0 ≤ kv.2) l → weight_where P l ≤ weight_where Q l.
Proof.
  intros HPQ. induction 1 as [|kv l Hkv _ IH]; simpl; [lia|].
  destruct (P kv.1) eqn:EP; [rewrite (HPQ _ EP); lia|]. destruct (Q kv.1); lia.
Qed.

Lemma weight_where_disjoint (P Q : Z → bool) (l : list (Z * Z)) :
  (∀ key, P key = true → Q key = false) →
  Forall (λ kv, 0 ≤ kv.2) l →
  weight_where P l + weight_where Q l ≤ weight_where (λ _, true) l.
Proof.
  intros HPQ. induction 1 as [|kv l Hkv _ IH]; simpl; [lia|].
  destruct (P kv.1) eqn:EP; [rewrite (HPQ _ EP); lia|]. destruct (Q kv.1); lia.
Qed.

Lemma narrow_app (l1 l2 : list (Z * Z)) : narrow (l1 ++ l2) = narrow l1 ++ narrow l2.
Proof. apply fmap_app. Qed.

Lemma narrow_u16 (l : list (Z * Z)) : Forall (λ kv, is_u16 kv.2) (narrow l).
Proof.
  apply Forall_fmap, Forall_true. intros kv. cbn. unfold is_u16, wrap16.
  apply Z.mod_pos_bound. lia.
Qed.

Lemma narrow_id (l : list (Z * Z)) : Forall (λ kv, is_u16 kv.2) l → narrow l = l.
Proof.
  unfold narrow. induction 1 as [|[k v] l Hv _ IH]; [reflexivity|].
  rewrite fmap_cons, IH. cbn. now rewrite wrap16_small.
Qed.

Lemma u16_nonneg (l : list (Z * Z)) :
  Forall (λ kv, is_u16 kv.2) l → Forall (λ kv, 0 ≤ kv.2) l.
Proof.
  intros Hu. eapply Forall_impl; [exact Hu|]. unfold is_u16. intros; lia.
Qed.

(** narrowing does not raise the weight of a sequence of updates *)
Lemma weight_where_narrow_le (P : Z → bool) (l : list (Z * Z)) :
  Forall (λ kv, 0 ≤ kv.2) l → weight_where P (narrow l) ≤ weight_where P l.
Proof.
  induction 1 as [|[k v] l Hv _ IH]; [reflexivity|].
  unfold narrow in *. rewrite fmap_cons. cbn [weight_where fst snd] in *.
  assert (wrap16 v ≤ v) by (unfold wrap16; apply Z.mod_le; lia).
  destruct (P k); lia.
Qed.

Lemma wrap32_add_l (x y : Z) : wrap32 (wrap32 x + y) = wrap32 (x + y).
Proof. unfold wrap32. apply Zplus_mod_idemp_l. Qed.

Lemma wrap32_add_r (x y : Z) : wrap32 (x + wrap32 y) = wrap32 (x + y).
Proof. unfold wrap32. apply Zplus_mod_idemp_r. Qed.

Lemma BCV_eq (a b : binCountSketchValue.t) :
  binCountSketchValue.totalCount a = binCountSketchValue.totalCount b →
  binCountSketchValue.binCount a = binCountSketchValue.binCount b → a = b.
Proof. destruct a, b; simpl; congruence. Qed.

Section BCVStreamFacts.
Variable noBits : nat.
Import binCountSketchValue.

Lemma BCV_stream_snoc (l : list (Z * Z)) (kv : Z * Z) :
  BCV_stream noBits (l ++ [kv]) = update noBits kv.1 kv.2 (BCV_stream noBits l).
Proof. unfold BCV_stream. now rewrite foldl_app. Qed.

Lemma BCV_stream_totalCount (l : list (Z * Z)) :
  totalCount (BCV_stream noBits l) = wrap32 (weight_where (λ _, true) (narrow l)).
Proof.
  induction l as [|kv l IH] using rev_ind; [reflexivity|].
  rewrite BCV_stream_snoc, narrow_app, weight_where_app.
  cbn [narrow fmap list_fmap weight_where fst snd].
  rewrite update_totalCount, IH, wrap32_add_l. f_equal. lia.
Qed.

Lemma BCV_stream_length (l : list (Z * Z)) :
  length (binCount (BCV_stream noBits l)) = noBits.
Proof.
  induction l as [|kv l IH] using rev_ind.
  - apply length_replicate.
  - now rewrite BCV_stream_snoc, update_binCount_length.
Qed.

Lemma BCV_stream_binCount (l : list (Z * Z)) (j : nat) :
  (j < noBits)%nat →
  binCount (BCV_stream noBits l) !! j
  = Some (wrap32 (weight_where (λ key, Z.testbit key (Z.of_nat j)) (narrow l))).
Proof.
  intros Hj. induction l as [|kv l IH] using rev_ind.
  - unfold BCV_stream, init. cbn [foldl binCount].
    now rewrite lookup_replicate_2.
  - rewrite BCV_stream_snoc, update_binCount_lookup, decide_True by done.
    rewrite IH, narrow_app, weight_where_app.
    cbn [narrow fmap list_fmap weight_where fst snd option_fmap option_map]. f_equal.
    destruct (Z.testbit kv.1 (Z.of_nat j)).
    + rewrite wrap32_add_l. f_equal. lia.
    + f_equal. lia.
Qed.

Lemma BCV_stream_binCount_total (l : list (Z * Z)) (j : nat) :
  (j < noBits)%nat →
  binCount (BCV_stream noBits l) !!! j
  = wrap32 (weight_where (λ key, Z.testbit key (Z.of_nat j)) (narrow l)).
Proof.
  intros Hj. apply list_lookup_total_correct. now apply BCV_stream_binCount.
Qed.

End BCVStreamFacts.

Lemma majority_bit (noBits : nat) (updates : list (Z * Z)) (P : Z → bool)
    (j : nat) (bit : bool) :
  (j < noBits)%nat →
  (∀ key, P key = true → Z.testbit key (Z.of_nat j) = bit) →
  Forall (λ kv, is_u16 kv.2) updates →
  weight_where (λ _, true) updates < 2 ^ 32 →
  weight_where (λ _, true) updates < 2 * weight_where P updates →
  Z.testbit (binCountSketchValue.reverseKey noBits (BCV_stream noBits updates))
    (Z.of_nat j) = bit.
Proof.
  intros Hj HP Hu16 Hfit Hmaj.
  assert (Hpos := u16_nonneg updates Hu16).
  rewrite reverseKey_testbit by lia.
  rewrite bool_decide_eq_true_2, andb_true_l by lia.
  rewrite BCV_stream_totalCount, Nat2Z.id, BCV_stream_binCount_total by done.
  rewrite (narrow_id updates Hu16).
  set (T := weight_where (λ _, true) updates) in *.
  set (B := weight_where (λ key, Z.testbit key (Z.of_nat j)) updates).
  set (K := weight_where P updates) in *.
  assert (HB0 : 0 ≤ B) by now apply weight_where_nonneg.
  assert (HT0 : 0 ≤ T) by now apply weight_where_nonneg.
  assert (HBT : B ≤ T) by now apply weight_where_le.
  rewrite (wrap32_small T), (wrap32_small B) by lia.
  destruct bit.
  - assert (K ≤ B) by (apply weight_where_le; auto).
    apply Z.gtb_lt. apply Z.div_lt_upper_bound; lia.
  - assert (K + B ≤ T) by (apply weight_where_disjoint; auto).
    rewrite Z.gtb_ltb. apply Z.ltb_ge.
    apply Z.div_le_lower_bound; lia.
Qed.

Lemma reverseKey_high_bits (noBits : nat) (b : binCountSketchValue.t) (j : Z) :
  Z.of_nat noBits ≤ j →
  Z.testbit (binCountSketchValue.reverseKey noBits b) j = false.
Proof.
  intros Hj. rewrite reverseKey_testbit by lia.
  now rewrite bool_decide_eq_false_2 by lia.
Qed.

Lemma testbit_above (k n j : Z) : 0 ≤ k < 2 ^ n → n ≤ j → Z.testbit k j = false.
Proof.
  intros Hk Hj.
  destruct (Z.eq_dec k 0) as [->|Hk0]; [apply Z.bits_0|].
  assert (0 ≤ n).
  { destruct (Z.le_gt_cases 0 n); [done|]. rewrite Z.pow_neg_r in Hk; lia. }
  apply Z.bits_above_log2; [lia|].
  apply Z.log2_lt_pow2; [lia|].
  apply Z.lt_le_trans with (2 ^ n); [lia|].
  apply Z.pow_le_mono_r; lia.
Qed.

(** X3.  A key that holds more than half of the weight of a stream of updates
    is the key that [reverseKey] returns, whatever the other keys are,
    provided every weight is within [uint16_t], the type of the parameter
    of [update], and the total weight fits in 32 bits. *)
Theorem X3_majority_key_is_recovered (noBits : nat) (updates : list (Z * Z)) (k : Z) :
  (noBits ≤ 32)%nat → 0 ≤ k < 2 ^ Z.of_nat noBits →
  Forall (λ kv, is_u16 kv.2) updates →
  weight_where (λ _, true) updates < 2 ^ 32 →
  weight_where (λ _, true) updates < 2 * weight_where (Z.eqb k) updates →
  binCountSketchValue.reverseKey noBits (BCV_stream noBits updates) = k.
Proof.
  intros Hbits Hk Hpos Hfit Hmaj.
  apply Z.bits_inj'. intros j Hj.
  destruct (Z.lt_ge_cases j (Z.of_nat noBits)) as [Hlt|Hge].
  - rewrite <- (Z2Nat.id j) by lia.
    apply (majority_bit noBits updates (Z.eqb k)); try done; [lia|].
    intros key Heq. apply Z.eqb_eq in Heq. now subst key.
  - rewrite reverseKey_high_bits by done. symmetry.
    now apply (testbit_above k (Z.of_nat noBits)).
Qed.

Lemma X3_majority_key_is_recovered_witness :
  binCountSketchValue.reverseKey 32
    (BCV_stream 32 [(84017162, 2); (5, 1)]) = 84017162.
Proof.
  apply (X3_majority_key_is_recovered 32 [(84017162, 2); (5, 1)] 84017162).
  - lia.
  - simpl. lia.
  - repeat constructor; unfold is_u16; simpl; lia.
  - vm_compute. reflexivity.
  - vm_compute. reflexivity.
Defined.

(** X4.  [operator+=] on the values of two streams of updates gives the value
    of the two streams put together, overflow included. *)
Theorem X4_add_is_stream_concatenation (noBits : nat) (l1 l2 : list (Z * Z)) :
  binCountSketchValue.add noBits (BCV_stream noBits l1) (BCV_stream noBits l2)
  = BCV_stream noBits (l1 ++ l2).
Proof.
  apply BCV_eq.
  - unfold binCountSketchValue.add. cbn [binCountSketchValue.totalCount].
    rewrite !BCV_stream_totalCount, narrow_app, weight_where_app.
    now rewrite wrap32_add_l, wrap32_add_r.
  - apply list_eq. intros j.
    rewrite add_binCount_lookup.
    destruct (decide (j < noBits)%nat) as [Hj|Hj].
    + rewrite BCV_stream_binCount_total, !BCV_stream_binCount by done.
      rewrite narrow_app, weight_where_app. simpl.
      now rewrite wrap32_add_l, wrap32_add_r.
    + rewrite !lookup_ge_None_2; [done| |]; rewrite BCV_stream_length; lia.
Qed.

(** X5.  [operator-=] undoes the updates of the tail of a stream: the value of
    [l1 ++ l2] minus the value of [l2] is the value of [l1], provided the
    total weight fits in 32 bits. *)
Theorem X5_sub_removes_a_substream (noBits : nat) (l1 l2 : list (Z * Z)) :
  Forall (λ kv, 0 ≤ kv.2) (l1 ++ l2) →
  weight_where (λ _, true) (l1 ++ l2) < 2 ^ 32 →
  binCountSketchValue.sub noBits (BCV_stream noBits (l1 ++ l2)) (BCV_stream noBits l2)
  = BCV_stream noBits l1.
Proof.
  intros Hpos0 Hfit0.
  apply Forall_app in Hpos0 as [Hpos01 Hpos02].
  rewrite weight_where_app in Hfit0.
  assert (Hn1 := weight_where_narrow_le (λ _, true) l1 Hpos01).
  assert (Hn2 := weight_where_narrow_le (λ _, true) l2 Hpos02).
  assert (Hfit : weight_where (λ _, true) (narrow l1)
                 + weight_where (λ _, true) (narrow l2) < 2 ^ 32) by lia.
  assert (Hpos1 := u16_nonneg _ (narrow_u16 l1)).
  assert (Hpos2 := u16_nonneg _ (narrow_u16 l2)).
  clear Hn1 Hn2 Hfit0 Hpos01 Hpos02.
  assert (HT1 := weight_where_nonneg (λ _, true) _ Hpos1).
  assert (HT2 := weight_where_nonneg (λ _, true) _ Hpos2).
  apply BCV_eq.
  - rewrite sub_totalCount, !BCV_stream_totalCount, narrow_app, weight_where_app.
    set (T1 := weight_where (λ _, true) (narrow l1)) in *.
    set (T2 := weight_where (λ _, true) (narrow l2)) in *.
    rewrite (wrap32_small (T1 + T2)), (wrap32_small T2), (wrap32_small T1) by lia.
    destruct (Z.ltb_spec (T1 + T2) T2); [lia|].
    rewrite wrap32_small by lia. lia.
  - apply list_eq. intros j.
    rewrite sub_binCount_lookup.
    destruct (decide (j < noBits)%nat) as [Hj|Hj].
    + rewrite BCV_stream_binCount_total, !BCV_stream_binCount by done.
      rewrite narrow_app, weight_where_app. simpl.
      set (P := λ key, Z.testbit key (Z.of_nat j)).
      assert (HB1 := weight_where_nonneg P _ Hpos1).
      assert (HB2 := weight_where_nonneg P _ Hpos2).
      assert (weight_where P (narrow l1) ≤ weight_where (λ _, true) (narrow l1))
        by now apply weight_where_le.
      assert (weight_where P (narrow l2) ≤ weight_where (λ _, true) (narrow l2))
        by now apply weight_where_le.
      set (B1 := weight_where P (narrow l1)) in *.
      set (B2 := weight_where P (narrow l2)) in *.
      rewrite (wrap32_small (B1 + B2)), (wrap32_small B2), (wrap32_small B1) by lia.
      destruct (Z.ltb_spec (B1 + B2) B2); [lia|].
      rewrite wrap32_small by lia. f_equal. lia.
    + rewrite !lookup_ge_None_2; [done| |]; rewrite BCV_stream_length; lia.
Qed.

Lemma X5_sub_removes_a_substream_witness :
  binCountSketchValue.sub 32 (BCV_stream 32 ([(5, 1)] ++ [(7, 2)]))
    (BCV_stream 32 [(7, 2)])
  = BCV_stream 32 [(5, 1)].
Proof.
  apply (X5_sub_removes_a_substream 32 [(5, 1)] [(7, 2)]).
  - repeat constructor; simpl; lia.
  - vm_compute. reflexivity.
Defined.

(* ===================================================================== *)
(** * The aggregate of a stream of flows, and [+=] followed by [-=] *)
(* ===================================================================== *)

Lemma count_where_app {A : Type} (P : A → bool) (l1 l2 : list A) :
  count_where P (l1 ++ l2) = count_where P l1 + count_where P l2.
Proof. induction l1 as [|x l1 IH]; simpl; lia. Qed.

Lemma count_where_nonneg {A : Type} (P : A → bool) (l : list A) :
  0 ≤ count_where P l.
Proof. induction l as [|x l IH]; simpl; [lia|]. destruct (P x); lia. Qed.

Lemma weight_where_flow_keys (P : Z → bool) (records : list netflowRecord_t) :
  weight_where P ((λ r, (dstAddr r, 1)) <$> records)
  = count_where (λ r, P (dstAddr r)) records.
Proof.
  induction records as [|r records IH]; [done|].
  rewrite fmap_cons. cbn [weight_where count_where fst snd]. now rewrite IH.
Qed.

Lemma count_where_true {A : Type} (l : list A) :
  count_where (λ _, true) l = Z.of_nat (length l).
Proof. induction l as [|x l IH]; simpl length; simpl count_where; lia. Qed.

Lemma total_weight_snoc (l : list Z) (x : Z) :
  total_weight (l ++ [x]) = total_weight l + x.
Proof. unfold total_weight. now rewrite foldl_app. Qed.

Lemma wrap64_add_l (x y : Z) : wrap64 (wrap64 x + y) = wrap64 (x + y).
Proof. unfold wrap64. apply Zplus_mod_idemp_l. Qed.

Lemma DV_stream_snoc (records : list netflowRecord_t) (r : netflowRecord_t) :
  DV_stream (records ++ [r])
  = ddosDetectorValue.update (Z.land (dstAddr r) mask24) r (DV_stream records).
Proof. unfold DV_stream. now rewrite foldl_app. Qed.

Lemma DV_stream_reversibleKey (records : list netflowRecord_t) :
  ddosDetectorValue.reversibleKey_ (DV_stream records)
  = BCV_stream 32 ((λ r, (dstAddr r, 1)) <$> records).
Proof.
  induction records as [|r records IH] using rev_ind; [reflexivity|].
  rewrite DV_stream_snoc, fmap_app. cbn [fmap list_fmap].
  rewrite BCV_stream_snoc. cbn [fst snd].
  unfold ddosDetectorValue.update. cbn [ddosDetectorValue.reversibleKey_].
  now rewrite IH.
Qed.

Lemma map_add_lookup (key value : Z) (m : gmap Z Z) (k : Z) :
  ddosDetectorValue.map_add key value m !! k =
  if decide (k = key) then Some (wrap32 (default 0 (m !! k) + value)) else m !! k.
Proof.
  unfold ddosDetectorValue.map_add. destruct (decide (k = key)) as [->|Hne].
  - now rewrite lookup_insert_eq.
  - now rewrite lookup_insert_ne.
Qed.

(** X6.  The aggregate that a sequence of flows leaves in a fresh cell.  The
    flow count is the number of flows modulo 2^32 and equals the total of
    the reversible key; the byte and packet counts are the sums modulo 2^64
    and 2^32; nothing is counted as sent and no peer is recorded;
    [ipSubnets_] has an entry for a byte exactly when a flow had it as the
    top byte of [dstAddr], with the number of such flows. *)
Theorem X6_aggregate_of_flows (records : list netflowRecord_t) :
  let a := DV_stream records in
  ddosDetectorValue.flowCount_ a = wrap32 (Z.of_nat (length records)) ∧
  binCountSketchValue.totalCount (ddosDetectorValue.reversibleKey_ a)
    = ddosDetectorValue.flowCount_ a ∧
  ddosDetectorValue.byteCount_ a = wrap64 (total_weight (bytes <$> records)) ∧
  ddosDetectorValue.packetCount_ a = wrap32 (total_weight (packets <$> records)) ∧
  ddosDetectorValue.sentBytes_ a = 0 ∧
  ddosDetectorValue.sentFlows_ a = 0 ∧
  ddosDetectorValue.communicatedWith_ a = ∅ ∧
  ∀ s, ddosDetectorValue.ipSubnets_ a !! s =
       let n := count_where (λ r, wrap8 (Z.shiftr (dstAddr r) 24) =? s) records in
       if n =? 0 then None else Some (wrap32 n).
Proof.
  induction records as [|r records IH] using rev_ind.
  - repeat split.
  - destruct IH as (Hf & Ht & Hb & Hp & Hsb & Hsf & Hc & Hs).
    cbv zeta. rewrite DV_stream_snoc.
    unfold ddosDetectorValue.update.
    cbn [ddosDetectorValue.flowCount_ ddosDetectorValue.reversibleKey_
         ddosDetectorValue.byteCount_ ddosDetectorValue.packetCount_
         ddosDetectorValue.sentBytes_ ddosDetectorValue.sentFlows_
         ddosDetectorValue.communicatedWith_ ddosDetectorValue.ipSubnets_].
    rewrite length_app, !fmap_app. cbn [fmap list_fmap].
    rewrite !total_weight_snoc. simpl length.
    split; [rewrite Hf, wrap32_add_l; f_equal; lia|].
    split.
    { unfold binCountSketchValue.update. cbn [binCountSketchValue.totalCount].
      now rewrite Ht. }
    split; [now rewrite Hb, wrap64_add_l|].
    split; [now rewrite Hp, wrap32_add_l|].
    split; [done|]. split; [done|]. split; [done|].
    intros s. rewrite map_add_lookup, count_where_app. cbn [count_where].
    rewrite Hs. cbv zeta.
    set (n := count_where (λ r0, wrap8 (Z.shiftr (dstAddr r0) 24) =? s) records).
    assert (Hn : 0 ≤ n) by apply count_where_nonneg.
    destruct (decide (s = wrap8 (Z.shiftr (dstAddr r) 24))) as [->|Hne].
    + rewrite Z.eqb_refl.
      destruct (Z.eqb_spec n 0) as [->|Hn0].
      * reflexivity.
      * destruct (Z.eqb_spec (n + (1 + 0)) 0); [lia|].
        change (default 0 (Some (wrap32 n))) with (wrap32 n).
        rewrite wrap32_add_l, Z.add_0_r. reflexivity.
    + destruct (Z.eqb_spec (wrap8 (Z.shiftr (dstAddr r) 24)) s); [congruence|].
      now rewrite Z.add_0_r.
Qed.

(** X7.  The /24 prefix that receives more than half of the flows of a cell
    is the prefix that the engine recovers from the cell with
    [reverseKey() & 0x00FFFFFF], whatever the other destinations are. *)
Theorem X7_majority_prefix_is_recovered (records : list netflowRecord_t) (p : Z) :
  Z.land p mask24 = p →
  Z.of_nat (length records) < 2 ^ 32 →
  Z.of_nat (length records)
  < 2 * count_where (λ r, Z.land (dstAddr r) mask24 =? p) records →
  Z.land (ddosDetectorValue.reverseKey (DV_stream records)) mask24 = p.
Proof.
  intros Hp Hfit Hmaj.
  unfold ddosDetectorValue.reverseKey. rewrite DV_stream_reversibleKey.
  set (updates := (λ r, (dstAddr r, 1)) <$> records).
  assert (HT : weight_where (λ _, true) updates = Z.of_nat (length records)).
  { unfold updates. rewrite weight_where_flow_keys. apply count_where_true. }
  assert (HK : weight_where (λ key, Z.land key mask24 =? p) updates
               = count_where (λ r, Z.land (dstAddr r) mask24 =? p) records).
  { unfold updates. now rewrite weight_where_flow_keys. }
  assert (Hpos : Forall (λ kv : Z * Z, is_u16 kv.2) updates).
  { unfold updates. apply Forall_fmap, Forall_forall. intros; cbn.
    unfold is_u16. lia. }
  apply Z.bits_inj'. intros j Hj.
  destruct (Z.lt_ge_cases j 24) as [Hlt|Hge].
  - rewrite land_mask24_low by lia.
    rewrite <- (Z2Nat.id j) by lia.
    apply (majority_bit 32 updates (λ key, Z.land key mask24 =? p)); try done.
    + lia.
    + intros key Heq. apply Z.eqb_eq in Heq. subst p.
      rewrite Z2Nat.id by lia. now rewrite land_mask24_low by lia.
    + now rewrite HT.
    + now rewrite HT, HK.
  - rewrite land_mask24_high by lia. rewrite <- Hp.
    now rewrite land_mask24_high by lia.
Qed.

Lemma X7_majority_prefix_is_recovered_witness :
  Z.land (ddosDetectorValue.reverseKey
            (DV_stream [flow_to_1_5; flow_to_1_6; flow_to_2_5])) mask24 = 65546.
Proof.
  apply (X7_majority_prefix_is_recovered [flow_to_1_5; flow_to_1_6; flow_to_2_5] 65546).
  - reflexivity.
  - simpl. lia.
  - vm_compute. reflexivity.
Defined.

Lemma foldl_map_add_lookup (l : list (Z * Z)) (m : gmap Z Z) (k : Z) :
  NoDup l.*1 →
  foldl (λ acc kv, ddosDetectorValue.map_add kv.1 kv.2 acc) m l !! k =
  match (list_to_map l : gmap Z Z) !! k with
  | Some v => Some (wrap32 (default 0 (m !! k) + v))
  | None => m !! k
  end.
Proof.
  revert m. induction l as [|[k0 v0] l IH]; intros m Hnd; simpl.
  - now rewrite lookup_empty.
  - apply NoDup_cons in Hnd as [Hk0 Hnd]. rewrite IH by easy.
    rewrite map_add_lookup. case_decide as Hk.
    + subst k0. rewrite lookup_insert_eq.
      now rewrite (not_elem_of_list_to_map_1 l k Hk0).
    + now rewrite lookup_insert_ne by congruence.
Qed.

(** the maps after [operator+=]: an entry of [other] is added to the entry
    of [m], which is created with the value 0 when it is missing. *)
Lemma map_add_all_lookup (m other : gmap Z Z) (k : Z) :
  ddosDetectorValue.map_add_all m other !! k =
  match other !! k with
  | Some v => Some (wrap32 (default 0 (m !! k) + v))
  | None => m !! k
  end.
Proof.
  unfold ddosDetectorValue.map_add_all.
  rewrite foldl_map_add_lookup by apply NoDup_fst_map_to_list.
  now rewrite list_to_map_to_list.
Qed.

Lemma map_add_then_sub (a b : gmap Z Z) :
  map_Forall (λ _ x, is_u32 x) a → map_Forall (λ _ x, is_u32 x) b →
  map_Forall (λ k x, x + default 0 (b !! k) < 2 ^ 32) a →
  map_Forall (λ _ x, 0 < x) a →
  ddosDetectorValue.map_sub (ddosDetectorValue.map_add_all a b) b = a.
Proof.
  intros Ha Hb Hfit Hpos. apply map_eq. intros k.
  rewrite map_sub_lookup, map_add_all_lookup.
  destruct (b !! k) as [y|] eqn:Eb.
  - assert (Hy := Hb k y Eb). unfold is_u32 in Hy.
    destruct (a !! k) as [x|] eqn:Ea; simpl.
    + assert (Hx := Ha k x Ea). assert (Hx0 := Hpos k x Ea).
      assert (Hxy := Hfit k x Ea). cbv beta in Hxy. rewrite Eb in Hxy.
      unfold is_u32 in Hx. simpl in Hx0, Hxy.
      rewrite (wrap32_small (x + y)) by lia.
      destruct (Z.gtb_spec (x + y) y); [|lia].
      f_equal. rewrite <- (wrap32_small x) at 2 by lia. f_equal. lia.
    + rewrite Z.add_0_l, (wrap32_small y) by lia.
      destruct (Z.gtb_spec y y); [lia|reflexivity].
  - now destruct (a !! k).
Qed.

Lemma BCV_add_then_sub (n : nat) (a b : binCountSketchValue.t) :
  binCountSketchValue.wf n a → binCountSketchValue.wf n b →
  binCountSketchValue.totalCount a + binCountSketchValue.totalCount b < 2 ^ 32 →
  (∀ i, (i < n)%nat →
        binCountSketchValue.binCount a !!! i + binCountSketchValue.binCount b !!! i
        < 2 ^ 32) →
  binCountSketchValue.sub n (binCountSketchValue.add n a b) b = a.
Proof.
  intros Ha Hb Hfit Hbins.
  assert (Ha' := Ha). assert (Hb' := Hb).
  destruct Ha' as (Hta & Hla & _). destruct Hb' as (Htb & Hlb & _).
  unfold is_u32 in Hta, Htb.
  apply BCV_eq.
  - rewrite sub_totalCount. unfold binCountSketchValue.add.
    cbn [binCountSketchValue.totalCount].
    rewrite (wrap32_small (_ + _)) by lia.
    destruct (Z.ltb_spec (binCountSketchValue.totalCount a
                          + binCountSketchValue.totalCount b)
                (binCountSketchValue.totalCount b)); [lia|].
    rewrite <- (wrap32_small (binCountSketchValue.totalCount a)) at 2 by lia.
    f_equal. lia.
  - apply list_eq. intros j.
    rewrite sub_binCount_lookup, add_binCount_lookup.
    destruct (decide (j < n)%nat) as [Hj|Hj]; [|done].
    destruct (BCV_wf_lookup n a j Ha Hj) as [Eaj Hua].
    destruct (BCV_wf_lookup n b j Hb Hj) as [Ebj Hub].
    unfold is_u32 in Hua, Hub. assert (Hs := Hbins j Hj).
    rewrite Eaj. simpl. f_equal.
    set (x := binCountSketchValue.binCount a !!! j) in *.
    set (y := binCountSketchValue.binCount b !!! j) in *.
    rewrite (wrap32_small (x + y)) by lia.
    destruct (Z.ltb_spec (x + y) y); [lia|].
    rewrite <- (wrap32_small x) at 2 by lia. f_equal. lia.
Qed.

Lemma DV_eq (a b : ddosDetectorValue.t) :
  ddosDetectorValue.sentBytes_ a = ddosDetectorValue.sentBytes_ b →
  ddosDetectorValue.sentFlows_ a = ddosDetectorValue.sentFlows_ b →
  ddosDetectorValue.packetCount_ a = ddosDetectorValue.packetCount_ b →
  ddosDetectorValue.byteCount_ a = ddosDetectorValue.byteCount_ b →
  ddosDetectorValue.flowCount_ a = ddosDetectorValue.flowCount_ b →
  ddosDetectorValue.reversibleKey_ a = ddosDetectorValue.reversibleKey_ b →
  ddosDetectorValue.communicatedWith_ a = ddosDetectorValue.communicatedWith_ b →
  ddosDetectorValue.ipSubnets_ a = ddosDetectorValue.ipSubnets_ b →
  a = b.
Proof. destruct a, b; simpl; congruence. Qed.

Lemma add_then_sub32 (x y : Z) :
  is_u32 x → is_u32 y → x + y < 2 ^ 32 →
  (if y >? wrap32 (x + y) then 0 else wrap32 (wrap32 (x + y) - y)) = x.
Proof.
  unfold is_u32. intros Hx Hy Hxy. rewrite (wrap32_small (x + y)) by lia.
  destruct (Z.gtb_spec y (x + y)); [lia|].
  rewrite <- (wrap32_small x) at 2 by lia. f_equal. lia.
Qed.

Lemma add_then_sub64 (x y : Z) :
  is_u64 x → is_u64 y → x + y < 2 ^ 64 →
  (if y >? wrap64 (x + y) then 0 else wrap64 (wrap64 (x + y) - y)) = x.
Proof.
  unfold is_u64. intros Hx Hy Hxy. rewrite (wrap64_small (x + y)) by lia.
  destruct (Z.gtb_spec y (x + y)); [lia|].
  rewrite <- (wrap64_small x) at 2 by lia. f_equal. lia.
Qed.

(** X8.  [a += b] followed by [a -= b] gives [a] back, when no counter
    overflows in the addition and no map of [a] holds a zero counter. *)
Theorem X8_add_then_sub_restores (a b : ddosDetectorValue.t) :
  ddosDetectorValue.wf a → ddosDetectorValue.wf b → add_fits a b →
  ddosDetectorValue.sub (ddosDetectorValue.add a b) b = a.
Proof.
  intros (Ha1 & Ha2 & Ha3 & Ha4 & Ha5 & Ha6 & Ha7 & Ha8)
         (Hb1 & Hb2 & Hb3 & Hb4 & Hb5 & Hb6 & Hb7 & Hb8)
         (Hf1 & Hf2 & Hf3 & Hf4 & Hf5 & Hf6 & Hf7 & Hf8 & Hf9 & Hp1 & Hp2).
  apply DV_eq; unfold ddosDetectorValue.sub, ddosDetectorValue.add;
    cbn [ddosDetectorValue.sentBytes_ ddosDetectorValue.sentFlows_
         ddosDetectorValue.packetCount_ ddosDetectorValue.byteCount_
         ddosDetectorValue.flowCount_ ddosDetectorValue.reversibleKey_
         ddosDetectorValue.communicatedWith_ ddosDetectorValue.ipSubnets_].
  - now apply add_then_sub64.
  - now apply add_then_sub32.
  - now apply add_then_sub32.
  - now apply add_then_sub64.
  - now apply add_then_sub32.
  - apply BCV_add_then_sub; try done.
    intros i Hi.
    destruct (BCV_wf_lookup 32 _ i Ha6 Hi) as [Eai _].
    destruct (BCV_wf_lookup 32 _ i Hb6 Hi) as [Ebi _].
    exact (Forall2_lookup_lr _ _ _ _ _ _ Hf7 Eai Ebi).
  - now apply map_add_then_sub.
  - now apply map_add_then_sub.
Qed.

Lemma X8_add_then_sub_restores_witness :
  ddosDetectorValue.sub (ddosDetectorValue.add value_a value_b) value_b = value_a.
Proof.
  apply (X8_add_then_sub_restores value_a value_b value_a_wf value_b_wf).
  unfold add_fits.
  do 6 (split; [vm_compute; reflexivity|]).
  split; [repeat constructor|].
  do 3 (split; [refine (bool_decide_unpack _ _); vm_compute; exact I|]).
  refine (bool_decide_unpack _ _); vm_compute; exact I.
Defined.

(* ===================================================================== *)
(** * The top-N source addresses and the content of an alert *)
(* ===================================================================== *)

Lemma elem_of_insert_by_count (x y : Z * Z) (l : list (Z * Z)) :
  y ∈ insert_by_count x l ↔ y = x ∨ y ∈ l.
Proof.
  induction l as [|z l IH]; simpl.
  - rewrite list_elem_of_singleton, elem_of_nil. tauto.
  - destruct (x.2 >=? z.2).
    + now rewrite elem_of_cons.
    + rewrite !elem_of_cons, IH. tauto.
Qed.

Lemma elem_of_sort_by_count (y : Z * Z) (l : list (Z * Z)) :
  y ∈ sort_by_count l ↔ y ∈ l.
Proof.
  unfold sort_by_count. induction l as [|z l IH]; simpl; [done|].
  now rewrite elem_of_insert_by_count, elem_of_cons, IH.
Qed.

Lemma descending_insert_by_count (x : Z * Z) (l : list (Z * Z)) :
  descending l → descending (insert_by_count x l).
Proof.
  induction l as [|z l IH]; simpl; [auto|].
  intros [Hz Hl]. destruct (Z.geb_spec x.2 z.2) as [Hgt|Hle]; simpl.
  - split; [|done]. constructor; [lia|].
    eapply Forall_impl; [exact Hz|]. simpl. intros; lia.
  - split; [|auto].
    apply Forall_forall. intros y Hy.
    apply elem_of_insert_by_count in Hy as [->|Hy]; [lia|].
    rewrite Forall_forall in Hz. auto.
Qed.

Lemma descending_sort_by_count (l : list (Z * Z)) : descending (sort_by_count l).
Proof.
  unfold sort_by_count. induction l as [|z l IH]; simpl; [done|].
  now apply descending_insert_by_count.
Qed.

Section TopN.
Variable protectedPrefixes : Z → option Float32.t.
Variable whitelistedPrefixes : Z → bool.
Variable n_ : Z.

#[local] Abbreviation isWhitelisted := (isWhitelisted protectedPrefixes whitelistedPrefixes).
#[local] Abbreviation topN_for := (getTopNSrcIPs_for protectedPrefixes whitelistedPrefixes n_).

Lemma size_union_singleton_le (acc : gset Z) (x : Z) :
  (size (acc ∪ {[x]}) ≤ S (size acc))%nat.
Proof.
  rewrite size_union_alt.
  assert (size ({[x]} ∖ acc : gset Z) ≤ size ({[x]} : gset Z))%nat
    by (apply subseteq_size; intros y Hy; now apply elem_of_difference in Hy as [? _]).
  rewrite size_singleton in *. lia.
Qed.

Lemma topN_for_members (l : list (Z * Z)) :
  ∀ acc x, x ∈ topN_for l acc →
    x ∈ acc ∨ (isWhitelisted x = false ∧ ∃ c, (x, c) ∈ l).
Proof.
  induction l as [|[h ch] l IH]; intros acc x; simpl; [auto|].
  destruct (isWhitelisted h) eqn:Eh.
  - intros Hx. destruct (IH _ _ Hx) as [?|(? & c & ?)]; [auto|].
    right. split; [done|]. exists c. now apply list_elem_of_further.
  - assert (Hnew : ∀ y, y ∈ acc ∪ {[h]} →
              y ∈ acc ∨ (isWhitelisted y = false ∧ ∃ c, (y, c) ∈ (h, ch) :: l)).
    { intros y Hy. apply elem_of_union in Hy as [?|Hy]; [auto|].
      apply elem_of_singleton in Hy as ->. right. split; [done|].
      exists ch. apply list_elem_of_here. }
    destruct (Z.of_nat (size (acc ∪ {[h]})) =? wrap64 n_); [apply Hnew|].
    intros Hx. destruct (IH _ _ Hx) as [Hy|(? & c & ?)]; [auto|].
    right. split; [done|]. exists c. now apply list_elem_of_further.
Qed.

Lemma topN_for_size (l : list (Z * Z)) :
  ∀ acc, Z.of_nat (size acc) < wrap64 n_ →
         Z.of_nat (size (topN_for l acc)) ≤ wrap64 n_.
Proof.
  induction l as [|[h ch] l IH]; intros acc Hacc; simpl; [lia|].
  destruct (isWhitelisted h); [auto|].
  destruct (Z.eqb_spec (Z.of_nat (size (acc ∪ {[h]}))) (wrap64 n_)) as [->|Hne];
    [lia|].
  apply IH. assert (Hs := size_union_singleton_le acc h). lia.
Qed.

Lemma topN_for_mono (l : list (Z * Z)) : ∀ acc, acc ⊆ topN_for l acc.
Proof.
  induction l as [|[h ch] l IH]; intros acc; simpl; [done|].
  destruct (isWhitelisted h); [auto|].
  destruct (Z.of_nat (size (acc ∪ {[h]})) =? wrap64 n_); [apply union_subseteq_l|].
  etrans; [|apply IH]. apply union_subseteq_l.
Qed.

Lemma topN_for_left_out (l : list (Z * Z)) :
  descending l →
  ∀ acc y cy, (y, cy) ∈ l → isWhitelisted y = false → y ∉ topN_for l acc →
    Z.of_nat (size (topN_for l acc)) = wrap64 n_ ∧
    ∀ x, x ∈ topN_for l acc → x ∈ acc ∨ ∃ cx, (x, cx) ∈ l ∧ cy ≤ cx.
Proof.
  induction l as [|[h ch] l IH]; intros Hdesc acc y cy Hy Hwl Hout.
  - now apply elem_of_nil in Hy.
  - destruct Hdesc as [Hh Hdesc]. simpl in Hh. rewrite Forall_forall in Hh.
    assert (Hcy : cy ≤ ch).
    { apply elem_of_cons in Hy as [Heq|Hy]; [injection Heq; lia|].
      exact (Hh _ Hy). }
    simpl in Hout |- *. destruct (isWhitelisted h) eqn:Eh.
    + apply elem_of_cons in Hy as [Heq|Hy]; [injection Heq as -> ->; congruence|].
      destruct (IH Hdesc acc y cy Hy Hwl Hout) as [Hsize Hall].
      split; [done|]. intros x Hx.
      destruct (Hall x Hx) as [?|(cx & ? & ?)]; [auto|].
      right. exists cx. split; [now apply list_elem_of_further|done].
    + destruct (Z.eqb_spec (Z.of_nat (size (acc ∪ {[h]}))) (wrap64 n_)) as [Heq|Hne].
      * split; [done|]. intros x Hx.
        apply elem_of_union in Hx as [?|Hx]; [auto|].
        apply elem_of_singleton in Hx as ->. right. exists ch.
        split; [apply list_elem_of_here|done].
      * assert (Hyh : y ≠ h).
        { intros ->. apply Hout. apply topN_for_mono.
          apply elem_of_union_r. now apply elem_of_singleton. }
        apply elem_of_cons in Hy as [Heq|Hy]; [injection Heq; congruence|].
        destruct (IH Hdesc _ y cy Hy Hwl Hout) as [Hsize Hall].
        split; [done|]. intros x Hx.
        destruct (Hall x Hx) as [Hx'|(cx & ? & ?)].
        -- apply elem_of_union in Hx' as [?|Hx']; [auto|].
           apply elem_of_singleton in Hx' as ->. right. exists ch.
           split; [apply list_elem_of_here|done].
        -- right. exists cx. split; [now apply list_elem_of_further|done].
Qed.

Lemma topN_for_unlimited (l : list (Z * Z)) :
  wrap64 n_ = 0 →
  ∀ acc x, x ∈ topN_for l acc ↔
           x ∈ acc ∨ (isWhitelisted x = false ∧ ∃ c, (x, c) ∈ l).
Proof.
  intros Hn. induction l as [|[h ch] l IH]; intros acc x; simpl.
  - split; [auto|]. intros [?|(_ & c & Hc)]; [done|]. now apply elem_of_nil in Hc.
  - destruct (isWhitelisted h) eqn:Eh.
    + rewrite IH. split.
      * intros [?|(? & c & ?)]; [auto|]. right. split; [done|]. exists c.
        now apply list_elem_of_further.
      * intros [?|(Hx & c & Hc)]; [auto|]. right. split; [done|].
        apply elem_of_cons in Hc as [Heq|Hc]; [|eauto].
        injection Heq as -> ->. congruence.
    + destruct (Z.eqb_spec (Z.of_nat (size (acc ∪ {[h]}))) (wrap64 n_)) as [Heq|_].
      * exfalso. rewrite Hn in Heq.
        assert (size (acc ∪ {[h]}) = 0)%nat as Hs by lia.
        apply size_empty_inv in Hs.
        apply (not_elem_of_empty (C := gset Z) h). apply Hs.
        apply elem_of_union_r. now apply elem_of_singleton.
      * rewrite IH. split.
        -- intros [Hx|(? & c & ?)].
           ++ apply elem_of_union in Hx as [?|Hx]; [auto|].
              apply elem_of_singleton in Hx as ->. right. split; [done|].
              exists ch. apply list_elem_of_here.
           ++ right. split; [done|]. exists c. now apply list_elem_of_further.
        -- intros [?|(Hx & c & Hc)]; [left; now apply elem_of_union_l|].
           apply elem_of_cons in Hc as [Heq|Hc].
           ++ injection Heq as -> ->. left. apply elem_of_union_r.
              now apply elem_of_singleton.
           ++ right. eauto.
Qed.

(** X9.  The addresses that [getTopNSrcIPs] selects, for [n_ >= 1]: at most
    [n_] addresses, each from the vector and none whitelisted; and when an
    address of the vector that is not whitelisted is left out, exactly [n_]
    were selected and each selected address occurs in the vector with a
    count that is at least the count of the one left out. *)
Theorem X9_top_n_sources (srcIPsCommWithDst : list (Z * Z)) :
  1 ≤ n_ < 2 ^ 31 →
  let topN := (getTopNSrcIPs protectedPrefixes whitelistedPrefixes n_
                 srcIPsCommWithDst ∅).2 in
  Z.of_nat (size topN) ≤ n_ ∧
  (∀ x, x ∈ topN →
        isWhitelisted x = false ∧ ∃ c, (x, c) ∈ srcIPsCommWithDst) ∧
  (∀ y cy, (y, cy) ∈ srcIPsCommWithDst → isWhitelisted y = false → y ∉ topN →
     Z.of_nat (size topN) = n_ ∧
     ∀ x, x ∈ topN → ∃ cx, (x, cx) ∈ srcIPsCommWithDst ∧ cy ≤ cx).
Proof.
  intros Hn. unfold getTopNSrcIPs. cbn [snd].
  assert (Hw : wrap64 n_ = n_) by (apply wrap64_small; lia).
  split; [|split].
  - etrans; [apply topN_for_size; rewrite size_empty, Hw; lia|]. lia.
  - intros x Hx.
    apply topN_for_members in Hx as [Hx|(? & c & Hc)];
      [now apply not_elem_of_empty in Hx|].
    split; [done|]. exists c. now apply elem_of_sort_by_count.
  - intros y cy Hy Hwl Hout.
    destruct (topN_for_left_out _ (descending_sort_by_count srcIPsCommWithDst)
                ∅ y cy) as [Hsize Hall]; try done.
    { now apply elem_of_sort_by_count. }
    split; [now rewrite Hsize|]. intros x Hx.
    destruct (Hall x Hx) as [Hx'|(cx & Hcx & ?)];
      [now apply not_elem_of_empty in Hx'|].
    exists cx. split; [now apply elem_of_sort_by_count|done].
Qed.

(** X10.  With [n_ = 0] the selection is not limited: [getTopNSrcIPs] selects
    every address of the vector that is not whitelisted. *)
Theorem X10_top_n_zero_is_unlimited (srcIPsCommWithDst : list (Z * Z)) :
  n_ = 0 →
  ∀ x, x ∈ (getTopNSrcIPs protectedPrefixes whitelistedPrefixes n_
              srcIPsCommWithDst ∅).2 ↔
       isWhitelisted x = false ∧ ∃ c, (x, c) ∈ srcIPsCommWithDst.
Proof.
  intros Hn x. unfold getTopNSrcIPs. cbn [snd].
  rewrite topN_for_unlimited by now rewrite Hn.
  split.
  - intros [Hx|(? & c & Hc)]; [now apply not_elem_of_empty in Hx|].
    split; [done|]. exists c. now apply elem_of_sort_by_count.
  - intros (? & c & Hc). right. split; [done|]. exists c.
    now apply elem_of_sort_by_count.
Qed.

(** X11.  What [detectAnomaly] does, for [n_ >= 1].  When it returns true it has
    appended one alert to the queue and changed nothing else; the alert
    holds the thresholds of the five trackers of the column scaled by the
    multiplier of the destination, and their [SH] values, each of which
    exceeds its scaled threshold; its destination and column are the
    arguments; its set of sources is not empty, has at most [n_] addresses,
    none whitelisted and all from the vector.  When it returns false the
    detector is unchanged. *)
Theorem X11_alert_content (maxIP : Z) (column : nat) (srcIPsCommWithDst : list (Z * Z))
    (d : ddosDetector) :
  1 ≤ n_ < 2 ^ 31 →
  match detectAnomaly protectedPrefixes whitelistedPrefixes n_ maxIP column
          srcIPsCommWithDst d with
  | (true, d', _) =>
      ∃ alert,
        d' = set_dosAlertsQueue (dosAlertsQueue d ++ [alert]) d ∧
        let multiplier := Double.of_float (getMultiplier protectedPrefixes maxIP) in
        thresholdBytes alert
          = (AdaptiveCUSUM.getThresholdHigh (cusumBytes d !!! column) * multiplier)%D ∧
        thresholdPackets alert
          = (AdaptiveCUSUM.getThresholdHigh (cusumPackets d !!! column) * multiplier)%D ∧
        thresholdEntropy alert
          = (AdaptiveCUSUM.getThresholdHigh (cusumEntropy d !!! column) * multiplier)%D ∧
        thresholdBytesReceivedToSent alert
          = (AdaptiveCUSUM.getThresholdHigh (cusumBytesReceivedToSent d !!! column)
             * multiplier)%D ∧
        thresholdFlowsReceivedToSent alert
          = (AdaptiveCUSUM.getThresholdHigh (cusumFlowsReceivedToSent d !!! column)
             * multiplier)%D ∧
        measuredBytes alert = AdaptiveCUSUM.getSH (cusumBytes d !!! column) ∧
        measuredPackets alert = AdaptiveCUSUM.getSH (cusumPackets d !!! column) ∧
        measuredEntropy alert = AdaptiveCUSUM.getSH (cusumEntropy d !!! column) ∧
        measuredBytesReceivedToSent alert
          = AdaptiveCUSUM.getSH (cusumBytesReceivedToSent d !!! column) ∧
        measuredFlowsReceivedToSent alert
          = AdaptiveCUSUM.getSH (cusumFlowsReceivedToSent d !!! column) ∧
        (thresholdBytes alert <? measuredBytes alert)%D = true ∧
        (thresholdPackets alert <? measuredPackets alert)%D = true ∧
        (thresholdEntropy alert <? measuredEntropy alert)%D = true ∧
        (thresholdBytesReceivedToSent alert <? measuredBytesReceivedToSent alert)%D
          = true ∧
        (thresholdFlowsReceivedToSent alert <? measuredFlowsReceivedToSent alert)%D
          = true ∧
        dstIP alert = maxIP ∧ cusumID alert = Z.of_nat column ∧
        srcIPs_ alert ≠ ∅ ∧
        Z.of_nat (size (srcIPs_ alert)) ≤ n_ ∧
        ∀ x, x ∈ srcIPs_ alert →
             isWhitelisted x = false ∧ ∃ c, (x, c) ∈ srcIPsCommWithDst
  | (false, d', _) => d' = d
  end.
Proof.
  intros Hn. unfold detectAnomaly.
  destruct (AdaptiveCUSUM.isPositiveAnomaly _ (cusumBytes d !!! column)) eqn:E1;
    [|reflexivity].
  destruct (AdaptiveCUSUM.isPositiveAnomaly _ (cusumPackets d !!! column)) eqn:E2;
    [|reflexivity].
  destruct (AdaptiveCUSUM.isPositiveAnomaly _ (cusumBytesReceivedToSent d !!! column))
    eqn:E3; [|reflexivity].
  destruct (AdaptiveCUSUM.isPositiveAnomaly _ (cusumFlowsReceivedToSent d !!! column))
    eqn:E4; [|reflexivity].
  destruct (AdaptiveCUSUM.isPositiveAnomaly _ (cusumEntropy d !!! column)) eqn:E5;
    [|reflexivity].
  cbn [andb].
  assert (Hw : wrap64 n_ = n_) by (apply wrap64_small; lia).
  unfold getTopNSrcIPs.
  set (sorted := sort_by_count srcIPsCommWithDst).
  set (topN := topN_for sorted ∅).
  destruct (decide (topN = ∅)) as [Hempty|Hne]; [reflexivity|].
  eexists. split; [reflexivity|]. cbn.
  repeat split; try assumption.
  - etrans; [apply topN_for_size; rewrite size_empty, Hw; lia|]. lia.
  - match goal with Hin : _ ∈ topN |- _ =>
      apply topN_for_members in Hin as [Hx|(? & _)] end;
      [now apply not_elem_of_empty in Hx|done].
  - match goal with Hin : _ ∈ topN |- _ =>
      apply topN_for_members in Hin as [Hx|(_ & c & Hc)] end;
      [now apply not_elem_of_empty in Hx|].
    exists c. now apply elem_of_sort_by_count.
Qed.

End TopN.

Lemma X9_top_n_sources_witness :
  let topN := (getTopNSrcIPs protected_example whitelist_none 2
                 [(1, 5); (2, 7); (3, 1)] ∅).2 in
  Z.of_nat (size topN) ≤ 2 ∧
  ∀ x, x ∈ topN →
       isWhitelisted protected_example whitelist_none x = false ∧
       ∃ c, (x, c) ∈ [(1, 5); (2, 7); (3, 1)].
Proof.
  destruct (X9_top_n_sources protected_example whitelist_none 2
              [(1, 5); (2, 7); (3, 1)] ltac:(lia)) as (Hsize & Hmem & _).
  split; [exact Hsize | exact Hmem].
Defined.

Lemma X10_top_n_zero_is_unlimited_witness :
  3 ∈ (getTopNSrcIPs protected_example whitelist_none 0
         [(1, 5); (2, 7); (3, 1)] ∅).2.
Proof.
  apply (X10_top_n_zero_is_unlimited protected_example whitelist_none 0
           [(1, 5); (2, 7); (3, 1)] eq_refl 3).
  split; [reflexivity|]. exists 1. repeat constructor.
Defined.

Lemma X11_alert_content_witness :
  match detectAnomaly protected_example whitelist_none 3 65546 0
          [(67305985, 3)] detector_learned with
  | (true, d', _) =>
      ∃ alert,
        d' = set_dosAlertsQueue (dosAlertsQueue detector_learned ++ [alert])
               detector_learned ∧
        dstIP alert = 65546 ∧ srcIPs_ alert ≠ ∅
  | (false, d', _) => d' = detector_learned
  end.
Proof.
  generalize (X11_alert_content protected_example whitelist_none 3 65546 0
                [(67305985, 3)] detector_learned ltac:(lia)).
  destruct (detectAnomaly protected_example whitelist_none 3 65546 0
              [(67305985, 3)] detector_learned) as [[[] d'] l'].
  - intros (alert & Hd & Hrest). exists alert. split; [exact Hd|].
    split; apply Hrest.
  - intros Hd. exact Hd.
Defined.

(* ===================================================================== *)
(** * [reverseAllKeys] returns *)
(* ===================================================================== *)

Section DecFacts.
Context {V P : Type} `{SketchValue V P}.
Import CountMinSketch.

Lemma cell_lookup (s : t V) (i j : nat) (c : Cell V) :
  lookup s i j = Some c → cell s i j = c.
Proof. unfold cell. now intros ->. Qed.

Lemma counts_u32_cell (s : t V) (i j : nat) :
  counts_u32 s → is_u32 (count (cell s i j)).
Proof.
  intros Hs. unfold cell. destruct (lookup s i j) as [c|] eqn:E; simpl.
  - exact (Hs i j c E).
  - unfold is_u32. lia.
Qed.

Lemma dec_lookup (key : Z) (c : Cell V) (s : t V) (i j : nat) :
  lookup (dec key c s) i j =
  if decide ((i < outerSize s)%nat ∧ j = getCol s key i)
  then (λ c', mkCell (if count c' <? count c then 0
                      else wrap32 (count c' - count c))
                     (sv_sub (value c') (value c))) <$> lookup s i j
  else lookup s i j.
Proof.
  unfold dec.
  destruct (foldl_rows
              (λ (_ : nat) c', mkCell (if count c' <? count c then 0
                                       else wrap32 (count c' - count c))
                                      (sv_sub (value c') (value c)))
              key (outerSize s) 0 s) as (_ & _ & _ & Hl).
  rewrite Hl. repeat case_decide; try reflexivity; exfalso; intuition lia.
Qed.

Lemma dec_geometry (key : Z) (c : Cell V) (s : t V) :
  hash (dec key c s) = hash s ∧ innerSize (dec key c s) = innerSize s ∧
  outerSize (dec key c s) = outerSize s.
Proof.
  unfold dec.
  destruct (foldl_rows
              (λ (_ : nat) c', mkCell (if count c' <? count c then 0
                                       else wrap32 (count c' - count c))
                                      (sv_sub (value c') (value c)))
              key (outerSize s) 0 s) as (Hh & Hw & Ho & _).
  auto.
Qed.

Lemma dec_counts (key : Z) (c : Cell V) (s : t V) :
  counts_u32 s → 0 ≤ count c →
  counts_u32 (dec key c s) ∧
  ∀ i j, count (cell (dec key c s) i j) ≤ count (cell s i j).
Proof.
  intros Hs Hc.
  assert (Hstep : ∀ x, is_u32 x →
            is_u32 (if x <? count c then 0 else wrap32 (x - count c)) ∧
            (if x <? count c then 0 else wrap32 (x - count c)) ≤ x).
  { intros x Hx. unfold is_u32 in *. destruct (Z.ltb_spec x (count c)); [lia|].
    unfold wrap32. rewrite Z.mod_small by lia. lia. }
  split.
  - intros i j c' Hl. rewrite dec_lookup in Hl. case_decide.
    + destruct (lookup s i j) as [c0|] eqn:E; [|discriminate].
      injection Hl as <-. simpl. now apply Hstep, (Hs i j).
    + exact (Hs i j c' Hl).
  - intros i j. unfold cell. rewrite dec_lookup. case_decide; [|lia].
    destruct (lookup s i j) as [c0|] eqn:E; simpl; [|lia].
    now apply Hstep, (Hs i j).
Qed.

End DecFacts.

Section ReverseReturns.
Variable protectedPrefixes : Z → option Float32.t.

(** the two facts that the loop of [reverseAllKeys] keeps: the counters of
    the snapshot stay within 32 bits, and every key of the result cell's
    [communicatedWith] has a row in [rows] *)
Lemma reverseAllKeys_while_returns (column : nat) :
  ∀ (n fuel : nat) (st : reverseState),
    counts_u32 (rs_dstIPs st) →
    (∀ k, is_Some (ddosDetectorValue.getCommunicatedWith (rs_resultCell st) !! k) →
          is_Some (rs_rows st !! k)) →
    (n < fuel)%nat →
    (CountMinSketch.count (CountMinSketch.cell (rs_dstIPs st) 0 column) < Z.of_nat n
     ∨ rs_prevCnt st
       = CountMinSketch.count (CountMinSketch.cell (rs_dstIPs st) 0 column)) →
    ∃ st', reverseAllKeys_while protectedPrefixes fuel column st = Some st' ∧
           counts_u32 (rs_dstIPs st') ∧
           (∀ k, is_Some (ddosDetectorValue.getCommunicatedWith
                            (rs_resultCell st') !! k) →
                 is_Some (rs_rows st' !! k)) ∧
           CountMinSketch.hash (rs_dstIPs st') = CountMinSketch.hash (rs_dstIPs st) ∧
           CountMinSketch.innerSize (rs_dstIPs st')
           = CountMinSketch.innerSize (rs_dstIPs st) ∧
           CountMinSketch.outerSize (rs_dstIPs st')
           = CountMinSketch.outerSize (rs_dstIPs st) ∧
           (rs_maxIP st' = rs_maxIP st ∨
            (rs_maxIP st' = Z.land (rs_maxIP st') mask24 ∧
             isProtected protectedPrefixes (rs_maxIP st') = true)).
Proof.
  induction n as [|n IH]; intros fuel st Hu Hrows Hfuel Hcnt;
    (destruct fuel as [|fuel]; [lia|]); cbn [reverseAllKeys_while].
  - destruct Hcnt as [Hcnt|Hcnt].
    { pose proof (counts_u32_cell (rs_dstIPs st) 0 column Hu) as Hc.
      unfold is_u32 in Hc. lia. }
    rewrite Hcnt, Z.eqb_refl. exists st. auto 10.
  - destruct (Z.eqb_spec (rs_prevCnt st)
                (CountMinSketch.count (CountMinSketch.cell (rs_dstIPs st) 0 column)))
      as [Heq|Hne]; [exists st; auto 10|].
    destruct Hcnt as [Hcnt|Hcnt]; [|congruence].
    set (c0 := CountMinSketch.count (CountMinSketch.cell (rs_dstIPs st) 0 column)) in *.
    set (onlyPrefix :=
           Z.land (ddosDetectorValue.reverseKey
                     (CountMinSketch.value (CountMinSketch.cell (rs_dstIPs st) 0 column)))
                  mask24).
    set (indices := CountMinSketch.estimate (rs_dstIPs st) onlyPrefix).
    set (cell := CountMinSketch.cell (rs_dstIPs st) indices.1 indices.2).
    destruct ((CountMinSketch.count cell =? 0) || negb (isProtected protectedPrefixes onlyPrefix))
      eqn:Ebreak.
    { eexists. split; [reflexivity|]. cbn. auto 10. }
    assert (Hcell : is_u32 (CountMinSketch.count cell))
      by apply (counts_u32_cell _ _ _ Hu).
    unfold is_u32 in Hcell.
    destruct (dec_counts onlyPrefix cell (rs_dstIPs st) Hu) as [Hu' Hle]; [lia|].
    destruct (dec_geometry onlyPrefix cell (rs_dstIPs st)) as (Hh & Hw & Ho).
    set (pair := if rs_maxIPBytes st
                    <? ddosDetectorValue.getByteCount (CountMinSketch.value cell)
                 then (ddosDetectorValue.getByteCount (CountMinSketch.value cell),
                       onlyPrefix)
                 else (rs_maxIPBytes st, rs_maxIP st)).
    assert (Hprot : isProtected protectedPrefixes onlyPrefix = true).
    { apply orb_false_elim in Ebreak as [_ Hp]. now apply negb_false_iff in Hp. }
    assert (Hmax : pair.2 = rs_maxIP st ∨
                   (pair.2 = Z.land pair.2 mask24 ∧
                    isProtected protectedPrefixes pair.2 = true)).
    { unfold pair. destruct (_ <? _); cbn [snd]; [right|now left].
      split; [|exact Hprot].
      unfold onlyPrefix. rewrite <- Z.land_assoc. now rewrite Z.land_diag. }
    destruct pair as [maxIPBytes maxIP] eqn:Epair. cbn [snd] in Hmax.
    edestruct (IH fuel
      (mkRS c0 maxIPBytes maxIP
         (ddosDetectorValue.add (rs_resultCell st) (CountMinSketch.value cell))
         (CountMinSketch.dec onlyPrefix cell (rs_dstIPs st))
         (foldl (λ rows (srcIP : Z * Z), <[srcIP.1 := Z.of_nat indices.1]> rows)
            (rs_rows st)
            (map_to_list (ddosDetectorValue.getCommunicatedWith
                            (CountMinSketch.value cell))))))
      as (st' & Hrun & Hu'' & Hrows'' & Hh'' & Hw'' & Ho'' & Hmax'').
    + exact Hu'.
    + cbn [rs_resultCell rs_rows]. intros k Hk.
      rewrite foldl_insert_rows_lookup.
      case_decide as Hin; [eauto|]. apply Hrows.
      unfold ddosDetectorValue.getCommunicatedWith, ddosDetectorValue.add in Hk.
      cbn [ddosDetectorValue.communicatedWith_] in Hk.
      unfold ddosDetectorValue.map_add_all in Hk.
      apply map_add_all_is_Some in Hk as [Hk|Hk]; [contradiction|exact Hk].
    + lia.
    + cbn [rs_dstIPs rs_prevCnt].
      specialize (Hle 0%nat column). fold c0 in Hle.
      destruct (Z.eq_dec
                  (CountMinSketch.count
                     (CountMinSketch.cell
                        (CountMinSketch.dec onlyPrefix cell (rs_dstIPs st)) 0 column))
                  c0) as [Heq|Hneq]; [now right|left; lia].
    + exists st'. cbn [rs_dstIPs rs_maxIP] in *.
      split; [exact Hrun|]. split; [exact Hu''|]. split; [exact Hrows''|].
      split; [congruence|]. split; [congruence|]. split; [congruence|].
      destruct Hmax'' as [Hm|Hm]; [|now right].
      destruct Hmax as [Hm'|Hm']; [left; congruence|right; congruence].
Qed.

(** [reverseAllKeys], called with an empty result cell, returns when the
    fuel exceeds the count of the column by two *)
Lemma reverseAllKeys_total (dstIPs : BCSketchTypeDstIPs)
    (srcIPs : BCSketchTypeSrcIPs) (column : nat) (srcIPsCommWithDst : list (Z * Z))
    (fuel : nat) :
  counts_u32 dstIPs →
  CountMinSketch.count (CountMinSketch.cell dstIPs 0 column) + 2 ≤ Z.of_nat fuel →
  ∃ r, reverseAllKeys protectedPrefixes fuel 0 ddosDetectorValue.init dstIPs srcIPs
         column srcIPsCommWithDst = Returned r ∧
       counts_u32 (r_dstIPs r) ∧
       CountMinSketch.hash (r_dstIPs r) = CountMinSketch.hash dstIPs ∧
       CountMinSketch.innerSize (r_dstIPs r) = CountMinSketch.innerSize dstIPs ∧
       CountMinSketch.outerSize (r_dstIPs r) = CountMinSketch.outerSize dstIPs ∧
       (r_maxIP r = 0 ∨
        (r_maxIP r = Z.land (r_maxIP r) mask24 ∧
         isProtected protectedPrefixes (r_maxIP r) = true)).
Proof.
  intros Hu Hfuel.
  pose proof (counts_u32_cell dstIPs 0 column Hu) as Hc. unfold is_u32 in Hc.
  destruct fuel as [|[|fuel]]; [lia|lia|].
  destruct (reverseAllKeys_while_returns column
              (S (Z.to_nat (CountMinSketch.count (CountMinSketch.cell dstIPs 0 column))))
              (S (S fuel)) (mkRS 0 0 0 ddosDetectorValue.init dstIPs ∅))
    as (st & Hrun & Hu' & Hrows & Hh & Hw & Ho & Hmax).
  - exact Hu.
  - cbn [rs_resultCell rs_rows]. intros k [x Hx].
    unfold ddosDetectorValue.getCommunicatedWith, ddosDetectorValue.init in Hx.
    cbn [ddosDetectorValue.communicatedWith_] in Hx.
    now rewrite lookup_empty in Hx.
  - lia.
  - left. cbn [rs_dstIPs]. lia.
  - cbn [rs_dstIPs rs_maxIP] in *.
    unfold reverseAllKeys. rewrite Hrun.
    destruct (Z.eqb_spec (rs_maxIP st) 0) as [Hz|Hnz].
    + eexists. split; [reflexivity|]. cbn. auto 10.
    + unfold reverseSrcIPs.
      destruct (reverseSrcIPs_for_returns fuel
                  (map_to_list (ddosDetectorValue.getCommunicatedWith (rs_resultCell st)))
                  (rs_rows st) srcIPs) with (vec := srcIPsCommWithDst)
        as [vec' Hvec].
      { intros [k x] He. apply elem_of_map_to_list in He.
        apply Hrows. simpl. eauto. }
      rewrite Hvec. eexists. split; [reflexivity|]. cbn.
      split; [done|]. split; [done|]. split; [done|]. split; [done|].
      destruct Hmax as [?|?]; [now left|now right].
Qed.

(** X12.  [reverseAllKeys], called as [detectionProcess] calls it (no prefix
    yet, an empty result cell), returns: it does not throw, and
    [count + 2] iterations of its loop are enough, where [count] is the
    count of the row-0 cell of the column.  The sketch it leaves has the
    same geometry and hash functions and counters within 32 bits; the
    prefix it returns is 0 or a protected prefix with a zero top byte. *)
Theorem X12_reverseAllKeys_returns (dstIPs : BCSketchTypeDstIPs)
    (srcIPs : BCSketchTypeSrcIPs) (column : nat) (srcIPsCommWithDst : list (Z * Z))
    (fuel : nat) :
  counts_u32 dstIPs →
  CountMinSketch.count (CountMinSketch.cell dstIPs 0 column) + 2 ≤ Z.of_nat fuel →
  ∃ r, reverseAllKeys protectedPrefixes fuel 0 ddosDetectorValue.init dstIPs srcIPs
         column srcIPsCommWithDst = Returned r ∧
       counts_u32 (r_dstIPs r) ∧
       CountMinSketch.hash (r_dstIPs r) = CountMinSketch.hash dstIPs ∧
       CountMinSketch.innerSize (r_dstIPs r) = CountMinSketch.innerSize dstIPs ∧
       CountMinSketch.outerSize (r_dstIPs r) = CountMinSketch.outerSize dstIPs ∧
       (r_maxIP r = 0 ∨
        (r_maxIP r = Z.land (r_maxIP r) mask24 ∧
         isProtected protectedPrefixes (r_maxIP r) = true)).
Proof. apply reverseAllKeys_total. Qed.

(** the address left in [maxIP] is the one passed in, or a protected /24 *)
Lemma reverseAllKeys_while_maxIP (column : nat) :
  ∀ (fuel : nat) (st st' : reverseState),
    reverseAllKeys_while protectedPrefixes fuel column st = Some st' →
    rs_maxIP st' = rs_maxIP st ∨
    (rs_maxIP st' = Z.land (rs_maxIP st') mask24 ∧
     isProtected protectedPrefixes (rs_maxIP st') = true).
Proof.
  induction fuel as [|fuel IH]; intros st st'; cbn [reverseAllKeys_while];
    [discriminate|].
  destruct (_ =? _); [intros Heq; injection Heq as <-; now left|].
  set (onlyPrefix :=
         Z.land (ddosDetectorValue.reverseKey
                   (CountMinSketch.value (CountMinSketch.cell (rs_dstIPs st) 0 column)))
                mask24).
  set (indices := CountMinSketch.estimate (rs_dstIPs st) onlyPrefix).
  set (cell := CountMinSketch.cell (rs_dstIPs st) indices.1 indices.2).
  destruct ((CountMinSketch.count cell =? 0) || negb (isProtected protectedPrefixes onlyPrefix))
    eqn:Ebreak; [intros Heq; injection Heq as <-; now left|].
  assert (Hprot : isProtected protectedPrefixes onlyPrefix = true).
  { apply orb_false_elim in Ebreak as [_ Hp]. now apply negb_false_iff in Hp. }
  set (pair := if rs_maxIPBytes st
                  <? ddosDetectorValue.getByteCount (CountMinSketch.value cell)
               then (ddosDetectorValue.getByteCount (CountMinSketch.value cell),
                     onlyPrefix)
               else (rs_maxIPBytes st, rs_maxIP st)).
  assert (Hmax : pair.2 = rs_maxIP st ∨
                 (pair.2 = Z.land pair.2 mask24 ∧
                  isProtected protectedPrefixes pair.2 = true)).
  { unfold pair. destruct (_ <? _); cbn [snd]; [right|now left].
    split; [|exact Hprot].
    unfold onlyPrefix. rewrite <- Z.land_assoc. now rewrite Z.land_diag. }
  destruct pair as [maxIPBytes maxIP] eqn:Epair. cbn [snd] in Hmax.
  intros Hrun. apply IH in Hrun. cbn [rs_maxIP] in Hrun.
  destruct Hrun as [Hm|Hm]; [|now right].
  destruct Hmax as [Hm'|Hm']; [left; congruence|right; now rewrite Hm].
Qed.

Lemma reverseAllKeys_maxIP (fuel : nat) (resultCell : ddosDetectorValue.t)
    (dstIPs : BCSketchTypeDstIPs) (srcIPs : BCSketchTypeSrcIPs) (column : nat)
    (vec : list (Z * Z)) (r : reversed) :
  reverseAllKeys protectedPrefixes fuel 0 resultCell dstIPs srcIPs column vec
  = Returned r →
  r_maxIP r = 0 ∨
  (r_maxIP r = Z.land (r_maxIP r) mask24 ∧
   isProtected protectedPrefixes (r_maxIP r) = true).
Proof.
  unfold reverseAllKeys.
  destruct (reverseAllKeys_while protectedPrefixes fuel column _) as [st|] eqn:Erun;
    [|discriminate].
  apply reverseAllKeys_while_maxIP in Erun. cbn [rs_maxIP] in Erun.
  destruct (rs_maxIP st =? 0).
  - intros Heq. injection Heq as <-. exact Erun.
  - destruct (reverseSrcIPs _ _ _ _ _) as [vec'|vec'|]; try discriminate.
    intros Heq. injection Heq as <-. exact Erun.
Qed.

End ReverseReturns.

(* ===================================================================== *)
(** * What a flow changes in the two sketches *)
(* ===================================================================== *)

Section UpdateFacts.
Context {V P : Type} `{SketchValue V P}.
Import CountMinSketch.

Lemma update_lookup (key : Z) (payload : P) (s : t V) (i j : nat) :
  lookup (update key payload s) i j =
  if decide ((i < outerSize s)%nat ∧ j = getCol s key i)
  then (λ c, mkCell (wrap32 (count c + 1)) (sv_update key payload (value c)))
         <$> lookup s i j
  else lookup s i j.
Proof.
  unfold update.
  destruct (foldl_rows
              (λ (_ : nat) c, mkCell (wrap32 (count c + 1))
                                     (sv_update key payload (value c)))
              key (outerSize s) 0 s) as (_ & _ & _ & Hl).
  rewrite Hl. repeat case_decide; try reflexivity; exfalso; intuition lia.
Qed.

Lemma update_geometry (key : Z) (payload : P) (s : t V) :
  hash (update key payload s) = hash s ∧
  innerSize (update key payload s) = innerSize s ∧
  outerSize (update key payload s) = outerSize s.
Proof.
  unfold update.
  destruct (foldl_rows
              (λ (_ : nat) c, mkCell (wrap32 (count c + 1))
                                     (sv_update key payload (value c)))
              key (outerSize s) 0 s) as (Hh & Hw & Ho & _).
  auto.
Qed.

Lemma update_counts_u32 (key : Z) (payload : P) (s : t V) :
  counts_u32 s → counts_u32 (update key payload s).
Proof.
  intros Hs i j c Hc. rewrite update_lookup in Hc. case_decide.
  - destruct (lookup s i j) as [c0|]; [|discriminate]. injection Hc as <-.
    simpl. unfold is_u32, wrap32. apply Z.mod_pos_bound. lia.
  - exact (Hs i j c Hc).
Qed.

Lemma lookup_new_Some (h : nat → Z → Z) (outer inner i j : nat) (c : Cell V) :
  lookup (new h outer inner) i j = Some c → c = emptyCell.
Proof.
  unfold lookup, new. cbn [cells]. intros Hc.
  destruct (replicate outer (replicate inner emptyCell) !! i) as [row|] eqn:Er;
    [|discriminate].
  apply lookup_replicate in Er as [-> _]. simpl in Hc.
  now apply lookup_replicate in Hc as [-> _].
Qed.

Lemma new_counts_u32 (h : nat → Z → Z) (outer inner : nat) :
  counts_u32 (new (V := V) h outer inner).
Proof.
  intros i j c Hc. apply lookup_new_Some in Hc as ->. simpl. unfold is_u32. lia.
Qed.

Lemma reset_lookup_Some (s : t V) (i j : nat) (c : Cell V) :
  lookup (reset s) i j = Some c → c = emptyCell.
Proof. apply lookup_new_Some. Qed.

Lemma reset_cell (s : t V) (i j : nat) : cell (reset s) i j = emptyCell.
Proof.
  unfold cell. destruct (lookup (reset s) i j) as [c|] eqn:E; [|reflexivity].
  now apply reset_lookup_Some in E.
Qed.

End UpdateFacts.

Section FlowFacts.
Variable protectedPrefixes : Z → option Float32.t.

(** every cell of the destination sketch after a flow is the cell before
    it, changed by a function [g] that depends on the place of the cell *)
Lemma processCurrentFlow_cells (record : netflowRecord_t) (d : ddosDetector)
    (i j : nat) :
  let d' := processCurrentFlow protectedPrefixes record d in
  ∃ g, CountMinSketch.lookup (dstIPs d') i j = g <$> CountMinSketch.lookup (dstIPs d) i j ∧
       ∀ c,
         (CountMinSketch.count (g c) = CountMinSketch.count c ∨
          CountMinSketch.count (g c) = wrap32 (CountMinSketch.count c + 1)) ∧
         (isProtected protectedPrefixes (dstAddr record) = true →
          ddosDetectorValue.sentBytes_ (CountMinSketch.value (g c))
          = ddosDetectorValue.sentBytes_ (CountMinSketch.value c) ∧
          ddosDetectorValue.sentFlows_ (CountMinSketch.value (g c))
          = ddosDetectorValue.sentFlows_ (CountMinSketch.value c)).
Proof.
  intros d'. subst d'. unfold processCurrentFlow.
  destruct (isProtected protectedPrefixes (dstAddr record)) eqn:Hdst.
  - rewrite updateCommunicatedWith_dstIPs.
    cbn [set_srcIPs set_dstIPs srcIPs dstIPs outerSizeDstIPs].
    set (s := dstIPs d). set (q := Z.land (dstAddr record) mask24).
    set (s1 := CountMinSketch.update q record s).
    match goal with |- context [foldl ?F s1 ?l] => set (s2 := foldl F s1 l) end.
    destruct (foldl_rows
                (λ (i : nat) c,
                   CountMinSketch.mkCell (CountMinSketch.count c)
                     (ddosDetectorValue.updateFlowCounter
                        (Z.of_nat (CountMinSketch.getCol (srcIPs d) (srcAddr record) i))
                        (CountMinSketch.value c)))
                q (outerSizeDstIPs d) 0 s1) as (_ & _ & _ & Hl2).
    change (foldl _ s1 (seq 0 (outerSizeDstIPs d))) with s2 in Hl2.
    exists (λ c,
      (if decide ((0 ≤ i < 0 + outerSizeDstIPs d)%nat ∧ j = CountMinSketch.getCol s1 q i)
       then λ c, CountMinSketch.mkCell (CountMinSketch.count c)
                   (ddosDetectorValue.updateFlowCounter
                      (Z.of_nat (CountMinSketch.getCol (srcIPs d) (srcAddr record) i))
                      (CountMinSketch.value c))
       else λ c, c)
        ((if decide ((i < CountMinSketch.outerSize s)%nat ∧ j = CountMinSketch.getCol s q i)
          then λ c, CountMinSketch.mkCell (wrap32 (CountMinSketch.count c + 1))
                      (ddosDetectorValue.update q record (CountMinSketch.value c))
          else λ c, c) c)).
    split.
    + assert (Hl1 := update_lookup q record s i j). fold s1 in Hl1.
      rewrite Hl2, Hl1. fold s.
      repeat case_decide; destruct (CountMinSketch.lookup s i j); reflexivity.
    + intros c. repeat case_decide; cbn; auto.
  - destruct (isProtected protectedPrefixes (srcAddr record)).
    + rewrite updateCommunicatedWith_dstIPs.
      cbn [set_srcIPs set_dstIPs srcIPs dstIPs outerSizeDstIPs].
      destruct (foldl_rows
                  (λ (_ : nat) c,
                     CountMinSketch.mkCell (CountMinSketch.count c)
                       (ddosDetectorValue.updateSentBytes (bytes record)
                          (CountMinSketch.value c)))
                  (Z.land (srcAddr record) mask24) (outerSizeDstIPs d) 0 (dstIPs d))
        as (_ & _ & _ & Hl).
      exists (if decide ((0 ≤ i < 0 + outerSizeDstIPs d)%nat ∧
                         j = CountMinSketch.getCol (dstIPs d)
                               (Z.land (srcAddr record) mask24) i)
              then λ c, CountMinSketch.mkCell (CountMinSketch.count c)
                          (ddosDetectorValue.updateSentBytes (bytes record)
                             (CountMinSketch.value c))
              else λ c, c).
      split.
      * rewrite Hl. case_decide; destruct (CountMinSketch.lookup _ _ _); reflexivity.
      * intros c. case_decide; cbn; split; auto; try discriminate.
    + exists (λ c, c). split; [now destruct (CountMinSketch.lookup _ _ _)|].
      intros c. split; auto; try discriminate.
Qed.

Lemma processCurrentFlow_counts_u32 (record : netflowRecord_t) (d : ddosDetector) :
  counts_u32 (dstIPs d) → counts_u32 (srcIPs d) →
  counts_u32 (dstIPs (processCurrentFlow protectedPrefixes record d)) ∧
  counts_u32 (srcIPs (processCurrentFlow protectedPrefixes record d)).
Proof.
  intros Hd Hs. split.
  - intros i j c Hc.
    destruct (processCurrentFlow_cells record d i j) as (g & Hl & Hg).
    rewrite Hl in Hc.
    destruct (CountMinSketch.lookup (dstIPs d) i j) as [c0|] eqn:E; [|discriminate].
    injection Hc as <-. assert (Hc0 := Hd i j c0 E).
    destruct (Hg c0) as [[->| ->] _]; [exact Hc0|].
    unfold is_u32, wrap32. apply Z.mod_pos_bound. lia.
  - unfold processCurrentFlow.
    destruct (isProtected protectedPrefixes (dstAddr record)).
    + rewrite updateCommunicatedWith_dstIPs. cbn [set_srcIPs set_dstIPs srcIPs].
      now apply update_counts_u32.
    + destruct (isProtected protectedPrefixes (srcAddr record)); [|exact Hs].
      rewrite updateCommunicatedWith_dstIPs. cbn [set_srcIPs set_dstIPs srcIPs].
      now apply update_counts_u32.
Qed.

Lemma flows_counts_u32 (flows : list netflowRecord_t) (d : ddosDetector) :
  counts_u32 (dstIPs d) → counts_u32 (srcIPs d) →
  let d' := foldl (λ d record, processCurrentFlow protectedPrefixes record d) d flows in
  counts_u32 (dstIPs d') ∧ counts_u32 (srcIPs d').
Proof.
  revert d. induction flows as [|r flows IH]; intros d Hd Hs; [now split|].
  cbn [foldl].
  destruct (processCurrentFlow_counts_u32 r d Hd Hs) as [Hd' Hs'].
  now apply IH.
Qed.

(** X13.  A flow to a protected destination is never counted as sent: whatever
    its source is, [processCurrentFlow] leaves [sentBytes_] and
    [sentFlows_] of every cell of the destination sketch as they were. *)
Theorem X13_inbound_flow_is_not_counted_as_sent (record : netflowRecord_t)
    (d : ddosDetector) (i j : nat) :
  isProtected protectedPrefixes (dstAddr record) = true →
  let d' := processCurrentFlow protectedPrefixes record d in
  ddosDetectorValue.getSentBytes
    (CountMinSketch.value (CountMinSketch.cell (dstIPs d') i j))
  = ddosDetectorValue.getSentBytes
      (CountMinSketch.value (CountMinSketch.cell (dstIPs d) i j)) ∧
  ddosDetectorValue.getSentFlows
    (CountMinSketch.value (CountMinSketch.cell (dstIPs d') i j))
  = ddosDetectorValue.getSentFlows
      (CountMinSketch.value (CountMinSketch.cell (dstIPs d) i j)).
Proof.
  intros Hdst d'.
  destruct (processCurrentFlow_cells record d i j) as (g & Hl & Hg).
  unfold CountMinSketch.cell. fold d' in Hl. rewrite Hl.
  destruct (CountMinSketch.lookup (dstIPs d) i j) as [c0|]; simpl; [|done].
  destruct (Hg c0) as [_ Hsent]. exact (Hsent Hdst).
Qed.

End FlowFacts.

Lemma X13_inbound_flow_is_not_counted_as_sent_witness :
  let d' := processCurrentFlow protected_example flow_to_1_5 detector_learned in
  ddosDetectorValue.getSentBytes
    (CountMinSketch.value (CountMinSketch.cell (dstIPs d') 0 0))
  = ddosDetectorValue.getSentBytes
      (CountMinSketch.value (CountMinSketch.cell (dstIPs detector_learned) 0 0)) ∧
  ddosDetectorValue.getSentFlows
    (CountMinSketch.value (CountMinSketch.cell (dstIPs d') 0 0))
  = ddosDetectorValue.getSentFlows
      (CountMinSketch.value (CountMinSketch.cell (dstIPs detector_learned) 0 0)).
Proof.
  exact (X13_inbound_flow_is_not_counted_as_sent protected_example flow_to_1_5
           detector_learned 0 0 eq_refl).
Defined.

Lemma detector_one_flow_counts_u32 : counts_u32 (dstIPs detector_one_flow).
Proof.
  apply (processCurrentFlow_counts_u32 protected_example flow_to_1_5 detector_learned);
    apply new_counts_u32.
Qed.

Lemma X12_reverseAllKeys_returns_witness :
  ∃ r, reverseAllKeys protected_example 10 0 ddosDetectorValue.init
         (dstIPs detector_one_flow) (srcIPs detector_one_flow) 0 [] = Returned r.
Proof.
  destruct (X12_reverseAllKeys_returns protected_example (dstIPs detector_one_flow)
              (srcIPs detector_one_flow) 0 [] 10 detector_one_flow_counts_u32)
    as (r & Hr & _).
  - vm_compute. discriminate.
  - exists r. exact Hr.
Defined.

(* ===================================================================== *)
(** * Reversal of a column that holds several prefixes *)
(* ===================================================================== *)

Lemma count_where_le_length {A : Type} (P : A → bool) (l : list A) :
  count_where P l ≤ Z.of_nat (length l).
Proof.
  induction l as [|x l IH]; simpl length; simpl count_where; [lia|].
  destruct (P x); lia.
Qed.

Lemma count_where_ext {A : Type} (P Q : A → bool) (l : list A) :
  Forall (λ a, P a = Q a) l → count_where P l = count_where Q l.
Proof.
  induction 1 as [|x l Hx _ IH]; simpl; [done|]. now rewrite Hx, IH.
Qed.

Lemma count_where_le {A : Type} (P Q : A → bool) (l : list A) :
  Forall (λ a, P a = true → Q a = true) l → count_where P l ≤ count_where Q l.
Proof.
  induction 1 as [|x l Hx _ IH]; simpl; [lia|].
  destruct (P x), (Q x); first [lia | specialize (Hx eq_refl); discriminate].
Qed.

(** when [P] implies [Q] and both count the same, they agree on the list *)
Lemma count_where_eq_agree {A : Type} (P Q : A → bool) (l : list A) :
  Forall (λ a, P a = true → Q a = true) l →
  count_where P l = count_where Q l →
  Forall (λ a, P a = Q a) l.
Proof.
  induction 1 as [|x l Hx Hl IH]; simpl; [constructor|]. intros Heq.
  pose proof (count_where_le P Q l Hl) as Hle.
  destruct (P x) eqn:EP, (Q x) eqn:EQ.
  - constructor; [cbn; congruence|]. apply IH. lia.
  - specialize (Hx eq_refl). discriminate.
  - lia.
  - constructor; [cbn; congruence|]. apply IH. lia.
Qed.

Lemma count_where_filter {A : Type} (P : A → bool) (R : A → Prop)
    `{∀ a, Decision (R a)} (l : list A) :
  count_where P (filter R l) = count_where (λ a, P a && bool_decide (R a)) l.
Proof.
  induction l as [|x l IH]; [done|]. rewrite filter_cons.
  cbn [count_where]. destruct (decide (R x)) as [Hr|Hr].
  - rewrite bool_decide_eq_true_2 by done. cbn [count_where]. rewrite IH.
    now rewrite andb_true_r.
  - rewrite bool_decide_eq_false_2 by done. rewrite IH, andb_false_r. lia.
Qed.

Lemma count_where_split {A : Type} (P R : A → bool) (l : list A) :
  count_where P l
  = count_where (λ a, P a && R a) l + count_where (λ a, P a && negb (R a)) l.
Proof.
  induction l as [|x l IH]; simpl; [done|].
  destruct (P x), (R x); simpl; lia.
Qed.

Lemma count_where_none {A : Type} (P : A → bool) (l : list A) :
  Forall (λ a, P a = false) l → count_where P l = 0.
Proof. induction 1 as [|x l Hx _ IH]; simpl; [done|]. now rewrite Hx, IH. Qed.

Lemma getCol_geometry (s0 s : BCSketchTypeDstIPs) (key : Z) (i : nat) :
  CountMinSketch.hash s = CountMinSketch.hash s0 →
  CountMinSketch.innerSize s = CountMinSketch.innerSize s0 →
  CountMinSketch.getCol s key i = CountMinSketch.getCol s0 key i.
Proof. unfold CountMinSketch.getCol. now intros -> ->. Qed.

Section FillFacts.
Variable protectedPrefixes : Z → option Float32.t.

Lemma inserted_app (l1 l2 : list netflowRecord_t) :
  inserted protectedPrefixes (l1 ++ l2)
  = inserted protectedPrefixes l1 ++ inserted protectedPrefixes l2.
Proof. unfold inserted. now rewrite filter_app, fmap_app. Qed.

Lemma inserted_cons (r : netflowRecord_t) (l : list netflowRecord_t) :
  inserted protectedPrefixes (r :: l)
  = (if isProtected protectedPrefixes (dstAddr r) then [dstAddr r] else [])
    ++ inserted protectedPrefixes l.
Proof.
  unfold inserted. rewrite filter_cons.
  destruct (isProtected protectedPrefixes (dstAddr r)) eqn:E.
  - now rewrite decide_True.
  - rewrite decide_False by discriminate. reflexivity.
Qed.

Lemma length_inserted (l : list netflowRecord_t) :
  (length (inserted protectedPrefixes l) ≤ length l)%nat.
Proof.
  unfold inserted. rewrite length_fmap. apply length_filter.
Qed.

Lemma sketch_of_new (s0 : BCSketchTypeDstIPs) :
  sketch_of s0
    (CountMinSketch.new (CountMinSketch.hash s0) (CountMinSketch.outerSize s0)
       (CountMinSketch.innerSize s0)) [].
Proof.
  split; [done|]. split; [done|]. split.
  { unfold CountMinSketch.outerSize, CountMinSketch.new. cbn.
    apply length_replicate. }
  intros i j Hi Hj. exists CountMinSketch.emptyCell.
  split; [now apply lookup_new|]. split; [done|]. split; [done|]. split; [done|].
  intros b Hb.
  change (replicate 32 0 !! b = Some 0). now apply lookup_replicate_2.
Qed.

Lemma sketch_of_flow (s0 : BCSketchTypeDstIPs) (record : netflowRecord_t)
    (d : ddosDetector) (rem : list Z) :
  sketch_of s0 (dstIPs d) rem →
  Z.of_nat (length rem) < 2 ^ 32 - 1 →
  sketch_of s0 (dstIPs (processCurrentFlow protectedPrefixes record d))
    (rem ++ inserted protectedPrefixes [record]).
Proof.
  intros (Hh & Hw & Ho & Hcells) Hlen.
  rewrite inserted_cons. unfold inserted at 1. rewrite filter_nil, fmap_nil, app_nil_r.
  destruct (isProtected protectedPrefixes (dstAddr record)) eqn:Hprot.
  - destruct (processCurrentFlow_dst protectedPrefixes record d Hprot)
      as (Hh' & Hw' & Ho' & Hl').
    split; [congruence|]. split; [congruence|]. split; [congruence|].
    intros i j Hi Hj.
    destruct (Hcells i j Hi Hj) as (c & Hc & Hcnt & Htot & Hlenb & Hbins).
    destruct (Hl' i j c Hc) as (c' & Hc' & Hcase).
    exists c'. split; [exact Hc'|].
    assert (Hn := count_where_le_length (hits s0 i j) rem).
    assert (Hn0 := count_where_nonneg (hits s0 i j) rem).
    rewrite (getCol_geometry s0 (dstIPs d)) in Hcase by done.
    rewrite Ho in Hcase.
    assert (Hhit : hits s0 i j (dstAddr record)
                   = bool_decide (j = CountMinSketch.getCol s0
                                        (Z.land (dstAddr record) mask24) i)).
    { unfold hits, prefix24. apply bool_decide_ext. split; congruence. }
    rewrite !count_where_app. cbn [count_where].
    destruct (decide ((i < CountMinSketch.outerSize s0)%nat ∧
                      j = CountMinSketch.getCol s0 (Z.land (dstAddr record) mask24) i))
      as [[_ Hj']|Hn'].
    + rewrite Hhit, bool_decide_eq_true_2 by done.
      destruct Hcase as [Hcnt' Hrk']. rewrite Hcnt', Hrk'.
      rewrite update_totalCount, update_binCount_length.
      change (wrap16 1) with 1.
      split; [rewrite Hcnt, wrap32_small by lia; lia|].
      split; [rewrite Htot, wrap32_small by lia; lia|].
      split; [exact Hlenb|].
      intros b Hb. rewrite update_binCount_lookup, decide_True by done.
      rewrite (Hbins b Hb). cbn [fmap option_fmap option_map]. f_equal.
      rewrite count_where_app. cbn [count_where].
      rewrite Hhit, bool_decide_eq_true_2 by done. cbn [andb].
      assert (Hb0 := count_where_nonneg
                       (λ a, hits s0 i j a && Z.testbit a (Z.of_nat b)) rem).
      assert (Hb1 := count_where_le_length
                       (λ a, hits s0 i j a && Z.testbit a (Z.of_nat b)) rem).
      destruct (Z.testbit (dstAddr record) (Z.of_nat b)).
      * change (wrap16 1) with 1. rewrite wrap32_small by lia. lia.
      * lia.
    + rewrite Hhit, bool_decide_eq_false_2 by (intros ?; apply Hn'; now split).
      destruct Hcase as [Hcnt' Hrk']. rewrite Hcnt', Hrk'.
      split; [lia|]. split; [lia|]. split; [exact Hlenb|].
      intros b Hb. rewrite (Hbins b Hb). f_equal.
      rewrite count_where_app. cbn [count_where].
      rewrite Hhit, bool_decide_eq_false_2 by (intros ?; apply Hn'; now split).
      cbn [andb]. lia.
  - rewrite app_nil_r.
    destruct (processCurrentFlow_other protectedPrefixes record d Hprot)
      as (Hh' & Hw' & Ho' & Hl').
    split; [congruence|]. split; [congruence|]. split; [congruence|].
    intros i j Hi Hj.
    destruct (Hcells i j Hi Hj) as (c & Hc & Hcnt & Htot & Hlenb & Hbins).
    destruct (Hl' i j c Hc) as (c' & Hc' & Hcnt' & Hrk').
    exists c'. rewrite Hcnt', Hrk'. auto.
Qed.

Lemma sketch_of_flows (s0 : BCSketchTypeDstIPs) (flows : list netflowRecord_t) :
  ∀ (d : ddosDetector) (rem : list Z),
    sketch_of s0 (dstIPs d) rem →
    Z.of_nat (length rem) + Z.of_nat (length flows) < 2 ^ 32 →
    sketch_of s0
      (dstIPs (foldl (λ d record, processCurrentFlow protectedPrefixes record d)
                 d flows))
      (rem ++ inserted protectedPrefixes flows).
Proof.
  induction flows as [|r flows IH]; intros d rem Hs Hlen.
  - unfold inserted. now rewrite filter_nil, fmap_nil, app_nil_r.
  - cbn [foldl]. change (r :: flows) with ([r] ++ flows).
    rewrite inserted_app, app_assoc. simpl length in Hlen. apply IH.
    + apply sketch_of_flow; [done|lia].
    + rewrite length_app.
      pose proof (length_inserted [r]) as Hr. simpl length in *. lia.
Qed.

End FillFacts.

(** [estimate] returns a row on which the cell of the key has the least
    count *)
Lemma estimate_least {V P : Type} `{SketchValue V P} (s : CountMinSketch.t V)
    (key : Z) :
  (0 < CountMinSketch.outerSize s)%nat →
  ∃ i, (i < CountMinSketch.outerSize s)%nat ∧
       CountMinSketch.estimate s key = (i, CountMinSketch.getCol s key i) ∧
       ∀ i', (i' < CountMinSketch.outerSize s)%nat →
             CountMinSketch.count (CountMinSketch.cell s i (CountMinSketch.getCol s key i))
             ≤ CountMinSketch.count
                 (CountMinSketch.cell s i' (CountMinSketch.getCol s key i')).
Proof.
  intros Ho. unfold CountMinSketch.estimate.
  set (cnt := λ i, CountMinSketch.count
                     (CountMinSketch.cell s i (CountMinSketch.getCol s key i))).
  assert (Hgen : ∀ n n0 best,
             (∃ i, (i < n0)%nat ∧ best = (i, CountMinSketch.getCol s key i) ∧
                   ∀ i', (i' < n0)%nat → cnt i ≤ cnt i') →
             ∃ i, (i < n0 + n)%nat ∧
                  foldl (λ best i,
                           let col := CountMinSketch.getCol s key i in
                           if CountMinSketch.count (CountMinSketch.cell s i col)
                              <? CountMinSketch.count
                                   (CountMinSketch.cell s best.1 best.2)
                           then (i, col) else best) best (seq n0 n)
                  = (i, CountMinSketch.getCol s key i) ∧
                  ∀ i', (i' < n0 + n)%nat → cnt i ≤ cnt i').
  { induction n as [|n IH]; intros n0 best (i & Hi & -> & Hmin); cbn [seq foldl].
    - exists i. rewrite Nat.add_0_r. auto.
    - cbv zeta. cbn [fst snd]. fold (cnt n0). fold (cnt i).
      destruct (Z.ltb_spec (cnt n0) (cnt i)) as [Hlt|Hge].
      + destruct (IH (S n0) (n0, CountMinSketch.getCol s key n0)) as (i2 & Hi2 & He & Hm).
        * exists n0. split; [lia|]. split; [done|]. intros i' Hi'.
          destruct (decide (i' = n0)) as [->|Hne]; [lia|].
          specialize (Hmin i' ltac:(lia)). lia.
        * exists i2. split; [lia|]. split; [exact He|]. intros i' Hi'.
          apply Hm. lia.
      + destruct (IH (S n0) (i, CountMinSketch.getCol s key i)) as (i2 & Hi2 & He & Hm).
        * exists i. split; [lia|]. split; [done|]. intros i' Hi'.
          destruct (decide (i' = n0)) as [->|Hne]; [lia|].
          apply Hmin. lia.
        * exists i2. split; [lia|]. split; [exact He|]. intros i' Hi'.
          apply Hm. lia. }
  destruct (Hgen (CountMinSketch.outerSize s - 1)%nat 1%nat
              (0%nat, CountMinSketch.getCol s key 0)) as (i & Hi & He & Hm).
  - exists 0%nat. split; [lia|]. split; [done|]. intros i' Hi'.
    assert (i' = 0%nat) as -> by lia. lia.
  - exists i. split; [lia|]. split; [exact He|]. intros i' Hi'. apply Hm. lia.
Qed.

Lemma sub_binCount_length (noBits : nat) (a other : binCountSketchValue.t) :
  length (binCountSketchValue.binCount (binCountSketchValue.sub noBits a other))
  = length (binCountSketchValue.binCount a).
Proof.
  unfold binCountSketchValue.sub. cbn [binCountSketchValue.binCount].
  apply foldl_seq_length. intros l i. apply length_insert.
Qed.

Lemma hits_geometry (s0 s : BCSketchTypeDstIPs) (i j : nat) (a : Z) :
  CountMinSketch.hash s = CountMinSketch.hash s0 →
  CountMinSketch.innerSize s = CountMinSketch.innerSize s0 →
  hits s i j a = hits s0 i j a.
Proof. intros Hh Hw. unfold hits. now rewrite (getCol_geometry s0 s). Qed.

Section PlanFacts.
Variable s0 : BCSketchTypeDstIPs.
Hypothesis Hwidth : (0 < CountMinSketch.innerSize s0)%nat.
Hypothesis Hrows : (0 < CountMinSketch.outerSize s0)%nat.

(** the cell of a sketch that holds the flows [rem] *)
Lemma sketch_of_cell (s : BCSketchTypeDstIPs) (rem : list Z) (i j : nat) :
  sketch_of s0 s rem →
  (i < CountMinSketch.outerSize s0)%nat → (j < CountMinSketch.innerSize s0)%nat →
  let c := CountMinSketch.cell s i j in
  CountMinSketch.lookup s i j = Some c ∧
  CountMinSketch.count c = count_where (hits s0 i j) rem ∧
  binCountSketchValue.totalCount
    (ddosDetectorValue.reversibleKey_ (CountMinSketch.value c))
  = count_where (hits s0 i j) rem ∧
  length (binCountSketchValue.binCount
            (ddosDetectorValue.reversibleKey_ (CountMinSketch.value c))) = 32%nat ∧
  ∀ b, (b < 32)%nat →
       binCountSketchValue.binCount
         (ddosDetectorValue.reversibleKey_ (CountMinSketch.value c)) !!! b
       = count_where (λ a, hits s0 i j a && Z.testbit a (Z.of_nat b)) rem.
Proof using Type.
  intros (_ & _ & _ & Hcells) Hi Hj.
  destruct (Hcells i j Hi Hj) as (c & Hc & Hcnt & Htot & Hlen & Hbins).
  cbv zeta. rewrite (cell_lookup _ _ _ _ Hc).
  split; [done|]. split; [done|]. split; [done|]. split; [done|].
  intros b Hb. apply list_lookup_total_correct. now apply Hbins.
Qed.

(** the majority vote on the cell of a column in which more than half of
    the flows go to the prefix [p] *)
Lemma reverseKey_column_majority (s : BCSketchTypeDstIPs) (rem : list Z)
    (column : nat) (p : Z) :
  sketch_of s0 s rem →
  (column < CountMinSketch.innerSize s0)%nat →
  prefix24 p = p →
  CountMinSketch.getCol s0 p 0 = column →
  count_where (hits s0 0 column) rem < 2 * count_where (λ a, prefix24 a =? p) rem →
  Z.land (ddosDetectorValue.reverseKey
            (CountMinSketch.value (CountMinSketch.cell s 0 column))) mask24 = p.
Proof using Hwidth Hrows.
  intros Hs Hcol Hp Hpc Hmaj.
  destruct (sketch_of_cell s rem 0 column Hs Hrows Hcol) as (_ & _ & Htot & _ & Hbins).
  set (c := CountMinSketch.cell s 0 column) in *.
  set (T := count_where (hits s0 0 column) rem) in *.
  set (K := count_where (λ a, prefix24 a =? p) rem) in *.
  assert (HT0 : 0 ≤ T) by apply count_where_nonneg.
  apply Z.bits_inj'. intros n Hn.
  destruct (Z.lt_ge_cases n 24) as [Hlt|Hge].
  - rewrite land_mask24_low by lia.
    unfold ddosDetectorValue.reverseKey. rewrite reverseKey_testbit by lia.
    rewrite bool_decide_eq_true_2, andb_true_l by lia.
    rewrite Htot, (Hbins (Z.to_nat n)) by lia. rewrite Z2Nat.id by lia.
    set (B := count_where (λ a, hits s0 0 column a && Z.testbit a n) rem).
    assert (HB0 : 0 ≤ B) by apply count_where_nonneg.
    assert (Hbit : ∀ a, (prefix24 a =? p) = true → Z.testbit a n = Z.testbit p n).
    { intros a Ha. apply Z.eqb_eq in Ha. rewrite <- Ha. unfold prefix24.
      now rewrite land_mask24_low by lia. }
    assert (Hin : ∀ a, (prefix24 a =? p) = true → hits s0 0 column a = true).
    { intros a Ha. apply Z.eqb_eq in Ha. unfold hits.
      apply bool_decide_eq_true_2. now rewrite Ha. }
    destruct (Z.testbit p n) eqn:Ebit.
    + assert (K ≤ B).
      { apply count_where_le, Forall_forall. intros a _ Ha.
        now rewrite (Hin a Ha), (Hbit a Ha). }
      apply Z.gtb_lt. apply Z.div_lt_upper_bound; lia.
    + assert (B + K ≤ T).
      { unfold B, K, T.
        rewrite (count_where_split (hits s0 0 column) (λ a, Z.testbit a n) rem).
        assert (count_where (λ a, prefix24 a =? p) rem
                ≤ count_where (λ a, hits s0 0 column a && negb (Z.testbit a n)) rem);
          [|lia].
        apply count_where_le, Forall_forall. intros a _ Ha.
        now rewrite (Hin a Ha), (Hbit a Ha). }
      rewrite Z.gtb_ltb. apply Z.ltb_ge. apply Z.div_le_lower_bound; lia.
  - rewrite land_mask24_high by lia. rewrite <- Hp. unfold prefix24.
    now rewrite land_mask24_high by lia.
Qed.

(** the majority vote on an empty cell gives the key 0 *)
Lemma reverseKey_empty_cell (s : BCSketchTypeDstIPs) (rem : list Z) (column : nat) :
  sketch_of s0 s rem →
  (column < CountMinSketch.innerSize s0)%nat →
  count_where (hits s0 0 column) rem = 0 →
  Z.land (ddosDetectorValue.reverseKey
            (CountMinSketch.value (CountMinSketch.cell s 0 column))) mask24 = 0.
Proof using Hwidth Hrows.
  intros Hs Hcol Hzero.
  destruct (sketch_of_cell s rem 0 column Hs Hrows Hcol) as (_ & _ & Htot & _ & Hbins).
  apply Z.bits_inj'. intros n Hn. rewrite Z.bits_0, Z.land_spec.
  unfold ddosDetectorValue.reverseKey. rewrite reverseKey_testbit by lia.
  destruct (decide (n < Z.of_nat 32)) as [Hlt|Hge].
  - rewrite bool_decide_eq_true_2, andb_true_l by lia.
    rewrite Htot, Hzero, (Hbins (Z.to_nat n)) by lia.
    assert (Hb : count_where (λ a, hits s0 0 column a
                                   && Z.testbit a (Z.of_nat (Z.to_nat n))) rem = 0).
    { assert (H0 := count_where_nonneg
                      (λ a, hits s0 0 column a && Z.testbit a (Z.of_nat (Z.to_nat n)))
                      rem).
      assert (count_where (λ a, hits s0 0 column a
                                && Z.testbit a (Z.of_nat (Z.to_nat n))) rem
              ≤ count_where (hits s0 0 column) rem); [|lia].
      apply count_where_le, Forall_forall. intros a _ Ha.
      now apply andb_true_iff in Ha as [? _]. }
    rewrite Hb. reflexivity.
  - now rewrite bool_decide_eq_false_2 by lia.
Qed.


(** the flows that leave with the prefixes [G] split every count *)
Lemma count_where_group (P : Z → bool) (G : list Z) (rem : list Z) :
  count_where P rem
  = count_where (λ a, P a && bool_decide (prefix24 a ∈ G)) rem
    + count_where P (filter (λ a, prefix24 a ∉ G) rem).
Proof using Type.
  rewrite (count_where_filter P (λ a, prefix24 a ∉ G)).
  rewrite (count_where_split P (λ a, bool_decide (prefix24 a ∈ G)) rem) at 1.
  f_equal. apply count_where_ext, Forall_forall. intros a _.
  now rewrite bool_decide_not.
Qed.

(** one iteration of the loop of [reverseAllKeys] on the prefix [p] takes
    the flows to the prefixes [G] out of the sketch *)
Lemma dec_group (s : BCSketchTypeDstIPs) (rem : list Z) (p : Z) (G : list Z) :
  sketch_of s0 s rem →
  Z.of_nat (length rem) < 2 ^ 32 →
  Forall (λ q, ∀ i, (i < CountMinSketch.outerSize s0)%nat →
                    CountMinSketch.getCol s0 q i = CountMinSketch.getCol s0 p i) G →
  (∃ r, (r < CountMinSketch.outerSize s0)%nat ∧
        Forall (λ a, CountMinSketch.getCol s0 (prefix24 a) r
                     = CountMinSketch.getCol s0 p r → prefix24 a ∈ G) rem) →
  let indices := CountMinSketch.estimate s p in
  let c := CountMinSketch.cell s indices.1 indices.2 in
  let nG := count_where (λ a, bool_decide (prefix24 a ∈ G)) rem in
  CountMinSketch.count c = nG ∧
  binCountSketchValue.totalCount
    (ddosDetectorValue.reversibleKey_ (CountMinSketch.value c)) = nG ∧
  sketch_of s0 (CountMinSketch.dec p c s) (filter (λ a, prefix24 a ∉ G) rem).
Proof using Hwidth Hrows.
  intros Hs Hlen HG (r & Hr & Hiso) indices c nG.
  pose proof Hs as (Hh & Hw & Ho & _).
  set (inG := λ a : Z, bool_decide (prefix24 a ∈ G)).
  assert (F1 : ∀ i, (i < CountMinSketch.outerSize s0)%nat →
               ∀ a, inG a = true →
                    hits s0 i (CountMinSketch.getCol s0 p i) a = true).
  { intros i Hi a Ha. apply bool_decide_eq_true_1 in Ha.
    unfold hits. apply bool_decide_eq_true_2.
    rewrite Forall_forall in HG. now apply HG. }
  assert (Hcol : ∀ i, (CountMinSketch.getCol s0 p i
                       < CountMinSketch.innerSize s0)%nat)
    by (intros i; now apply getCol_lt).
  assert (Hge : ∀ i, (i < CountMinSketch.outerSize s0)%nat →
                nG ≤ count_where (hits s0 i (CountMinSketch.getCol s0 p i)) rem).
  { intros i Hi. apply count_where_le, Forall_forall. intros a _. apply F1, Hi. }
  assert (Hr_eq : count_where (hits s0 r (CountMinSketch.getCol s0 p r)) rem = nG).
  { apply count_where_ext. rewrite Forall_forall in Hiso. apply Forall_forall.
    intros a Ha. fold (inG a). destruct (inG a) eqn:E.
    - now apply F1.
    - unfold hits. apply bool_decide_eq_false_2. intros Hc.
      apply (Hiso a Ha) in Hc. unfold inG in E.
      now apply bool_decide_eq_false_1 in E. }
  destruct (estimate_least s p) as (i & Hi & Hest & Hleast); [now rewrite Ho|].
  rewrite Ho in Hi.
  assert (Hidx : indices = (i, CountMinSketch.getCol s0 p i)).
  { unfold indices. rewrite Hest. f_equal. now apply getCol_geometry. }
  assert (Hc_eq : c = CountMinSketch.cell s i (CountMinSketch.getCol s0 p i))
    by (unfold c; now rewrite Hidx).
  destruct (sketch_of_cell s rem i (CountMinSketch.getCol s0 p i) Hs Hi (Hcol i))
    as (_ & Hcnt & Htot & _ & Hbins).
  rewrite <- Hc_eq in Hcnt, Htot, Hbins.
  assert (Hi_eq : count_where (hits s0 i (CountMinSketch.getCol s0 p i)) rem = nG).
  { apply Z.le_antisymm; [|now apply Hge].
    rewrite <- Hr_eq.
    specialize (Hleast r ltac:(now rewrite Ho)).
    rewrite !(getCol_geometry s0 s) in Hleast by done.
    destruct (sketch_of_cell s rem r (CountMinSketch.getCol s0 p r) Hs Hr (Hcol r))
      as (_ & Hcr & _).
    destruct (sketch_of_cell s rem i (CountMinSketch.getCol s0 p i) Hs Hi (Hcol i))
      as (_ & Hci & _).
    now rewrite Hcr, Hci in Hleast. }
  assert (F2 : Forall (λ a, inG a = hits s0 i (CountMinSketch.getCol s0 p i) a) rem).
  { apply count_where_eq_agree; [|now rewrite Hi_eq].
    apply Forall_forall. intros a _. apply F1, Hi. }
  split; [now rewrite Hcnt|]. split; [now rewrite Htot|].
  destruct (dec_geometry p c s) as (Hh' & Hw' & Ho').
  split; [congruence|]. split; [congruence|]. split; [congruence|].
  intros i' j Hi' Hj.
  destruct (sketch_of_cell s rem i' j Hs Hi' Hj) as (Hl & Hcnt' & Htot' & Hlen' & Hbins').
  set (c' := CountMinSketch.cell s i' j) in *.
  rewrite dec_lookup, Hl. cbn [fmap option_fmap option_map].
  assert (Hbound : ∀ P : Z → bool, count_where P rem < 2 ^ 32).
  { intros P. pose proof (count_where_le_length P rem). lia. }
  case_decide as Hd.
  - destruct Hd as [_ ->]. rewrite (getCol_geometry s0 s) in * by done.
    assert (Hsplit : ∀ P : Z → bool,
               (∀ a, P a = true → hits s0 i' (CountMinSketch.getCol s0 p i') a = true) →
               count_where P rem
               = count_where (λ a, inG a && P a) rem
                 + count_where P (filter (λ a, prefix24 a ∉ G) rem)).
    { intros P HP. rewrite (count_where_group P G rem) at 1. f_equal.
      apply count_where_ext, Forall_forall. intros a _. fold (inG a).
      apply andb_comm. }
    eexists. split; [reflexivity|].
    cbn [CountMinSketch.count CountMinSketch.value sv_sub ddosDetectorValue_SketchValue].
    assert (Hin_hits : count_where (λ a, inG a && hits s0 i' (CountMinSketch.getCol s0 p i') a) rem
                       = nG).
    { apply count_where_ext, Forall_forall. intros a _. fold (inG a).
      destruct (inG a) eqn:E; [|done]. cbn. now apply F1. }
    pose proof (Hsplit (hits s0 i' (CountMinSketch.getCol s0 p i')) ltac:(auto)) as Hs1.
    rewrite Hin_hits in Hs1.
    pose proof (count_where_nonneg (hits s0 i' (CountMinSketch.getCol s0 p i'))
                  (filter (λ a, prefix24 a ∉ G) rem)) as Hnn.
    pose proof (Hbound (hits s0 i' (CountMinSketch.getCol s0 p i'))) as Hb1.
    assert (Hsat : ∀ x y z, x = y + z → 0 ≤ y → 0 ≤ z → x < 2 ^ 32 →
                     (if x <? y then 0 else wrap32 (x - y)) = z).
    { intros x y z -> Hy Hz Hx. rewrite (proj2 (Z.ltb_ge _ _)) by lia.
      replace (y + z - y) with z by lia. apply wrap32_small. lia. }
    split; [|split; [|split]].
    + rewrite Hcnt, Hi_eq, Hcnt'.
      apply Hsat; [exact Hs1|apply count_where_nonneg|lia|lia].
    + unfold ddosDetectorValue.sub. cbn [ddosDetectorValue.reversibleKey_].
      rewrite sub_totalCount, Htot, Hi_eq, Htot'.
      apply Hsat; [exact Hs1|apply count_where_nonneg|lia|lia].
    + unfold ddosDetectorValue.sub. cbn [ddosDetectorValue.reversibleKey_].
      now rewrite sub_binCount_length.
    + intros b Hb. unfold ddosDetectorValue.sub.
      cbn [ddosDetectorValue.reversibleKey_].
      rewrite sub_binCount_lookup, decide_True by done.
      rewrite (list_lookup_lookup_total_lt
                 (binCountSketchValue.binCount
                    (ddosDetectorValue.reversibleKey_ (CountMinSketch.value c'))) b)
        by (rewrite Hlen'; exact Hb).
      cbn [fmap option_fmap option_map]. f_equal.
      rewrite Hbins, Hbins' by done.
      apply Hsat.
      * rewrite (Hsplit (λ a, hits s0 i' (CountMinSketch.getCol s0 p i') a
                              && Z.testbit a (Z.of_nat b))).
        -- f_equal. apply count_where_ext.
           eapply Forall_impl; [exact F2|]. intros a Ha. cbv beta in *.
           rewrite <- Ha. destruct (inG a) eqn:E; [|done]. cbn.
           now rewrite (F1 i' Hi' a E).
        -- intros a Ha. now apply andb_true_iff in Ha as [? _].
      * apply count_where_nonneg.
      * apply count_where_nonneg.
      * apply Hbound.
  - assert (Hkeep : ∀ P : Z → bool,
               (∀ a, P a = true → hits s0 i' j a = true) →
               count_where P (filter (λ a, prefix24 a ∉ G) rem) = count_where P rem).
    { intros P HP. rewrite (count_where_group P G rem).
      rewrite (count_where_none (λ a, P a && bool_decide (prefix24 a ∈ G))); [lia|].
      apply Forall_forall. intros a _. fold (inG a).
      destruct (P a) eqn:EP; [|done]. destruct (inG a) eqn:E; [|done].
      exfalso. apply Hd. split; [now rewrite Ho|].
      apply HP in EP. apply (F1 i' Hi') in E.
      unfold hits in *. apply bool_decide_eq_true_1 in EP, E.
      rewrite (getCol_geometry s0 s) by done. congruence. }
    exists c'. split; [done|].
    rewrite Hkeep by auto.
    split; [done|]. split; [done|]. split; [done|].
    intros b Hb. rewrite Hkeep.
    + rewrite <- Hbins' by done. apply list_lookup_lookup_total_lt. now rewrite Hlen'.
    + intros a Ha. now apply andb_true_iff in Ha as [? _].
Qed.

End PlanFacts.

Section DrainLoop.
Variable protectedPrefixes : Z → option Float32.t.
Variable s0 : BCSketchTypeDstIPs.
Variable column : nat.
Hypothesis Hwidth : (0 < CountMinSketch.innerSize s0)%nat.
Hypothesis Hrows : (0 < CountMinSketch.outerSize s0)%nat.
Hypothesis Hcolumn : (column < CountMinSketch.innerSize s0)%nat.
Hypothesis Hzero : isProtected protectedPrefixes 0 = false.

(** the loop of [reverseAllKeys] follows a plan of the column: it takes
    out the flows of each step in turn and stops on the emptied cell *)
Lemma reverseAllKeys_while_plan :
  ∀ (plan : list (Z * list Z)) (fuel : nat) (st : reverseState) (rem : list Z),
    sketch_of s0 (rs_dstIPs st) rem →
    Z.of_nat (length rem) < 2 ^ 32 →
    drain_plan protectedPrefixes s0 column rem plan →
    (plan ≠ [] → rs_prevCnt st ≠ count_where (hits s0 0 column) rem) →
    is_u32 (binCountSketchValue.totalCount
              (ddosDetectorValue.reversibleKey_ (rs_resultCell st))) →
    (∀ k, is_Some (ddosDetectorValue.getCommunicatedWith (rs_resultCell st) !! k) →
          is_Some (rs_rows st !! k)) →
    (length plan < fuel)%nat →
    ∃ st' rem',
      reverseAllKeys_while protectedPrefixes fuel column st = Some st' ∧
      binCountSketchValue.totalCount
        (ddosDetectorValue.reversibleKey_ (rs_resultCell st'))
      = wrap32 (binCountSketchValue.totalCount
                  (ddosDetectorValue.reversibleKey_ (rs_resultCell st))
                + count_where (hits s0 0 column) rem) ∧
      sketch_of s0 (rs_dstIPs st') rem' ∧
      count_where (hits s0 0 column) rem' = 0 ∧
      (∀ k, is_Some (ddosDetectorValue.getCommunicatedWith
                       (rs_resultCell st') !! k) →
            is_Some (rs_rows st' !! k)).
Proof.
  induction plan as [|[p G] plan IH]; intros fuel st rem Hs Hlen Hplan Hprev Hu Hmap Hfuel;
    (destruct fuel as [|fuel]; [cbn in Hfuel; lia|]); cbn [reverseAllKeys_while].
  - cbn [drain_plan] in Hplan.
    assert (HT : count_where (hits s0 0 column) rem = 0).
    { apply count_where_none. eapply Forall_impl; [exact Hplan|].
      intros a Ha. cbv beta in Ha. unfold hits. now apply bool_decide_eq_false_2. }
    destruct (sketch_of_cell s0 (rs_dstIPs st) rem 0 column Hs Hrows Hcolumn)
      as (_ & Hcnt & _).
    rewrite Hcnt, HT, Z.add_0_r, (wrap32_small _ Hu).
    destruct (rs_prevCnt st =? 0).
    + exists st, rem. auto.
    + rewrite (reverseKey_empty_cell s0 Hwidth Hrows (rs_dstIPs st) rem column Hs Hcolumn HT).
      rewrite Hzero, orb_true_r.
      eexists _, rem. split; [reflexivity|].
      cbn [rs_resultCell rs_dstIPs rs_rows]. auto.
  - cbn [drain_plan] in Hplan.
    destruct Hplan as (Hp & Hprot & Hpc & Hmaj & HpG & HG & Hiso & Hplan).
    destruct (sketch_of_cell s0 (rs_dstIPs st) rem 0 column Hs Hrows Hcolumn)
      as (_ & Hcnt & _).
    rewrite Hcnt.
    rewrite (proj2 (Z.eqb_neq _ _) (Hprev ltac:(discriminate))).
    rewrite (reverseKey_column_majority s0 Hwidth Hrows (rs_dstIPs st) rem column p
               Hs Hcolumn Hp Hpc Hmaj).
    destruct (dec_group s0 Hwidth Hrows (rs_dstIPs st) rem p G Hs Hlen HG Hiso)
      as (Hc & Htot & Hs').
    set (indices := CountMinSketch.estimate (rs_dstIPs st) p) in *.
    set (c := CountMinSketch.cell (rs_dstIPs st) indices.1 indices.2) in *.
    set (T := count_where (hits s0 0 column) rem) in *.
    set (nG := count_where (λ a, bool_decide (prefix24 a ∈ G)) rem) in *.
    set (K := count_where (λ a, prefix24 a =? p) rem) in *.
    assert (HK : K ≤ nG).
    { apply count_where_le, Forall_forall. intros a _ Ha.
      apply Z.eqb_eq in Ha. apply bool_decide_eq_true_2. now rewrite Ha. }
    assert (HT0 : 0 ≤ T) by apply count_where_nonneg.
    assert (HTsplit : T = nG + count_where (hits s0 0 column)
                                 (filter (λ a, prefix24 a ∉ G) rem)).
    { unfold T. rewrite (count_where_group (hits s0 0 column) G rem) at 1. f_equal.
      apply count_where_ext, Forall_forall. intros a _.
      destruct (bool_decide (prefix24 a ∈ G)) eqn:E; [|apply andb_false_r].
      rewrite andb_true_r. apply bool_decide_eq_true_1 in E.
      unfold hits. apply bool_decide_eq_true_2.
      rewrite Forall_forall in HG. rewrite (HG _ E 0%nat Hrows). exact Hpc. }
    rewrite Hc, (proj2 (Z.eqb_neq nG 0)) by lia.
    rewrite Hprot. cbn [negb orb].
    set (pair := if rs_maxIPBytes st
                    <? ddosDetectorValue.getByteCount (CountMinSketch.value c)
                 then (ddosDetectorValue.getByteCount (CountMinSketch.value c), p)
                 else (rs_maxIPBytes st, rs_maxIP st)).
    destruct pair as [maxIPBytes maxIP].
    edestruct (IH fuel
      (mkRS T maxIPBytes maxIP
         (ddosDetectorValue.add (rs_resultCell st) (CountMinSketch.value c))
         (CountMinSketch.dec p c (rs_dstIPs st))
         (foldl (λ rows (srcIP : Z * Z), <[srcIP.1 := Z.of_nat indices.1]> rows)
            (rs_rows st)
            (map_to_list (ddosDetectorValue.getCommunicatedWith
                            (CountMinSketch.value c)))))
      (filter (λ a, prefix24 a ∉ G) rem))
      as (st' & rem' & Hrun & Htot' & Hs'' & Hzero' & Hmap').
    + exact Hs'.
    + pose proof (length_filter (λ a, prefix24 a ∉ G) rem). lia.
    + exact Hplan.
    + intros _. cbn [rs_prevCnt]. lia.
    + cbn [rs_resultCell]. unfold ddosDetectorValue.add.
      cbn [ddosDetectorValue.reversibleKey_].
      unfold binCountSketchValue.add. cbn [binCountSketchValue.totalCount].
      unfold is_u32, wrap32. apply Z.mod_pos_bound. lia.
    + cbn [rs_resultCell rs_rows]. intros k Hk.
      rewrite foldl_insert_rows_lookup.
      case_decide as Hin; [eauto|]. apply Hmap.
      unfold ddosDetectorValue.getCommunicatedWith, ddosDetectorValue.add in Hk.
      cbn [ddosDetectorValue.communicatedWith_] in Hk.
      unfold ddosDetectorValue.map_add_all in Hk.
      apply map_add_all_is_Some in Hk as [Hk|Hk]; [contradiction|exact Hk].
    + cbn in Hfuel. lia.
    + exists st', rem'. split; [exact Hrun|]. split; [|auto].
      rewrite Htot'. cbn [rs_resultCell]. unfold ddosDetectorValue.add.
      cbn [ddosDetectorValue.reversibleKey_].
      unfold binCountSketchValue.add. cbn [binCountSketchValue.totalCount].
      rewrite Htot, wrap32_add_l. f_equal. lia.
Qed.

End DrainLoop.

Lemma drain_plan_geometry (protectedPrefixes : Z → option Float32.t)
    (s0 s : BCSketchTypeDstIPs) (column : nat) (plan : list (Z * list Z)) :
  CountMinSketch.hash s = CountMinSketch.hash s0 →
  CountMinSketch.innerSize s = CountMinSketch.innerSize s0 →
  CountMinSketch.outerSize s = CountMinSketch.outerSize s0 →
  ∀ rem, drain_plan protectedPrefixes s column rem plan →
         drain_plan protectedPrefixes s0 column rem plan.
Proof.
  intros Hh Hw Ho.
  induction plan as [|[p G] plan IH]; intros rem; cbn [drain_plan];
    unfold hits, CountMinSketch.getCol; rewrite ?Hh, ?Hw, ?Ho.
  - done.
  - intros (? & ? & ? & ? & ? & ? & ? & Hplan). auto 10.
Qed.

(** C5 (as amended).  Take a destination sketch filled from empty by the
    flows of a window (fewer than 2^32), one of its columns, and suppose that
    the flows to protected destinations can be taken out of the column step
    by step ([drain_plan]): at each step one protected /24 prefix [p] of the
    column receives more than half of the flows that are left in the row-0
    cell of the column, and on some row the cell of [p] holds no flow that is
    left but those to [p] and to prefixes that share the cell of [p] on every
    row; these flows leave the sketch with the step; after the last step no
    flow is left in the column.  (A column with a single protected prefix is
    the plan of one step; an empty column is the empty plan.)  Suppose also
    that the prefix 0.0.0.0/24 is not protected.  Then [reverseAllKeys] on
    that column, called with an empty result cell, returns after at most one
    iteration more than the plan has steps; the total of the reversible key
    of the result cell (the sum of the totals of the cells accumulated into
    it) is the count of the column's original row-0 cell, which is also the
    total of that cell's reversible key; and afterwards the row-0 cell of the
    column has count 0 and total 0. *)
Theorem C5_majority_drain (protectedPrefixes : Z → option Float32.t)
    (h : nat → Z → Z) (outer inner : nat) (d0 : ddosDetector)
    (flows : list netflowRecord_t) (column : nat) (plan : list (Z * list Z))
    (fuel : nat) :
  dstIPs d0 = CountMinSketch.new h outer inner →
  (0 < outer)%nat → (column < inner)%nat →
  Z.of_nat (length flows) < 2 ^ 32 →
  isProtected protectedPrefixes 0 = false →
  let d := foldl (λ d record, processCurrentFlow protectedPrefixes record d) d0 flows in
  drain_plan protectedPrefixes (dstIPs d) column (inserted protectedPrefixes flows) plan →
  (length plan + 2 ≤ fuel)%nat →
  let original := CountMinSketch.cell (dstIPs d) 0 column in
  ∃ r, reverseAllKeys protectedPrefixes fuel 0 ddosDetectorValue.init
         (dstIPs d) (srcIPs d) column [] = Returned r ∧
       binCountSketchValue.totalCount (ddosDetectorValue.reversibleKey_ (r_resultCell r))
       = CountMinSketch.count original ∧
       CountMinSketch.count original
       = binCountSketchValue.totalCount
           (ddosDetectorValue.reversibleKey_ (CountMinSketch.value original)) ∧
       CountMinSketch.count (CountMinSketch.cell (r_dstIPs r) 0 column) = 0 ∧
       binCountSketchValue.totalCount
         (ddosDetectorValue.reversibleKey_
            (CountMinSketch.value (CountMinSketch.cell (r_dstIPs r) 0 column))) = 0.
Proof.
  intros Hnew Ho Hcol Hlen Hzero d Hplan Hfuel original.
  set (s0 := dstIPs d0).
  assert (Ho0 : CountMinSketch.outerSize s0 = outer).
  { unfold s0. rewrite Hnew. unfold CountMinSketch.outerSize, CountMinSketch.new.
    cbn. apply length_replicate. }
  assert (Hw0 : CountMinSketch.innerSize s0 = inner) by (unfold s0; now rewrite Hnew).
  assert (Hs : sketch_of s0 (dstIPs d) (inserted protectedPrefixes flows)).
  { apply (sketch_of_flows protectedPrefixes s0 flows d0 []).
    - replace (dstIPs d0)
        with (CountMinSketch.new (CountMinSketch.hash s0) (CountMinSketch.outerSize s0)
                (CountMinSketch.innerSize s0)); [apply sketch_of_new|].
      rewrite Ho0, Hw0. unfold s0. now rewrite Hnew.
    - simpl length. lia. }
  pose proof Hs as (Hh & Hw & Hod & _).
  apply (drain_plan_geometry protectedPrefixes s0) in Hplan; [|done..].
  assert (Hrem : Z.of_nat (length (inserted protectedPrefixes flows)) < 2 ^ 32).
  { pose proof (length_inserted protectedPrefixes flows). lia. }
  assert (Hwidth : (0 < CountMinSketch.innerSize s0)%nat) by lia.
  assert (Hrows : (0 < CountMinSketch.outerSize s0)%nat) by lia.
  assert (Hcolumn : (column < CountMinSketch.innerSize s0)%nat) by lia.
  destruct (sketch_of_cell s0 (dstIPs d) _ 0 column Hs Hrows Hcolumn)
    as (_ & Hcnt & Htot & _).
  fold original in Hcnt, Htot.
  set (T := count_where (hits s0 0 column) (inserted protectedPrefixes flows)) in *.
  assert (HT : 0 ≤ T < 2 ^ 32).
  { split; [apply count_where_nonneg|].
    pose proof (count_where_le_length (hits s0 0 column)
                  (inserted protectedPrefixes flows)). lia. }
  destruct (reverseAllKeys_while_plan protectedPrefixes s0 column Hwidth Hrows Hcolumn
              Hzero plan fuel (mkRS 0 0 0 ddosDetectorValue.init (dstIPs d) ∅)
              (inserted protectedPrefixes flows))
    as (st & rem' & Hrun & Hres & Hs' & Hzero' & Hmap).
  - exact Hs.
  - exact Hrem.
  - exact Hplan.
  - cbn [rs_prevCnt]. destruct plan as [|[p G] plan]; [congruence|]. intros _.
    cbn [drain_plan] in Hplan. destruct Hplan as (Hp & _ & Hpc & Hmaj & _).
    fold T in Hmaj.
    assert (count_where (λ a, prefix24 a =? p) (inserted protectedPrefixes flows) ≤ T);
      [|lia].
    apply count_where_le, Forall_forall. intros a _ Ha. apply Z.eqb_eq in Ha.
    unfold hits. apply bool_decide_eq_true_2. now rewrite Ha.
  - cbn. unfold is_u32. lia.
  - cbn [rs_resultCell rs_rows]. intros k [x Hx].
    unfold ddosDetectorValue.getCommunicatedWith, ddosDetectorValue.init in Hx.
    cbn [ddosDetectorValue.communicatedWith_] in Hx.
    now rewrite lookup_empty in Hx.
  - lia.
  - cbn [rs_resultCell rs_rows] in Hres.
    change (binCountSketchValue.totalCount
              (ddosDetectorValue.reversibleKey_ ddosDetectorValue.init)) with 0 in Hres.
    rewrite Z.add_0_l in Hres. fold T in Hres. rewrite (wrap32_small T HT) in Hres.
    assert (Hrows' : (0 < CountMinSketch.outerSize s0)%nat) by lia.
    destruct (sketch_of_cell s0 (rs_dstIPs st) rem' 0 column Hs' Hrows Hcolumn)
      as (_ & Hcnt' & Htot' & _).
    rewrite Hzero' in Hcnt', Htot'.
    unfold reverseAllKeys. rewrite Hrun.
    destruct (rs_maxIP st =? 0).
    { eexists. split; [reflexivity|]. cbn [r_resultCell r_dstIPs].
      rewrite Hres, Hcnt, Htot. auto. }
    destruct fuel as [|[|fuel]]; [lia|lia|].
    unfold reverseSrcIPs.
    destruct (reverseSrcIPs_for_returns fuel
                (map_to_list (ddosDetectorValue.getCommunicatedWith (rs_resultCell st)))
                (rs_rows st) (srcIPs d)) with (vec := @nil (Z * Z)) as (vec' & Hret).
    { intros [k x] Hkx. apply elem_of_map_to_list in Hkx. apply Hmap. simpl. eauto. }
    rewrite Hret. eexists. split; [reflexivity|]. cbn [r_resultCell r_dstIPs].
    rewrite Hres, Hcnt, Htot. auto.
Qed.

Lemma C5_majority_drain_witness :
  (let d := foldl (λ d record, processCurrentFlow protected_example record d)
                  detector_example
                  [flow_to_1_5; flow_to_2_5; flow_outbound; flow_to_1_6] in
   ∃ r, reverseAllKeys protected_example 3 0 ddosDetectorValue.init
          (dstIPs d) (srcIPs d) 10 [] = Returned r ∧
        binCountSketchValue.totalCount
          (ddosDetectorValue.reversibleKey_ (r_resultCell r))
        = CountMinSketch.count (CountMinSketch.cell (dstIPs d) 0 10) ∧
        CountMinSketch.count (CountMinSketch.cell (r_dstIPs r) 0 10) = 0) ∧
  (let d := foldl (λ d record, processCurrentFlow protected_example record d)
                  detector_spread
                  [flow_to_1_5; flow_to_2_5; flow_outbound; flow_to_1_6] in
   ∃ r, reverseAllKeys protected_example 4 0 ddosDetectorValue.init
          (dstIPs d) (srcIPs d) 10 [] = Returned r ∧
        binCountSketchValue.totalCount
          (ddosDetectorValue.reversibleKey_ (r_resultCell r))
        = CountMinSketch.count (CountMinSketch.cell (dstIPs d) 0 10) ∧
        CountMinSketch.count (CountMinSketch.cell (r_dstIPs r) 0 10) = 0).
Proof.
  split.
  - intros d.
    destruct (C5_majority_drain protected_example hash_example 3 innerSizeDstIPs_main
                detector_example
                [flow_to_1_5; flow_to_2_5; flow_outbound; flow_to_1_6] 10
                [(65546, [65546; 131082])] 3
                eq_refl ltac:(lia) ltac:(unfold innerSizeDstIPs_main; lia)
                ltac:(simpl; lia) eq_refl)
      as (r & Hr & Ht & _ & Hc & _).
    + change (inserted protected_example
                [flow_to_1_5; flow_to_2_5; flow_outbound; flow_to_1_6])
        with [83951626; 84017162; 100728842].
      cbn [drain_plan].
      split; [reflexivity|]. split; [reflexivity|].
      split; [vm_compute; reflexivity|]. split; [vm_compute; reflexivity|].
      split; [refine (bool_decide_unpack _ _); vm_compute; exact I|].
      split.
      { repeat (apply Forall_cons_2;
                  [intros i Hi; assert (Hi' : (i < 3)%nat) by (vm_compute in Hi; exact Hi);
                   clear Hi; destruct i as [|[|[|i]]]; [vm_compute; reflexivity..|lia]|]).
        apply Forall_nil_2. }
      split.
      { exists 0%nat. split; [vm_compute; lia|].
        repeat (apply Forall_cons_2;
                  [intros _; refine (bool_decide_unpack _ _); vm_compute; exact I|]).
        apply Forall_nil_2. }
      match goal with
      | |- Forall _ ?l => replace l with (@nil Z) by (vm_compute; reflexivity)
      end.
      apply Forall_nil_2.
    + simpl; lia.
    + exists r. auto.
  - intros d.
    destruct (C5_majority_drain protected_example hash_spread 3 innerSizeDstIPs_main
                detector_spread
                [flow_to_1_5; flow_to_2_5; flow_outbound; flow_to_1_6] 10
                [(65546, [65546]); (131082, [131082])] 4
                eq_refl ltac:(lia) ltac:(unfold innerSizeDstIPs_main; lia)
                ltac:(simpl; lia) eq_refl)
      as (r & Hr & Ht & _ & Hc & _).
    + change (inserted protected_example
                [flow_to_1_5; flow_to_2_5; flow_outbound; flow_to_1_6])
        with [83951626; 84017162; 100728842].
      cbn [drain_plan].
      split; [reflexivity|]. split; [reflexivity|].
      split; [vm_compute; reflexivity|]. split; [vm_compute; reflexivity|].
      split; [refine (bool_decide_unpack _ _); vm_compute; exact I|].
      split; [apply Forall_cons_2; [reflexivity|apply Forall_nil_2]|].
      split.
      { exists 1%nat. split; [vm_compute; lia|].
        repeat (apply Forall_cons_2;
                  [intros Hcell;
                     first [ vm_compute in Hcell; discriminate Hcell
                           | refine (bool_decide_unpack _ _); vm_compute; exact I ]|]).
        apply Forall_nil_2. }
      replace (filter (λ a, prefix24 a ∉ [65546]) [83951626; 84017162; 100728842])
        with [84017162] by (vm_compute; reflexivity).
      split; [reflexivity|]. split; [reflexivity|].
      split; [vm_compute; reflexivity|]. split; [vm_compute; reflexivity|].
      split; [refine (bool_decide_unpack _ _); vm_compute; exact I|].
      split; [apply Forall_cons_2; [reflexivity|apply Forall_nil_2]|].
      split.
      { exists 0%nat. split; [vm_compute; lia|].
        repeat (apply Forall_cons_2;
                  [intros _; refine (bool_decide_unpack _ _); vm_compute; exact I|]).
        apply Forall_nil_2. }
      match goal with
      | |- Forall _ ?l => replace l with (@nil Z) by (vm_compute; reflexivity)
      end.
      apply Forall_nil_2.
    + simpl; lia.
    + exists r. auto.
Defined.

(* ===================================================================== *)
(** * The windows of the receive loop *)
(* ===================================================================== *)

Section WindowFacts.
Variable protectedPrefixes : Z → option Float32.t.
Import main.

Lemma receive_flows_snoc (records : list (netflowRecord_t * Z))
    (rec : netflowRecord_t * Z) (st : state) :
  receive_flows protectedPrefixes (records ++ [rec]) st =
  let acc := receive_flows protectedPrefixes records st in
  let '(st', written) := receive_flow protectedPrefixes rec.1 rec.2 acc.1 in
  (st', acc.2 ++ match written with Some val => [val] | None => [] end).
Proof. unfold receive_flows. now rewrite foldl_app. Qed.

Lemma receive_flows_acc (records : list (netflowRecord_t * Z)) :
  ∀ (st : state) (pre : list (BCSketchTypeDstIPs * BCSketchTypeSrcIPs)),
    foldl (λ acc rec,
             let '(st, written) := receive_flow protectedPrefixes rec.1 rec.2 acc.1 in
             (st, acc.2 ++ match written with Some val => [val] | None => [] end))
          (st, pre) records
    = ((receive_flows protectedPrefixes records st).1,
       pre ++ (receive_flows protectedPrefixes records st).2).
Proof.
  unfold receive_flows.
  induction records as [|r records IH]; intros st pre; cbn [foldl fst snd].
  - now rewrite app_nil_r.
  - destruct (receive_flow protectedPrefixes r.1 r.2 st) as [st1 w].
    rewrite IH, (IH st1 ([] ++ _)). cbn [fst snd]. f_equal.
    now rewrite app_nil_l, app_assoc.
Qed.

Lemma receive_flows_cons (records : list (netflowRecord_t * Z))
    (rec : netflowRecord_t * Z) (st : state) :
  receive_flows protectedPrefixes (rec :: records) st =
  let '(st1, written) := receive_flow protectedPrefixes rec.1 rec.2 st in
  let acc := receive_flows protectedPrefixes records st1 in
  (acc.1, match written with Some val => [val] | None => [] end ++ acc.2).
Proof.
  unfold receive_flows at 1. cbn [foldl fst snd].
  destruct (receive_flow protectedPrefixes rec.1 rec.2 st) as [st1 written].
  now rewrite receive_flows_acc, app_nil_l.
Qed.

(** inside the first window nothing reaches the detector *)
Lemma first_window_quiet (records : list (netflowRecord_t * Z)) (t0 : Z)
    (d : ddosDetector) :
  Forall (λ rec, rec.2 < t0 + seconds window_length_seconds) records →
  receive_flows protectedPrefixes records (mkState false t0 1 d)
  = (mkState false t0 1 d, []).
Proof.
  induction records as [|rec records IH] using rev_ind; intros Hall; [reflexivity|].
  apply Forall_app in Hall as [Hall Hrec]. rewrite Forall_singleton in Hrec.
  rewrite receive_flows_snoc, IH by done. cbn [fst snd].
  unfold receive_flow. cbn [first windowID currIntervalStart detector].
  change (1 <? 1) with false. cbn iota.
  destruct (Z.leb_spec (t0 + seconds window_length_seconds) rec.2); [lia|].
  reflexivity.
Qed.

(** X14.  The flows of the first window never reach the detector: after the
    first record, the records of its window and the record that closes the
    window, the detector is as it was, nothing was written to the pipe, and
    the second window is open. *)
Theorem X14_first_window_is_dropped (r0 r1 : netflowRecord_t) (t0 t1 : Z)
    (records : list (netflowRecord_t * Z)) (d : ddosDetector) :
  Forall (λ rec, rec.2 < t0 + seconds window_length_seconds) records →
  t0 + seconds window_length_seconds ≤ t1 →
  receive_flows protectedPrefixes ((r0, t0) :: records ++ [(r1, t1)]) (initial d)
  = (mkState false t1 2 d, []).
Proof.
  intros Hall Ht1.
  rewrite receive_flows_cons. cbn [fst snd].
  unfold receive_flow at 1, initial. cbn [first windowID detector].
  change (wrap32 (0 + 1)) with 1.
  rewrite receive_flows_snoc, first_window_quiet by done. cbn [fst snd].
  unfold receive_flow. cbn [first windowID currIntervalStart detector].
  change (1 <? 1) with false. cbn iota.
  destruct (Z.leb_spec (t0 + seconds window_length_seconds) t1); [|lia].
  reflexivity.
Qed.

(** inside a later window every flow is ingested and nothing is written *)
Lemma open_window_ingests (records : list (netflowRecord_t * Z)) (start w : Z)
    (d : ddosDetector) :
  1 < w →
  Forall (λ rec, rec.2 < start + seconds window_length_seconds) records →
  receive_flows protectedPrefixes records (mkState false start w d)
  = (mkState false start w
       (foldl (λ d record, processCurrentFlow protectedPrefixes record d) d records.*1),
     []).
Proof.
  intros Hw. induction records as [|rec records IH] using rev_ind; intros Hall;
    [reflexivity|].
  apply Forall_app in Hall as [Hall Hrec]. rewrite Forall_singleton in Hrec.
  rewrite receive_flows_snoc, IH by done. cbn [fst snd].
  unfold receive_flow. cbn [first windowID currIntervalStart detector].
  destruct (Z.ltb_spec 1 w); [|lia].
  destruct (Z.leb_spec (start + seconds window_length_seconds) rec.2); [lia|].
  rewrite fmap_app, foldl_app. reflexivity.
Qed.

(** X15.  From the second window on, the snapshot written at the end of a window
    holds all the flows of the window with the record that closes it, and
    the next window starts from empty sketches at the time of that record. *)
Theorem X15_window_snapshot (records : list (netflowRecord_t * Z))
    (r1 : netflowRecord_t) (t1 : Z) (st : state) :
  first st = false → 1 < windowID st →
  Forall (λ rec, rec.2 < currIntervalStart st + seconds window_length_seconds)
    records →
  currIntervalStart st + seconds window_length_seconds ≤ t1 →
  let d := foldl (λ d record, processCurrentFlow protectedPrefixes record d)
                 (detector st) (records.*1 ++ [r1]) in
  receive_flows protectedPrefixes (records ++ [(r1, t1)]) st
  = (mkState false t1 (wrap32 (windowID st + 1))
       (set_dstIPs (CountMinSketch.reset (dstIPs d))
          (set_srcIPs (CountMinSketch.reset (srcIPs d)) d)),
     [(dstIPs d, srcIPs d)]).
Proof.
  intros Hf Hw Hall Ht1 d.
  destruct st as [f start w d0]. cbn [first windowID currIntervalStart detector] in *.
  subst f.
  rewrite receive_flows_snoc, open_window_ingests by done. cbn [fst snd].
  unfold receive_flow. cbn [first windowID currIntervalStart detector].
  destruct (Z.ltb_spec 1 w); [|lia].
  destruct (Z.leb_spec (start + seconds window_length_seconds) t1); [|lia].
  unfold notifyWorker. subst d. rewrite foldl_app. reflexivity.
Qed.

End WindowFacts.

Lemma X14_first_window_is_dropped_witness :
  main.receive_flows protected_example
    ((flow_to_1_5, 100) :: [(flow_to_1_6, 200)] ++ [(flow_to_2_5, 5000000100)])
    (main.initial detector_learned)
  = (main.mkState false 5000000100 2 detector_learned, []).
Proof.
  apply (X14_first_window_is_dropped protected_example flow_to_1_5 flow_to_2_5 100
           5000000100 [(flow_to_1_6, 200)] detector_learned).
  - repeat constructor.
  - vm_compute. discriminate.
Defined.

Lemma X15_window_snapshot_witness :
  let d := foldl (λ d record, processCurrentFlow protected_example record d)
                 (main.detector state_second_window)
                 ([(flow_to_1_5, 200)].*1 ++ [flow_outbound]) in
  main.receive_flows protected_example
    ([(flow_to_1_5, 200)] ++ [(flow_outbound, 5000000100)]) state_second_window
  = (main.mkState false 5000000100
       (wrap32 (main.windowID state_second_window + 1))
       (set_dstIPs (CountMinSketch.reset (dstIPs d))
          (set_srcIPs (CountMinSketch.reset (srcIPs d)) d)),
     [(dstIPs d, srcIPs d)]).
Proof.
  apply (X15_window_snapshot protected_example [(flow_to_1_5, 200)] flow_outbound
           5000000100 state_second_window).
  - reflexivity.
  - vm_compute. reflexivity.
  - repeat constructor.
  - vm_compute. discriminate.
Defined.

(* ===================================================================== *)
(** * The engine: what a window does to the trackers and the queues *)
(* ===================================================================== *)

(** a function on trackers that leaves the statistics and the number of
    processed samples as they are (the setters of thresholds and of the
    time of the last alert) *)
Lemma in_step_refl (a : AdaptiveCUSUM.t) : in_step a a.
Proof. now split. Qed.

Lemma process_in_step (x y : Double.t) (l : bool) (a b : AdaptiveCUSUM.t) :
  in_step a b → in_step (AdaptiveCUSUM.process x l a) (AdaptiveCUSUM.process y l b).
Proof.
  intros [Hf Hw]. unfold in_step, AdaptiveCUSUM.process.
  destruct (AdaptiveCUSUM.first a) eqn:Ea, (AdaptiveCUSUM.first b) eqn:Eb;
    try discriminate.
  - cbn. now split.
  - destruct (negb l || _), (negb l || _); cbn; rewrite Ea, Eb, Hw; now split.
Qed.

Lemma trackers_elem (d : ddosDetector) (v : list AdaptiveCUSUM.t) :
  v ∈ trackers d ↔
  v = cusumBytes d ∨ v = cusumPackets d ∨ v = cusumEntropy d ∨
  v = cusumBytesReceivedToSent d ∨ v = cusumFlowsReceivedToSent d.
Proof. unfold trackers. rewrite !elem_of_cons, elem_of_nil. tauto. Qed.

Lemma engine_inv_alter (d d' : ddosDetector) (j : nat)
    (f1 f2 f3 f4 f5 : AdaptiveCUSUM.t → AdaptiveCUSUM.t) :
  innerSizeDstIPs d' = innerSizeDstIPs d →
  cusumBytes d' = alter f1 j (cusumBytes d) →
  cusumPackets d' = alter f2 j (cusumPackets d) →
  cusumEntropy d' = alter f3 j (cusumEntropy d) →
  cusumBytesReceivedToSent d' = alter f4 j (cusumBytesReceivedToSent d) →
  cusumFlowsReceivedToSent d' = alter f5 j (cusumFlowsReceivedToSent d) →
  (∀ f, f ∈ [f1; f2; f3; f4; f5] →
        (∀ a, cusum_inv a → cusum_inv (f a)) ∧
        (∀ a b, in_step a b → in_step (f a) (f1 b))) →
  engine_inv d → engine_inv d'.
Proof.
  intros Hn H1 H2 H3 H4 H5 Hf Hinv v' Hv'.
  assert (Hgen : ∀ f v, f ∈ [f1; f2; f3; f4; f5] → v ∈ trackers d →
            length (alter f j v) = innerSizeDstIPs d' ∧
            Forall cusum_inv (alter f j v) ∧
            Forall2 in_step (alter f j v) (cusumBytes d')).
  { intros f v Hfin Hv. destruct (Hinv v Hv) as (Hl & Hc & Hs).
    destruct (Hf f Hfin) as [Hfc Hfs].
    split; [now rewrite length_alter, Hn|]. split.
    - apply Forall_alter; auto.
    - rewrite H1. apply Forall2_alter; auto. }
  assert (Hin : ∀ f, f = f1 ∨ f = f2 ∨ f = f3 ∨ f = f4 ∨ f = f5 →
                     f ∈ [f1; f2; f3; f4; f5])
    by (intros f; rewrite !elem_of_cons; tauto).
  apply trackers_elem in Hv' as [->|[->|[->|[->| ->]]]].
  - specialize (Hgen f1 (cusumBytes d)). rewrite <- H1 in Hgen.
    apply Hgen; [apply Hin|apply trackers_elem]; tauto.
  - specialize (Hgen f2 (cusumPackets d)). rewrite <- H2 in Hgen.
    apply Hgen; [apply Hin|apply trackers_elem]; tauto.
  - specialize (Hgen f3 (cusumEntropy d)). rewrite <- H3 in Hgen.
    apply Hgen; [apply Hin|apply trackers_elem]; tauto.
  - specialize (Hgen f4 (cusumBytesReceivedToSent d)). rewrite <- H4 in Hgen.
    apply Hgen; [apply Hin|apply trackers_elem]; tauto.
  - specialize (Hgen f5 (cusumFlowsReceivedToSent d)). rewrite <- H5 in Hgen.
    apply Hgen; [apply Hin|apply trackers_elem]; tauto.
Qed.

(** the setters leave the statistics and the number of samples alone *)
Lemma neutral_step (f g : AdaptiveCUSUM.t → AdaptiveCUSUM.t) :
  (∀ a, AdaptiveCUSUM.SH (f a) = AdaptiveCUSUM.SH a ∧
        AdaptiveCUSUM.SL (f a) = AdaptiveCUSUM.SL a ∧
        AdaptiveCUSUM.maxSH (f a) = AdaptiveCUSUM.maxSH a ∧
        AdaptiveCUSUM.maxSL (f a) = AdaptiveCUSUM.maxSL a ∧
        AdaptiveCUSUM.first (f a) = AdaptiveCUSUM.first a ∧
        AdaptiveCUSUM.windowID (f a) = AdaptiveCUSUM.windowID a) →
  (∀ a, AdaptiveCUSUM.first (g a) = AdaptiveCUSUM.first a ∧
        AdaptiveCUSUM.windowID (g a) = AdaptiveCUSUM.windowID a) →
  (∀ a, cusum_inv a → cusum_inv (f a)) ∧
  (∀ a b, in_step a b → in_step (f a) (g b)).
Proof.
  intros Hf Hg. split.
  - intros a. destruct (Hf a) as (E1 & E2 & E3 & E4 & _).
    unfold cusum_inv. now rewrite E1, E2, E3, E4.
  - intros a b [H1 H2]. destruct (Hf a) as (_ & _ & _ & _ & E5 & E6).
    destruct (Hg b) as (E7 & E8). unfold in_step. now rewrite E5, E6, E7, E8.
Qed.

Lemma setCusumThresholdHigh_neutral (q : Float32.t) (a : AdaptiveCUSUM.t) :
  AdaptiveCUSUM.SH (setCusumThresholdHigh a q) = AdaptiveCUSUM.SH a ∧
  AdaptiveCUSUM.SL (setCusumThresholdHigh a q) = AdaptiveCUSUM.SL a ∧
  AdaptiveCUSUM.maxSH (setCusumThresholdHigh a q) = AdaptiveCUSUM.maxSH a ∧
  AdaptiveCUSUM.maxSL (setCusumThresholdHigh a q) = AdaptiveCUSUM.maxSL a ∧
  AdaptiveCUSUM.first (setCusumThresholdHigh a q) = AdaptiveCUSUM.first a ∧
  AdaptiveCUSUM.windowID (setCusumThresholdHigh a q) = AdaptiveCUSUM.windowID a.
Proof. unfold setCusumThresholdHigh. now destruct (_ <? _)%D. Qed.

Lemma setCusumThresholdLow_neutral (q : Float32.t) (a : AdaptiveCUSUM.t) :
  AdaptiveCUSUM.SH (setCusumThresholdLow a q) = AdaptiveCUSUM.SH a ∧
  AdaptiveCUSUM.SL (setCusumThresholdLow a q) = AdaptiveCUSUM.SL a ∧
  AdaptiveCUSUM.maxSH (setCusumThresholdLow a q) = AdaptiveCUSUM.maxSH a ∧
  AdaptiveCUSUM.maxSL (setCusumThresholdLow a q) = AdaptiveCUSUM.maxSL a ∧
  AdaptiveCUSUM.first (setCusumThresholdLow a q) = AdaptiveCUSUM.first a ∧
  AdaptiveCUSUM.windowID (setCusumThresholdLow a q) = AdaptiveCUSUM.windowID a.
Proof. unfold setCusumThresholdLow. now destruct (_ <? _)%D. Qed.

Ltac five_members Hf :=
  rewrite !elem_of_cons, elem_of_nil in Hf;
  destruct Hf as [->|[->|[->|[->|[->|[]]]]]].

Section EngineFacts.
Variable protectedPrefixes : Z → option Float32.t.
Variable whitelistedPrefixes : Z → bool.
Variable n_ : Z.
Variable timeBetweenAlertsSecs_ : Z.
Variable quantile_ : Float32.t.
Variable learningSecs_ : Z.
Variable log2f : Float32.t → Float32.t.
Variable log2 : Double.t → Double.t.

Lemma updateMetrics_fields (vec : list (Z * Z)) (resultCell : ddosDetectorValue.t)
    (learning : bool) (column : nat) (d : ddosDetector) :
  let d' := updateMetrics log2f log2 vec resultCell learning column d in
  ∃ x1 x2 x3 x4 x5,
    cusumBytes d' = alter (AdaptiveCUSUM.process x1 learning) column (cusumBytes d) ∧
    cusumPackets d' = alter (AdaptiveCUSUM.process x2 learning) column (cusumPackets d) ∧
    cusumEntropy d' = alter (AdaptiveCUSUM.process x3 learning) column (cusumEntropy d) ∧
    cusumBytesReceivedToSent d'
      = alter (AdaptiveCUSUM.process x4 learning) column (cusumBytesReceivedToSent d) ∧
    cusumFlowsReceivedToSent d'
      = alter (AdaptiveCUSUM.process x5 learning) column (cusumFlowsReceivedToSent d) ∧
    innerSizeDstIPs d' = innerSizeDstIPs d ∧
    outerSizeDstIPs d' = outerSizeDstIPs d ∧
    dstIPs d' = dstIPs d ∧ srcIPs d' = srcIPs d ∧
    dosAlertsQueue d' = dosAlertsQueue d ∧
    dosFalsePositivesQueue d' = dosFalsePositivesQueue d.
Proof.
  unfold updateMetrics.
  destruct (computeMetrics log2f log2 vec resultCell) as [[e b] f].
  cbn. do 5 eexists. repeat split.
Qed.

Lemma updateMetrics_inv (vec : list (Z * Z)) (resultCell : ddosDetectorValue.t)
    (learning : bool) (column : nat) (d : ddosDetector) :
  engine_inv d → engine_inv (updateMetrics log2f log2 vec resultCell learning column d).
Proof.
  destruct (updateMetrics_fields vec resultCell learning column d)
    as (x1 & x2 & x3 & x4 & x5 & H1 & H2 & H3 & H4 & H5 & Hn & _).
  apply (engine_inv_alter d _ column _ _ _ _ _ Hn H1 H2 H3 H4 H5).
  intros f Hf. five_members Hf;
    (split; [intros a Ha; now apply process_inv|intros a b; apply process_in_step]).
Qed.

Lemma checkFalsePositives_inv (d : ddosDetector) :
  engine_inv d → engine_inv (checkFalsePositives protectedPrefixes d).
Proof.
  unfold checkFalsePositives. destruct (dosFalsePositivesQueue d) as [|fp rest]; [done|].
  eapply engine_inv_alter; cbn; try reflexivity.
  intros f Hf. five_members Hf; apply neutral_step; intros a; now repeat split.
Qed.

Lemma setLastAlert_inv (currTime : Z) (j : nat) (d : ddosDetector) :
  engine_inv d →
  engine_inv (set_cusumBytes
                (alter (AdaptiveCUSUM.setLastAlert currTime) j (cusumBytes d)) d).
Proof.
  apply (engine_inv_alter d _ j (AdaptiveCUSUM.setLastAlert currTime)
           (λ a, a) (λ a, a) (λ a, a) (λ a, a)); cbn;
    try reflexivity; try (symmetry; now apply list_alter_id).
  intros f Hf. five_members Hf; apply neutral_step; intros a; now repeat split.
Qed.

Lemma set_dosAlertsQueue_inv (q : list dos_alert_t) (d : ddosDetector) :
  engine_inv d → engine_inv (set_dosAlertsQueue q d).
Proof. intros H v Hv. exact (H v Hv). Qed.

Lemma setCusumTresholds_inv (d d' : ddosDetector) :
  setCusumTresholds quantile_ learningSecs_ d = Some d' → engine_inv d → engine_inv d'.
Proof.
  unfold setCusumTresholds. destruct (learningSecs_ =? 0); [discriminate|].
  intros Heq. injection Heq as <-.
  generalize (getQuantileThresholdHigh quantile_ (cusumBytes d))
             (getQuantileThresholdHigh quantile_ (cusumEntropy d))
             (getQuantileThresholdHigh quantile_ (cusumBytesReceivedToSent d))
             (getQuantileThresholdHigh quantile_ (cusumPackets d))
             (getQuantileThresholdLow quantile_ (cusumEntropy d))
             (getQuantileThresholdHigh quantile_ (cusumFlowsReceivedToSent d)).
  intros q1 q2 q3 q4 q5 q6.
  generalize (seq 0 (innerSizeDstIPs d)). intros l. revert d.
  induction l as [|j l IH]; intros d Hd; cbn [foldl]; [exact Hd|].
  apply IH.
  eapply (engine_inv_alter d _ j
            (λ a, setCusumThresholdHigh a q1)
            (λ a, setCusumThresholdHigh a q4)
            ((λ a, setCusumThresholdLow a q5) ∘ (λ a, setCusumThresholdHigh a q2))
            (λ a, setCusumThresholdHigh a q3)
            (λ a, setCusumThresholdHigh a q6)); cbn;
    try reflexivity; try exact Hd.
  - now rewrite list_alter_alter_eq.
  - intros f Hf. five_members Hf; apply neutral_step; intros a;
      try apply setCusumThresholdHigh_neutral;
      try (split; apply setCusumThresholdHigh_neutral).
    unfold compose.
    destruct (setCusumThresholdLow_neutral q5 (setCusumThresholdHigh a q2))
      as (-> & -> & -> & -> & -> & ->).
    apply setCusumThresholdHigh_neutral.
Qed.

#[local] Abbreviation column_step :=
  (detectionProcess_column protectedPrefixes whitelistedPrefixes n_
     timeBetweenAlertsSecs_ log2f log2).
#[local] Abbreviation column_loop :=
  (detectionProcess_for protectedPrefixes whitelistedPrefixes n_
     timeBetweenAlertsSecs_ log2f log2).
#[local] Abbreviation alert_step :=
  (detectionProcess_alert protectedPrefixes whitelistedPrefixes n_
     timeBetweenAlertsSecs_).

(** the ways in which the body of the column loop ends *)
Lemma detectionProcess_column_cases (fuel : nat) (thresholdSet learning : bool)
    (currTime : Z) (j : nat) (val : BCSketchTypeDstIPs * BCSketchTypeSrcIPs)
    (d : ddosDetector) :
  match column_step fuel thresholdSet learning currTime j (val, d) with
  | Returned st =>
      (st = (val, d) ∧ CountMinSketch.count (CountMinSketch.cell val.1 0 j) = 0) ∨
      ∃ r, reverseAllKeys protectedPrefixes fuel 0 ddosDetectorValue.init
             val.1 val.2 j [] = Returned r ∧
           st.1 = (r_dstIPs r, val.2) ∧
           ((r_maxIP r = 0 ∧ st.2 = d) ∨
            (r_maxIP r ≠ 0 ∧
             st.2 = alert_step thresholdSet currTime (r_maxIP r) j
                      (r_srcIPsCommWithDst r)
                      (updateMetrics log2f log2 (r_srcIPsCommWithDst r)
                         (r_resultCell r) learning j d)))
  | Thrown st =>
      st.2 = d ∧
      ∃ r, reverseAllKeys protectedPrefixes fuel 0 ddosDetectorValue.init
             val.1 val.2 j [] = Thrown r
  | OutOfFuel =>
      reverseAllKeys protectedPrefixes fuel 0 ddosDetectorValue.init
        val.1 val.2 j [] = OutOfFuel
  end.
Proof.
  unfold detectionProcess_column.
  destruct (Z.eqb_spec (CountMinSketch.count (CountMinSketch.cell val.1 0 j)) 0)
    as [Hz|Hnz]; [now left|].
  destruct (reverseAllKeys protectedPrefixes fuel 0 ddosDetectorValue.init
              val.1 val.2 j []) as [r|r|] eqn:Er.
  - cbv beta iota zeta.
    destruct (Z.eqb_spec (r_maxIP r) 0) as [Hm|Hm]; right; exists r;
      (split; [reflexivity|]); cbn [fst snd]; (split; [reflexivity|]).
    + now left.
    + now right.
  - cbv beta iota zeta. cbn [snd]. split; [reflexivity|]. now exists r.
  - reflexivity.
Qed.

(** what the alert step of a column does to the detector *)
Lemma detectionProcess_alert_cases (thresholdSet : bool) (currTime maxIP : Z)
    (j : nat) (vec : list (Z * Z)) (d : ddosDetector) :
  let d' := alert_step thresholdSet currTime maxIP j vec d in
  d' = d ∨
  ∃ alert,
    thresholdSet = true ∧
    d' = set_cusumBytes
           (alter (AdaptiveCUSUM.setLastAlert currTime) j (cusumBytes d))
           (set_dosAlertsQueue (dosAlertsQueue d ++ [alert]) d) ∧
    dstIP alert = maxIP ∧ cusumID alert = Z.of_nat j ∧ srcIPs_ alert ≠ ∅.
Proof.
  unfold detectionProcess_alert.
  destruct thresholdSet; [|now left]. cbn [andb].
  destruct (_ <? currTime); [|now left].
  unfold detectAnomaly.
  destruct (_ && _); [|now left].
  destruct (getTopNSrcIPs _ _ _ _ _) as [vec' srcIPsRes].
  destruct (decide (srcIPsRes = ∅)) as [He|Hne]; [now left|].
  right. eexists. split; [reflexivity|]. split; [reflexivity|]. now cbn.
Qed.

Lemma detectionProcess_alert_inv (thresholdSet : bool) (currTime maxIP : Z)
    (j : nat) (vec : list (Z * Z)) (d : ddosDetector) :
  engine_inv d → engine_inv (alert_step thresholdSet currTime maxIP j vec d).
Proof.
  intros Hd.
  destruct (detectionProcess_alert_cases thresholdSet currTime maxIP j vec d)
    as [->|(alert & _ & -> & _)]; [done|].
  now apply (setLastAlert_inv currTime j (set_dosAlertsQueue _ d)),
    set_dosAlertsQueue_inv.
Qed.

Lemma detectionProcess_column_inv (fuel : nat) (thresholdSet learning : bool)
    (currTime : Z) (j : nat) (val : BCSketchTypeDstIPs * BCSketchTypeSrcIPs)
    (d : ddosDetector) :
  engine_inv d →
  match column_step fuel thresholdSet learning currTime j (val, d) with
  | Returned st | Thrown st => engine_inv st.2
  | OutOfFuel => True
  end.
Proof.
  intros Hd.
  pose proof (detectionProcess_column_cases fuel thresholdSet learning currTime j val d)
    as Hc.
  destruct (column_step fuel thresholdSet learning currTime j (val, d)) as [st|st|];
    [|now destruct Hc as [-> _]|done].
  destruct Hc as [[-> _]|(r & _ & _ & [[_ ->]|[_ ->]])]; try done.
  now apply detectionProcess_alert_inv, updateMetrics_inv.
Qed.

Lemma detectionProcess_for_inv (fuel : nat) (thresholdSet learning : bool)
    (currTime : Z) (js : list nat) :
  ∀ (val : BCSketchTypeDstIPs * BCSketchTypeSrcIPs) (d : ddosDetector),
    engine_inv d →
    match column_loop fuel thresholdSet learning currTime js (val, d) with
    | Returned st | Thrown st => engine_inv st.2
    | OutOfFuel => True
    end.
Proof.
  induction js as [|j js IH]; intros val d Hd; cbn [detectionProcess_for]; [done|].
  pose proof (detectionProcess_column_inv fuel thresholdSet learning currTime j val d Hd)
    as Hc.
  destruct (column_step fuel thresholdSet learning currTime j (val, d))
    as [[val' d']|st|]; [|done|done].
  now apply IH.
Qed.

Lemma new_ddosDetector_inv (hashDst hashSrc : nat → Z → Z) (alpha : Float32.t)
    (span : Z) (c : Float32.t) (outerDst innerDst outerSrc innerSrc : nat) :
  engine_inv (new_ddosDetector hashDst hashSrc alpha span c
                outerDst innerDst outerSrc innerSrc).
Proof.
  intros v Hv. apply trackers_elem in Hv. unfold new_ddosDetector in *.
  cbn in Hv |- *.
  assert (v = replicate innerDst
                (AdaptiveCUSUM.new (Double.of_float c) (Double.of_float alpha) span))
    as -> by tauto.
  split; [apply length_replicate|]. split.
  - apply Forall_replicate, cusum_inv_new.
  - apply Forall2_same_length_lookup_2; [done|].
    intros i a b Ha Hb. rewrite Ha in Hb. injection Hb as <-. apply in_step_refl.
Qed.

Lemma processCurrentFlow_engine (record : netflowRecord_t) (d : ddosDetector) :
  let d' := processCurrentFlow protectedPrefixes record d in
  cusumBytes d' = cusumBytes d ∧ cusumPackets d' = cusumPackets d ∧
  cusumEntropy d' = cusumEntropy d ∧
  cusumBytesReceivedToSent d' = cusumBytesReceivedToSent d ∧
  cusumFlowsReceivedToSent d' = cusumFlowsReceivedToSent d ∧
  innerSizeDstIPs d' = innerSizeDstIPs d ∧ outerSizeDstIPs d' = outerSizeDstIPs d ∧
  dosAlertsQueue d' = dosAlertsQueue d ∧
  dosFalsePositivesQueue d' = dosFalsePositivesQueue d.
Proof.
  unfold processCurrentFlow.
  destruct (isProtected protectedPrefixes (dstAddr record));
    [|destruct (isProtected protectedPrefixes (srcAddr record))];
    rewrite ?updateCommunicatedWith_dstIPs; cbn; repeat split.
Qed.

Lemma engine_inv_same (d d' : ddosDetector) :
  cusumBytes d' = cusumBytes d → cusumPackets d' = cusumPackets d →
  cusumEntropy d' = cusumEntropy d →
  cusumBytesReceivedToSent d' = cusumBytesReceivedToSent d →
  cusumFlowsReceivedToSent d' = cusumFlowsReceivedToSent d →
  innerSizeDstIPs d' = innerSizeDstIPs d →
  engine_inv d → engine_inv d'.
Proof.
  intros H1 H2 H3 H4 H5 Hn Hd v Hv. rewrite H1, Hn. apply Hd.
  unfold trackers in *. now rewrite H1, H2, H3, H4, H5 in Hv.
Qed.

(** a step that changes the trackers of column [j] by setters keeps the
    invariant *)
Lemma engine_inv_neutral (d d' : ddosDetector) (j : nat)
    (f1 f2 f3 f4 f5 : AdaptiveCUSUM.t → AdaptiveCUSUM.t) :
  innerSizeDstIPs d' = innerSizeDstIPs d →
  cusumBytes d' = alter f1 j (cusumBytes d) →
  cusumPackets d' = alter f2 j (cusumPackets d) →
  cusumEntropy d' = alter f3 j (cusumEntropy d) →
  cusumBytesReceivedToSent d' = alter f4 j (cusumBytesReceivedToSent d) →
  cusumFlowsReceivedToSent d' = alter f5 j (cusumFlowsReceivedToSent d) →
  neutral_setter f1 → neutral_setter f2 → neutral_setter f3 →
  neutral_setter f4 → neutral_setter f5 →
  engine_inv d → engine_inv d'.
Proof.
  intros Hn H1 H2 H3 H4 H5 N1 N2 N3 N4 N5.
  apply (engine_inv_alter d d' j f1 f2 f3 f4 f5 Hn H1 H2 H3 H4 H5).
  intros f Hf. five_members Hf; apply neutral_step; try assumption;
    intros a; destruct (N1 a) as (_ & _ & _ & _ & E1 & E2); now split.
Qed.

Lemma neutral_setter_id : neutral_setter (λ a, a).
Proof. intros a. now repeat split. Qed.

Lemma neutral_setter_high (x : Double.t) :
  neutral_setter (AdaptiveCUSUM.setThresholdHigh x).
Proof. intros a. now repeat split. Qed.

Lemma neutral_setter_low (x : Double.t) :
  neutral_setter (AdaptiveCUSUM.setThresholdLow x).
Proof. intros a. now repeat split. Qed.

Ltac one_setter d j :=
  eapply (engine_inv_neutral d _ j); cbn;
  try assumption; try reflexivity;
  try (symmetry; apply list_alter_id; intros; reflexivity);
  first [ apply neutral_setter_high | apply neutral_setter_low
        | apply neutral_setter_id ].

(** a line of thresholds.csv only sets thresholds of column [j], also when
    one of its words makes [stof] throw *)
Lemma setCusumTresholds_line_inv (words : nat → option Float32.t) (j : nat)
    (d : ddosDetector) :
  engine_inv d →
  match setCusumTresholds_line words j d with
  | Returned d' | Thrown d' =>
      engine_inv d' ∧ innerSizeDstIPs d' = innerSizeDstIPs d
  | OutOfFuel => True
  end.
Proof.
  intros Hd. unfold setCusumTresholds_line.
  destruct (words 0%nat) as [w0|]; [|done].
  set (d1 := set_cusumBytes _ d).
  assert (H1 : engine_inv d1) by (unfold d1; one_setter d j).
  destruct (words 1%nat) as [w1|]; [|done].
  set (d2 := set_cusumPackets _ d1).
  assert (H2 : engine_inv d2) by (unfold d2; one_setter d1 j).
  destruct (words 2%nat) as [w2|]; [|done].
  set (d3 := set_cusumEntropy _ d2).
  assert (H3 : engine_inv d3) by (unfold d3; one_setter d2 j).
  destruct (words 3%nat) as [w3|]; [|done].
  set (d4 := set_cusumEntropy _ d3).
  assert (H4 : engine_inv d4) by (unfold d4; one_setter d3 j).
  destruct (words 4%nat) as [w4|]; [|done].
  set (d5 := set_cusumBytesReceivedToSent _ d4).
  assert (H5 : engine_inv d5) by (unfold d5; one_setter d4 j).
  destruct (words 5%nat) as [w5|]; [|done].
  split; [|done]. one_setter d5 j.
Qed.

Lemma setCusumTresholds_lines_inv (words : nat → nat → option Float32.t)
    (js : list nat) :
  ∀ d, engine_inv d →
       match setCusumTresholds_lines words js d with
       | Returned d' | Thrown d' =>
           engine_inv d' ∧ innerSizeDstIPs d' = innerSizeDstIPs d
       | OutOfFuel => True
       end.
Proof.
  induction js as [|j js IH]; intros d Hd; cbn [setCusumTresholds_lines]; [done|].
  pose proof (setCusumTresholds_line_inv (words j) j d Hd) as Hline.
  destruct (setCusumTresholds_line (words j) j d) as [d1|d1|]; [|done|done].
  destruct Hline as [Hd1 Hn1]. specialize (IH d1 Hd1).
  destruct (setCusumTresholds_lines words js d1) as [d2|d2|]; [| |done];
    (destruct IH as [Hd2 Hn2]; split; [done|congruence]).
Qed.

(** a turn that does not read the thresholds file is a turn of
    [detectionProcess_window] *)
Lemma detectionProcess_window_turn (words : nat → nat → option Float32.t)
    (fuel : nat) (thresholdSet : bool) (learn_until currTime : Z)
    (val : BCSketchTypeDstIPs * BCSketchTypeSrcIPs) (d : ddosDetector)
    (res : outcome (bool * ddosDetector)) :
  detectionProcess_window protectedPrefixes whitelistedPrefixes n_
    timeBetweenAlertsSecs_ quantile_ learningSecs_ log2f log2
    fuel thresholdSet learn_until currTime val d = Some res →
  detectionProcess_turn protectedPrefixes whitelistedPrefixes n_
    timeBetweenAlertsSecs_ quantile_ learningSecs_ log2f log2
    words fuel thresholdSet learn_until currTime val d = res.
Proof.
  unfold detectionProcess_window, detectionProcess_turn.
  destruct (negb thresholdSet && negb (currTime <? learn_until)).
  - destruct (setCusumTresholds quantile_ learningSecs_ d) as [d1|]; [|discriminate].
    intros Heq. now injection Heq as <-.
  - intros Heq. now injection Heq as <-.
Qed.

(** X16.  The invariant of the engine: each of the five tracker vectors has one
    tracker for each destination column, every tracker satisfies
    [cusum_inv], and the five trackers of a column have processed the same
    number of samples.  It holds after the constructor and is kept by
    [processCurrentFlow], [notifyWorker], [pushFalsePositive], [getAlert]
    and by every turn of the loop of [detectionProcess]: the turn that
    installs the learned thresholds, the turn that reads thresholds.csv,
    whatever the file holds, and a turn that ends by an exception, of
    [stof] or of the column loop. *)
Theorem X16_engine_invariant :
  (∀ hashDst hashSrc alpha span c outerDst innerDst outerSrc innerSrc,
     engine_inv (new_ddosDetector hashDst hashSrc alpha span c
                   outerDst innerDst outerSrc innerSrc)) ∧
  (∀ record d, engine_inv d → engine_inv (processCurrentFlow protectedPrefixes record d)) ∧
  (∀ d, engine_inv d → engine_inv (notifyWorker d).2) ∧
  (∀ alert d, engine_inv d → engine_inv (pushFalsePositive alert d)) ∧
  (∀ d, engine_inv d → engine_inv (getAlert d).2) ∧
  (∀ words fuel thresholdSet learn_until currTime val d,
     engine_inv d →
     match detectionProcess_turn protectedPrefixes whitelistedPrefixes n_
             timeBetweenAlertsSecs_ quantile_ learningSecs_ log2f log2
             words fuel thresholdSet learn_until currTime val d with
     | Returned res | Thrown res => engine_inv res.2
     | OutOfFuel => True
     end).
Proof.
  split; [intros; apply new_ddosDetector_inv|].
  split.
  { intros record d Hd.
    destruct (processCurrentFlow_engine record d)
      as (H1 & H2 & H3 & H4 & H5 & Hn & _).
    now apply (engine_inv_same d). }
  split; [intros d Hd v Hv; exact (Hd v Hv)|].
  split; [intros alert d Hd v Hv; exact (Hd v Hv)|].
  split.
  { intros d Hd. unfold getAlert. destruct (dosAlertsQueue d); [done|].
    intros v Hv. exact (Hd v Hv). }
  intros words fuel thresholdSet learn_until currTime val d Hd.
  unfold detectionProcess_turn.
  set (learning := currTime <? learn_until).
  set (installed :=
         if negb thresholdSet && negb learning
         then match setCusumTresholds quantile_ learningSecs_ d with
              | Some d => Returned (true, d)
              | None =>
                  match setCusumTresholds_file words d with
                  | Returned d => Returned (true, d)
                  | Thrown d => Thrown (thresholdSet, d)
                  | OutOfFuel => OutOfFuel
                  end
              end
         else Returned (thresholdSet, d)).
  assert (Hinst : match installed with
                  | Returned res | Thrown res => engine_inv res.2
                  | OutOfFuel => True
                  end).
  { unfold installed. destruct (negb thresholdSet && negb learning); [|done].
    destruct (setCusumTresholds quantile_ learningSecs_ d) as [d2|] eqn:E.
    - now apply (setCusumTresholds_inv d d2).
    - pose proof (setCusumTresholds_lines_inv words (seq 0 (innerSizeDstIPs d)) d Hd)
        as Hfile.
      unfold setCusumTresholds_file.
      destruct (setCusumTresholds_lines words (seq 0 (innerSizeDstIPs d)) d);
        [apply Hfile|apply Hfile|done]. }
  destruct installed as [[ts d1]|[ts d1]|]; [|exact Hinst|done].
  cbn [snd] in Hinst.
  set (d2 := if ts then checkFalsePositives protectedPrefixes d1 else d1).
  assert (Hd2 : engine_inv d2).
  { unfold d2. destruct ts; [now apply checkFalsePositives_inv|done]. }
  pose proof (detectionProcess_for_inv fuel ts learning currTime
                (seq 0 (innerSizeDstIPs d2)) val d2 Hd2) as Hfor.
  destruct (column_loop fuel ts learning currTime (seq 0 (innerSizeDstIPs d2)) (val, d2));
    done.
Qed.

End EngineFacts.

Section LoopFacts.
Variable protectedPrefixes : Z → option Float32.t.
Variable whitelistedPrefixes : Z → bool.
Variable n_ : Z.
Variable timeBetweenAlertsSecs_ : Z.
Variable quantile_ : Float32.t.
Variable learningSecs_ : Z.
Variable log2f : Float32.t → Float32.t.
Variable log2 : Double.t → Double.t.

#[local] Abbreviation column_step :=
  (detectionProcess_column protectedPrefixes whitelistedPrefixes n_
     timeBetweenAlertsSecs_ log2f log2).
#[local] Abbreviation column_loop :=
  (detectionProcess_for protectedPrefixes whitelistedPrefixes n_
     timeBetweenAlertsSecs_ log2f log2).
#[local] Abbreviation alert_step :=
  (detectionProcess_alert protectedPrefixes whitelistedPrefixes n_
     timeBetweenAlertsSecs_).
#[local] Abbreviation window :=
  (detectionProcess_window protectedPrefixes whitelistedPrefixes n_
     timeBetweenAlertsSecs_ quantile_ learningSecs_ log2f log2).

(** ** A window without flows *)

Lemma column_loop_empty_row (fuel : nat) (thresholdSet learning : bool)
    (currTime : Z) (js : list nat) (val : BCSketchTypeDstIPs * BCSketchTypeSrcIPs)
    (d : ddosDetector) :
  (∀ j, CountMinSketch.count (CountMinSketch.cell val.1 0 j) = 0) →
  column_loop fuel thresholdSet learning currTime js (val, d) = Returned (val, d).
Proof.
  intros Hz. induction js as [|j js IH]; cbn [detectionProcess_for]; [done|].
  unfold detectionProcess_column. now rewrite Hz.
Qed.

(** X17.  A window in which no flow was ingested changes nothing in the engine:
    on the snapshot that [notifyWorker] takes right after another one, the
    column loop of [detectionProcess] skips every column. *)
Theorem X17_window_without_flows_is_skipped (fuel : nat) (thresholdSet learning : bool)
    (currTime : Z) (live engine : ddosDetector) :
  let val := (notifyWorker (notifyWorker live).2).1 in
  detectionProcess_for protectedPrefixes whitelistedPrefixes n_
    timeBetweenAlertsSecs_ log2f log2 fuel thresholdSet learning currTime
    (seq 0 (innerSizeDstIPs engine)) (val, engine)
  = Returned (val, engine).
Proof.
  apply column_loop_empty_row. intros j. cbn.
  now rewrite reset_cell.
Qed.

(** ** No alert before the thresholds are installed *)

Lemma column_step_queues (fuel : nat) (learning : bool) (currTime : Z) (j : nat)
    (val : BCSketchTypeDstIPs * BCSketchTypeSrcIPs) (d : ddosDetector) :
  match column_step fuel false learning currTime j (val, d) with
  | Returned st | Thrown st =>
      dosAlertsQueue st.2 = dosAlertsQueue d ∧
      dosFalsePositivesQueue st.2 = dosFalsePositivesQueue d
  | OutOfFuel => True
  end.
Proof.
  pose proof (detectionProcess_column_cases protectedPrefixes whitelistedPrefixes n_
                timeBetweenAlertsSecs_ log2f log2 fuel false learning currTime j val d)
    as Hc.
  destruct (column_step fuel false learning currTime j (val, d)) as [st|st|];
    [|now destruct Hc as [-> _]|done].
  destruct Hc as [[-> _]|(r & _ & _ & [[_ ->]|[_ ->]])]; [done|done|].
  unfold detectionProcess_alert. cbn [andb].
  destruct (updateMetrics_fields log2f log2 (r_srcIPsCommWithDst r) (r_resultCell r)
              learning j d) as (? & ? & ? & ? & ? & _ & _ & _ & _ & _ & _ & _ & _ & _ & Hq & Hfp).
  now split.
Qed.

Lemma column_loop_queues (fuel : nat) (learning : bool) (currTime : Z)
    (js : list nat) :
  ∀ (val : BCSketchTypeDstIPs * BCSketchTypeSrcIPs) (d : ddosDetector),
    match column_loop fuel false learning currTime js (val, d) with
    | Returned st | Thrown st =>
        dosAlertsQueue st.2 = dosAlertsQueue d ∧
        dosFalsePositivesQueue st.2 = dosFalsePositivesQueue d
    | OutOfFuel => True
    end.
Proof.
  induction js as [|j js IH]; intros val d; cbn [detectionProcess_for]; [done|].
  pose proof (column_step_queues fuel learning currTime j val d) as Hc.
  destruct (column_step fuel false learning currTime j (val, d))
    as [[val' d']|st|]; [|done|done].
  cbn [snd] in Hc. destruct Hc as [Hq Hfp].
  specialize (IH val' d').
  destruct (column_loop fuel false learning currTime js (val', d')); [| |done];
    (destruct IH as [-> ->]; now split).
Qed.

(** X18.  While the engine learns (the window is read before the end of the
    learning phase and no thresholds are set), a window raises no alert and
    takes no false-positive report from the queue, and it does not need the
    thresholds file. *)
Theorem X18_no_alert_while_learning (fuel : nat) (learn_until currTime : Z)
    (val : BCSketchTypeDstIPs * BCSketchTypeSrcIPs) (d : ddosDetector) :
  currTime < learn_until →
  match detectionProcess_window protectedPrefixes whitelistedPrefixes n_
          timeBetweenAlertsSecs_ quantile_ learningSecs_ log2f log2
          fuel false learn_until currTime val d with
  | Some (Returned res) | Some (Thrown res) =>
      res.1 = false ∧
      dosAlertsQueue res.2 = dosAlertsQueue d ∧
      dosFalsePositivesQueue res.2 = dosFalsePositivesQueue d
  | Some OutOfFuel => True
  | None => False
  end.
Proof.
  intros Hlearn. unfold detectionProcess_window.
  destruct (Z.ltb_spec currTime learn_until); [|lia]. cbn [negb andb].
  pose proof (column_loop_queues fuel true currTime (seq 0 (innerSizeDstIPs d)) val d)
    as Hq.
  destruct (column_loop fuel false true currTime (seq 0 (innerSizeDstIPs d)) (val, d));
    cbn [fst snd]; tauto.
Qed.

(** ** The alerts of a window *)

Lemma column_step_alerts (fuel : nat) (thresholdSet learning : bool) (currTime : Z)
    (j : nat) (val : BCSketchTypeDstIPs * BCSketchTypeSrcIPs) (d : ddosDetector) :
  match column_step fuel thresholdSet learning currTime j (val, d) with
  | Returned st | Thrown st =>
      ∃ alerts,
        dosAlertsQueue st.2 = dosAlertsQueue d ++ alerts ∧
        (cusumID <$> alerts) `sublist_of` [Z.of_nat j] ∧
        Forall (λ alert,
                  isProtected protectedPrefixes (dstIP alert) = true ∧
                  Z.land (dstIP alert) mask24 = dstIP alert ∧
                  srcIPs_ alert ≠ ∅) alerts
  | OutOfFuel => True
  end.
Proof.
  pose proof (detectionProcess_column_cases protectedPrefixes whitelistedPrefixes n_
                timeBetweenAlertsSecs_ log2f log2 fuel thresholdSet learning
                currTime j val d) as Hc.
  assert (Hnone : ∃ alerts : list dos_alert_t,
            dosAlertsQueue d = dosAlertsQueue d ++ alerts ∧
            (cusumID <$> alerts) `sublist_of` [Z.of_nat j] ∧
            Forall (λ alert,
                      isProtected protectedPrefixes (dstIP alert) = true ∧
                      Z.land (dstIP alert) mask24 = dstIP alert ∧
                      srcIPs_ alert ≠ ∅) alerts).
  { exists []. rewrite app_nil_r. split; [done|]. split; [apply sublist_nil_l|done]. }
  destruct (column_step fuel thresholdSet learning currTime j (val, d)) as [st|st|];
    [|now destruct Hc as [-> _]|done].
  destruct Hc as [[-> _]|(r & Hr & _ & [[_ ->]|[Hm ->]])]; try done.
  destruct (updateMetrics_fields log2f log2 (r_srcIPsCommWithDst r) (r_resultCell r)
              learning j d) as (? & ? & ? & ? & ? & _ & _ & _ & _ & _ & _ & _ & _ & _ & Hq & _).
  set (d1 := updateMetrics log2f log2 (r_srcIPsCommWithDst r) (r_resultCell r)
               learning j d) in *.
  destruct (detectionProcess_alert_cases protectedPrefixes whitelistedPrefixes n_
              timeBetweenAlertsSecs_ thresholdSet currTime (r_maxIP r) j
              (r_srcIPsCommWithDst r) d1) as [->|(alert & _ & -> & Hip & Hid & Hsrc)].
  - exists []. rewrite app_nil_r. split; [exact Hq|].
    split; [apply sublist_nil_l|done].
  - exists [alert]. cbn. split; [now f_equal|]. rewrite Hid. split; [done|].
    apply Forall_singleton. rewrite Hip.
    apply reverseAllKeys_maxIP in Hr as [?|[Hmask Hprot]]; [contradiction|].
    now rewrite <- Hmask.
Qed.

Lemma column_loop_alerts (fuel : nat) (thresholdSet learning : bool) (currTime : Z)
    (js : list nat) :
  ∀ (val : BCSketchTypeDstIPs * BCSketchTypeSrcIPs) (d : ddosDetector),
    match column_loop fuel thresholdSet learning currTime js (val, d) with
    | Returned st | Thrown st =>
        ∃ alerts,
          dosAlertsQueue st.2 = dosAlertsQueue d ++ alerts ∧
          (cusumID <$> alerts) `sublist_of` (Z.of_nat <$> js) ∧
          Forall (λ alert,
                    isProtected protectedPrefixes (dstIP alert) = true ∧
                    Z.land (dstIP alert) mask24 = dstIP alert ∧
                    srcIPs_ alert ≠ ∅) alerts
    | OutOfFuel => True
    end.
Proof.
  induction js as [|j js IH]; intros val d; cbn [detectionProcess_for].
  - exists []. rewrite app_nil_r. split; [done|]. split; [apply sublist_nil_l|done].
  - pose proof (column_step_alerts fuel thresholdSet learning currTime j val d) as Hc.
    destruct (column_step fuel thresholdSet learning currTime j (val, d))
      as [[val' d']|st|]; [| |done].
    + cbn [snd] in Hc. destruct Hc as (a1 & Hq1 & Hs1 & Hf1).
      specialize (IH val' d').
      destruct (column_loop fuel thresholdSet learning currTime js (val', d'));
        [| |done];
        destruct IH as (a2 & Hq2 & Hs2 & Hf2); exists (a1 ++ a2);
        (split; [now rewrite Hq2, Hq1, app_assoc|]);
        (split; [|now apply Forall_app]);
        rewrite fmap_app, fmap_cons;
        change (Z.of_nat j :: (Z.of_nat <$> js)) with ([Z.of_nat j] ++ (Z.of_nat <$> js));
        now apply sublist_app.
    + destruct Hc as (a1 & Hq1 & Hs1 & Hf1). exists a1.
      split; [done|]. split; [|done].
      rewrite fmap_cons.
      change (Z.of_nat j :: (Z.of_nat <$> js)) with ([Z.of_nat j] ++ (Z.of_nat <$> js)).
      rewrite <- (app_nil_r (cusumID <$> a1)).
      apply sublist_app; [done|apply sublist_nil_l].
Qed.

(** X19.  The alerts that the column loop of a window appends to the queue come
    in the order of the columns, at most one for a column, each for a
    protected prefix with a zero top byte and with a set of sources that is
    not empty; no alert is removed from the queue. *)
Theorem X19_alerts_of_a_window (fuel : nat) (thresholdSet learning : bool)
    (currTime : Z) (val : BCSketchTypeDstIPs * BCSketchTypeSrcIPs)
    (d : ddosDetector) :
  match detectionProcess_for protectedPrefixes whitelistedPrefixes n_
          timeBetweenAlertsSecs_ log2f log2 fuel thresholdSet learning currTime
          (seq 0 (innerSizeDstIPs d)) (val, d) with
  | Returned st | Thrown st =>
      ∃ alerts,
        dosAlertsQueue st.2 = dosAlertsQueue d ++ alerts ∧
        (cusumID <$> alerts) `sublist_of` (Z.of_nat <$> seq 0 (innerSizeDstIPs d)) ∧
        Forall (λ alert,
                  isProtected protectedPrefixes (dstIP alert) = true ∧
                  Z.land (dstIP alert) mask24 = dstIP alert ∧
                  srcIPs_ alert ≠ ∅) alerts
  | OutOfFuel => True
  end.
Proof. apply column_loop_alerts. Qed.

(** ** The loop returns *)

Lemma column_step_returns (fuel : nat) (thresholdSet learning : bool) (currTime : Z)
    (j : nat) (val : BCSketchTypeDstIPs * BCSketchTypeSrcIPs) (d : ddosDetector) :
  counts_u32 val.1 → 2 ^ 32 < Z.of_nat fuel →
  ∃ st, column_step fuel thresholdSet learning currTime j (val, d) = Returned st ∧
        counts_u32 st.1.1.
Proof.
  intros Hu Hfuel. unfold detectionProcess_column.
  destruct (_ =? 0); [now exists (val, d)|].
  pose proof (counts_u32_cell val.1 0 j Hu) as Hc. unfold is_u32 in Hc.
  destruct (reverseAllKeys_total protectedPrefixes val.1 val.2 j [] fuel Hu)
    as (r & -> & Hu' & _); [lia|].
  destruct (r_maxIP r =? 0); eexists; (split; [reflexivity|]); exact Hu'.
Qed.

Lemma column_loop_returns (fuel : nat) (thresholdSet learning : bool) (currTime : Z)
    (js : list nat) :
  2 ^ 32 < Z.of_nat fuel →
  ∀ (val : BCSketchTypeDstIPs * BCSketchTypeSrcIPs) (d : ddosDetector),
    counts_u32 val.1 →
    ∃ st, column_loop fuel thresholdSet learning currTime js (val, d) = Returned st.
Proof.
  intros Hfuel. induction js as [|j js IH]; intros val d Hu;
    cbn [detectionProcess_for]; [now exists (val, d)|].
  destruct (column_step_returns fuel thresholdSet learning currTime j val d Hu Hfuel)
    as ([val' d'] & -> & Hu').
  now apply IH.
Qed.

(** X20.  A window is processed to its end: when the counters of the snapshot
    are within 32 bits and the learning time is not 0, [detectionProcess]
    handles every column without throwing, given fuel for more than 2^32
    iterations of the loops of [reverseAllKeys]. *)
Theorem X20_window_is_processed (fuel : nat) (thresholdSet : bool)
    (learn_until currTime : Z) (val : BCSketchTypeDstIPs * BCSketchTypeSrcIPs)
    (d : ddosDetector) :
  counts_u32 val.1 → learningSecs_ ≠ 0 → 2 ^ 32 < Z.of_nat fuel →
  ∃ res,
    detectionProcess_window protectedPrefixes whitelistedPrefixes n_
      timeBetweenAlertsSecs_ quantile_ learningSecs_ log2f log2
      fuel thresholdSet learn_until currTime val d
    = Some (Returned res).
Proof.
  intros Hu Hlearn Hfuel. unfold detectionProcess_window.
  assert (Hinst : ∃ ts d1,
            (if negb thresholdSet && negb (currTime <? learn_until)
             then match setCusumTresholds quantile_ learningSecs_ d with
                  | Some d => Some (true, d)
                  | None => None
                  end
             else Some (thresholdSet, d)) = Some (ts, d1)).
  { destruct (negb thresholdSet && negb (currTime <? learn_until)); [|eauto].
    unfold setCusumTresholds. destruct (Z.eqb_spec learningSecs_ 0); [done|]. eauto. }
  destruct Hinst as (ts & d1 & ->).
  set (d2 := if ts then checkFalsePositives protectedPrefixes d1 else d1).
  destruct (column_loop_returns fuel ts (currTime <? learn_until) currTime
              (seq 0 (innerSizeDstIPs d2)) Hfuel val d2 Hu) as [st ->].
  eauto.
Qed.

(** ** The entropy of a column with one source and one top byte *)

Lemma length_insert_by_key (x : Z * Z) (l : list (Z * Z)) :
  length (insert_by_key x l) = S (length l).
Proof.
  induction l as [|y l IH]; simpl; [done|]. destruct (_ <? _); simpl; congruence.
Qed.

Lemma length_map_entries_by_key (m : gmap Z Z) :
  length (map_entries_by_key m) = size m.
Proof.
  unfold map_entries_by_key. rewrite <- length_map_to_list.
  induction (map_to_list m) as [|x l IH]; simpl; [done|].
  now rewrite length_insert_by_key, IH.
Qed.

(** X21.  With fewer than two sources and fewer than two top bytes in the
    result cell, [calculateNormalizedEntropy] is 0 without calling [log2],
    and the entropy metric of [computeMetrics] is exactly 1. *)
Theorem X21_entropy_of_a_single_source (srcIPsCommWithDst : list (Z * Z))
    (resultCell : ddosDetectorValue.t) :
  (length srcIPsCommWithDst < 2)%nat →
  (size (ddosDetectorValue.getipSubnets resultCell) < 2)%nat →
  calculateNormalizedEntropy log2f log2 srcIPsCommWithDst.*2 = Float32.zero ∧
  (computeMetrics log2f log2 srcIPsCommWithDst resultCell).1.1 = Double.one.
Proof.
  intros Hsrc Hsub.
  assert (H1 : calculateNormalizedEntropy log2f log2 srcIPsCommWithDst.*2
               = Float32.zero).
  { unfold calculateNormalizedEntropy. rewrite length_fmap.
    destruct (Z.ltb_spec (Z.of_nat (length srcIPsCommWithDst)) 2); [reflexivity|lia]. }
  split; [exact H1|].
  unfold computeMetrics. cbn [fst]. rewrite H1.
  unfold calculateNormalizedEntropy.
  rewrite length_fmap, length_map_entries_by_key.
  destruct (Z.ltb_spec (Z.of_nat (size (ddosDetectorValue.getipSubnets resultCell))) 2);
    [|lia].
  vm_compute. reflexivity.
Qed.

End LoopFacts.

Lemma X18_no_alert_while_learning_witness :
  match detectionProcess_window protected_example whitelist_none 3 60 quantile_075
          300 log2f_example log2_example 10 false 1000 500
          (dstIPs detector_one_flow, srcIPs detector_one_flow) detector_learned with
  | Some (Returned res) | Some (Thrown res) =>
      res.1 = false ∧
      dosAlertsQueue res.2 = dosAlertsQueue detector_learned ∧
      dosFalsePositivesQueue res.2 = dosFalsePositivesQueue detector_learned
  | Some OutOfFuel => True
  | None => False
  end.
Proof.
  apply (X18_no_alert_while_learning protected_example whitelist_none 3 60 quantile_075
           300 log2f_example log2_example 10 1000 500
           (dstIPs detector_one_flow, srcIPs detector_one_flow) detector_learned).
  lia.
Defined.

Lemma X20_window_is_processed_witness :
  ∃ res,
    detectionProcess_window protected_example whitelist_none 3 60 quantile_075 300
      log2f_example log2_example (Z.to_nat (2 ^ 32 + 1)) false 1000 500
      (dstIPs detector_one_flow, srcIPs detector_one_flow) detector_learned
    = Some (Returned res).
Proof.
  apply (X20_window_is_processed protected_example whitelist_none 3 60 quantile_075 300
           log2f_example log2_example (Z.to_nat (2 ^ 32 + 1)) false 1000 500
           (dstIPs detector_one_flow, srcIPs detector_one_flow) detector_learned).
  - exact detector_one_flow_counts_u32.
  - discriminate.
  - rewrite Z2Nat.id; lia.
Defined.

Lemma X21_entropy_of_a_single_source_witness :
  calculateNormalizedEntropy log2f_example log2_example [(67305985, 3)].*2
  = Float32.zero ∧
  (computeMetrics log2f_example log2_example [(67305985, 3)]
     ddosDetectorValue.init).1.1 = Double.one.
Proof.
  apply (X21_entropy_of_a_single_source log2f_example log2_example [(67305985, 3)]
           ddosDetectorValue.init).
  - simpl. lia.
  - vm_compute. lia.
Defined.

(* ===================================================================== *)
(** * Prefixes as strings and as masks  (main.cpp, isProtected) *)
(* ===================================================================== *)

Lemma ones8_testbit (x k : Z) :
  0 ≤ k → Z.testbit (Z.land x 255) k = Z.testbit x k && (k <? 8).
Proof.
  intros Hk. rewrite Z.land_spec. f_equal.
  change 255 with (Z.ones 8). now apply Z.testbit_ones_nonneg.
Qed.

(** the bits of [ntohl]: the four bytes in the opposite order *)
Lemma ntohl_testbit (x k : Z) :
  0 ≤ k →
  Z.testbit (ntohl x) k =
  if k <? 8 then Z.testbit x (k + 24)
  else if k <? 16 then Z.testbit x (k + 8)
  else if k <? 24 then Z.testbit x (k - 8)
  else if k <? 32 then Z.testbit x (k - 24)
  else false.
Proof.
  intros Hk. unfold ntohl.
  rewrite !Z.lor_spec, !Z.shiftl_spec by lia.
  rewrite (ones8_testbit (Z.shiftr x 24)) by lia.
  rewrite Z.shiftr_spec by lia.
  destruct (Z.ltb_spec k 8).
  - rewrite !(Z.testbit_neg_r _ (k - _)) by lia. cbn [orb].
    now rewrite andb_true_r.
  - rewrite andb_false_r, orb_false_r.
    destruct (Z.ltb_spec k 16).
    + rewrite (Z.testbit_neg_r _ (k - 24)), (Z.testbit_neg_r _ (k - 16)) by lia.
      cbn [orb]. rewrite ones8_testbit, Z.shiftr_spec by lia.
      replace (k - 8 + 16) with (k + 8) by lia.
      destruct (Z.ltb_spec (k - 8) 8); [|lia]. now rewrite andb_true_r.
    + destruct (Z.ltb_spec k 24).
      * rewrite (Z.testbit_neg_r _ (k - 24)) by lia. cbn [orb].
        rewrite !ones8_testbit, !Z.shiftr_spec by lia.
        destruct (Z.ltb_spec (k - 16) 8); [|lia].
        destruct (Z.ltb_spec (k - 8) 8); [lia|].
        rewrite andb_true_r, andb_false_r, orb_false_r.
        f_equal. lia.
      * rewrite !ones8_testbit, !Z.shiftr_spec by lia.
        destruct (Z.ltb_spec (k - 16) 8); [lia|].
        destruct (Z.ltb_spec (k - 8) 8); [lia|].
        rewrite !andb_false_r, !orb_false_r.
        destruct (Z.ltb_spec (k - 24) 8), (Z.ltb_spec k 32); try lia;
          rewrite ?andb_true_r, ?andb_false_r; reflexivity.
Qed.

Lemma ntohl_range (x : Z) : 0 ≤ ntohl x < 2 ^ 32.
Proof.
  assert (E : ntohl x = ntohl x mod 2 ^ 32).
  { apply Z.bits_inj'. intros k Hk.
    destruct (Z.ltb_spec k 32) as [Hlt|Hge].
    - now rewrite Z.mod_pow2_bits_low by lia.
    - rewrite Z.mod_pow2_bits_high by lia.
      rewrite ntohl_testbit by lia.
      destruct (Z.ltb_spec k 8); [lia|]. destruct (Z.ltb_spec k 16); [lia|].
      destruct (Z.ltb_spec k 24); [lia|]. destruct (Z.ltb_spec k 32); [lia|].
      reflexivity. }
  rewrite E. apply Z.mod_pos_bound. lia.
Qed.

Lemma bitset32_length (x : Z) : length (main.bitset32_to_string x) = 32%nat.
Proof. reflexivity. Qed.

Lemma bitset32_lookup (x : Z) (i : nat) :
  (i < 32)%nat →
  main.bitset32_to_string x !! i
  = Some (if Z.testbit x (31 - Z.of_nat i) then "1"%char else "0"%char).
Proof.
  intros Hi. unfold main.bitset32_to_string.
  rewrite list_lookup_fmap, lookup_seq_lt by done. reflexivity.
Qed.

Lemma bitset32_take_eq (x y : Z) (m : nat) :
  (m ≤ 32)%nat →
  take m (main.bitset32_to_string x) = take m (main.bitset32_to_string y) ↔
  ∀ k, 32 - Z.of_nat m ≤ k < 32 → Z.testbit x k = Z.testbit y k.
Proof.
  intros Hm. split.
  - intros Heq k Hk.
    assert (Hl : take m (main.bitset32_to_string x) !! Z.to_nat (31 - k)
                 = take m (main.bitset32_to_string y) !! Z.to_nat (31 - k))
      by now rewrite Heq.
    rewrite !lookup_take_lt, !bitset32_lookup in Hl by lia.
    replace (31 - Z.of_nat (Z.to_nat (31 - k))) with k in Hl by lia.
    destruct (Z.testbit x k), (Z.testbit y k); try reflexivity; discriminate.
  - intros Hbits. apply list_eq. intros i. rewrite !lookup_take.
    case_decide; [|reflexivity].
    rewrite !bitset32_lookup by lia. now rewrite Hbits by lia.
Qed.

Lemma prefix_take_iff {A : Type} (bits s : list A) :
  bits `prefix_of` s ↔ bits = take (length bits) s.
Proof.
  split.
  - intros [k ->]. now rewrite take_app_length.
  - intros ->. apply prefix_take.
Qed.

(** the bits of [cidrToMask] *)
Lemma cidrToMask_testbit (cidr k : Z) :
  0 ≤ cidr ≤ 32 → 0 ≤ k →
  Z.testbit (main.cidrToMask cidr) k = (32 - cidr <=? k) && (k <? 32).
Proof.
  intros Hc Hk. unfold main.cidrToMask.
  destruct (Z.eqb_spec cidr 0) as [->|Hne].
  - rewrite Z.bits_0. destruct (Z.leb_spec (32 - 0) k), (Z.ltb_spec k 32);
      try reflexivity; lia.
  - unfold wrap32. change (2 ^ 32) with (2 ^ 32)%Z.
    destruct (Z.ltb_spec k 32).
    + rewrite Z.mod_pow2_bits_low by lia.
      rewrite Z.shiftl_spec by lia.
      change 4294967295 with (Z.ones 32).
      destruct (Z.leb_spec (32 - cidr) k).
      * rewrite Z.testbit_ones_nonneg by lia.
        destruct (Z.ltb_spec (k - (32 - cidr)) 32); [reflexivity|lia].
      * now rewrite Z.testbit_neg_r by lia.
    + rewrite Z.mod_pow2_bits_high by lia. now rewrite andb_false_r.
Qed.

Lemma land_cidrToMask_eq (a x cidr : Z) :
  0 ≤ cidr ≤ 32 → 0 ≤ a < 2 ^ 32 → 0 ≤ x < 2 ^ 32 →
  Z.land x (main.cidrToMask cidr) = Z.land a (main.cidrToMask cidr) ↔
  ∀ k, 32 - cidr ≤ k < 32 → Z.testbit a k = Z.testbit x k.
Proof.
  intros Hc Ha Hx. split.
  - intros Heq k Hk.
    assert (Hb : Z.testbit (Z.land x (main.cidrToMask cidr)) k
                 = Z.testbit (Z.land a (main.cidrToMask cidr)) k) by now rewrite Heq.
    rewrite !Z.land_spec, cidrToMask_testbit in Hb by lia.
    destruct (Z.leb_spec (32 - cidr) k), (Z.ltb_spec k 32); try lia.
    now rewrite !andb_true_r in Hb.
  - intros Hbits. apply Z.bits_inj'. intros k Hk.
    rewrite !Z.land_spec, cidrToMask_testbit by lia.
    destruct (Z.leb_spec (32 - cidr) k), (Z.ltb_spec k 32);
      rewrite ?andb_false_r, ?andb_true_r; try reflexivity.
    symmetry. apply Hbits. lia.
Qed.

(** X22.  The mask of a CIDR length between 0 and 32 is a 32-bit number whose
    bit [k] is set exactly for [k >= 32 - cidr]: the top [cidr] bits. *)
Theorem X22_cidrToMask_bits (cidr : Z) :
  0 ≤ cidr ≤ 32 →
  0 ≤ main.cidrToMask cidr < 2 ^ 32 ∧
  ∀ k, 0 ≤ k < 32 → Z.testbit (main.cidrToMask cidr) k = (32 - cidr <=? k).
Proof.
  intros Hc. split.
  - unfold main.cidrToMask. destruct (cidr =? 0); [lia|].
    unfold wrap32. apply Z.mod_pos_bound. lia.
  - intros k Hk. rewrite cidrToMask_testbit by lia.
    destruct (Z.ltb_spec k 32); [|lia]. now rewrite andb_true_r.
Qed.

Lemma X22_cidrToMask_bits_witness :
  0 ≤ main.cidrToMask 24 < 2 ^ 32 ∧
  ∀ k, 0 ≤ k < 32 → Z.testbit (main.cidrToMask 24) k = (32 - 24 <=? k).
Proof.
  apply (X22_cidrToMask_bits 24). lia.
Defined.

Section AddressFacts.
Variable inet_pton : list ascii → option Z.

(** X23.  For a valid address text and a length between 0 and 32, [ipToBinary]
    returns a string of that length, and it is a prefix of the search key
    of an address exactly when the two addresses, in host byte order, agree
    under the mask of that length. *)
Theorem X23_prefix_match_is_mask_match (ip : list ascii) (mask addr x : Z) :
  inet_pton ip = Some addr → 0 ≤ mask ≤ 32 →
  ∃ bits,
    main.ipToBinary inet_pton ip mask = Some bits ∧
    length bits = Z.to_nat mask ∧
    (bits `prefix_of` searchKey x ↔
     Z.land (ntohl x) (main.cidrToMask mask)
     = Z.land (ntohl addr) (main.cidrToMask mask)).
Proof.
  intros Hip Hmask. unfold main.ipToBinary. rewrite Hip.
  assert (Hw : wrap64 mask = mask) by (apply wrap64_small; lia).
  rewrite Hw. eexists. split; [reflexivity|].
  assert (Hlen : length (take (Z.to_nat mask) (main.bitset32_to_string (ntohl addr)))
                 = Z.to_nat mask).
  { rewrite length_take, bitset32_length. lia. }
  split; [exact Hlen|].
  rewrite prefix_take_iff, Hlen. unfold searchKey.
  rewrite (land_cidrToMask_eq (ntohl addr) (ntohl x) mask Hmask
             (ntohl_range addr) (ntohl_range x)).
  rewrite bitset32_take_eq by lia. rewrite Z2Nat.id by lia. reflexivity.
Qed.

(** without a valid address text [ipToBinary] throws. *)
Lemma ipToBinary_invalid (ip : list ascii) (mask : Z) :
  main.isValidIPAddress inet_pton ip = false →
  main.ipToBinary inet_pton ip mask = None.
Proof.
  unfold main.isValidIPAddress, main.ipToBinary.
  now destruct (inet_pton ip).
Qed.

End AddressFacts.

Lemma X23_prefix_match_is_mask_match_witness :
  ∃ bits,
    main.ipToBinary inet_pton_example ["1"; "0"; "."; "0"; "."; "1"; "."; "0"]%char 24
    = Some bits ∧
    length bits = Z.to_nat 24 ∧
    (bits `prefix_of` searchKey 83951626 ↔
     Z.land (ntohl 83951626) (main.cidrToMask 24)
     = Z.land (ntohl 65546) (main.cidrToMask 24)).
Proof.
  apply (X23_prefix_match_is_mask_match inet_pton_example
           ["1"; "0"; "."; "0"; "."; "1"; "."; "0"]%char 24 65546 83951626).
  - reflexivity.
  - lia.
Defined.

Lemma searchKey_take24 (x : Z) :
  take 24 (searchKey (Z.land x mask24)) = take 24 (searchKey x).
Proof.
  unfold searchKey. apply bitset32_take_eq; [lia|].
  intros k Hk. rewrite !ntohl_testbit by lia.
  destruct (Z.ltb_spec k 8); [lia|].
  destruct (Z.ltb_spec k 16); [now rewrite land_mask24_low by lia|].
  destruct (Z.ltb_spec k 24); [now rewrite land_mask24_low by lia|].
  destruct (Z.ltb_spec k 32); [now rewrite land_mask24_low by lia|lia].
Qed.

(** X24.  The /24 key that the engine recovers ([x & 0x00FFFFFF] in network
    byte order) is searched like the address [x] itself by every prefix of
    at most 24 bits; its last 8 characters are zeros, so a longer prefix can
    match the address and not the key (10.0.1.5/32 is such a prefix). *)
Theorem X24_prefix_search_of_the_24_key :
  (∀ (x : Z) (bits : list ascii),
     (length bits ≤ 24)%nat →
     bits `prefix_of` searchKey (Z.land x mask24) ↔ bits `prefix_of` searchKey x) ∧
  (∀ x, drop 24 (searchKey (Z.land x mask24)) = replicate 8 "0"%char) ∧
  (∃ (x : Z) (bits : list ascii),
     length bits = 32%nat ∧ bits `prefix_of` searchKey x ∧
     ¬ bits `prefix_of` searchKey (Z.land x mask24)).
Proof.
  split; [|split].
  - intros x bits Hlen. rewrite !prefix_take_iff.
    assert (Ht : ∀ y, take (length bits) (searchKey y)
                      = take (length bits) (take 24 (searchKey y))).
    { intros y. rewrite take_take. f_equal. lia. }
    now rewrite (Ht x), (Ht (Z.land x mask24)), searchKey_take24.
  - intros x. apply list_eq. intros i. rewrite lookup_drop.
    destruct (decide (i < 8)%nat) as [Hi|Hi].
    + unfold searchKey. rewrite bitset32_lookup by lia.
      rewrite lookup_replicate_2 by done.
      rewrite ntohl_testbit by lia.
      destruct (Z.ltb_spec (31 - Z.of_nat (24 + i)) 8); [|lia].
      now rewrite land_mask24_high by lia.
    + rewrite lookup_ge_None_2 by (unfold searchKey; rewrite bitset32_length; lia).
      symmetry. apply lookup_ge_None_2. rewrite length_replicate. lia.
  - exists 83951626, (searchKey 83951626).
    split; [reflexivity|]. split; [done|].
    intros Hp. apply prefix_take_iff in Hp. vm_compute in Hp. discriminate.
Qed.
